(* ===== verification/_CoqProject ===== *)
-Q . S2P
Prelude.v
MidiExport.v
CxxString.v
StdMap.v
Common.v
LinkedList.v
Serialize.v
Message.v
Sequence.v
MidiBuilder.v
PadTime.v
ControllerEnvelope.v
RemoteContext.v
SequenceObject.v
Arpeggiator.v
Scales.v
PadMotion.v
MotionList.v
PadSession.v
Pad.v
PadSafe.v
PadExport.v
DoubleList.v
MachineClock.v
SignalLinks.v
MachineGraph.v
GraphPaths.v
GraphLinks.v
GraphDetach.v
GraphTold.v
OperationQueue.v
AsyncOps.v
GlobalControl.v
SampleBank.v
HandleList.v
ServiceObjects.v
SequencerLoop.v
LoopNotes.v
LoopPlay.v
LoopStore.v
LoopOrder.v
SequenceExport.v
SequenceTrack.v
SequencerPlay.v
SequencerSafe.v
LoopXml.v
LoopXmlTrip.v
RemoteMachine.v
Controller.v
RemoteController.v
HandleDecl.v
HandleTables.v
DynamicMachine.v
Studio.v
