(* ===== verification/Prelude.v ===== *)
(** * Verification of libvuknob

    libvuknob is the engine of the vuKNOB music application: machines that render audio and
    MIDI in a graph, sequencers and pads that feed them events, and a client/server protocol
    by which a user interface, in the same process or over a network, controls them. This
    library models the C++ code under src/src_jni/ that carries this logic and proves what
    makes it correct. Code is translated as it is written, its mistakes included: where the
    code does not do what it means to, the theorem states what it does.

    ** How the program is modelled

    - Integers are [Z], wrapped to their width ([i32], [u32], [u8]) where a result can leave it.
    - Fallible code returns [result]: [Err] is a C++ exception of the class the code throws, or
      [UndefinedBehaviour] for an access the language leaves undefined (out of bounds, through
      a null or dangling pointer), which no handler of the model catches. [let!] is the bind.
    - [std::map] is the sorted association list of StdMap, [std::string] is [string], a vector
      or array is a list; pointers that are shared are addresses on an explicit heap.
    - Loops over pointers run on fuel. The theorems give the fuel that is enough (the number
      of elements on the heap for a linked list, the length of the text for a parser), or say
      that the definition computes it itself; none assumes that a run ends.
    - Members that a constructor leaves uninitialised are parameters of the model.
    - What is not in the repository is a parameter or data: the sockets deliver bytes, the XML
      parser delivers elements with optional attributes, the lock-free queues are lists.

    ** The parts

    Shared: Prelude (errors, machine integers, automation, sorted lists, arrays), CxxString
    (std::to_string, stoi, stoul and C strings), StdMap (std::map with its iterators).

    Files and allocation: MidiExport (midi_export.cc: chunks, delta times and the file; the
    bytes written parse back to what was pushed, delta times of 15 bits or more excepted),
    Common (common.hh: identifier and object allocators), LinkedList (linked_list.hh: the
    intrusive list on a heap refines list functions).

    The protocol: Serialize (serialize.hh, serialize.cc: every container reads back what it
    wrote, readers end on any input), Message (remote_interface.cc: messages, framing, the
    write queue), Sequence (engine_code/sequence.cc: the replicated pattern object, its
    handlers on both sides), RemoteContext (engine_code/server.cc, client.cc: object
    registries, broadcasts, replies; an object kind is an instance of [RemoteObject], and
    [ReplicatedObject] gives the laws under which every client's copies mirror the server's),
    SequenceObject (the instance for sequences), Scales (scales.cc: the scale library and its
    queries), GlobalControl, SampleBank, HandleList (remote_interface.cc: the instances for
    playback control over the transport of MachineClock, sample names and machine types) and
    ServiceObjects (the sum of two instances, and with it the server that has all of them).

    Playing: MidiBuilder (midi_generation.cc: event chains in shared memory lose and reorder
    nothing), PadTime and ControllerEnvelope (engine_code/controller_envelope.cc: editing and
    interpolation), Arpeggiator, PadMotion, MotionList, PadSession, Pad, PadExport
    (engine_code/pad.cc, pad.hh, midi_generation.hh: what fingers do on a pad, recorded and
    played back, directly or through the arpeggiator), PadSafe (every sequence of pad
    operations is memory safe).

    The machine network (machine.cc, signal.cc): MachineClock (position, loop, tempo, shuffle,
    the tick counter and internal_fill_sink), SignalLinks (the signals attached to an input as
    a doubly linked list through maps keyed by the listener), MachineGraph (attaching,
    detaching, loop check, render chain, registration and destruction), GraphPaths (the loop
    check decides reachability, the render chain is what the sink reaches), GraphLinks (the
    invariant [graph_ok], which a view of the graph as lists of signals satisfies, and what
    attaching and detaching do to the view), GraphDetach (taking a machine out), GraphTold (what
    the graph tells those that listen, and that a copy kept from it is the graph),
    OperationQueue (operations of other threads run at once or by the audio thread, for any
    state they act on), AsyncOps (async_operations.cc: the thread that runs what must not wait, the
    notifications of GraphTold among it, in the order they are handed over). The recursion of the
    loop check and of the render chain has the number of machines as fuel; the walks through
    signals have the number of signals.

    Machine sequencers (machine_sequencer.cc): DoubleList (doubly linked lists), SequencerLoop
    (class Loop: editing and playing the notes of a loop), LoopNotes (editing refines lists),
    LoopPlay (what a loop plays), LoopStore (the loops of a sequencer and the sequence of their
    ids), LoopOrder (the store as a list of loops, and every sequence of requests to it),
    SequenceExport and SequenceTrack (export to a MIDI file and the events in it), SequencerPlay
    and SequencerSafe (fill_buffers with pad, loops and envelopes, against the transport of
    MachineClock and the builder of MidiBuilder), LoopXml and LoopXmlTrip (loops and sequence in
    XML elements). The walks through notes have the number of notes as fuel, [fill_buffers] one
    tick per sample, and the export the lines of the sequence and the span of its longest note.

    Machines and their controllers: RemoteMachine and Studio (the RIMachine objects of
    remote_interface.cc and the server's callbacks in engine_code/server.cc, as an instance of
    [ReplicatedObject] fed by the notifications of GraphTold: what a client shows are the links of
    the graph), Controller (class Machine::Controller of machine.cc on a memory of bytes),
    RemoteController (RIMachine::RIController: the client's copy, its text, and the server's file
    of controllers by connection), HandleDecl and HandleTables (dynamic_machine.cc: the
    declarations of plugins, the tables of handles, the opening of libraries) and DynamicMachine
    (the controllers of an instance; saving and loading their values). The types float and double
    with their arithmetic, text and bytes are the classes [CDouble] and [CFloat], whose laws are
    that printing is stable and that a number lies in memory as it was stored. The loop over the
    values of an enumeration has their number as fuel, [prep_dynlib] the number of handles.

    ** What the theorems show

    - Replication: a client that follows the server's messages holds the server's objects, for
      the generic registry and for the sequence object request by request; the requests and
      broadcasts that go wrong are singled out. The laws cover broadcasts and replies, and
      hold for the sum of the instances: every client sees the whole service.
    - Round trips: messages, serialised containers, scale queries, MIDI files.
    - Memory: linked lists and event chains refine lists; the pad uses no motion or session
      after it was deleted, whatever the order of its operations; identifiers are unique.
    - Playing: recorded motions come to their end and leave nothing sounding; the arpeggiator
      never has two notes on and keeps its pattern's timing; envelopes play what their points
      say; exported notes are the spans of the events; ticks do not depend on how the
      samples are cut into buffers, and the looping transport is a counter.
    - The machine graph, while no output is attached twice to one machine: no operation makes
      a loop, counts and pointers are those of the lists, and the render chain holds what the
      sink depends on. The operation queue changes when operations run but not what they do, and
      what is handed to the thread of asynchronous operations is run once and in order.
    - Machines over the network: after any sequence of operations on the graph, requests and
      connections, every client shows the connections of the graph. A controller in a client's
      hand shows the machine's and sets its bytes and no others; it shows what the declaration of
      the plugin says, every value of an enumeration with its name. Saved values come back. A
      machine that a file declares can be had, with the functions of its library.
    - Machine sequencers: loops are lists of notes in the order of their start, and play each
      note once for its length; a line never names a loop that does not exist; a buffer is
      filled in step with the transport and safely, whatever pad and loops play; exported files
      parse, and the theorems say which note-offs they lack; saved loops load as they were.
    - Errors and bounds: exact conditions under which the code throws, loses a request or
      leaves its arrays.

    ** Not modelled

    - Text of XML and its parser, files, sockets, threads and locks: operations are the steps
      between which the real threads interleave, one at a time, as the locks make them.
    - Floating point beyond the parameters above, and audio rendering: the buffers of signals and
      their mixing (Machine::premix, execute), signal.cc's samples, dynlib/, the vorbis and wave
      loaders, the fixed point tables.
    - Calls into plugins through their C interface and the functions they are given (the second
      half of dynamic_machine.cc); a plugin is a function from the name of a controller to its
      address.
    - The static tables of RIMachine on the client (machines by name, listeners of the user
      interface), and of the service objects the registration of listeners. Of the sequencers: the
      controllers of the sibling, the forwarding to the pad, the change callbacks.
    - The project files, whose elements are modelled where loops and controllers write and read
      them. They find machines with Machine::internal_get_by_name, as sequencers find their
      sibling, which returns what a static iterator points to that nothing sets.
    - The user interface (ui_code/), the Java part and the vendored libraries: drawing and touch
      handling on a third-party canvas, glue, and code of others.
*)

From stdpp Require Import base list strings numbers sets gmap.
From Stdlib Require Import ZArith Lia Sorted Permutation.

(** ** Errors: C++ exceptions, and undefined behaviour as an explicit value *)

Declare Scope vk_scope.
Delimit Scope vk_scope with vk.

(** The exceptions the modelled code throws, by the C++ class they have.
    [UndefinedBehaviour] stands for an access the C++ standard leaves undefined
    (out of bounds, dangling or null pointer): it is never caught. *)
Inductive exn : Type :=
| NoSuchKey (key : string)
| IllegalChar
| UnexpectedTypeWhenDeserializing
| UnexpectedEndWhenDeserializing
| IDFreedTwice
| ParameterOutOfSpec
| NoSuchLoop
| NoFreeLoopsAvailable
| NoSuchController (name : string)
| NoSuchObject
| NoSuchFactory
| DuplicateObjectId
| ObjIdOverflow
| FailureResponse (response : string)
| JException (message : string)
| YouDontHaveTheToken
| UndefinedBehaviour (what : string)
| OutOfFuel.

#[global] Instance exn_eq_dec : EqDecision exn.
Proof. solve_decision. Defined.

Inductive result (A : Type) : Type :=
| Ok (a : A)
| Err (e : exn).
Arguments Ok {A} a.
Arguments Err {A} e.

Definition rbind {A B} (m : result A) (k : A -> result B) : result B :=
  match m with
  | Ok a => k a
  | Err e => Err e
  end.

Definition rmap {A B} (f : A -> B) (m : result A) : result B :=
  rbind m (fun a => Ok (f a)).

Notation "'let!' x ':=' m 'in' k" := (rbind m (fun x => k))
  (at level 10, x pattern, m at level 100, k at level 200) : vk_scope.

Definition is_ok {A} (m : result A) : bool :=
  match m with Ok _ => true | Err _ => false end.

Lemma rbind_ok {A B} (m : result A) (k : A -> result B) b :
  rbind m k = Ok b -> exists a, m = Ok a /\ k a = Ok b.
Proof. destruct m; simpl; [eauto|discriminate]. Qed.

(** Left fold that stops at the first error: a C++ loop whose body may throw. *)
Fixpoint rfold {A B} (f : A -> B -> result A) (a : A) (l : list B) : result A :=
  match l with
  | [] => Ok a
  | b :: l' => rbind (f a b) (fun a' => rfold f a' l')
  end.

Lemma rfold_app {A B} (f : A -> B -> result A) l1 l2 a :
  rfold f a (l1 ++ l2) = rbind (rfold f a l1) (fun a' => rfold f a' l2).
Proof.
  revert a; induction l1 as [|b l1 IH]; intros a; simpl; [done|].
  destruct (f a b); simpl; auto.
Qed.

(** ** Machine integers

    [int], [uint32_t] and [uint8_t] values are [Z] in range; a result that can
    leave the range is wrapped explicitly (two's complement, as the ARM targets
    compile it). *)
Definition i32 (z : Z) : Z := ((z + 2^31) mod 2^32 - 2^31)%Z.
Definition u32 (z : Z) : Z := (z mod 2^32)%Z.
Definition u8 (z : Z) : Z := (z mod 2^8)%Z.
Definition in_i32 (z : Z) : Prop := (- 2^31 <= z < 2^31)%Z.
Definition in_u32 (z : Z) : Prop := (0 <= z < 2^32)%Z.
Definition in_u8 (z : Z) : Prop := (0 <= z < 2^8)%Z.

(** C's truncated [%] and [/] on [int]. *)
Definition c_rem (a b : Z) : Z := Z.rem a b.
Definition c_div (a b : Z) : Z := Z.quot a b.

Lemma i32_id z : in_i32 z -> i32 z = z.
Proof. unfold i32, in_i32; intros H. rewrite Z.mod_small; lia. Qed.

Lemma i32_range z : in_i32 (i32 z).
Proof. unfold i32, in_i32. pose proof (Z.mod_pos_bound (z + 2^31) (2^32)). lia. Qed.

Lemma i32_add_idemp a b : i32 (i32 a + b) = i32 (a + b).
Proof.
  unfold i32. f_equal. replace ((a + 2^31) mod 2^32 - 2^31 + b + 2^31)%Z with ((a + 2^31) mod 2^32 + b)%Z by lia.
  rewrite Zplus_mod_idemp_l. f_equal. lia.
Qed.

Lemma u32_id z : in_u32 z -> u32 z = z.
Proof. unfold u32, in_u32; intros H. rewrite Z.mod_small; lia. Qed.

Lemma u8_id z : in_u8 z -> u8 z = z.
Proof. unfold u8, in_u8; intros H. rewrite Z.mod_small; lia. Qed.

Lemma u8_range z : in_u8 (u8 z).
Proof. unfold u8, in_u8. apply Z.mod_pos_bound. lia. Qed.

(** ** Automation *)

Create HintDb vk discriminated.
#[export] Hint Resolve i32_range u8_range : vk.

(** Turn boolean comparisons of the code into propositions. *)
Ltac zbool :=
  repeat match goal with
  | H : (_ && _)%bool = true |- _ => apply andb_prop in H; destruct H
  | H : (_ && _)%bool = false |- _ => apply andb_false_iff in H
  | H : (_ || _)%bool = true |- _ => apply orb_true_iff in H
  | H : (_ || _)%bool = false |- _ => apply orb_false_iff in H; destruct H
  | H : negb _ = true |- _ => apply negb_true_iff in H
  | H : negb _ = false |- _ => apply negb_false_iff in H
  | H : (_ <? _)%Z = true |- _ => apply Z.ltb_lt in H
  | H : (_ <? _)%Z = false |- _ => apply Z.ltb_ge in H
  | H : (_ <=? _)%Z = true |- _ => apply Z.leb_le in H
  | H : (_ <=? _)%Z = false |- _ => apply Z.leb_gt in H
  | H : (_ >=? _)%Z = _ |- _ => rewrite Z.geb_leb in H
  | H : (_ >? _)%Z = _ |- _ => rewrite Z.gtb_ltb in H
  | H : (_ =? _)%Z = true |- _ => apply Z.eqb_eq in H
  | H : (_ =? _)%Z = false |- _ => apply Z.eqb_neq in H
  end.

(** Case analysis on the tests of an [if] or a [match] in the goal. *)
Ltac case_if :=
  match goal with
  | |- context [if ?b then _ else _] =>
      lazymatch b with
      | context [if _ then _ else _] => fail
      | _ => let E := fresh "E" in destruct b eqn:E
      end
  end.

Ltac case_if_in H :=
  match type of H with
  | context [if ?b then _ else _] =>
      lazymatch b with
      | context [if _ then _ else _] => fail
      | _ => let E := fresh "E" in destruct b eqn:E
      end
  end.

(** Invert one [rbind] in a hypothesis that says a computation succeeded. *)
Ltac inv_bind H :=
  let x := fresh "x" in let Hx := fresh "Hx" in
  apply rbind_ok in H; destruct H as (x & Hx & H).

(** ** Lists *)

Section by_key.
Context {A : Type} (key : A -> Z).

(** Sorted by a key, ties allowed. *)
Definition sorted_by : list A -> Prop := StronglySorted (fun a b => (key a <= key b)%Z).

Lemma sorted_by_nil : sorted_by [].
Proof. constructor. Qed.

Lemma sorted_by_cons a l :
  sorted_by (a :: l) <-> Forall (fun b => (key a <= key b)%Z) l /\ sorted_by l.
Proof.
  split; [intros H; apply StronglySorted_inv in H; tauto|].
  intros []; constructor; auto.
Qed.

Lemma sorted_by_app l1 l2 :
  sorted_by (l1 ++ l2) <->
  sorted_by l1 /\ sorted_by l2 /\
  (forall a b, a ∈ l1 -> b ∈ l2 -> (key a <= key b)%Z).
Proof.
  induction l1 as [|x l1 IH]; simpl.
  - split; [intros H; split; [constructor|split; [done|by intros a b Ha%elem_of_nil]]|tauto].
  - rewrite !sorted_by_cons, Forall_app, IH, !Forall_forall.
    setoid_rewrite elem_of_cons. naive_solver.
Qed.

(** Insertion before the first element with a strictly larger key: what a
    stable ordered insert means. *)
Fixpoint ordered_insert (x : A) (l : list A) : list A :=
  match l with
  | [] => [x]
  | y :: l' => if (key x <? key y)%Z then x :: y :: l' else y :: ordered_insert x l'
  end.

Lemma ordered_insert_perm x l : Permutation (ordered_insert x l) (x :: l).
Proof.
  induction l as [|y l IH]; simpl; [done|].
  case_if; [done|]. rewrite IH. apply perm_swap.
Qed.

Lemma ordered_insert_elem x l a : a ∈ ordered_insert x l <-> a = x \/ a ∈ l.
Proof. rewrite ordered_insert_perm. apply elem_of_cons. Qed.

Lemma ordered_insert_sorted x l : sorted_by l -> sorted_by (ordered_insert x l).
Proof.
  induction l as [|y l IH]; simpl; intros Hs.
  - apply sorted_by_cons; split; constructor.
  - pose proof Hs as Hs0. apply sorted_by_cons in Hs as [Hy Hl].
    rewrite Forall_forall in Hy.
    case_if; zbool; apply sorted_by_cons; (split; [|auto]).
    + constructor; [lia|]. apply Forall_forall; intros b Hb. specialize (Hy b Hb). lia.
    + apply Forall_forall; intros b Hb.
      apply ordered_insert_elem in Hb as [->|Hb]; [lia|auto].
Qed.

Lemma ordered_insert_length x l : length (ordered_insert x l) = S (length l).
Proof. apply (Permutation_length (ordered_insert_perm x l)). Qed.

Lemma ordered_insert_end x l :
  Forall (fun y => (key y <= key x)%Z) l -> ordered_insert x l = l ++ [x].
Proof.
  induction 1 as [|y l Hy Hl IH]; simpl; [done|].
  destruct (Z.ltb_spec (key x) (key y)); [lia|]. by rewrite IH.
Qed.
End by_key.

Lemma sorted_by_same {A} (k1 k2 : A -> Z) l : (forall a, k2 a = k1 a) -> sorted_by k1 l -> sorted_by k2 l.
Proof.
  intros H. induction 1 as [|a l Hs IH Hl]; constructor; [done|].
  eapply Forall_impl; [exact Hl|]. intros b. by rewrite !H.
Qed.

#[export] Hint Resolve sorted_by_nil ordered_insert_sorted : vk.

(** The array [a] with [a[i] = x]; an index out of range is undefined behaviour. *)
Definition store {A} (a : list A) (i : Z) (x : A) : result (list A) :=
  if ((0 <=? i) && (i <? Z.of_nat (length a)))%Z
  then Ok (<[Z.to_nat i := x]> a)
  else Err (UndefinedBehaviour "store out of bounds").

(** [a[i]]; an index out of range is undefined behaviour. *)
Definition load {A} (a : list A) (i : Z) : result A :=
  if (i <? 0)%Z then Err (UndefinedBehaviour "load out of bounds")
  else match a !! Z.to_nat i with
       | Some x => Ok x
       | None => Err (UndefinedBehaviour "load out of bounds")
       end.

Lemma store_in {A} (a : list A) i x :
  (0 <= i < Z.of_nat (length a))%Z -> store a i x = Ok (<[Z.to_nat i := x]> a).
Proof.
  intros H. unfold store.
  destruct (Z.leb_spec 0 i), (Z.ltb_spec i (Z.of_nat (length a))); simpl; done || lia.
Qed.

Lemma store_ok_inv {A} (a a' : list A) i x :
  store a i x = Ok a' ->
  (0 <= i < Z.of_nat (length a))%Z /\ a' = <[Z.to_nat i := x]> a.
Proof. unfold store. case_if; intros H; inversion H; zbool; auto with lia. Qed.

Lemma load_in {A} (a : list A) i :
  (0 <= i < Z.of_nat (length a))%Z -> exists x, load a i = Ok x /\ a !! Z.to_nat i = Some x.
Proof.
  intros H. unfold load. destruct (Z.ltb_spec i 0); [lia|].
  destruct (lookup_lt_is_Some_2 a (Z.to_nat i)) as [x Hx]; [lia|].
  exists x. by rewrite Hx.
Qed.

Lemma load_lookup {A} (a : list A) i x :
  (0 <= i)%Z -> a !! Z.to_nat i = Some x -> load a i = Ok x.
Proof. intros H Hx. unfold load. destruct (Z.ltb_spec i 0); [lia|]. by rewrite Hx. Qed.

Lemma load_ok_inv {A} (a : list A) i x :
  load a i = Ok x -> (0 <= i < Z.of_nat (length a))%Z /\ a !! Z.to_nat i = Some x.
Proof.
  unfold load. case_if; [discriminate|]. zbool.
  destruct (a !! Z.to_nat i) eqn:Hl; intros H; inversion H; subst.
  apply lookup_lt_Some in Hl as ?. auto with lia.
Qed.

(** Replacing a run of an array, byte by byte: [l2] written at offset [i]. *)
Lemma insert_app_cons {A} (l1 : list A) x y l2 :
  <[length l1 := y]> (l1 ++ x :: l2) = l1 ++ y :: l2.
Proof. induction l1; simpl; f_equal; auto. Qed.

(** A property of every [0 <= i < n], checked one by one. *)
Lemma forall_below (P : Z -> Prop) n i :
  Forall P (map Z.of_nat (seq 0 n)) -> (0 <= i < Z.of_nat n)%Z -> P i.
Proof.
  intros H Hi. rewrite List.Forall_forall in H. apply H.
  apply in_map_iff. exists (Z.to_nat i). split; [lia|]. apply in_seq. lia.
Qed.

(** [load] and [store] in the middle of an array split there. *)
Lemma load_app_cons {A} (l1 : list A) x l2 i : i = Z.of_nat (length l1) -> load (l1 ++ x :: l2) i = Ok x.
Proof. intros ->. apply load_lookup; [lia|]. rewrite Nat2Z.id. by apply list_lookup_middle. Qed.

Lemma store_app_cons {A} (l1 : list A) x y l2 i : i = Z.of_nat (length l1) ->
  store (l1 ++ x :: l2) i y = Ok (l1 ++ y :: l2).
Proof.
  intros ->. rewrite store_in by (rewrite length_app; cbn; lia). by rewrite Nat2Z.id, insert_app_cons.
Qed.
