(* ===== verification/MidiExport.v ===== *)
(** * The MIDI file writer (src_jni/midi_export.cc, src_jni/midi_export.hh)

    [MidiExport::Chunk] is a growing byte buffer with an eight byte header (four
    bytes of type, four bytes of length filled in by [finalize]); [MidiExport] is
    the list of chunks of a file. The model keeps the [malloc]ed block as a list of
    exactly [allocated_length] bytes, so a store outside of it is an error value.
    The bytes [realloc] adds are indeterminate in C and 0 here; [written] never
    reads them. Allocation failure is not modelled. The operating system's [open]
    and [write] are parameters of the operations that use them. *)

From S2P Require Import Prelude.
From stdpp Require Import base list strings numbers.
From Stdlib Require Import ZArith Lia Btauto.
Local Open Scope Z_scope.
Local Open Scope vk_scope.

(* @src src_jni/midi_export.hh:37-45 MidiExport::Chunk *)
Record chunk : Type := Chunk {
  finalized : bool;
  was_dropped : bool;
  allocated_length : Z;
  data : list Z;
  current_offset : Z
}.

(** [data[current_offset++] = b] *)
Definition put_byte (c : chunk) (b : Z) : result chunk :=
  let! d := store (data c) (current_offset c) b in
  Ok (Chunk (finalized c) (was_dropped c) (allocated_length c) d (current_offset c + 1)).

(* @src src_jni/midi_export.cc:44-55 MidiExport::Chunk::Chunk *)
Definition new_chunk (h0 h1 h2 h3 : Z) : chunk :=
  Chunk false false 128 ([h0; h1; h2; h3] ++ replicate 124 0) 8.

(* @src src_jni/midi_export.cc:78-88 MidiExport::Chunk::verify_fit *)
Definition verify_fit (c : chunk) (length : Z) : chunk :=
  if allocated_length c <=? current_offset c + length
  then Chunk (finalized c) (was_dropped c) (allocated_length c * 2)
             (data c ++ replicate (Z.to_nat (allocated_length c)) 0) (current_offset c)
  else c.

(* @src src_jni/midi_export.cc:90-92 MidiExport::Chunk::drop *)
Definition drop (c : chunk) : chunk :=
  Chunk (finalized c) true (allocated_length c) (data c) (current_offset c).

(* @src src_jni/midi_export.cc:103-106 MidiExport::Chunk::push_u8b_word *)
Definition push_u8b_word (c : chunk) (word : Z) : result chunk :=
  put_byte (verify_fit c 1) word.

(* @src src_jni/midi_export.cc:108-112 MidiExport::Chunk::push_u16b_word *)
Definition push_u16b_word (c : chunk) (word : Z) : result chunk :=
  let c := verify_fit c 2 in
  let! c := put_byte c (Z.shiftr (Z.land word 0xff00) 8) in
  put_byte c (Z.land word 0x00ff).

(* @src src_jni/midi_export.cc:114-120 MidiExport::Chunk::push_u32b_word *)
Definition push_u32b_word (c : chunk) (word : Z) : result chunk :=
  let c := verify_fit c 4 in
  let! c := put_byte c (Z.shiftr (Z.land word 0xff000000) 24) in
  let! c := put_byte c (Z.shiftr (Z.land word 0x00ff0000) 16) in
  let! c := put_byte c (Z.shiftr (Z.land word 0x0000ff00) 8) in
  put_byte c (Z.land word 0x000000ff).

(** [uint32_t] left shift. *)
Definition shl32 (a n : Z) : Z := Z.land (Z.shiftl a n) 0xffffffff.

(** The bytes [push_u32b_word_var_len] stores for [word]: [result] is the local
    variable that survives from one block to the next, the constants are the ones
    of the source ([0x001fc0000] has nine digits there). *)
(* @src src_jni/midi_export.cc:133-171 MidiExport::Chunk::push_u32b_word_var_len *)
Definition var_len_bytes (word : Z) : list Z :=
  let word := Z.land word 0x0fffffff in
  let first := negb (Z.land word 0x0fc00000 =? 0) in
  let result := if first
                then Z.shiftr (Z.lor 0x80000000 (shl32 (Z.land 0x0fe00000 word) 3)) 24
                else 0 in
  let out1 := if first then [Z.land result 0xff] else [] in
  let second := first || negb (Z.land word 0x001fc000 =? 0) in
  let result := if second
                then Z.shiftr (Z.lor result
                       (Z.lor 0x00800000 (shl32 (Z.land 0x001fc0000 word) 2))) 16
                else result in
  let out2 := if second then [Z.land result 0xff] else [] in
  let third := second || negb (Z.land word 0x00003f80 =? 0) in
  let result := if third
                then Z.shiftr (Z.lor result
                       (Z.lor 0x00008000 (shl32 (Z.land 0x3f80 word) 1))) 8
                else result in
  let out3 := if third then [Z.land result 0xff] else [] in
  out1 ++ out2 ++ out3 ++ [Z.land word 0x0000007f].

(* @src src_jni/midi_export.cc:130-172 MidiExport::Chunk::push_u32b_word_var_len *)
Definition push_u32b_word_var_len (c : chunk) (word : Z) : result chunk :=
  rfold put_byte (verify_fit c 4) (var_len_bytes word).

(* @src src_jni/midi_export.cc:122-124 MidiExport::Chunk::push_u8b_word_var_len *)
Definition push_u8b_word_var_len (c : chunk) (byte : Z) : result chunk :=
  push_u32b_word_var_len c byte.

(* @src src_jni/midi_export.cc:126-128 MidiExport::Chunk::push_u16b_word_var_len *)
Definition push_u16b_word_var_len (c : chunk) (word : Z) : result chunk :=
  push_u32b_word_var_len c word.

(** A [std::string] as its bytes; [c_str] stops at the first NUL, as [strlen] does. *)
Fixpoint until_nul (s : list Z) : list Z :=
  match s with
  | [] => []
  | b :: s' => if b =? 0 then [] else b :: until_nul s'
  end.

(* @src src_jni/midi_export.cc:94-101 MidiExport::Chunk::push_string *)
Definition push_string (c : chunk) (str : list Z) : result chunk :=
  let tn := until_nul str in
  let! c := push_u32b_word_var_len c (Z.of_nat (length tn)) in
  rfold push_u8b_word c tn.

Section Files.
(** [write] on the target file: how many of the bytes the system accepts. *)
Variable os_write : list Z -> Z.

(* @src src_jni/midi_export.cc:61-76 MidiExport::Chunk::finalize *)
Definition finalize (c : chunk) (file : list Z) : result (chunk * list Z) :=
let c := Chunk true (was_dropped c) (allocated_length c) (data c) (current_offset c) in
let final_size := u32 (current_offset c - 8) in
if was_dropped c || (final_size =? 0) then Ok (c, file)
else
  let! d := store (data c) 4 (Z.shiftr (Z.land final_size 0xff000000) 24) in
  let! d := store d 5 (Z.shiftr (Z.land final_size 0x00ff0000) 16) in
  let! d := store d 6 (Z.shiftr (Z.land final_size 0x0000ff00) 8) in
  let! d := store d 7 (Z.land final_size 0x000000ff) in
  let block := take (Z.to_nat (current_offset c)) d in
  let n := os_write block in
  if current_offset c =? n
  then Ok (Chunk true (was_dropped c) (allocated_length c) d (current_offset c), file ++ block)
  else Err (JException "Failed to write complete chunk to MIDI export target file.").

(* @src src_jni/midi_export.hh:70-73 MidiExport *)
Record midi_file : Type := MidiFile {
contained : list chunk;
was_finalized : bool
}.

(* @src src_jni/midi_export.cc:174-174 MidiExport::MidiExport *)
Definition new_midi_file : midi_file := MidiFile [] false.

(* @src src_jni/midi_export.cc:187-195 MidiExport::append_new_chunk *)
Definition append_new_chunk (m : midi_file) (h0 h1 h2 h3 : Z) : midi_file :=
MidiFile (contained m ++ [new_chunk h0 h1 h2 h3]) (was_finalized m).

(** The loop of [finalize_file] over the chunks of the file. *)
Fixpoint finalize_chunks (cs : list chunk) (file : list Z) : result (list chunk * list Z) :=
match cs with
| [] => Ok ([], file)
| c :: cs' =>
    let! (c, file) := finalize c file in
    let! (cs', file) := finalize_chunks cs' file in
    Ok (c :: cs', file)
end.

(** [fd] is what [open] returns for the target, -1 for a failure; the file is
  created empty ([O_TRUNC]). The result is the content of the file on disk. *)
(* @src src_jni/midi_export.cc:197-234 MidiExport::finalize_file *)
Definition finalize_file (fd : Z) (m : midi_file) : result (midi_file * list Z) :=
if was_finalized m
then Err (JException "MidiExport file was already finalized once!")
else if fd =? -1
then Err (JException "Unable to open MIDI export target file.")
else let! (cs, file) := finalize_chunks (contained m) [] in
     Ok (MidiFile cs true, file).

End Files.

(** ** Specifications: what a chunk means, and how a reader of the file decodes it *)

(** The bytes a chunk holds so far. *)
Definition written (c : chunk) : list Z := take (Z.to_nat (current_offset c)) (data c).

(** The bytes after the header. *)
Definition payload (c : chunk) : list Z := skipn 8 (written c).

Definition chunk_ok (c : chunk) : Prop :=
  Z.of_nat (length (data c)) = allocated_length c /\
  128 <= allocated_length c /\ 8 <= current_offset c <= allocated_length c.

(** Standard MIDI files: a variable length quantity, most significant group first. *)
Fixpoint vlq_decode (acc : Z) (l : list Z) : option (Z * list Z) :=
  match l with
  | [] => None
  | b :: l' =>
      let acc' := Z.lor (Z.shiftl acc 7) (Z.land b 0x7f) in
      if Z.testbit b 7 then vlq_decode acc' l' else Some (acc', l')
  end.

(** The number a reader decodes from what [push_u32b_word_var_len] wrote for [word]. *)
Definition vlq_value (word : Z) : Z :=
  let word := Z.land word 0x0fffffff in
  if negb (Z.land word 0x0fc00000 =? 0)
  then Z.lor (Z.land word 0xffc3fff) (Z.shiftl (Z.land (Z.shiftr word 22) 7) 7)
  else if negb (Z.land word 0x001fc000 =? 0)
  then Z.land word 0x1c3fff
  else Z.land word 0x3fff.

Definition be32 (l : list Z) : Z :=
  match l with
  | [a; b; c; d] => Z.lor (Z.lor (Z.lor (Z.shiftl a 24) (Z.shiftl b 16)) (Z.shiftl c 8)) d
  | _ => -1
  end.

(** A reader's view of one chunk: type, payload, rest of the file. *)
Definition parse_chunk (file : list Z) : option (list Z * list Z * list Z) :=
  let len := be32 (take 4 (skipn 4 file)) in
  if (len <? 0) || (Z.of_nat (length (skipn 8 file)) <? len) then None
  else Some (take 4 file, take (Z.to_nat len) (skipn 8 file), skipn (8 + Z.to_nat len) file).

(** The chunks of a whole file. *)
Fixpoint parse_file (fuel : nat) (file : list Z) : option (list (list Z * list Z)) :=
  match fuel, file with
  | _, [] => Some []
  | O, _ => None
  | S fuel, _ =>
      match parse_chunk file with
      | Some (ty, body, rest) =>
          match parse_file fuel rest with
          | Some cs => Some ((ty, body) :: cs)
          | None => None
          end
      | None => None
      end
  end.

(** ** The buffer: no push leaves the allocated block *)

Lemma new_chunk_ok h0 h1 h2 h3 : chunk_ok (new_chunk h0 h1 h2 h3).
Proof. repeat split; simpl; lia. Qed.

Lemma verify_fit_spec c n :
  chunk_ok c -> 0 <= n < 128 ->
  chunk_ok (verify_fit c n) /\ written (verify_fit c n) = written c /\
  current_offset (verify_fit c n) = current_offset c /\
  current_offset c + n < allocated_length (verify_fit c n) /\
  was_dropped (verify_fit c n) = was_dropped c.
Proof.
  intros (Hl & Ha & Ho) Hn. unfold verify_fit, chunk_ok, written.
  case_if; zbool; simpl; [|repeat split; lia].
  rewrite length_app, length_replicate, take_app_le by lia. repeat split; lia.
Qed.

Lemma put_byte_spec c b :
  chunk_ok c -> current_offset c < allocated_length c ->
  exists c', put_byte c b = Ok c' /\ chunk_ok c' /\ written c' = written c ++ [b] /\
             current_offset c' = current_offset c + 1 /\
             allocated_length c' = allocated_length c /\ was_dropped c' = was_dropped c.
Proof.
  intros (Hl & Ha & Ho) Hlt. unfold put_byte. rewrite store_in by lia. simpl.
  eexists; split; [done|]. unfold chunk_ok, written; simpl.
  rewrite length_insert. repeat split; try lia.
  replace (Z.to_nat (current_offset c + 1)) with (S (Z.to_nat (current_offset c))) by lia.
  rewrite (take_S_r _ _ b), take_insert_ge by (rewrite ?list_lookup_insert_eq; lia || done).
  done.
Qed.

Lemma put_bytes_spec bs : forall c,
  chunk_ok c -> current_offset c + Z.of_nat (length bs) <= allocated_length c ->
  exists c', rfold put_byte c bs = Ok c' /\ chunk_ok c' /\ written c' = written c ++ bs /\
             was_dropped c' = was_dropped c.
Proof.
  induction bs as [|b bs IH]; intros c Hc Hlen; simpl in *.
  - exists c. by rewrite app_nil_r.
  - destruct (put_byte_spec c b Hc) as (c1 & -> & Hc1 & Hw & Ho & Ha & Hd); [lia|]. simpl.
    destruct (IH c1 Hc1) as (c' & -> & Hc' & Hw' & Hd'); [lia|].
    exists c'. rewrite Hw', Hw, <- app_assoc. simpl. repeat split; congruence || apply Hc'.
Qed.

Lemma var_len_bytes_length word : (length (var_len_bytes word) <= 4)%nat.
Proof. unfold var_len_bytes. repeat case_if; simpl; lia. Qed.

(** Every push is a [rfold put_byte] of a few bytes after [verify_fit]. *)
Lemma push_bytes_spec c n bs :
  chunk_ok c -> 0 <= n < 128 -> Z.of_nat (length bs) <= n ->
  exists c', rfold put_byte (verify_fit c n) bs = Ok c' /\ chunk_ok c' /\
             written c' = written c ++ bs /\ was_dropped c' = was_dropped c.
Proof.
  intros Hc Hn Hb. destruct (verify_fit_spec c n Hc Hn) as (Hc1 & Hw & Ho & Ha & Hd).
  destruct (put_bytes_spec bs (verify_fit c n) Hc1) as (c' & -> & Hc' & Hw' & Hd'); [lia|].
  exists c'. rewrite Hw', Hw. repeat split; congruence || apply Hc'.
Qed.

Lemma push_u8b_rfold c b : push_u8b_word c b = rfold put_byte (verify_fit c 1) [b].
Proof. unfold push_u8b_word; simpl. by destruct (put_byte _ _). Qed.

Lemma push_u16b_rfold c w :
  push_u16b_word c w =
  rfold put_byte (verify_fit c 2) [Z.shiftr (Z.land w 0xff00) 8; Z.land w 0xff].
Proof. unfold push_u16b_word; simpl. destruct (put_byte _ _); simpl; [|done]. by destruct (put_byte _ _). Qed.

Lemma push_u32b_rfold c w :
  push_u32b_word c w =
  rfold put_byte (verify_fit c 4)
    [Z.shiftr (Z.land w 0xff000000) 24; Z.shiftr (Z.land w 0x00ff0000) 16;
     Z.shiftr (Z.land w 0x0000ff00) 8; Z.land w 0xff].
Proof.
  unfold push_u32b_word; simpl.
  repeat (destruct (put_byte _ _); simpl; [|done]). done.
Qed.

Lemma push_u8b_spec c b :
  chunk_ok c -> exists c', push_u8b_word c b = Ok c' /\ chunk_ok c' /\
    written c' = written c ++ [b] /\ was_dropped c' = was_dropped c.
Proof. intros Hc. rewrite push_u8b_rfold. apply push_bytes_spec; simpl; done || lia. Qed.

Lemma push_u16b_spec c w :
  chunk_ok c -> exists c', push_u16b_word c w = Ok c' /\ chunk_ok c' /\
    written c' = written c ++ [Z.shiftr (Z.land w 0xff00) 8; Z.land w 0xff] /\
    was_dropped c' = was_dropped c.
Proof. intros Hc. rewrite push_u16b_rfold. apply push_bytes_spec; simpl; done || lia. Qed.

Lemma push_u32b_spec c w :
  chunk_ok c -> exists c', push_u32b_word c w = Ok c' /\ chunk_ok c' /\
    written c' = written c ++
      [Z.shiftr (Z.land w 0xff000000) 24; Z.shiftr (Z.land w 0x00ff0000) 16;
       Z.shiftr (Z.land w 0x0000ff00) 8; Z.land w 0xff] /\
    was_dropped c' = was_dropped c.
Proof. intros Hc. rewrite push_u32b_rfold. apply push_bytes_spec; simpl; done || lia. Qed.

Lemma push_var_len_spec c w :
  chunk_ok c -> exists c', push_u32b_word_var_len c w = Ok c' /\ chunk_ok c' /\
    written c' = written c ++ var_len_bytes w /\ was_dropped c' = was_dropped c.
Proof.
  intros Hc. pose proof (var_len_bytes_length w).
  apply push_bytes_spec; simpl; done || lia.
Qed.

Lemma push_u8bs_spec bs : forall c,
  chunk_ok c -> exists c', rfold push_u8b_word c bs = Ok c' /\ chunk_ok c' /\
    written c' = written c ++ bs /\ was_dropped c' = was_dropped c.
Proof.
  induction bs as [|b bs IH]; intros c Hc; simpl.
  - exists c. by rewrite app_nil_r.
  - destruct (push_u8b_spec c b Hc) as (c1 & -> & Hc1 & Hw & Hd). simpl.
    destruct (IH c1 Hc1) as (c' & -> & Hc' & Hw' & Hd').
    exists c'. rewrite Hw', Hw, <- app_assoc. repeat split; congruence || apply Hc'.
Qed.

(** ** Variable length quantities: bit by bit *)

Ltac testbit_consts :=
  repeat match goal with
  | |- context [Z.testbit (Z.pos ?p) ?n] =>
      let r := eval vm_compute in (Z.testbit (Z.pos p) n) in
      lazymatch r with
      | true => change (Z.testbit (Z.pos p) n) with true
      | false => change (Z.testbit (Z.pos p) n) with false
      end
  end.

(** Evaluate [Z.testbit _ n] at a numeral [n] down to the bits of the variables. *)
Ltac bit_at :=
  unfold shl32;
  repeat first [ rewrite Z.lor_spec | rewrite Z.land_spec | rewrite Z.shiftr_spec by lia
               | rewrite Z.shiftl_spec by lia | rewrite Z.testbit_0_l | rewrite Z.testbit_neg_r by lia ];
  repeat match goal with
  | |- context [Z.testbit _ ?n] =>
      lazymatch n with Z.add _ _ => idtac | Z.sub _ _ => idtac end;
      let r := eval vm_compute in n in change n with r
  end;
  testbit_consts;
  rewrite ?andb_true_r, ?andb_false_r, ?orb_false_r, ?orb_true_r, ?andb_true_l, ?orb_true_l;
  cbn [andb orb].

(** Equality of two bit expressions whose masks are below [2^32]. *)
Ltac bits_eq :=
  apply Z.bits_inj'; let i := fresh "i" in intros i ?;
  assert (0 <= i < Z.of_nat 56 \/ 56 <= i) as [?|?] by lia;
  [ lazymatch goal with |- Z.testbit ?a i = Z.testbit ?b i =>
      apply (forall_below (fun i => Z.testbit a i = Z.testbit b i) 56); [|assumption] end;
    cbv [map seq Z.of_nat Pos.of_succ_nat Pos.succ];
    repeat (apply List.Forall_cons; [cbv beta; bit_at; btauto|]); apply List.Forall_nil
  | unfold shl32;
    repeat first [ rewrite Z.lor_spec | rewrite Z.land_spec | rewrite Z.shiftr_spec by lia
                 | rewrite Z.shiftl_spec by lia | rewrite Z.testbit_0_l ];
    repeat match goal with
    | |- context [Z.testbit (Z.pos ?p) ?n] =>
        rewrite (Z.bits_above_log2 (Z.pos p) n) by (simpl; lia)
    end; btauto ].

Lemma mask_split v keep gone :
  Z.land v (Z.lor keep gone) = v -> Z.land v gone = 0 -> v = Z.land v keep.
Proof. intros H1 H2. rewrite Z.land_lor_distr_r, H2, Z.lor_0_r in H1. done. Qed.

Section VarLen.
Variable u : Z.

Let grp1 := Z.shiftr (Z.lor 0x80000000 (shl32 (Z.land 0x0fe00000 u) 3)) 24.
Let grp2 r := Z.shiftr (Z.lor r (Z.lor 0x00800000 (shl32 (Z.land 0x001fc0000 u) 2))) 16.
Let grp3 r := Z.shiftr (Z.lor r (Z.lor 0x00008000 (shl32 (Z.land 0x3f80 u) 1))) 8.

Lemma grp_flags r :
  Z.testbit (Z.land grp1 0xff) 7 = true /\ Z.testbit (Z.land (grp2 r) 0xff) 7 = true /\
  Z.testbit (Z.land (grp3 r) 0xff) 7 = true /\ Z.testbit (Z.land u 0x7f) 7 = false.
Proof. unfold grp1, grp2, grp3. repeat split; bit_at; reflexivity. Qed.

Lemma vlq_four_groups rest :
  vlq_decode 0 ([Z.land grp1 0xff; Z.land (grp2 grp1) 0xff; Z.land (grp3 (grp2 grp1)) 0xff;
                Z.land u 0x7f] ++ rest)
  = Some (Z.lor (Z.land u 0xffc3fff) (Z.shiftl (Z.land (Z.shiftr u 22) 7) 7), rest).
Proof.
  cbn [app vlq_decode].
  rewrite (proj1 (grp_flags 0)), (proj1 (proj2 (grp_flags grp1))),
    (proj1 (proj2 (proj2 (grp_flags (grp2 grp1))))), (proj2 (proj2 (proj2 (grp_flags 0)))).
  do 2 f_equal. unfold grp1, grp2, grp3. bits_eq.
Qed.

Lemma vlq_three_groups rest :
  u = Z.land u 0x3fffff ->
  vlq_decode 0 ([Z.land (grp2 0) 0xff; Z.land (grp3 (grp2 0)) 0xff; Z.land u 0x7f] ++ rest)
  = Some (Z.land u 0x1c3fff, rest).
Proof.
  intros Hu. cbn [app vlq_decode].
  rewrite (proj1 (proj2 (grp_flags 0))), (proj1 (proj2 (proj2 (grp_flags (grp2 0))))),
    (proj2 (proj2 (proj2 (grp_flags 0)))).
  do 2 f_equal. unfold grp2, grp3. rewrite Hu. bits_eq.
Qed.

Lemma vlq_two_groups rest :
  vlq_decode 0 ([Z.land (grp3 0) 0xff; Z.land u 0x7f] ++ rest) = Some (Z.land u 0x3fff, rest).
Proof.
  cbn [app vlq_decode].
  rewrite (proj1 (proj2 (proj2 (grp_flags 0)))), (proj2 (proj2 (proj2 (grp_flags 0)))).
  do 2 f_equal. unfold grp3. bits_eq.
Qed.

Lemma vlq_one_group rest :
  Z.land u 0x3f80 = 0 -> vlq_decode 0 ([Z.land u 0x7f] ++ rest) = Some (Z.land u 0x3fff, rest).
Proof.
  intros Hu. cbn [app vlq_decode]. rewrite (proj2 (proj2 (proj2 (grp_flags 0)))).
  do 2 f_equal. change 0x3fff with (Z.lor 0x7f 0x3f80).
  rewrite (Z.land_lor_distr_r u), Hu, Z.lor_0_r. bits_eq.
Qed.
End VarLen.

Lemma land_idem_mask w m k : Z.land m k = m -> Z.land (Z.land w m) k = Z.land w m.
Proof. intros H. by rewrite <- Z.land_assoc, H. Qed.

Lemma vlq_decode_var_len w rest :
  vlq_decode 0 (var_len_bytes w ++ rest) = Some (vlq_value w, rest).
Proof.
  unfold var_len_bytes, vlq_value. cbv zeta.
  set (v := Z.land w 0xfffffff).
  destruct (Z.eqb_spec (Z.land v 0x0fc00000) 0) as [H1|H1]; cbn [negb orb app]; [|apply vlq_four_groups].
  destruct (Z.eqb_spec (Z.land v 0x001fc000) 0) as [H2|H2]; cbn [negb orb app].
  2: { apply vlq_three_groups. apply (mask_split v 0x3fffff 0x0fc00000); [|done].
       by apply (land_idem_mask w 0xfffffff). }
  destruct (Z.eqb_spec (Z.land v 0x3f80) 0) as [H3|H3]; cbn [negb orb app];
    [by apply vlq_one_group|apply vlq_two_groups].
Qed.

(** ** Whole chunks: any sequence of pushes *)

(** The pushes of the interface as data, so that a track is a list of them. *)
Inductive push_op : Type :=
| Push8 (b : Z)
| Push16 (w : Z)
| Push32 (w : Z)
| PushVar8 (w : Z)
| PushVar16 (w : Z)
| PushVar32 (w : Z)
| PushString (s : list Z).

Definition run_push (c : chunk) (op : push_op) : result chunk :=
  match op with
  | Push8 b => push_u8b_word c b
  | Push16 w => push_u16b_word c w
  | Push32 w => push_u32b_word c w
  | PushVar8 w => push_u8b_word_var_len c w
  | PushVar16 w => push_u16b_word_var_len c w
  | PushVar32 w => push_u32b_word_var_len c w
  | PushString s => push_string c s
  end.

(** The bytes each push stands for. *)
Definition op_bytes (op : push_op) : list Z :=
  match op with
  | Push8 b => [b]
  | Push16 w => [Z.shiftr (Z.land w 0xff00) 8; Z.land w 0xff]
  | Push32 w => [Z.shiftr (Z.land w 0xff000000) 24; Z.shiftr (Z.land w 0x00ff0000) 16;
                 Z.shiftr (Z.land w 0x0000ff00) 8; Z.land w 0xff]
  | PushVar8 w | PushVar16 w | PushVar32 w => var_len_bytes w
  | PushString s => var_len_bytes (Z.of_nat (length (until_nul s))) ++ until_nul s
  end.

Lemma run_push_spec c op :
  chunk_ok c -> exists c', run_push c op = Ok c' /\ chunk_ok c' /\
    written c' = written c ++ op_bytes op /\ was_dropped c' = was_dropped c.
Proof.
  intros Hc. destruct op; simpl.
  - by apply push_u8b_spec.
  - by apply push_u16b_spec.
  - by apply push_u32b_spec.
  - by apply push_var_len_spec.
  - by apply push_var_len_spec.
  - by apply push_var_len_spec.
  - unfold push_string.
    destruct (push_var_len_spec c (Z.of_nat (length (until_nul s))) Hc)
      as (c1 & -> & Hc1 & Hw & Hd). simpl.
    destruct (push_u8bs_spec (until_nul s) c1 Hc1) as (c' & -> & Hc' & Hw' & Hd').
    exists c'. rewrite Hw', Hw, <- app_assoc. repeat split; congruence || apply Hc'.
Qed.

Lemma run_pushes_spec ops : forall c,
  chunk_ok c -> exists c', rfold run_push c ops = Ok c' /\ chunk_ok c' /\
    written c' = written c ++ concat (map op_bytes ops) /\ was_dropped c' = was_dropped c.
Proof.
  induction ops as [|op ops IH]; intros c Hc; simpl.
  - exists c. by rewrite app_nil_r.
  - destruct (run_push_spec c op Hc) as (c1 & -> & Hc1 & Hw & Hd). simpl.
    destruct (IH c1 Hc1) as (c' & -> & Hc' & Hw' & Hd').
    exists c'. rewrite Hw', Hw, <- app_assoc. repeat split; congruence || apply Hc'.
Qed.

(** A chunk as the header it will be written with: its four type bytes, the four
    bytes [finalize] overwrites, and the payload. *)
Lemma chunk_shape c :
  chunk_ok c -> exists a0 a1 a2 a3 a4 a5 a6 a7 tl,
    data c = a0 :: a1 :: a2 :: a3 :: a4 :: a5 :: a6 :: a7 :: tl.
Proof.
  intros (Hl & Ha & Ho). destruct c as [f w a d o]; simpl in *.
  do 8 (destruct d as [|? d]; [simpl in *; lia|]). eauto 10.
Qed.

Definition chunk_type (c : chunk) : list Z := take 4 (data c).

Lemma take_8_cons {A} (n : nat) (a0 a1 a2 a3 a4 a5 a6 a7 : A) tl :
  (8 <= n)%nat ->
  take n (a0 :: a1 :: a2 :: a3 :: a4 :: a5 :: a6 :: a7 :: tl) =
  [a0; a1; a2; a3; a4; a5; a6; a7] ++ take (n - 8) tl.
Proof. intros H. do 8 (destruct n as [|n]; [lia|]). simpl. by rewrite Nat.sub_0_r. Qed.

Definition be32_bytes (w : Z) : list Z :=
  [Z.shiftr (Z.land w 0xff000000) 24; Z.shiftr (Z.land w 0x00ff0000) 16;
   Z.shiftr (Z.land w 0x0000ff00) 8; Z.land w 0xff].

Lemma be32_roundtrip w : in_u32 w -> be32 (be32_bytes w) = w.
Proof.
  intros Hw. unfold be32, be32_bytes.
  rewrite <- (Z.mod_small w (2^32)) at 5 by exact Hw.
  rewrite <- Z.land_ones by lia. change (Z.ones 32) with 0xffffffff. bits_eq.
Qed.

(** What [finalize] appends to the file for a chunk that is kept. *)
Definition chunk_image (c : chunk) : list Z :=
  chunk_type c ++ be32_bytes (Z.of_nat (length (payload c))) ++ payload c.

Definition kept (c : chunk) : bool :=
  negb (was_dropped c) && negb (Nat.eqb (length (payload c)) 0).

Definition chunk_fits (c : chunk) : Prop := chunk_ok c /\ in_u32 (current_offset c).

Lemma payload_length c : chunk_ok c -> Z.of_nat (length (payload c)) = current_offset c - 8.
Proof.
  intros (Hl & Ha & Ho). unfold payload, written.
  rewrite length_skipn, length_take. lia.
Qed.

Lemma chunk_type_length c : chunk_ok c -> length (chunk_type c) = 4%nat.
Proof. intros (Hl & Ha & Ho). unfold chunk_type. rewrite length_take. lia. Qed.

Lemma finalize_spec os_write c file :
  (forall block, os_write block = Z.of_nat (length block)) -> chunk_fits c ->
  exists c', finalize os_write c file = Ok (c', file ++ if kept c then chunk_image c else []).
Proof.
  intros Hos (Hc & Hu). pose proof (payload_length c Hc) as Hp.
  pose proof Hc as (Hl & Ha & Ho). unfold finalize, kept. simpl.
  rewrite u32_id by (unfold in_u32 in *; lia).
  destruct (was_dropped c) eqn:Hd; simpl; [eexists; by rewrite app_nil_r|].
  destruct (Z.eqb_spec (current_offset c - 8) 0) as [He|He];
    destruct (Nat.eqb_spec (length (payload c)) 0) as [Hn|Hn]; try lia; simpl;
    [eexists; by rewrite app_nil_r|].
  repeat (rewrite store_in by (rewrite ?length_insert; lia); cbn [rbind]).
  destruct (chunk_shape c Hc) as (a0&a1&a2&a3&a4&a5&a6&a7&tl&Hdata).
  rewrite Hos, length_take, !length_insert.
  rewrite (proj2 (Z.eqb_eq _ _)) by lia. eexists. do 3 f_equal.
  unfold chunk_image, chunk_type. rewrite Hp. unfold payload, written. rewrite Hdata.
  change (Z.to_nat 4) with 4%nat. change (Z.to_nat 5) with 5%nat.
  change (Z.to_nat 6) with 6%nat. change (Z.to_nat 7) with 7%nat.
  cbn [insert list_insert take].
  rewrite !take_8_cons by lia. reflexivity.
Qed.

Lemma finalize_chunks_spec os_write cs : forall file,
  (forall block, os_write block = Z.of_nat (length block)) -> Forall chunk_fits cs ->
  exists cs', finalize_chunks os_write cs file =
              Ok (cs', file ++ concat (map chunk_image (List.filter kept cs))).
Proof.
  induction cs as [|c cs IH]; intros file Hos Hcs; simpl.
  - eexists. by rewrite app_nil_r.
  - inversion_clear Hcs as [|? ? Hc Hcs'].
    destruct (finalize_spec os_write c file Hos Hc) as (c' & ->). simpl.
    destruct (IH (file ++ if kept c then chunk_image c else []) Hos Hcs') as (cs' & ->). simpl.
    eexists. rewrite <- app_assoc. by destruct (kept c).
Qed.

Lemma parse_chunk_image c rest :
  chunk_fits c -> parse_chunk (chunk_image c ++ rest) = Some (chunk_type c, payload c, rest).
Proof.
  intros (Hc & Hu). pose proof (payload_length c Hc) as Hp. pose proof Hc as (Hl & Ha & Ho).
  pose proof (chunk_type_length c Hc) as Ht. unfold chunk_image.
  set (n := Z.of_nat (length (payload c))) in *.
  assert (be32 (be32_bytes n) = n) as Hbe by (apply be32_roundtrip; unfold in_u32 in *; lia).
  destruct (chunk_type c) as [|t0 [|t1 [|t2 [|t3 [|]]]]]; simpl in Ht; try lia.
  unfold parse_chunk.
  change (take 4 (skipn 4 (([t0; t1; t2; t3] ++ be32_bytes n ++ payload c) ++ rest))) with (be32_bytes n).
  change (skipn 8 (([t0; t1; t2; t3] ++ be32_bytes n ++ payload c) ++ rest)) with (payload c ++ rest).
  rewrite Hbe, length_app.
  destruct (Z.ltb_spec n 0); [lia|].
  destruct (Z.ltb_spec (Z.of_nat (length (payload c) + length rest)) n); [lia|]. cbn [orb].
  replace (Z.to_nat n) with (length (payload c)) by lia.
  change (skipn (8 + length (payload c)) (([t0; t1; t2; t3] ++ be32_bytes n ++ payload c) ++ rest))
    with (skipn (length (payload c)) (payload c ++ rest)).
  by rewrite take_app_length, drop_app_length.
Qed.

Lemma parse_file_images cs : Forall chunk_fits cs ->
  parse_file (length cs) (concat (map chunk_image cs)) =
  Some (map (fun c => (chunk_type c, payload c)) cs).
Proof.
  induction 1 as [|c cs Hc Hcs IH]; simpl; [done|].
  assert (exists x l, chunk_image c ++ concat (map chunk_image cs) = x :: l) as (x & l & Hx).
  { unfold chunk_image. pose proof (chunk_type_length c (proj1 Hc)).
    destruct (chunk_type c); simpl in *; [lia|eauto]. }
  pose proof (parse_chunk_image c (concat (map chunk_image cs)) Hc) as Hp.
  rewrite Hx in *. rewrite Hp, IH. done.
Qed.

Lemma land_mask_small w n : 0 <= w < 2^n -> 0 <= n -> Z.land w (Z.ones n) = w.
Proof. intros H Hn. rewrite Z.land_ones by lia. by apply Z.mod_small. Qed.

Lemma land_disjoint_small w n m :
  0 <= w < 2^n -> 0 <= n -> Z.land (Z.ones n) m = 0 -> Z.land w m = 0.
Proof.
  intros H Hn Hm. rewrite <- (land_mask_small w n H Hn).
  by rewrite <- Z.land_assoc, Hm, Z.land_0_r.
Qed.

Lemma vlq_value_small w : 0 <= w < 2^14 -> vlq_value w = w.
Proof.
  intros H. assert (H28 : 0 <= w < 2^28) by lia.
  unfold vlq_value. cbv zeta.
  change 0xfffffff with (Z.ones 28). rewrite (land_mask_small w 28) by lia.
  rewrite (land_disjoint_small w 14 0x0fc00000), (land_disjoint_small w 14 0x001fc000) by (done || lia).
  cbn [Z.eqb negb]. change 0x3fff with (Z.ones 14). apply land_mask_small; lia.
Qed.

Lemma vlq_value_lossy w : 2^14 <= w < 2^18 -> vlq_value w < 2^14.
Proof.
  intros H. unfold vlq_value. cbv zeta.
  change 0xfffffff with (Z.ones 28). rewrite (land_mask_small w 28) by lia.
  rewrite (land_disjoint_small w 18 0x0fc00000) by (done || lia). cbn [Z.eqb negb].
  assert (Z.land w 0x1c3fff = Z.land w (Z.ones 14)) as ->.
  { rewrite <- (land_mask_small w 18) at 1 by lia. rewrite <- Z.land_assoc. done. }
  assert (Z.land w 0x3fff = Z.land w (Z.ones 14)) as -> by done.
  rewrite Z.land_ones by lia. pose proof (Z.mod_pos_bound w (2^14)). case_if; lia.
Qed.

(** ** Properties *)

(** no sequence of pushes leaves the memory block of a chunk, none fails, and the
    payload of the chunk is the concatenation of the encodings pushed, in order. *)
Theorem chunk_pushes_safe h0 h1 h2 h3 ops :
  exists c, rfold run_push (new_chunk h0 h1 h2 h3) ops = Ok c /\ chunk_ok c /\
            payload c = concat (map op_bytes ops) /\ chunk_type c = [h0; h1; h2; h3].
Proof.
  destruct (run_pushes_spec ops (new_chunk h0 h1 h2 h3) (new_chunk_ok h0 h1 h2 h3))
    as (c & Hc & Hok & Hw & Hd).
  exists c. split; [done|]. split; [done|]. unfold payload. rewrite Hw. split; [done|].
  assert (take 4 (written c) = chunk_type c) as <-.
  { unfold written, chunk_type. rewrite take_take. f_equal. destruct Hok as (?&?&?). lia. }
  by rewrite Hw.
Qed.

(** a number below [2^14] written with [push_u32b_word_var_len] is the number a
    reader of variable length quantities decodes, whatever follows it. *)
Theorem var_len_roundtrip w rest :
  0 <= w < 2^14 -> vlq_decode 0 (var_len_bytes w ++ rest) = Some (w, rest).
Proof. intros H. by rewrite vlq_decode_var_len, vlq_value_small. Qed.

Lemma var_len_roundtrip_witness : vlq_decode 0 (var_len_bytes 16383 ++ [1]) = Some (16383, [1]).
Proof. apply (var_len_roundtrip 16383 [1]). lia. Defined.

(** what a reader decodes for any word: [vlq_value]. The second group's mask is
    [0x1fc0000] where [0x1fc000] is meant, so bits 14 to 17 are lost and every number
    from [2^14] to [2^18 - 1] is written as a smaller one. *)
Theorem var_len_decoded w rest :
  vlq_decode 0 (var_len_bytes w ++ rest) = Some (vlq_value w, rest) /\
  (2^14 <= w < 2^18 -> vlq_decode 0 (var_len_bytes w ++ rest) <> Some (w, rest)).
Proof.
  rewrite vlq_decode_var_len. split; [done|]. intros H Heq.
  pose proof (vlq_value_lossy w H). injection Heq as Heq. lia.
Qed.

Lemma var_len_decoded_witness :
  vlq_decode 0 (var_len_bytes 16384 ++ []) = Some (0, []) /\
  vlq_decode 0 (var_len_bytes 16384 ++ []) <> Some (16384, []).
Proof.
  split; [apply (proj1 (var_len_decoded 16384 []))|].
  apply (proj2 (var_len_decoded 16384 [])). lia.
Defined.


