(* ===== verification/CxxString.v ===== *)
(** * Strings and numbers as the code converts them (src_jni/common.hh)

    A [std::string] is a Rocq [string] of bytes. The Android build defines
    [std::to_string] with an output stream and [std::stoi], [std::stol] and
    [std::stoul] with [atoi], [atol] and [strtoul(_, 0, 0)]; the C library
    functions are modelled here with their 32 bit [long], clamping included. *)

From S2P Require Import Prelude.
From stdpp Require Import base list strings numbers.
From Stdlib Require Import ZArith Lia Ascii String.
Local Open Scope Z_scope.
#[global] Arguments String.append !_ _ /.

Definition byte_of (c : ascii) : Z := Z.of_N (N_of_ascii c).
Definition of_byte (z : Z) : ascii := ascii_of_N (Z.to_N z).

Lemma byte_of_of_byte z : 0 <= z < 256 -> byte_of (of_byte z) = z.
Proof. intros H. unfold byte_of, of_byte. rewrite N_ascii_embedding; lia. Qed.

Lemma of_byte_byte_of c : of_byte (byte_of c) = c.
Proof. unfold byte_of, of_byte. by rewrite N2Z.id, ascii_N_embedding. Qed.

Lemma byte_of_range c : 0 <= byte_of c < 256.
Proof. unfold byte_of. pose proof (N_ascii_bounded c). lia. Qed.

(** [c_str]: a C reader of the string stops at the first NUL. *)
Fixpoint c_str (s : string) : string :=
  match s with
  | EmptyString => EmptyString
  | String c s' => if byte_of c =? 0 then EmptyString else String c (c_str s')
  end.

(** No NUL byte. *)
Fixpoint nul_free (s : string) : bool :=
  match s with
  | EmptyString => true
  | String c s' => negb (byte_of c =? 0) && nul_free s'
  end.

Lemma c_str_nul_free s : nul_free s = true -> c_str s = s.
Proof.
  induction s as [|c s IH]; simpl; [done|]. intros H. zbool.
  destruct (byte_of c =? 0) eqn:E; zbool; [lia|]. f_equal; auto.
Qed.

Lemma nul_free_app s t : nul_free (s ++ t)%string = nul_free s && nul_free t.
Proof. induction s as [|c s IH]; simpl; [done|]. by rewrite IH, andb_assoc. Qed.

(** [find(c) != npos] *)
Fixpoint contains (c : ascii) (s : string) : bool :=
  match s with
  | EmptyString => false
  | String d s' => Ascii.eqb d c || contains c s'
  end.

Lemma contains_app c s t : contains c (s ++ t)%string = contains c s || contains c t.
Proof. induction s as [|d s IH]; simpl; [done|]. by rewrite IH, orb_assoc. Qed.

Lemma string_app_nil_r (s : string) : (s ++ "")%string = s.
Proof. induction s; simpl; congruence. Qed.

Lemma string_app_assoc (s t u : string) : ((s ++ t) ++ u)%string = (s ++ (t ++ u))%string.
Proof. induction s; simpl; congruence. Qed.

Lemma string_length_app (s t : string) :
  String.length (s ++ t) = (String.length s + String.length t)%nat.
Proof. induction s; simpl; congruence. Qed.

(** [std::getline(is, _, delim)] on the unread input: the text before the delimiter,
    and the input after it, or [None] when the end of the input came first. *)
Fixpoint split_at (delim : ascii) (s : string) : string * option string :=
  match s with
  | EmptyString => (EmptyString, None)
  | String c s' =>
      if Ascii.eqb c delim then (EmptyString, Some s')
      else let '(pre, rest) := split_at delim s' in (String c pre, rest)
  end.

Lemma split_at_app d s t :
  contains d s = false -> split_at d (s ++ String d t)%string = (s, Some t).
Proof.
  induction s as [|c s IH]; simpl; intros H.
  - by rewrite Ascii.eqb_refl.
  - apply orb_false_iff in H as [Hc Hs]. by rewrite Hc, IH.
Qed.

Lemma split_at_none d s : contains d s = false -> split_at d s = (s, None).
Proof.
  induction s as [|c s IH]; simpl; intros H; [done|].
  apply orb_false_iff in H as [Hc Hs]. by rewrite Hc, IH.
Qed.

(** ** Decimal output *)

Definition digit_char (d : Z) : ascii := of_byte (48 + d).

(** Digits of [n >= 0], most significant first, in front of [acc]. *)
Fixpoint put_decimal (fuel : nat) (n : Z) (acc : string) : string :=
  match fuel with
  | O => acc
  | S fuel =>
      let acc := String (digit_char (n mod 10)) acc in
      if n <? 10 then acc else put_decimal fuel (n / 10) acc
  end.

(** Enough digits for any 64 bit number. *)
Definition decimal_fuel : nat := 20.

(* @src src_jni/common.hh:127-132 std::to_string *)
Definition to_string (value : Z) : string :=
  if value <? 0 then String "-" (put_decimal decimal_fuel (- value) "")
  else put_decimal decimal_fuel value "".

(** ** Decimal input *)

Definition is_space (c : ascii) : bool :=
  let b := byte_of c in ((9 <=? b) && (b <=? 13)) || (b =? 32).
Definition is_digit (c : ascii) : bool := let b := byte_of c in (48 <=? b) && (b <=? 57).

Fixpoint skip_spaces (s : string) : string :=
  match s with
  | String c s' => if is_space c then skip_spaces s' else s
  | EmptyString => EmptyString
  end.

(** The sign and what follows it. *)
Definition read_sign (s : string) : bool * string :=
  match s with
  | String c s' =>
      if Ascii.eqb c "-" then (true, s') else if Ascii.eqb c "+" then (false, s') else (false, s)
  | EmptyString => (false, s)
  end.

(** The value of a digit in a base up to 16, if it is one. *)
Definition digit_value (base : Z) (c : ascii) : option Z :=
  let b := byte_of c in
  let v := if (48 <=? b) && (b <=? 57) then b - 48
           else if (97 <=? b) && (b <=? 102) then b - 87
           else if (65 <=? b) && (b <=? 70) then b - 55 else base in
  if v <? base then Some v else None.

Fixpoint read_digits (base acc : Z) (s : string) : Z :=
  match s with
  | String c s' =>
      match digit_value base c with
      | Some d => read_digits base (acc * base + d) s'
      | None => acc
      end
  | EmptyString => acc
  end.

Definition clamp (lo hi v : Z) : Z := Z.max lo (Z.min hi v).

(** [strtol(s, 0, 10)] with a 32 bit [long]. *)
Definition strtol10 (s : string) : Z :=
  let '(neg, s) := read_sign (skip_spaces (c_str s)) in
  let v := read_digits 10 0 s in
  clamp (- 2^31) (2^31 - 1) (if neg then - v else v).

(* @src src_jni/common.hh:134-136 std::stol *)
Definition stol (str : string) : Z := strtol10 str.

(* @src src_jni/common.hh:138-140 std::stoi *)
Definition stoi (str : string) : Z := strtol10 str.

(** The base [strtoul] infers when it is given base 0. *)
Definition infer_base (s : string) : Z * string :=
  match s with
  | String "0" (String x (String d s')) =>
      if (Ascii.eqb x "x" || Ascii.eqb x "X") && match digit_value 16 d with Some _ => true | None => false end
      then (16, String d s') else (8, s)
  | String "0" _ => (8, s)
  | _ => (10, s)
  end.

(** [strtoul(s, 0, 0)] with a 32 bit [unsigned long]: a minus sign negates modulo
    [2^32], a magnitude out of range gives [ULONG_MAX]. *)
(* @src src_jni/common.hh:150-152 std::stoul *)
Definition stoul (str : string) : Z :=
  let '(neg, s) := read_sign (skip_spaces (c_str str)) in
  let '(base, s) := infer_base s in
  let v := read_digits base 0 s in
  if 2^32 - 1 <? v then 2^32 - 1 else if neg then u32 (- v) else v.

(** ** Printing then parsing *)

Definition digit_ok (c : ascii) : Prop := is_digit c = true.

Fixpoint all_digits (s : string) : bool :=
  match s with
  | EmptyString => true
  | String c s' => is_digit c && all_digits s'
  end.

Lemma digit_char_byte d : 0 <= d < 10 -> byte_of (digit_char d) = 48 + d.
Proof. intros H. unfold digit_char. apply byte_of_of_byte. lia. Qed.

Lemma digit_char_value d : 0 <= d < 10 -> digit_value 10 (digit_char d) = Some d.
Proof.
  intros H. unfold digit_value. rewrite digit_char_byte by lia.
  destruct (Z.leb_spec 48 (48 + d)), (Z.leb_spec (48 + d) 57); try lia. simpl.
  destruct (Z.ltb_spec (48 + d - 48) 10); [|lia]. f_equal; lia.
Qed.

Lemma digit_char_is_digit d : 0 <= d < 10 -> is_digit (digit_char d) = true.
Proof. intros H. unfold is_digit. rewrite digit_char_byte by lia. lia. Qed.

Lemma put_decimal_digits fuel : forall n acc,
  0 <= n -> all_digits acc = true -> all_digits (put_decimal fuel n acc) = true.
Proof.
  induction fuel as [|fuel IH]; intros n acc Hn Hacc; cbn [put_decimal]; [done|].
  assert (Hd : all_digits (String (digit_char (n mod 10)) acc) = true).
  { cbn [all_digits]. rewrite digit_char_is_digit by (apply Z.mod_pos_bound; lia). done. }
  case_if; [done|]. apply IH; [|done]. apply Z.div_pos; lia.
Qed.

(** Reading back what was written: the digits contribute [n] scaled in. *)
Lemma read_put_decimal fuel : forall n acc,
  0 <= n < 10 ^ Z.of_nat fuel ->
  exists p, 0 <= p /\
    forall k, read_digits 10 k (put_decimal fuel n acc) = read_digits 10 (k * 10^p + n) acc.
Proof.
  induction fuel as [|fuel IH]; intros n acc Hn.
  - exists 0. split; [lia|]. intros k. change (10 ^ Z.of_nat 0) with 1 in Hn.
    cbn [put_decimal]. f_equal. lia.
  - cbn [put_decimal]. pose proof (Z.mod_pos_bound n 10).
    destruct (Z.ltb_spec n 10).
    + exists 1. split; [lia|]. intros k. cbn [read_digits]. rewrite digit_char_value by lia.
      rewrite Z.mod_small by lia. f_equal; lia.
    + destruct (IH (n / 10) (String (digit_char (n mod 10)) acc)) as (p & Hp0 & Hp).
      { rewrite Nat2Z.inj_succ, Z.pow_succ_r in Hn by lia.
        split; [apply Z.div_pos; lia|]. apply Z.div_lt_upper_bound; lia. }
      exists (p + 1). split; [lia|]. intros k. rewrite Hp. cbn [read_digits].
      rewrite digit_char_value by lia. rewrite Z.pow_add_r by lia. f_equal.
      pose proof (Z.div_mod n 10). lia.
Qed.

Lemma put_decimal_read n : 0 <= n < 10^20 -> read_digits 10 0 (put_decimal decimal_fuel n "") = n.
Proof.
  intros H. destruct (read_put_decimal decimal_fuel n "") as (p & _ & ->); [exact H|]. done.
Qed.

Lemma all_digits_nul_free s : all_digits s = true -> nul_free s = true.
Proof.
  induction s as [|c s IH]; cbn [all_digits nul_free]; intros H; [done|].
  apply andb_prop in H as [Hc Hs]. rewrite (IH Hs). unfold is_digit in Hc.
  destruct (Z.eqb_spec (byte_of c) 0); simpl; lia.
Qed.

(** A string of digits holds no other character. *)
Lemma all_digits_contains d s : all_digits s = true -> is_digit d = false -> contains d s = false.
Proof.
  intros Hs Hd. induction s as [|c s IH]; cbn [all_digits contains] in *; [done|].
  apply andb_prop in Hs as [Hc Hs]. rewrite (IH Hs), orb_false_r.
  destruct (Ascii.eqb_spec c d); [congruence|done].
Qed.

(** The first digit written is not 0 unless the number is. *)
Lemma put_decimal_first fuel : forall n acc,
  0 < n < 10 ^ Z.of_nat fuel ->
  exists d t, put_decimal fuel n acc = String (digit_char d) t /\ 1 <= d < 10.
Proof.
  induction fuel as [|fuel IH]; intros n acc Hn; [simpl in Hn; lia|].
  cbn [put_decimal]. destruct (Z.ltb_spec n 10).
  - exists n, acc. rewrite Z.mod_small by lia. split; [done|lia].
  - apply IH. rewrite Nat2Z.inj_succ, Z.pow_succ_r in Hn by lia.
    split; [apply Z.div_str_pos; lia|]. apply Z.div_lt_upper_bound; lia.
Qed.

Lemma put_decimal_head n : 0 <= n < 10^20 ->
  exists d t, put_decimal decimal_fuel n "" = String (digit_char d) t /\ 0 <= d < 10 /\
              (d = 0 -> n = 0 /\ t = EmptyString).
Proof.
  intros Hn. destruct (Z.eq_dec n 0) as [->|].
  - exists 0, EmptyString. done.
  - destruct (put_decimal_first decimal_fuel n "") as (d & t & Heq & Hd); [change (Z.of_nat decimal_fuel) with 20; lia|].
    exists d, t. split; [done|]. split; [lia|]. lia.
Qed.

Lemma digit_char_not_space d : 0 <= d < 10 -> is_space (digit_char d) = false.
Proof. intros H. unfold is_space. rewrite digit_char_byte by lia. lia. Qed.

Lemma digit_char_neq d c : 0 <= d < 10 -> is_digit c = false -> Ascii.eqb (digit_char d) c = false.
Proof.
  intros Hd Hc. apply Ascii.eqb_neq. intros <-. by rewrite digit_char_is_digit in Hc.
Qed.

Lemma read_sign_digit d t : 0 <= d < 10 ->
  read_sign (skip_spaces (String (digit_char d) t)) = (false, String (digit_char d) t).
Proof.
  intros Hd. cbn [skip_spaces]. rewrite digit_char_not_space by done. cbn [read_sign].
  by rewrite !digit_char_neq by done.
Qed.

Lemma put_decimal_nul_free n : 0 <= n -> nul_free (put_decimal decimal_fuel n "") = true.
Proof. intros H. apply all_digits_nul_free. by apply put_decimal_digits. Qed.

Lemma stoi_to_string v : in_i32 v -> stoi (to_string v) = v.
Proof.
  intros Hv. unfold in_i32 in Hv. unfold stoi, strtol10, to_string.
  destruct (Z.ltb_spec v 0).
  - rewrite c_str_nul_free by (cbn [nul_free]; rewrite put_decimal_nul_free by lia; done).
    cbn [skip_spaces read_sign]. change (is_space "-") with false. cbv iota. cbn [read_sign].
    rewrite Ascii.eqb_refl. rewrite put_decimal_read by lia. unfold clamp. lia.
  - rewrite c_str_nul_free by (apply put_decimal_nul_free; lia).
    destruct (put_decimal_head v) as (d & t & Heq & Hd & _); [lia|].
    pose proof (put_decimal_read v) as Hr. rewrite Heq in *.
    rewrite read_sign_digit by lia. rewrite Hr by lia. unfold clamp. lia.
Qed.

Lemma infer_base_digit d t : 1 <= d < 10 ->
  infer_base (String (digit_char d) t) = (10, String (digit_char d) t).
Proof.
  intros Hd. assert (d = 1 \/ d = 2 \/ d = 3 \/ d = 4 \/ d = 5 \/ d = 6 \/ d = 7 \/ d = 8 \/ d = 9)
    as Hcases by lia.
  repeat (destruct Hcases as [->|Hcases]; [done|]). subst. done.
Qed.

Lemma stoul_to_string v : in_u32 v -> stoul (to_string v) = v.
Proof.
  intros Hv. unfold in_u32 in Hv. unfold stoul, to_string.
  destruct (Z.ltb_spec v 0); [lia|].
  rewrite c_str_nul_free by (apply put_decimal_nul_free; lia).
  destruct (put_decimal_head v) as (d & t & Heq & Hd & H0); [lia|].
  pose proof (put_decimal_read v) as Hr. rewrite Heq in *.
  rewrite read_sign_digit by lia.
  destruct (Z.eq_dec d 0) as [->|].
  - destruct (H0 eq_refl) as [-> ->]. done.
  - rewrite infer_base_digit by lia. rewrite Hr by lia.
    destruct (Z.ltb_spec (2^32 - 1) v); lia.
Qed.

(** What a printed number contains: digits and a possible minus sign. *)
Lemma to_string_contains v c :
  is_digit c = false -> c <> "-"%char -> contains c (to_string v) = false.
Proof.
  intros Hc Hm. unfold to_string. destruct (Z.ltb_spec v 0).
  - cbn [contains]. destruct (Ascii.eqb_spec "-" c); [congruence|].
    apply all_digits_contains; [|done]. apply put_decimal_digits; [lia|done].
  - apply all_digits_contains; [|done]. apply put_decimal_digits; [lia|done].
Qed.

Lemma to_string_nul_free v : nul_free (to_string v) = true.
Proof.
  unfold to_string. destruct (Z.ltb_spec v 0); [|apply put_decimal_nul_free; lia].
  cbn [nul_free]. rewrite put_decimal_nul_free by lia. done.
Qed.

Lemma to_string_nonempty v : to_string v <> EmptyString.
Proof.
  unfold to_string. destruct (v <? 0); [done|].
  unfold decimal_fuel. cbn [put_decimal]. case_if; [done|].
  assert (forall f n a, a <> EmptyString -> put_decimal f n a <> EmptyString) as Hne.
  { induction f as [|f IH]; intros n a Ha; cbn [put_decimal]; [done|].
    case_if; [done|]. by apply IH. }
  by apply (Hne 19%nat).
Qed.

#[export] Hint Resolve to_string_nul_free to_string_nonempty : vk.

(** ** Every text reads as a number in range *)

Lemma stoi_range s : in_i32 (stoi s).
Proof.
  unfold stoi, strtol10, in_i32, clamp. destruct (read_sign _) as [neg t]. lia.
Qed.

Lemma digit_value_nonneg base c d : 0 < base -> digit_value base c = Some d -> 0 <= d.
Proof.
  unfold digit_value. cbv zeta. intros Hb H.
  repeat case_if_in H; try discriminate H; injection H as <-; zbool; lia.
Qed.

Lemma read_digits_nonneg base s : forall acc, 0 < base -> 0 <= acc -> 0 <= read_digits base acc s.
Proof.
  induction s as [|c s IH]; intros acc Hb Ha; simpl; [done|].
  destruct (digit_value base c) as [d|] eqn:E; [|done].
  apply IH; [done|]. apply digit_value_nonneg in E; [nia|done].
Qed.

Lemma infer_base_pos s : 0 < fst (infer_base s).
Proof. unfold infer_base. repeat (case_match; try (simpl; lia)). Qed.

Lemma stoul_range s : in_u32 (stoul s).
Proof.
  unfold stoul, in_u32. destruct (read_sign _) as [neg t].
  pose proof (infer_base_pos t) as Hb. destruct (infer_base t) as [base u]. simpl in Hb.
  pose proof (read_digits_nonneg base u 0 Hb ltac:(lia)).
  repeat case_if; zbool; try lia. unfold u32. apply Z.mod_pos_bound. lia.
Qed.
