(* ===== verification/StdMap.v ===== *)
(** * [std::map] and [std::set]: associative containers in key order

    The code iterates over its maps, keeps iterators into them and asks for
    bounds, so a map is the list of its entries in strictly increasing key order.
    [OrderedKey] is the interface of the key type ([std::less]); the theorems of
    this file are what the components that use maps rely on. *)

From S2P Require Import Prelude CxxString.
From stdpp Require Import base list strings numbers.
From Stdlib Require Import ZArith Lia Ascii String Sorted Permutation.
Local Open Scope Z_scope.

(** What [std::map] requires of [operator<]. *)
Class OrderedKey (K : Type) : Type := {
  key_lt : K -> K -> bool;
  key_lt_irrefl k : key_lt k k = false;
  key_lt_trans a b c : key_lt a b = true -> key_lt b c = true -> key_lt a c = true;
  key_lt_total a b : key_lt a b = false -> key_lt b a = false -> a = b
}.

#[export] Instance Z_key : OrderedKey Z.
Proof.
  refine {| key_lt := Z.ltb |}; intros; zbool; try (apply Z.ltb_irrefl); try apply Z.ltb_lt; lia.
Defined.

(** [operator<] of [std::string]: byte by byte, unsigned. *)
Fixpoint string_lt (s t : string) : bool :=
  match s, t with
  | _, EmptyString => false
  | EmptyString, String _ _ => true
  | String a s', String b t' =>
      if byte_of a <? byte_of b then true
      else if byte_of b <? byte_of a then false else string_lt s' t'
  end.

Lemma byte_of_inj a b : byte_of a = byte_of b -> a = b.
Proof. intros H. by rewrite <- (of_byte_byte_of a), <- (of_byte_byte_of b), H. Qed.

#[export] Instance string_key : OrderedKey string.
Proof.
  refine {| key_lt := string_lt |}.
  - induction k as [|c k IH]; simpl; [done|]. by rewrite Z.ltb_irrefl.
  - induction a as [|x a IH]; intros [|y b] [|z c]; simpl; try done.
    repeat case_if; zbool; try done || lia. apply IH.
  - induction a as [|x a IH]; intros [|y b]; simpl; try done.
    repeat case_if; zbool; try done || lia.
    intros H1 H2. f_equal; [apply byte_of_inj; lia|auto].
Defined.

Section smap.
Context {K : Type} `{OrderedKey K} {V : Type}.

(** Entries in key order. *)
Definition smap : Type := list (K * V).

Definition key_eqb (a b : K) : bool := negb (key_lt a b) && negb (key_lt b a).

(** [find], as the value found. *)
Fixpoint mfind (m : smap) (k : K) : option V :=
  match m with
  | [] => None
  | (k', v) :: m' => if key_eqb k k' then Some v else mfind m' k
  end.

(** [m[k] = v] *)
Fixpoint mset (m : smap) (k : K) (v : V) : smap :=
  match m with
  | [] => [(k, v)]
  | (k', v') :: m' =>
      if key_lt k k' then (k, v) :: m
      else if key_lt k' k then (k', v') :: mset m' k v
      else (k, v) :: m'
  end.

(** [insert] (also with a hint): an entry that exists is left alone. *)
Definition minsert (m : smap) (k : K) (v : V) : smap :=
  match mfind m k with
  | Some _ => m
  | None => mset m k v
  end.

(** [erase(k)] *)
Definition merase (m : smap) (k : K) : smap :=
  List.filter (fun e => negb (key_eqb k (fst e))) m.

(** [lower_bound(k)]: the first key not below [k]; [None] is [end()]. *)
Fixpoint lower_bound (m : smap) (k : K) : option K :=
  match m with
  | [] => None
  | (k', _) :: m' => if key_lt k' k then lower_bound m' k else Some k'
  end.

(** [upper_bound(k)]: the first key above [k]. *)
Fixpoint upper_bound (m : smap) (k : K) : option K :=
  match m with
  | [] => None
  | (k', _) :: m' => if key_lt k k' then Some k' else upper_bound m' k
  end.

(** [begin()] *)
Definition mbegin (m : smap) : option K := fst <$> head m.

(** The iterator after / before the one at [k]. *)
Definition mnext (m : smap) (k : K) : option K := upper_bound m k.
Fixpoint mprev (m : smap) (k : K) : option K :=
  match m with
  | [] => None
  | (k', _) :: m' => if key_lt k' k then match mprev m' k with Some p => Some p | None => Some k' end
                     else None
  end.

(** [erase(lower_bound(a), upper_bound(b))] for [a <= b]: the keys from [a] to [b]. *)
Definition merase_range (m : smap) (a b : K) : smap :=
  List.filter (fun e => key_lt (fst e) a || key_lt b (fst e)) m.

(** The representation invariant. *)
Definition smap_ok (m : smap) : Prop := StronglySorted (fun a b => key_lt a b = true) (map fst m).

Lemma key_eqb_spec a b : key_eqb a b = true <-> a = b.
Proof.
  unfold key_eqb. split.
  - intros E. zbool. by apply key_lt_total.
  - intros ->. by rewrite key_lt_irrefl.
Qed.

Lemma key_eqb_refl a : key_eqb a a = true.
Proof. by apply key_eqb_spec. Qed.

Lemma key_eqb_neq a b : a <> b -> key_eqb a b = false.
Proof. intros Hn. destruct (key_eqb a b) eqn:E; [|done]. by apply key_eqb_spec in E. Qed.

Lemma key_lt_asym a b : key_lt a b = true -> key_lt b a = false.
Proof.
  intros Hab. destruct (key_lt b a) eqn:E; [|done].
  pose proof (key_lt_trans _ _ _ Hab E) as Hc. by rewrite key_lt_irrefl in Hc.
Qed.

Lemma key_cases a b : key_lt a b = true \/ a = b \/ key_lt b a = true.
Proof.
  destruct (key_lt a b) eqn:E1; [auto|]. destruct (key_lt b a) eqn:E2; [auto|].
  right; left. by apply key_lt_total.
Qed.

Lemma smap_ok_nil : smap_ok [].
Proof. constructor. Qed.

Lemma smap_ok_cons k v m :
  smap_ok ((k, v) :: m) <-> (forall k' v', (k', v') ∈ m -> key_lt k k' = true) /\ smap_ok m.
Proof.
  unfold smap_ok; simpl. split.
  - intros Hs. apply StronglySorted_inv in Hs as [Hs Hall]. split; [|done].
    rewrite List.Forall_forall in Hall. intros k' v' Hin. apply Hall.
    apply list_elem_of_In in Hin. by apply (in_map fst) in Hin.
  - intros [Hall Hs]. constructor; [done|]. apply List.Forall_forall.
    intros k' Hin. apply in_map_iff in Hin as [[k2 v2] [<- Hin]].
    apply (Hall _ v2). by apply list_elem_of_In.
Qed.

Lemma mfind_elem m k v : smap_ok m -> mfind m k = Some v <-> (k, v) ∈ m.
Proof.
  induction m as [|[k' v'] m IH]; simpl; intros Hok.
  - split; [done|]. intros Hin. by apply elem_of_nil in Hin.
  - apply smap_ok_cons in Hok as [Hall Hok]. rewrite elem_of_cons.
    destruct (key_eqb k k') eqn:E.
    + apply key_eqb_spec in E as ->. split; [intros [= ->]; by left|].
      intros [[= ->]|Hin]; [done|]. apply Hall in Hin. by rewrite key_lt_irrefl in Hin.
    + rewrite IH by done. split; [by right|]. intros [[= -> ->]|]; [|done].
      by rewrite key_eqb_refl in E.
Qed.

Lemma mfind_lt_none m k : smap_ok m ->
  (forall k' v', (k', v') ∈ m -> key_lt k k' = true) -> mfind m k = None.
Proof.
  intros Hok Hall. destruct (mfind m k) as [v|] eqn:E; [|done].
  apply mfind_elem in E; [|done]. apply Hall in E. by rewrite key_lt_irrefl in E.
Qed.

Lemma mset_elem m k v k' v' : (k', v') ∈ mset m k v -> (k', v') = (k, v) \/ (k', v') ∈ m.
Proof.
  induction m as [|[k2 v2] m IH]; simpl; [rewrite elem_of_cons, elem_of_nil; tauto|].
  repeat case_if; rewrite ?elem_of_cons; intuition auto.
Qed.

Lemma mset_ok m k v : smap_ok m -> smap_ok (mset m k v).
Proof.
  induction m as [|[k' v'] m IH]; simpl; intros Hok.
  - apply smap_ok_cons; split; [|done]. intros ? ? Hin. by apply elem_of_nil in Hin.
  - pose proof Hok as Hok0. apply smap_ok_cons in Hok as [Hall Hok]. repeat case_if.
    + apply smap_ok_cons; split; [|done]. intros k2 v2 [[= -> ->]|Hin]%elem_of_cons; [done|].
      eapply key_lt_trans; eauto.
    + apply smap_ok_cons; split; [|auto]. intros k2 v2 Hin.
      apply mset_elem in Hin as [[= -> ->]|Hin]; eauto.
    + replace k with k' by (symmetry; by apply key_lt_total).
      apply smap_ok_cons; auto.
Qed.

Lemma mfind_mset m k v k' :
  smap_ok m -> mfind (mset m k v) k' = if key_eqb k' k then Some v else mfind m k'.
Proof.
  induction m as [|[k2 v2] m IH]; simpl; intros Hok; [done|].
  apply smap_ok_cons in Hok as [Hall Hok].
  destruct (key_lt k k2) eqn:E1; simpl; [done|].
  destruct (key_lt k2 k) eqn:E2; simpl.
  - rewrite IH by done. destruct (key_eqb k' k2) eqn:E3; [|done].
    apply key_eqb_spec in E3 as ->. rewrite key_eqb_neq; [done|].
    intros ->. by rewrite key_lt_irrefl in E2.
  - assert (k = k2) as -> by (by apply key_lt_total). by destruct (key_eqb k' k2).
Qed.

Lemma merase_elem m k e : e ∈ merase m k <-> e ∈ m /\ fst e <> k.
Proof.
  unfold merase. rewrite !list_elem_of_In, filter_In, negb_true_iff.
  split; intros [Hin Hk]; (split; [done|]).
  - intros <-. by rewrite key_eqb_refl in Hk.
  - apply key_eqb_neq. congruence.
Qed.

Lemma filter_smap_ok m (f : K * V -> bool) : smap_ok m -> smap_ok (List.filter f m).
Proof.
  induction m as [|[k v] m IH]; simpl; intros Hok; [done|].
  apply smap_ok_cons in Hok as [Hall Hok]. case_if; [|auto].
  apply smap_ok_cons; split; [|auto]. intros k' v' Hin.
  apply list_elem_of_In, filter_In in Hin as [Hin _]. apply (Hall k' v').
  by apply list_elem_of_In.
Qed.

Lemma merase_ok m k : smap_ok m -> smap_ok (merase m k).
Proof. apply filter_smap_ok. Qed.

Lemma mfind_filter m (f : K -> bool) k : smap_ok m ->
  mfind (List.filter (fun e => f (fst e)) m) k = if f k then mfind m k else None.
Proof.
  induction m as [|[k' v] m IH]; simpl; intros Hok; [by destruct (f k)|].
  apply smap_ok_cons in Hok as [Hall Hok].
  destruct (key_eqb k k') eqn:E.
  - apply key_eqb_spec in E as ->. destruct (f k') eqn:Ef; simpl.
    + by rewrite key_eqb_refl.
    + by apply IH.
  - destruct (f k') eqn:Ef; simpl; rewrite ?E; auto.
Qed.

Lemma mfind_merase m k k' : smap_ok m ->
  mfind (merase m k) k' = if key_eqb k' k then None else mfind m k'.
Proof.
  intros Hok. unfold merase. rewrite (mfind_filter m (fun x => negb (key_eqb k x))) by done.
  destruct (key_eqb k k') eqn:E; simpl.
  - apply key_eqb_spec in E as ->. by rewrite key_eqb_refl.
  - rewrite key_eqb_neq; [done|]. intros ->. by rewrite key_eqb_refl in E.
Qed.

Lemma merase_range_ok m a b : smap_ok m -> smap_ok (merase_range m a b).
Proof. apply filter_smap_ok. Qed.

Lemma mfind_merase_range m a b k : smap_ok m ->
  mfind (merase_range m a b) k = if key_lt k a || key_lt b k then mfind m k else None.
Proof. apply (mfind_filter m (fun x => key_lt x a || key_lt b x)). Qed.

Lemma minsert_ok m k v : smap_ok m -> smap_ok (minsert m k v).
Proof. intros Hok. unfold minsert. destruct (mfind m k); [done|]. by apply mset_ok. Qed.

(** Setting a key above every key appends: filling a map in order. *)
Lemma mset_append m k v :
  (forall k' v', (k', v') ∈ m -> key_lt k' k = true) -> mset m k v = m ++ [(k, v)].
Proof.
  induction m as [|[k' v'] m IH]; simpl; intros Hall; [done|].
  assert (key_lt k' k = true) as Hlt by (apply (Hall k' v'); by left).
  rewrite (key_lt_asym _ _ Hlt), Hlt, IH; [done|]. intros k2 v2 Hin. apply (Hall k2 v2). by right.
Qed.

(** Maps are determined by what they hold. *)
Lemma smap_ok_app m1 m2 : smap_ok (m1 ++ m2) ->
  smap_ok m1 /\ forall k v k' v', (k, v) ∈ m1 -> (k', v') ∈ m2 -> key_lt k k' = true.
Proof.
  induction m1 as [|[k0 v0] m1 IH]; simpl; intros Hok.
  - split; [apply smap_ok_nil|]. by intros k v k' v' Hin%elem_of_nil.
  - apply smap_ok_cons in Hok as [Hall Hok]. destruct (IH Hok) as [H1 H2]. split.
    + apply smap_ok_cons. split; [|done]. intros k v Hin. apply (Hall k v), elem_of_app. by left.
    + intros k v k' v' [[= -> ->]|Hin]%elem_of_cons Hin'; [|by eapply H2].
      apply (Hall k' v'), elem_of_app. by right.
Qed.

(** Insertion past the last key, as [insert(end(), _)] of ascending keys does. *)
Lemma minsert_append m k v m' : smap_ok (m ++ (k, v) :: m') -> minsert m k v = m ++ [(k, v)].
Proof.
  intros Hok. apply smap_ok_app in Hok as [Hok Hlt].
  assert (Hk : forall k' v', (k', v') ∈ m -> key_lt k' k = true)
    by (intros k' v' Hin; apply (Hlt _ _ _ v Hin); by left).
  unfold minsert. destruct (mfind m k) as [v'|] eqn:E; [|by apply mset_append].
  apply mfind_elem, Hk in E; [|done]. by rewrite key_lt_irrefl in E.
Qed.

Lemma smap_ext m1 m2 : smap_ok m1 -> smap_ok m2 ->
  (forall k, mfind m1 k = mfind m2 k) -> m1 = m2.
Proof.
  revert m2. induction m1 as [|[k1 v1] m1 IH]; intros [|[k2 v2] m2] H1 H2 Heq; [done| | |].
  - specialize (Heq k2). simpl in Heq. by rewrite key_eqb_refl in Heq.
  - specialize (Heq k1). simpl in Heq. by rewrite key_eqb_refl in Heq.
  - apply smap_ok_cons in H1 as [Ha1 Ho1]. apply smap_ok_cons in H2 as [Ha2 Ho2].
    destruct (key_cases k1 k2) as [Hlt|[->|Hlt]].
    + specialize (Heq k1). simpl in Heq. rewrite key_eqb_refl in Heq.
      rewrite key_eqb_neq in Heq by (intros ->; by rewrite key_lt_irrefl in Hlt).
      rewrite mfind_lt_none in Heq; [done|done|]. intros k' v' Hin. eapply key_lt_trans; eauto.
    + pose proof (Heq k2) as Hk. simpl in Hk. rewrite !key_eqb_refl in Hk. injection Hk as ->.
      f_equal. apply IH; [done|done|]. intros k. specialize (Heq k). simpl in Heq.
      destruct (key_eqb k k2) eqn:E; [|done]. apply key_eqb_spec in E as ->.
      by rewrite !mfind_lt_none.
    + specialize (Heq k2). simpl in Heq. rewrite key_eqb_refl in Heq.
      rewrite key_eqb_neq in Heq by (intros ->; by rewrite key_lt_irrefl in Hlt).
      rewrite mfind_lt_none in Heq; [done|done|]. intros k' v' Hin. eapply key_lt_trans; eauto.
Qed.

Lemma mset_same m k v : smap_ok m -> mfind m k = Some v -> mset m k v = m.
Proof.
  intros Hok Hv. apply smap_ext; [by apply mset_ok|done|]. intros k'. rewrite mfind_mset by done.
  destruct (key_eqb k' k) eqn:E; [|done]. by apply key_eqb_spec in E as ->.
Qed.

Lemma mset_mset m k v v' : smap_ok m -> mset (mset m k v) k v' = mset m k v'.
Proof.
  intros Hok. apply smap_ext; [by repeat apply mset_ok|by apply mset_ok|]. intros k'.
  rewrite !mfind_mset by (by repeat apply mset_ok). by destruct (key_eqb k' k).
Qed.

Lemma mfind_in_keys m k : smap_ok m -> is_Some (mfind m k) <-> k ∈ map fst m.
Proof.
  intros Hok. rewrite list_elem_of_In, in_map_iff. split.
  - intros [v Hv]. apply mfind_elem in Hv; [|done]. exists (k, v). split; [done|by apply list_elem_of_In].
  - intros ([k' v] & <- & Hin). exists v. apply mfind_elem; [done|by apply list_elem_of_In].
Qed.

Lemma lower_bound_spec m k : smap_ok m ->
  match lower_bound m k with
  | Some b => key_lt b k = false /\ is_Some (mfind m b) /\
              (forall k' v, (k', v) ∈ m -> key_lt k' b = true -> key_lt k' k = true)
  | None => forall k' v, (k', v) ∈ m -> key_lt k' k = true
  end.
Proof.
  induction m as [|[k1 v1] m IH]; simpl; intros Hok.
  { intros ? ? Hin. by apply elem_of_nil in Hin. }
  apply smap_ok_cons in Hok as [Hall Hok]. specialize (IH Hok).
  destruct (key_lt k1 k) eqn:E.
  - destruct (lower_bound m k) as [b|].
    + destruct IH as (Hb & [v Hv] & Hmin). split; [done|]. split.
      * apply mfind_elem in Hv as Hin; [|done]. apply Hall in Hin.
        rewrite key_eqb_neq by (intros ->; by rewrite key_lt_irrefl in Hin). eauto.
      * intros k' v' [[= -> ->]|Hin]%elem_of_cons Hlt; eauto.
    + intros k' v' [[= -> ->]|Hin]%elem_of_cons; eauto.
  - split; [done|]. rewrite key_eqb_refl. split; [eauto|].
    intros k' v' [[= -> ->]|Hin]%elem_of_cons Hlt; [by rewrite key_lt_irrefl in Hlt|].
    apply Hall in Hin. by rewrite (key_lt_asym _ _ Hin) in Hlt.
Qed.

Lemma upper_bound_find m k b : smap_ok m -> upper_bound m k = Some b ->
  is_Some (mfind m b) /\ key_lt k b = true.
Proof.
  induction m as [|[k1 v1] m IH]; simpl; intros Hok; [done|].
  apply smap_ok_cons in Hok as [Hall Hok]. destruct (key_lt k k1) eqn:E.
  - intros [= ->]. rewrite key_eqb_refl. eauto.
  - intros Hu. destruct (IH Hok Hu) as [[v Hv] Hlt]. split; [|done].
    destruct (key_eqb b k1); eauto.
Qed.

Lemma mprev_find m k p : smap_ok m -> mprev m k = Some p ->
  is_Some (mfind m p) /\ key_lt p k = true.
Proof.
  revert p. induction m as [|[k1 v1] m IH]; simpl; intros p Hok; [done|].
  apply smap_ok_cons in Hok as [Hall Hok]. destruct (key_lt k1 k) eqn:E; [|done].
  destruct (mprev m k) as [q|] eqn:Eq; intros [= <-].
  - destruct (IH q Hok eq_refl) as [[v Hv] Hlt]. split; [|done]. destruct (key_eqb q k1); eauto.
  - rewrite key_eqb_refl. eauto.
Qed.
End smap.

Arguments smap K V : clear implicits.

#[export] Hint Resolve smap_ok_nil mset_ok merase_ok merase_range_ok minsert_ok : vk.

(** The values a map holds, as a multiset. *)
Section values.
Context {K V : Type} `{OrderedKey K}.
Implicit Types (m : smap K V).

Lemma mset_fresh_entries m k v : mfind m k = None -> Permutation (mset m k v) ((k, v) :: m).
Proof.
  induction m as [|[k' v'] m IH]; [done|]. cbn [mfind mset]. intros Hn.
  destruct (key_eqb k k') eqn:E; [done|]. repeat case_if; [done| |].
  - rewrite IH by done. apply perm_swap.
  - assert (k = k') as -> by (by apply key_lt_total). by rewrite key_eqb_refl in E.
Qed.

Lemma mset_fresh_perm m k v : mfind m k = None -> Permutation (map snd (mset m k v)) (v :: map snd m).
Proof. intros Hn. by rewrite (mset_fresh_entries m k v Hn). Qed.

(** Two maps with the same entries are equal. *)
Lemma smap_perm m1 m2 : smap_ok m1 -> smap_ok m2 -> Permutation m1 m2 -> m1 = m2.
Proof.
  intros H1 H2 Hp. apply smap_ext; [done|done|]. intros k.
  destruct (mfind m1 k) as [v|] eqn:E.
  - apply mfind_elem in E; [|done]. symmetry. apply mfind_elem; [done|]. by rewrite <- Hp.
  - destruct (mfind m2 k) as [v|] eqn:E2; [|done]. apply mfind_elem in E2; [|done].
    rewrite <- Hp in E2. apply mfind_elem in E2; [|done]. congruence.
Qed.

Lemma merase_absent m k : mfind m k = None -> merase m k = m.
Proof.
  induction m as [|[k' v'] m IH]; [done|]. cbn [mfind]. intros Hn. unfold merase in *. cbn.
  destruct (key_eqb k k') eqn:E; [done|]. cbn. by rewrite IH.
Qed.

Lemma merase_perm m k v : smap_ok m -> mfind m k = Some v ->
  Permutation (map snd m) (v :: map snd (merase m k)).
Proof.
  induction m as [|[k' v'] m IH]; [done|]. cbn [mfind]. intros Hok Hv. pose proof Hok as Hok0.
  apply smap_ok_cons in Hok as [Hlt Hok].
  unfold merase. cbn [List.filter fst]. destruct (key_eqb k k') eqn:E; cbn [negb map snd].
  - injection Hv as ->. apply key_eqb_spec in E as ->. fold (merase m k').
    rewrite merase_absent; [done|]. by apply mfind_lt_none.
  - fold (merase m k). rewrite IH at 1 by done. apply perm_swap.
Qed.
End values.

(** Two maps with the same keys and related values. *)
Section related.
Context {K V W : Type} `{OrderedKey K} (R : V -> W -> Prop).

Definition smap_rel : smap K V -> smap K W -> Prop :=
  Forall2 (fun e f => fst e = fst f /\ R (snd e) (snd f)).

Lemma smap_rel_keys m n : smap_rel m n -> map fst n = map fst m.
Proof. induction 1 as [|[k v] [k' w] m n [Hk _] _ IH]; [done|]. cbn in *. by rewrite Hk, IH. Qed.

Lemma smap_rel_ok m n : smap_rel m n -> smap_ok m -> smap_ok n.
Proof. intros Hr Hok. unfold smap_ok. by rewrite (smap_rel_keys m n). Qed.

Lemma smap_rel_find m n k : smap_rel m n ->
  match mfind m k with
  | Some v => exists w, mfind n k = Some w /\ R v w
  | None => mfind n k = None
  end.
Proof.
  induction 1 as [|[k1 v] [k2 w] m n [Hk HR] _ IH]; [done|]. cbn in *. subst k2.
  destruct (key_eqb k k1); [by exists w|exact IH].
Qed.

Lemma smap_rel_set m n k v w : smap_rel m n -> R v w -> smap_rel (mset m k v) (mset n k w).
Proof.
  intros Hr HR. induction Hr as [|[k1 v1] [k2 w1] m n [Hk HR1] Hr IH]; [by constructor|].
  cbn in Hk. subst k2. cbn [mset]. repeat case_if; repeat (constructor; try done).
Qed.

Lemma smap_rel_erase m n k : smap_rel m n -> smap_rel (merase m k) (merase n k).
Proof.
  induction 1 as [|[k1 v1] [k2 w1] m n [Hk HR1] Hr IH]; [constructor|].
  cbn in Hk. subst k2. unfold merase in *. cbn. case_if; [by constructor|done].
Qed.
End related.
