(* ===== verification/Common.v ===== *)
(** * Identifier and object allocators (src_jni/common.hh)

    [IDAllocator] hands out [uint32_t] identifiers; its [std::set] is a sorted map
    with unit values. [ObjectAllocator<T>] hands out pointers into a [std::vector];
    a pointer is the pair of the block it points into (counted by reallocations of
    the vector) and the index, so that a pointer kept across a reallocation is seen
    to dangle. How the vector grows is the standard library's choice, a parameter. *)

From Stdlib Require Import ZArith Lia Permutation.
From stdpp Require Import base list strings numbers.
From S2P Require Import Prelude CxxString StdMap.
Local Open Scope Z_scope.
Local Open Scope vk_scope.

(** ** IDAllocator *)

(* @src src_jni/common.hh:48-53 IDAllocator *)
Record id_allocator : Type := IDAllocator {
  available_ids : smap Z unit;
  total_amount : Z
}.

(* @src src_jni/common.hh:60-64 IDAllocator::IDAllocator *)
Definition new_id_allocator (initial_size : nat) : id_allocator :=
  IDAllocator (map (fun x => (Z.of_nat x, tt)) (seq 0 initial_size)) (Z.of_nat initial_size).

(* @src src_jni/common.hh:66-76 IDAllocator::get_id *)
Definition get_id (s : id_allocator) : Z * id_allocator :=
  match mbegin (available_ids s) with
  | Some id => (id, IDAllocator (merase (available_ids s) id) (total_amount s))
  | None => (total_amount s, IDAllocator (available_ids s) (u32 (total_amount s + 1)))
  end.

(* @src src_jni/common.hh:78-83 IDAllocator::free_id *)
Definition free_id (s : id_allocator) (id : Z) : result id_allocator :=
  match mfind (available_ids s) id with
  | Some _ => Err IDFreedTwice
  | None => Ok (IDAllocator (mset (available_ids s) id tt) (total_amount s))
  end.

(** ** ObjectAllocator *)

Section ObjectAllocator.
  (** The capacity a full vector grows to. *)
  Variable grow : nat -> nat.

(** A [T*]: the block of the vector's storage it points into, and the index. *)
Record obj_ptr : Type := ObjPtr { block : nat; index : nat }.

(* @src src_jni/common.hh:86-91 ObjectAllocator *)
Record object_allocator : Type := ObjectAllocator {
  size : nat;
  capacity : nat;
  current_block : nat;
  free_objects : list obj_ptr
}.

Definition new_object_allocator : object_allocator := ObjectAllocator 0 0 0 [].

(* @src src_jni/common.hh:93-106 ObjectAllocator::allocate *)
Definition allocate (s : object_allocator) : obj_ptr * object_allocator :=
  match free_objects s with
  | p :: rest => (p, ObjectAllocator (size s) (capacity s) (current_block s) rest)
  | [] =>
      let last_index := size s in
      let '(cap, blk) := if (size s <? capacity s)%nat then (capacity s, current_block s)
                         else (grow (capacity s), S (current_block s)) in
      (ObjPtr blk last_index, ObjectAllocator (S (size s)) cap blk [])
  end.

(* @src src_jni/common.hh:108-110 ObjectAllocator::recycle *)
Definition recycle (s : object_allocator) (obj : obj_ptr) : object_allocator :=
  ObjectAllocator (size s) (capacity s) (current_block s) (obj :: free_objects s).

End ObjectAllocator.

(** The object a pointer designates still exists. *)
Definition ptr_valid (s : object_allocator) (p : obj_ptr) : Prop :=
  block p = current_block s /\ (index p < size s)%nat.

(** [n] allocations in a row: the pointers handed out, oldest first. *)
Fixpoint allocate_many (grow : nat -> nat) (n : nat) (s : object_allocator)
  : list obj_ptr * object_allocator :=
  match n with
  | O => ([], s)
  | S n => let '(p, s) := allocate grow s in
           let '(ps, s) := allocate_many grow n s in (p :: ps, s)
  end.

(** ** Identifiers: the protocol of a correct client, and what it relies on *)

(** States reachable with the identifiers outstanding: got and not freed since. *)
Inductive id_reach (n : nat) : id_allocator -> list Z -> Prop :=
| id_start : id_reach n (new_id_allocator n) []
| id_get s out : id_reach n s out -> total_amount s + 1 < 2^32 -> id_reach n (snd (get_id s)) (fst (get_id s) :: out)
| id_free s out out' id s' :
    id_reach n s out -> Permutation out (id :: out') -> free_id s id = Ok s' ->
    id_reach n s' out'.

Record id_inv (s : id_allocator) (out : list Z) : Prop := {
  id_sorted : smap_ok (available_ids s);
  id_nodup : NoDup out;
  id_split : forall i, 0 <= i < total_amount s <-> i ∈ out \/ is_Some (mfind (available_ids s) i);
  id_disjoint : forall i, i ∈ out -> mfind (available_ids s) i = None;
  id_total : 0 <= total_amount s
}.

Lemma id_seq_ok k n : smap_ok (map (fun x => (Z.of_nat x, tt)) (seq k n)).
Proof.
  revert k; induction n as [|n IH]; intros k; simpl; [constructor|].
  apply smap_ok_cons. split; [|apply IH]. intros k' v' Hin.
  apply list_elem_of_In, in_map_iff in Hin as (x & [= <- <-] & Hx%in_seq).
  apply Z.ltb_lt. lia.
Qed.

Lemma id_seq_find n i : is_Some (mfind (map (fun x => (Z.of_nat x, tt)) (seq 0 n)) i) <->
  0 <= i < Z.of_nat n.
Proof.
  split.
  - intros [[] Hf]. apply mfind_elem in Hf; [|apply id_seq_ok].
    apply list_elem_of_In, in_map_iff in Hf as (x & [= <-] & Hx%in_seq). lia.
  - intros Hi. exists tt. apply mfind_elem; [apply id_seq_ok|].
    apply list_elem_of_In, in_map_iff. exists (Z.to_nat i). split; [f_equal; lia|].
    apply in_seq. lia.
Qed.

Lemma id_inv_start n : id_inv (new_id_allocator n) [].
Proof.
  split; simpl.
  - apply id_seq_ok.
  - constructor.
  - intros i. rewrite id_seq_find. split; [by right|]. intros [Hin|]; [|done].
    by apply elem_of_nil in Hin.
  - intros i Hin. by apply elem_of_nil in Hin.
  - lia.
Qed.

Lemma mbegin_spec (m : smap Z unit) : smap_ok m ->
  match mbegin m with
  | Some b => is_Some (mfind m b) /\ forall i, is_Some (mfind m i) -> b <= i
  | None => forall i, mfind m i = None
  end.
Proof.
  destruct m as [|[b []] m]; simpl; intros Hok; [done|].
  rewrite key_eqb_refl. split; [eauto|]. intros i [v Hi].
  destruct (key_eqb i b) eqn:E; [apply key_eqb_spec in E; lia|].
  apply smap_ok_cons in Hok as [Hall Hok]. apply mfind_elem in Hi; [|done].
  apply Hall in Hi. apply Z.ltb_lt in Hi. lia.
Qed.

Lemma get_id_spec s out :
  id_inv s out -> total_amount s + 1 < 2^32 ->
  id_inv (snd (get_id s)) (fst (get_id s) :: out) /\ (fst (get_id s) ∉ out) /\
  (forall j, 0 <= j < fst (get_id s) -> j ∈ out).
Proof.
  intros [Hok Hnd Hsplit Hdisj Htot] Hlt. unfold get_id.
  pose proof (mbegin_spec (available_ids s) Hok) as Hb.
  destruct (mbegin (available_ids s)) as [b|]; simpl.
  - destruct Hb as [[[] Hb] Hmin].
    assert (b ∉ out) as Hnin by (intros Hin; rewrite (Hdisj _ Hin) in Hb; done).
    split; [|split; [done|]].
    + split; simpl; [by apply merase_ok|by constructor| | |done].
      * intros i. rewrite Hsplit, elem_of_cons, mfind_merase by done.
        destruct (key_eqb i b) eqn:E.
        -- apply key_eqb_spec in E as ->. naive_solver.
        -- assert (i <> b) by (intros ->; by rewrite key_eqb_refl in E). naive_solver.
      * intros i [->|Hin]%elem_of_cons; rewrite mfind_merase by done.
        -- by rewrite key_eqb_refl.
        -- destruct (key_eqb i b); auto.
    + intros j Hj. assert (0 <= j < total_amount s) as [|Hav]%Hsplit; [|done|].
      { assert (0 <= b < total_amount s) by (apply Hsplit; eauto). lia. }
      apply Hmin in Hav. lia.
  - assert (Hnone : forall i, i ∈ out <-> 0 <= i < total_amount s).
    { intros i. rewrite Hsplit, Hb. split; [by left|]. intros [|[? [=]]]; done. }
    assert (total_amount s ∉ out) as Hnin by (rewrite Hnone; lia).
    split; [|split; [done|intros j Hj; apply Hnone; lia]].
    split; simpl; [done|by constructor| | |].
    + intros i. rewrite u32_id by (unfold in_u32; lia). rewrite elem_of_cons, Hnone, Hb.
      split; [|intros [[->|]|[? [=]]]; lia]. intros Hi.
      destruct (Z.eq_dec i (total_amount s)); [by left; left|left; right; lia].
    + intros i _. apply Hb.
    + rewrite u32_id by (unfold in_u32; lia). lia.
Qed.

Lemma free_id_spec s out out' id :
  id_inv s out -> Permutation out (id :: out') ->
  exists s', free_id s id = Ok s' /\ id_inv s' out' /\ total_amount s' = total_amount s.
Proof.
  intros [Hok Hnd Hsplit Hdisj Htot] Hp. unfold free_id.
  assert (id ∈ out) as Hin by (rewrite Hp; by left).
  rewrite (Hdisj _ Hin). eexists; split; [done|]. split; [|done].
  pose proof Hnd as Hnd2. rewrite Hp in Hnd2. apply list.NoDup_cons in Hnd2 as [Hnin Hnd'].
  split; simpl; [by apply mset_ok|done| | |done].
  - intros i. rewrite Hsplit, mfind_mset, Hp, elem_of_cons by done.
    destruct (key_eqb i id) eqn:E.
    + apply key_eqb_spec in E as ->. naive_solver.
    + assert (i <> id) by (intros ->; by rewrite key_eqb_refl in E). naive_solver.
  - intros i Hi. rewrite mfind_mset by done. rewrite key_eqb_neq by (intros ->; done).
    apply Hdisj. rewrite Hp. by right.
Qed.

Lemma id_reach_inv n s out : id_reach n s out -> id_inv s out.
Proof.
  induction 1 as [|s out Hr IH Hlt|s out out' id s' Hr IH Hp Hf].
  - apply id_inv_start.
  - by apply get_id_spec.
  - destruct (free_id_spec s out out' id IH Hp) as (s2 & Hf2 & Hinv & _). congruence.
Qed.

(** [IDAllocator] never hands an identifier out twice: while the 32-bit counter has
    not wrapped, [get_id] returns the smallest identifier not outstanding (so it is new),
    [free_id] accepts every outstanding identifier, and rejects with [IDFreedTwice] every
    identifier that was issued and is no longer outstanding. *)
Theorem id_allocator_unique n s out :
  id_reach n s out -> total_amount s + 1 < 2^32 ->
  NoDup (fst (get_id s) :: out) /\
  (forall j, 0 <= j < fst (get_id s) -> j ∈ out) /\
  (forall id, id ∈ out -> exists s', free_id s id = Ok s') /\
  (forall id, 0 <= id < total_amount s -> id ∉ out -> free_id s id = Err IDFreedTwice).
Proof.
  intros Hinv%id_reach_inv Hlt. destruct (get_id_spec s out Hinv Hlt) as (_ & Hnew & Hmin).
  split; [|split; [done|split]].
  - apply list.NoDup_cons. split; [done|apply Hinv].
  - intros id [l1 [l2 ->]]%list_elem_of_split.
    destruct (free_id_spec s _ (l1 ++ l2) id Hinv) as (s' & Hf & _); [|eauto].
    symmetry. apply Permutation_middle.
  - intros id [Hin|[v Hav]]%(id_split _ _ Hinv) Hout; [done|].
    unfold free_id. by rewrite Hav.
Qed.

Lemma id_allocator_unique_witness :
  let s1 := snd (get_id (new_id_allocator 2)) in
  total_amount s1 + 1 < 2^32 /\ fst (get_id s1) = 1 /\
  NoDup (fst (get_id s1) :: [0]) /\ (forall j, 0 <= j < fst (get_id s1) -> j ∈ [0]).
Proof.
  intros s1. assert (id_reach 2 s1 [0]) as Hr.
  { apply (id_get 2 (new_id_allocator 2) []); [constructor|reflexivity]. }
  assert (total_amount s1 + 1 < 2^32) as Hlt by reflexivity.
  split; [exact Hlt|]. split; [reflexivity|].
  split; [apply (id_allocator_unique 2 s1 [0] Hr Hlt)|].
  intros j. apply (id_allocator_unique 2 s1 [0] Hr Hlt).
Defined.

(** ** ObjectAllocator: a pointer handed out does not survive the vector's growth *)

Lemma allocate_many_fit grow n : forall s, free_objects s = [] ->
  (size s + n <= capacity s)%nat ->
  allocate_many grow n s =
    (map (ObjPtr (current_block s)) (seq (size s) n),
     ObjectAllocator (size s + n) (capacity s) (current_block s) []).
Proof.
  induction n as [|n IH]; intros [sz cap blk fr] Hfr Hle; simpl in *; subst.
  - do 2 f_equal. lia.
  - unfold allocate; simpl. destruct (Nat.ltb_spec sz cap); [|lia].
    rewrite IH; simpl; [|done|lia]. do 2 f_equal. lia.
Qed.

Lemma allocate_many_app grow n m s :
  allocate_many grow (n + m) s =
    let '(ps, s1) := allocate_many grow n s in
    let '(qs, s2) := allocate_many grow m s1 in (ps ++ qs, s2).
Proof.
  revert s; induction n as [|n IH]; intros s; simpl.
  - by destruct (allocate_many grow m s).
  - destruct (allocate grow s) as [p s1]. rewrite IH.
    destruct (allocate_many grow n s1) as [ps s2]. by destruct (allocate_many grow m s2).
Qed.

Lemma allocate_full grow s : free_objects s = [] -> size s = capacity s ->
  allocate grow s = (ObjPtr (S (current_block s)) (size s),
    ObjectAllocator (S (size s)) (grow (capacity s)) (S (current_block s)) []).
Proof.
  unfold allocate. intros -> ->. destruct (Nat.ltb_spec (capacity s) (capacity s)); [lia|done].
Qed.

(** Fill the first block exactly, then allocate once more. *)
Lemma allocate_dangling grow : (forall c, c < grow c)%nat ->
  allocate_many grow (1 + ((grow 0%nat - 1) + 1)) new_object_allocator =
    (ObjPtr 1 0%nat :: map (ObjPtr 1) (seq 1 (grow 0%nat - 1)) ++ [ObjPtr 2 (grow 0%nat)],
     ObjectAllocator (S (grow 0%nat)) (grow (grow 0%nat)) 2 []).
Proof.
  intros Hg. pose proof (Hg 0%nat) as Hg0.
  rewrite !allocate_many_app. change (allocate_many grow 1 new_object_allocator)
    with ([ObjPtr 1 0%nat], ObjectAllocator 1 (grow 0%nat) 1 []). cbv iota beta.
  rewrite allocate_many_app, allocate_many_fit by (simpl; done || lia).
  cbn [size capacity current_block].
  replace (1 + (grow 0%nat - 1))%nat with (grow 0%nat) by lia.
  unfold allocate_many. by rewrite allocate_full.
Qed.

(** [ObjectAllocator::allocate] hands out pointers into a vector it later grows: for
    any growth policy of [std::vector], some number of allocations leaves every pointer
    handed out before the last one dangling, although its object was not recycled. *)
Theorem object_allocator_dangling (grow : nat -> nat) :
  (forall c, c < grow c)%nat ->
  exists n p, head (fst (allocate_many grow n new_object_allocator)) = Some p /\
    ~ ptr_valid (snd (allocate_many grow n new_object_allocator)) p /\
    (forall q, q ∈ removelast (fst (allocate_many grow n new_object_allocator)) ->
       ~ ptr_valid (snd (allocate_many grow n new_object_allocator)) q).
Proof.
  intros Hg. exists (1 + ((grow 0%nat - 1) + 1))%nat, (ObjPtr 1 0%nat).
  rewrite allocate_dangling by done. cbn [fst snd head map app].
  split; [done|]. split; [by intros [[=] _]|].
  intros q Hq [Hb _]. rewrite app_comm_cons, removelast_last in Hq.
  apply list_elem_of_In in Hq as [<-|(x & <- & _)%in_map_iff]; discriminate Hb.
Qed.

Lemma object_allocator_dangling_witness :
  exists n p, head (fst (allocate_many (fun c => S (c + c)) n new_object_allocator)) = Some p /\
    ~ ptr_valid (snd (allocate_many (fun c => S (c + c)) n new_object_allocator)) p /\
    (forall q, q ∈ removelast (fst (allocate_many (fun c => S (c + c)) n new_object_allocator)) ->
       ~ ptr_valid (snd (allocate_many (fun c => S (c + c)) n new_object_allocator)) q).
Proof. apply (object_allocator_dangling (fun c => S (c + c))). intros c. lia. Defined.
