(* ===== verification/LinkedList.v ===== *)
(** * The intrusive linked list (src_jni/linked_list.hh)

    [LinkedList<T>] links objects through their own [next] member. The heap maps a
    [T*] to the object's value and its [next] pointer; [None] is [NULL]. The
    operations are translated pointer by pointer, with the loops on fuel, and
    are shown to implement functions on the list of values ([list_insert],
    [list_drop]) with any fuel larger than the length of the list. *)

From Stdlib Require Import ZArith Lia Permutation Sorted.
From stdpp Require Import base list gmap strings.
From S2P Require Import Prelude.
Local Open Scope string_scope.
Local Open Scope list_scope.
Local Open Scope vk_scope.

Section LinkedList.
Context {T : Type}.

Definition ptr : Type := option positive.
Notation heap := (gmap positive (T * ptr)).

(** [*p] and [p->next]; a null or dangling [p] is undefined behaviour. *)
Definition deref (h : heap) (p : ptr) : result (T * ptr) :=
  match p with
  | None => Err (UndefinedBehaviour "null pointer")
  | Some l => match h !! l with
              | Some n => Ok n
              | None => Err (UndefinedBehaviour "dangling pointer")
              end
  end.

(** [p->next = q]. *)
Definition set_next (h : heap) (p q : ptr) : result heap :=
  match p with
  | None => Err (UndefinedBehaviour "null pointer")
  | Some l => match h !! l with
              | Some (x, _) => Ok (<[l := (x, q)]> h)
              | None => Err (UndefinedBehaviour "dangling pointer")
              end
  end.

Section insert.
Context (lt : T -> T -> bool).

(** The loop of lines 37-41: the element after which to insert. *)
(* @src src_jni/linked_list.hh:37-41 LinkedList::insert_element *)
Fixpoint insert_position (fuel : nat) (h : heap) (this_element : ptr) (new_value : T)
  : result ptr :=
  match fuel with
  | O => Err OutOfFuel
  | S fuel =>
      let! (value, next) := deref h this_element in
      match next with
      | None => Ok this_element
      | Some _ => if lt value new_value then insert_position fuel h next new_value
                  else Ok this_element
      end
  end.

(* @src src_jni/linked_list.hh:32-45 LinkedList::insert_element *)
Definition insert_element (fuel : nat) (h : heap) (head new_element : ptr)
  : result (heap * ptr) :=
  let! (new_value, _) := deref h new_element in
  let! at_front :=
    match head with
    | None => Ok true
    | Some _ => let! (head_value, _) := deref h head in Ok (lt new_value head_value)
    end in
  if (at_front : bool) then
    let! h := set_next h new_element head in
    Ok (h, new_element)
  else
    let! this_element := insert_position fuel h head new_value in
    let! (_, next) := deref h this_element in
    let! h := set_next h new_element next in
    let! h := set_next h this_element new_element in
    Ok (h, head).

End insert.

(** [func_on_drop] acts on the client's state [S]. *)
Section callbacks.
Context (eqb : T -> T -> bool) {S : Type} (func : S -> positive -> S).

(* @src src_jni/linked_list.hh:47-53 LinkedList::clear *)
Fixpoint clear (fuel : nat) (h : heap) (head : ptr) (s : S) : result (ptr * S) :=
  match fuel with
  | O => Err OutOfFuel
  | Datatypes.S fuel =>
      match head with
      | None => Ok (None, s)
      | Some to_drop =>
          let! (_, next) := deref h head in
          clear fuel h next (func s to_drop)
      end
  end.

(** The loop of lines 64-68: the last element, or the one before a match. *)
(* @src src_jni/linked_list.hh:64-68 LinkedList::drop_element *)
Fixpoint drop_position (fuel : nat) (h : heap) (this_element : ptr) (to_drop : T)
  : result ptr :=
  match fuel with
  | O => Err OutOfFuel
  | Datatypes.S fuel =>
      let! (_, next) := deref h this_element in
      match next with
      | None => Ok this_element
      | Some _ =>
          let! (next_value, _) := deref h next in
          if negb (eqb next_value to_drop) then drop_position fuel h next to_drop
          else Ok this_element
      end
  end.

(** [element_to_drop] is only compared with: its value. *)
(* @src src_jni/linked_list.hh:55-78 LinkedList::drop_element *)
Definition drop_element (fuel : nat) (h : heap) (head : ptr) (to_drop : T) (s : S)
  : result (heap * ptr * S) :=
  match head with
  | None => Ok (h, head, s)
  | Some head_loc =>
      let! (head_value, head_next) := deref h head in
      if eqb head_value to_drop then Ok (h, head_next, func s head_loc)
      else
        let! this_element := drop_position fuel h head to_drop in
        let! (_, next) := deref h this_element in
        match next with
        | None => Ok (h, head, s)
        | Some next_loc =>
            let! (next_value, next_next) := deref h next in
            if eqb next_value to_drop then
              let! h := set_next h this_element next_next in
              Ok (h, head, func s next_loc)
            else Ok (h, head, s)
        end
  end.

(** [func_on_element] reads the element it is given. *)
(* @src src_jni/linked_list.hh:80-86 LinkedList::for_each *)
Fixpoint for_each (on_element : S -> T -> S) (fuel : nat) (h : heap) (current : ptr) (s : S)
  : result S :=
  match fuel with
  | O => Err OutOfFuel
  | Datatypes.S fuel =>
      match current with
      | None => Ok s
      | Some _ =>
          let! (value, next) := deref h current in
          for_each on_element fuel h next (on_element s value)
      end
  end.
End callbacks.

(** ** What the operations do to the sequence of values *)

(** The nodes at [ls], holding [xs], lead from [p] to [e]. *)
Fixpoint lseg (h : heap) (p : ptr) (ls : list positive) (xs : list T) (e : ptr) : Prop :=
  match ls, xs with
  | [], [] => p = e
  | l :: ls, x :: xs => p = Some l /\ exists q, h !! l = Some (x, q) /\ lseg h q ls xs e
  | _, _ => False
  end.

(** The list from [p] is the nodes at [ls], all different, with the values [xs]. *)
Definition linked (h : heap) (p : ptr) (ls : list positive) (xs : list T) : Prop :=
  NoDup ls /\ lseg h p ls xs None.

Section on_values.
Context (lt eqb : T -> T -> bool).

(** Insertion after the first element that is not smaller. *)
Fixpoint insert_after (x : T) (l : list T) : list T :=
  match l with
  | [] => [x]
  | y :: l' => match l' with
               | [] => [y; x]
               | _ => if lt y x then y :: insert_after x l' else y :: x :: l'
               end
  end.

Definition list_insert (x : T) (l : list T) : list T :=
  match l with
  | [] => [x]
  | y :: _ => if lt x y then x :: l else insert_after x l
  end.

Fixpoint list_drop (x : T) (l : list T) : list T :=
  match l with
  | [] => []
  | y :: l' => if eqb y x then l' else y :: list_drop x l'
  end.

(** The index of the element [drop_element] removes. *)
Fixpoint drop_index (x : T) (l : list T) : option nat :=
  match l with
  | [] => None
  | y :: l' => if eqb y x then Some O else Datatypes.S <$> drop_index x l'
  end.
End on_values.

(** ** Segments *)

Lemma lseg_length h p ls xs e : lseg h p ls xs e -> length ls = length xs.
Proof.
  revert p xs; induction ls as [|l ls IH]; intros p [|x xs]; simpl; try done.
  intros (_ & q & _ & H). f_equal. eauto.
Qed.

Lemma lseg_app h p l1 l2 x1 x2 e : length l1 = length x1 ->
  lseg h p (l1 ++ l2) (x1 ++ x2) e <-> exists q, lseg h p l1 x1 q /\ lseg h q l2 x2 e.
Proof.
  revert p x1; induction l1 as [|l l1 IH]; intros p [|x x1] Hlen; simpl in *; try done.
  - split; [eauto|]. by intros (q & -> & H).
  - injection Hlen as Hlen. setoid_rewrite IH; [|done]. naive_solver.
Qed.

Lemma lseg_frame h h' p ls xs e :
  (forall l, l ∈ ls -> h' !! l = h !! l) -> lseg h p ls xs e -> lseg h' p ls xs e.
Proof.
  revert p xs; induction ls as [|l ls IH]; intros p [|x xs] Hf; simpl; try done.
  intros (-> & q & Hl & Hseg). split; [done|]. exists q. split.
  - by rewrite Hf by left.
  - apply IH; [|done]. intros l' Hl'. apply Hf. by right.
Qed.

Lemma deref_some h l n : h !! l = Some n -> deref h (Some l) = Ok n.
Proof. simpl. by intros ->. Qed.

Lemma set_next_some h l x q r : h !! l = Some (x, q) ->
  set_next h (Some l) r = Ok (<[l := (x, r)]> h).
Proof. simpl. by intros ->. Qed.

(** ** insert_element *)

Section insert_lemmas.
Context (lt : T -> T -> bool).
Notation insert_position := (insert_position lt).
Notation insert_element := (insert_element lt).
Notation insert_after := (insert_after lt).
Notation list_insert := (list_insert lt).

Lemma insert_position_spec x ls : forall fuel h p xs y q0,
  lseg h p (q0 :: ls) (y :: xs) None -> (length ls < fuel)%nat ->
  exists l1 l l2 x1 z x2 q,
    q0 :: ls = l1 ++ l :: l2 /\ y :: xs = x1 ++ z :: x2 /\ length l1 = length x1 /\
    insert_position fuel h p x = Ok (Some l) /\ h !! l = Some (z, q) /\
    insert_after x (y :: xs) = x1 ++ z :: x :: x2.
Proof.
  induction ls as [|l ls IH]; intros fuel h p xs y q0 Hseg Hf;
    destruct fuel as [|fuel]; try lia; cbn [insert_position].
  - destruct xs as [|? ?]; simpl in Hseg; [|naive_solver].
    destruct Hseg as (-> & q & Hl & ->). rewrite (deref_some _ _ _ Hl); simpl.
    exists [], q0, [], [], y, [], None. auto 7.
  - destruct Hseg as (-> & q & Hl & Hseg). destruct xs as [|z xs]; [done|].
    pose proof Hseg as (-> & _). rewrite (deref_some _ _ _ Hl); cbn [rbind].
    destruct (lt y x) eqn:E.
    + destruct (IH fuel h (Some l) xs z l Hseg) as (l1 & l' & l2 & x1 & z' & x2 & q & E1 & E2 & E3 & E4 & E5 & E6);
        [simpl in Hf; lia|].
      exists (q0 :: l1), l', l2, (y :: x1), z', x2, q.
      rewrite E1, E2. split; [done|]. split; [done|]. split; [by simpl; f_equal|].
      split; [done|]. split; [done|]. rewrite <- E2.
      change (insert_after x (y :: z :: xs)) with
        (if lt y x then y :: insert_after x (z :: xs) else y :: x :: z :: xs).
      by rewrite E, E6.
    + exists [], q0, (l :: ls), [], y, (z :: xs), (Some l). simpl. rewrite E. auto 7.
Qed.

(** Splicing a new node in after the one at [l]. *)
Lemma splice_linked h p l1 l l2 x1 z x2 new x q r :
  linked h p (l1 ++ l :: l2) (x1 ++ z :: x2) -> length l1 = length x1 ->
  h !! l = Some (z, q) -> h !! new = Some (x, r) -> new ∉ l1 ++ l :: l2 ->
  linked (<[l := (z, Some new)]> (<[new := (x, q)]> h)) p
    (l1 ++ l :: new :: l2) (x1 ++ z :: x :: x2).
Proof.
  intros [Hnd Hseg] Hlen Hl Hnew Hnin.
  apply lseg_app in Hseg as (q1 & Hs1 & (-> & q2 & Hl2 & Hs2)); [|done].
  rewrite Hl in Hl2; injection Hl2 as <-.
  rewrite not_elem_of_app, not_elem_of_cons in Hnin. destruct Hnin as (Hn1 & Hn2 & Hn3).
  assert (l ∉ l1 /\ l ∉ l2) as [Hl1 Hl2].
  { apply NoDup_app in Hnd as (_ & Hd & Hnd). apply list.NoDup_cons in Hnd as [? _].
    split; [|done]. intros Hin. apply (Hd _ Hin). by left. }
  split.
  - assert (l1 ++ l :: new :: l2 ≡ₚ new :: l1 ++ l :: l2) as ->.
    { rewrite (Permutation_middle l1 (l :: l2) new). apply Permutation_app_head, perm_swap. }
    apply list.NoDup_cons. split; [|done].
    rewrite not_elem_of_app, not_elem_of_cons. auto.
  - apply lseg_app; [done|]. exists (Some l). split.
    + eapply lseg_frame; [|exact Hs1]. intros k Hk.
      rewrite !lookup_insert_ne by (intros ->; done). done.
    + split; [done|]. exists (Some new). rewrite lookup_insert_eq. split; [done|].
      split; [done|]. exists q. rewrite lookup_insert_ne by done. rewrite lookup_insert_eq.
      split; [done|]. eapply lseg_frame; [|exact Hs2]. intros k Hk.
      rewrite !lookup_insert_ne by (intros ->; done). done.
Qed.

Lemma insert_front h head ls xs new x r :
  linked h head ls xs -> h !! new = Some (x, r) -> new ∉ ls ->
  linked (<[new := (x, head)]> h) (Some new) (new :: ls) (x :: xs).
Proof.
  intros [Hnd Hseg] Hnew Hnin. split; [by apply list.NoDup_cons|].
  split; [done|]. exists head. rewrite lookup_insert_eq. split; [done|].
  eapply lseg_frame; [|exact Hseg]. intros k Hk.
  rewrite lookup_insert_ne by (intros ->; done). done.
Qed.

Lemma insert_element_empty fuel h new x r : h !! new = Some (x, r) ->
  insert_element fuel h None (Some new) = Ok (<[new := (x, None)]> h, Some new).
Proof. intros Hnew. unfold insert_element. rewrite (deref_some _ _ _ Hnew). simpl. by rewrite Hnew. Qed.

Lemma insert_element_cons fuel h l y q new x r :
  h !! new = Some (x, r) -> h !! l = Some (y, q) ->
  insert_element fuel h (Some l) (Some new) =
    if lt x y then Ok (<[new := (x, Some l)]> h, Some new)
    else let! this_element := insert_position fuel h (Some l) x in
         let! (_, next) := deref h this_element in
         let! h := set_next h (Some new) next in
         let! h := set_next h this_element (Some new) in Ok (h, Some l).
Proof.
  intros Hnew Hl. unfold insert_element.
  rewrite (deref_some _ _ _ Hnew), (deref_some _ _ _ Hl); cbn [rbind].
  destruct (lt x y); [|done]. by rewrite (set_next_some _ _ _ _ _ Hnew).
Qed.

(** The memory outside the list and the new node is left as it was. *)
Definition unchanged_off (h h' : heap) (ls : list positive) : Prop :=
  forall k, k ∉ ls -> h' !! k = h !! k.

Lemma insert_element_spec fuel h head ls xs new x r :
  linked h head ls xs -> h !! new = Some (x, r) -> new ∉ ls -> (length ls < fuel)%nat ->
  exists h' head' ls',
    insert_element fuel h head (Some new) = Ok (h', head') /\
    linked h' head' ls' (list_insert x xs) /\
    Permutation ls' (new :: ls) /\ unchanged_off h h' (new :: ls).
Proof.
  intros Hlink Hnew Hnin Hf. pose proof Hlink as [_ Hseg].
  assert (Hoff : forall v k, k ∉ new :: ls -> (<[new := v]> h : heap) !! k = h !! k).
  { intros v k Hk. rewrite lookup_insert_ne; [done|]. intros ->. apply Hk. by left. }
  destruct ls as [|l ls], xs as [|y xs]; try done.
  - simpl in Hseg; subst. rewrite (insert_element_empty _ _ _ _ _ Hnew).
    eexists _, _, [new]. split; [done|].
    split; [by eapply insert_front|split; [done|]]. intros k Hk. by apply Hoff.
  - pose proof Hseg as (-> & q & Hl & _).
    rewrite (insert_element_cons _ _ _ _ _ _ _ _ Hnew Hl). unfold list_insert.
    destruct (lt x y) eqn:E.
    + eexists _, _, (new :: l :: ls). split; [done|].
      split; [by eapply insert_front|split; [done|]]. intros k Hk. by apply Hoff.
    + destruct (insert_position_spec x ls fuel h (Some l) xs y l Hseg)
        as (l1 & m & l2 & x1 & z & x2 & q' & E1 & E2 & E3 & E4 & E5 & E6); [simpl in Hf; lia|].
      rewrite E1, E2 in Hlink. rewrite E1 in Hnin |- *.
      rewrite E4, E6; cbn [rbind]. rewrite (deref_some _ _ _ E5); cbn [rbind].
      rewrite (set_next_some _ _ _ _ _ Hnew); cbn [rbind].
      assert (m <> new) as Hne by (intros ->; apply Hnin, elem_of_app; right; left).
      rewrite (set_next_some _ m z q') by (by rewrite lookup_insert_ne by done); cbn [rbind].
      eexists _, _, (l1 ++ m :: new :: l2). split; [done|].
      split; [by eapply splice_linked|]. split.
      * rewrite (Permutation_middle l1 (m :: l2) new). apply Permutation_app_head, perm_swap.
      * intros k Hk. rewrite !lookup_insert_ne; [done| |]; intros ->; apply Hk;
          rewrite elem_of_cons, elem_of_app, elem_of_cons; auto.
Qed.

(** [LinkedList::insert_element] on a well-formed list and a node outside it returns,
    with fuel for one step per element and one more, leaves the rest of memory alone, and
    the list it leaves is well formed, has the old nodes and the new one, and holds the
    values [list_insert] computes: before the head if smaller, else right after the first
    element that is not smaller than the new value (or at the end). *)
Theorem insert_element_refines fuel h head ls xs new x r :
  linked h head ls xs -> h !! new = Some (x, r) -> new ∉ ls -> (length ls < fuel)%nat ->
  exists h' head' ls',
    insert_element fuel h head (Some new) = Ok (h', head') /\
    linked h' head' ls' (list_insert x xs) /\
    Permutation ls' (new :: ls) /\ unchanged_off h h' (new :: ls).
Proof. apply insert_element_spec. Qed.

End insert_lemmas.

(** ** drop_element, clear and for_each *)

Section drop_lemmas.
Context (eqb : T -> T -> bool).
Notation list_drop := (list_drop eqb).
Notation drop_index := (drop_index eqb).
Notation drop_position := (drop_position eqb).
Notation drop_element := (drop_element eqb).

Lemma list_drop_index x xs :
  list_drop x xs = match drop_index x xs with Some i => delete i xs | None => xs end.
Proof.
  induction xs as [|y xs IH]; simpl; [done|]. destruct (eqb y x); [done|].
  rewrite IH. by destruct (drop_index x xs).
Qed.

Lemma drop_position_spec x ls : forall fuel h p xs y q0,
  lseg h p (q0 :: ls) (y :: xs) None -> (length ls < fuel)%nat ->
  match drop_index x xs with
  | None => exists l z, drop_position fuel h p x = Ok (Some l) /\ h !! l = Some (z, None)
  | Some i => exists l1 l m l2 x1 z w x2 q,
      q0 :: ls = l1 ++ l :: m :: l2 /\ y :: xs = x1 ++ z :: w :: x2 /\
      length l1 = length x1 /\ length l1 = i /\
      drop_position fuel h p x = Ok (Some l) /\ h !! l = Some (z, Some m) /\
      h !! m = Some (w, q) /\ eqb w x = true
  end.
Proof.
  induction ls as [|l ls IH]; intros fuel h p xs y q0 Hseg Hf;
    destruct fuel as [|fuel]; try lia; destruct xs as [|z xs]; try (simpl in Hseg; naive_solver);
    pose proof Hseg as (-> & q & Hl & Hseg'); cbn [drop_position];
    rewrite (deref_some _ _ _ Hl); cbn [rbind].
  - simpl in Hseg'; subst. exists q0, y. auto.
  - pose proof Hseg' as (-> & q' & Hl' & _). rewrite (deref_some _ _ _ Hl'); cbn [rbind drop_index].
    destruct (eqb z x) eqn:E; cbn [negb].
    + exists [], q0, l, ls, [], y, z, xs, q'. auto 9.
    + specialize (IH fuel h (Some l) xs z l Hseg'). simpl in Hf.
      destruct (drop_index x xs) as [i|]; cbn [fmap option_fmap option_map]; [|apply IH; lia].
      destruct IH as (l1 & l' & m & l2 & x1 & z' & w & x2 & q2 & E1 & E2 & E3 & E4 & E5); [lia|].
      exists (q0 :: l1), l', m, l2, (y :: x1), z', w, x2, q2. rewrite E1, E2. simpl.
      split; [done|]. split; [done|]. split; [by f_equal|]. split; [by f_equal|done].
Qed.

Lemma unlink_linked h p l1 l m l2 x1 z w x2 q :
  linked h p (l1 ++ l :: m :: l2) (x1 ++ z :: w :: x2) -> length l1 = length x1 ->
  h !! m = Some (w, q) ->
  linked (<[l := (z, q)]> h) p (l1 ++ l :: l2) (x1 ++ z :: x2).
Proof.
  intros [Hnd Hseg] Hlen Hm.
  apply lseg_app in Hseg as (q1 & Hs1 & (-> & q2 & Hl2 & -> & q3 & Hm' & Hs2)); [|done].
  rewrite Hm in Hm'; injection Hm' as <-.
  apply NoDup_app in Hnd as (Hn1 & Hd & Hn2). rewrite !list.NoDup_cons, !not_elem_of_cons in Hn2.
  assert (l ∉ l1) by (intros Hin; apply (Hd _ Hin); left).
  split.
  - apply NoDup_app. split; [done|]. split; [|apply list.NoDup_cons; naive_solver].
    intros k Hk. specialize (Hd k Hk). rewrite !not_elem_of_cons in Hd. rewrite not_elem_of_cons. naive_solver.
  - apply lseg_app; [done|]. exists (Some l). split.
    + eapply lseg_frame; [|exact Hs1]. intros k Hk.
      rewrite lookup_insert_ne by (intros ->; done). done.
    + split; [done|]. exists q. rewrite lookup_insert_eq. split; [done|].
      eapply lseg_frame; [|exact Hs2]. intros k Hk.
      rewrite lookup_insert_ne by (intros ->; naive_solver). done.
Qed.

Lemma linked_tail h l ls x xs q :
  linked h (Some l) (l :: ls) (x :: xs) -> h !! l = Some (x, q) -> linked h q ls xs.
Proof.
  intros [Hnd (_ & q' & Hl' & Hseg)] Hl. apply list.NoDup_cons in Hnd as [_ Hnd].
  rewrite Hl in Hl'; injection Hl' as <-. by split.
Qed.

Lemma delete_middle {A} (l1 : list A) m l2 : delete (length l1) (l1 ++ m :: l2) = l1 ++ l2.
Proof. induction l1; simpl; f_equal; auto. Qed.

(** [LinkedList::drop_element] on a well-formed list returns, with fuel for one step per
    element and one more; it unlinks exactly the first element equal to the argument,
    gives that node, and no other, to the callback, and keeps the rest in order;
    if there is none, memory and list are as before and the callback is not called. *)
Theorem drop_element_refines {S} (func : S -> positive -> S) fuel h head ls xs x s :
  linked h head ls xs -> (length ls < fuel)%nat ->
  exists h' head' s' ls',
    drop_element func fuel h head x s = Ok (h', head', s') /\
    linked h' head' ls' (list_drop x xs) /\
    unchanged_off h h' ls /\
    match drop_index x xs with
    | Some i => exists l, ls !! i = Some l /\ ls' = delete i ls /\ s' = func s l
    | None => h' = h /\ head' = head /\ ls' = ls /\ s' = s
    end.
Proof.
  intros Hlink Hf. rewrite list_drop_index. pose proof Hlink as [_ Hseg].
  destruct ls as [|l ls], xs as [|y xs]; try done.
  - simpl in Hseg; subst. simpl. exists h, None, s, []. done.
  - pose proof Hseg as (-> & q & Hl & _). unfold drop_element.
    rewrite (deref_some _ _ _ Hl); cbn [rbind drop_index].
    destruct (eqb y x) eqn:E.
    { exists h, q, (func s l), ls. split; [done|]. split; [by eapply linked_tail|].
      split; [done|]. by exists l. }
    pose proof (drop_position_spec x ls fuel h (Some l) xs y l Hseg) as Hpos.
    destruct (drop_index x xs) as [i|]; cbn [fmap option_fmap option_map].
    + destruct Hpos as (l1 & l' & m & l2 & x1 & z & w & x2 & q2 & E1 & E2 & E3 & E4 & E5 & E6 & E7 & E8);
        [simpl in Hf; lia|].
      rewrite E1, E2 in Hlink |- *. rewrite E5; cbn [rbind].
      rewrite (deref_some _ _ _ E6); cbn [rbind]. rewrite (deref_some _ _ _ E7); cbn [rbind].
      rewrite E8, (set_next_some _ _ _ _ _ E6); cbn [rbind].
      eexists _, _, _, (l1 ++ l' :: l2). split; [done|].
      assert (Hdel : forall A (a : list A) b c d, delete (Datatypes.S (length a)) (a ++ b :: c :: d) = a ++ b :: d).
      { intros A a b c d. pose proof (delete_middle (a ++ [b]) c d) as Hd.
        rewrite length_app, <- !app_assoc, Nat.add_comm in Hd. done. }
      rewrite <- E4 at 1. rewrite E3, Hdel. split; [by eapply unlink_linked|]. split.
      { intros k Hk. rewrite lookup_insert_ne; [done|]. intros ->. apply Hk, elem_of_app. right; left. }
      exists m. rewrite <- E4, Hdel. split; [|done].
      rewrite lookup_app_r by lia. by replace (Datatypes.S (length l1) - length l1)%nat with 1%nat by lia.
    + destruct Hpos as (l' & z & E5 & E6); [simpl in Hf; lia|]. rewrite E5; cbn [rbind].
      rewrite (deref_some _ _ _ E6); cbn [rbind].
      eexists _, _, _, _. split; [done|]. split; [exact Hlink|]. done.
Qed.

End drop_lemmas.

(** [LinkedList::clear] empties the list and hands every node to the callback exactly
    once, in list order; [for_each] visits the values in list order. *)
Theorem clear_for_each_visit {S} (func : S -> positive -> S) (on_element : S -> T -> S)
    fuel h head ls xs s :
  linked h head ls xs -> (length ls < fuel)%nat ->
  clear func fuel h head s = Ok (None, fold_left func ls s) /\
  for_each on_element fuel h head s = Ok (fold_left on_element xs s).
Proof.
  revert fuel head xs s. assert (H : forall fuel head xs s,
    lseg h head ls xs None -> (length ls < fuel)%nat ->
    clear func fuel h head s = Ok (None, fold_left func ls s) /\
    for_each on_element fuel h head s = Ok (fold_left on_element xs s)).
  { induction ls as [|l ls IH]; intros fuel head xs s Hseg Hf; destruct fuel as [|fuel]; try lia;
      destruct xs as [|x xs]; try done.
    - simpl in Hseg; by subst.
    - destruct Hseg as (-> & q & Hl & Hseg). cbn [clear for_each].
      rewrite (deref_some _ _ _ Hl); cbn [rbind fold_left]. simpl in Hf.
      split; [eapply IH|eapply IH]; eauto; lia. }
  intros fuel head xs s [_ Hseg] Hf. by apply H.
Qed.
End LinkedList.

(** ** Is the list kept sorted? *)

Section sortedness.
Context {T : Type} (key : T -> Z).
Local Open Scope Z_scope.

(** [operator<] of the element types compares one member. *)
Definition key_less (a b : T) : bool := key a <? key b.

Lemma insert_after_perm (lt : T -> T -> bool) x l : Permutation (insert_after lt x l) (x :: l).
Proof.
  induction l as [|y [|z l] IH]; simpl; [done|constructor|].
  destruct (lt y x); [|constructor]. simpl in IH. rewrite IH. constructor.
Qed.

Lemma list_insert_perm (lt : T -> T -> bool) x l : Permutation (list_insert lt x l) (x :: l).
Proof. destruct l as [|y l]; [done|]. unfold list_insert. destruct (lt x y); [done|apply insert_after_perm]. Qed.

Lemma insert_after_stop x z l : key x <= key z -> insert_after key_less x (z :: l) = z :: x :: l.
Proof.
  intros Hle. simpl. unfold key_less at 1. destruct (Z.ltb_spec (key z) (key x)); [lia|].
  by destruct l.
Qed.

Lemma insert_after_sorted x l : forall y,
  sorted_by key (y :: l) -> key y <= key x ->
  sorted_by key (insert_after key_less x (y :: l)) <->
  (exists z, z ∈ y :: l /\ key z = key x) \/ (forall z, z ∈ y :: l -> key z < key x).
Proof.
  induction l as [|z l IH]; intros y Hs Hle.
  - split; intros _.
    + destruct (Z.eq_dec (key y) (key x)); [left; exists y; split; [left|done]|right].
      intros z ->%list_elem_of_singleton. lia.
    + simpl. rewrite !sorted_by_cons. repeat constructor. lia.
  - pose proof Hs as Hs0. apply sorted_by_cons in Hs as [Hy Hs]. rewrite List.Forall_forall in Hy.
    setoid_rewrite <- list_elem_of_In in Hy.
    destruct (Z.eq_dec (key y) (key x)) as [Heq|Hne].
    + rewrite insert_after_stop by lia. split; [intros _; left; exists y; split; [left|done]|].
      intros _. rewrite 2!sorted_by_cons, !List.Forall_forall. setoid_rewrite <- list_elem_of_In.
      setoid_rewrite elem_of_cons. split; [|split; [|done]].
      * intros b [->|Hb]; [lia|by apply Hy].
      * intros b Hb. apply elem_of_cons, Hy in Hb. lia.
    + change (insert_after key_less x (y :: z :: l)) with
        (if key_less y x then y :: insert_after key_less x (z :: l) else y :: x :: z :: l).
      unfold key_less at 1. destruct (Z.ltb_spec (key y) (key x)); [|lia].
      destruct (Z_le_gt_dec (key z) (key x)) as [Hz|Hz].
      * specialize (IH z Hs Hz). rewrite sorted_by_cons, IH. split.
        -- intros [_ [(w & Hw & Hk)|Hall]]; [left; exists w; split; [by right|done]|right].
           intros w [->|Hw]%elem_of_cons; [lia|auto].
        -- intros Hor. split.
           ++ apply List.Forall_forall. intros w. rewrite <- list_elem_of_In, insert_after_perm.
              intros [->|Hw]%elem_of_cons; [lia|auto].
           ++ destruct Hor as [(w & [->|Hw]%elem_of_cons & Hk)|Hall]; [lia|left; eauto|right].
              intros w Hw. apply Hall. by right.
      * rewrite insert_after_stop by lia. rewrite !sorted_by_cons. split.
        -- intros (_ & Hzx & _). apply List.Forall_cons_iff in Hzx as [? _]. lia.
        -- assert (Hlow : forall w, w ∈ z :: l -> key x < key w).
           { apply sorted_by_cons in Hs as [Hzl _]. rewrite List.Forall_forall in Hzl.
             intros w [->|Hw]%elem_of_cons; [lia|]. apply list_elem_of_In, Hzl in Hw. lia. }
           intros [(w & [->|Hw]%elem_of_cons & Hk)|Hall]; [lia|apply Hlow in Hw; lia|].
           assert (key z < key x); [|lia]. apply Hall. right; left.
Qed.

(** When a sorted list stays sorted after an insertion. *)
Definition insert_keeps_order (x : T) (l : list T) : Prop :=
  (exists y, head l = Some y /\ key x < key y) \/
  (exists y, y ∈ l /\ key y = key x) \/
  (forall y, y ∈ l -> key y < key x).

Lemma list_insert_sorted_iff x l : sorted_by key l ->
  sorted_by key (list_insert key_less x l) <-> insert_keeps_order x l.
Proof.
  unfold insert_keeps_order. intros Hs. destruct l as [|y l].
  - simpl. rewrite sorted_by_cons. split; [|by repeat constructor].
    intros _. do 2 right. by intros y Hy%elem_of_nil.
  - unfold list_insert, key_less at 1. destruct (Z.ltb_spec (key x) (key y)).
    + split; [intros _; left; eauto|]. intros _. apply sorted_by_cons. split; [|done].
      apply sorted_by_cons in Hs as [Hy _]. constructor; [lia|].
      eapply List.Forall_impl; [|exact Hy]. simpl. lia.
    + rewrite insert_after_sorted by done. split; [tauto|].
      intros [(z & [= <-] & Hz)|H']; [lia|done].
Qed.

(** Whether [LinkedList::insert_element] keeps a sorted list sorted (ordered by the
    member [operator<] compares): exactly when the new key is below the head's, or above
    every key, or already present. In every other case, a new key strictly between two
    stored ones, the element lands behind a larger one. *)
Theorem insert_element_sorted_iff fuel h head ls xs new x r :
  linked h head ls xs -> h !! new = Some (x, r) -> new ∉ ls -> (length ls < fuel)%nat ->
  sorted_by key xs ->
  exists h' head' ls' xs',
    insert_element key_less fuel h head (Some new) = Ok (h', head') /\
    linked h' head' ls' xs' /\ Permutation xs' (x :: xs) /\
    (sorted_by key xs' <-> insert_keeps_order x xs).
Proof.
  intros Hl Hnew Hnin Hf Hs.
  destruct (insert_element_spec key_less fuel h head ls xs new x r Hl Hnew Hnin Hf)
    as (h' & head' & ls' & Hok & Hl' & _).
  exists h', head', ls', (list_insert key_less x xs). split; [done|]. split; [done|].
  split; [apply list_insert_perm|by apply list_insert_sorted_iff].
Qed.
End sortedness.

(** ** A concrete list: 1 -> 5, with a node holding 3 to insert *)

Definition ex_heap : gmap positive (Z * option positive) :=
  {[ 1%positive := (1%Z, Some 2%positive); 2%positive := (5%Z, None); 3%positive := (3%Z, None) ]}.

Lemma ex_linked : linked ex_heap (Some 1%positive) [1%positive; 2%positive] [1%Z; 5%Z].
Proof.
  split; [apply (bool_decide_unpack _); vm_compute; exact I|].
  simpl. split; [done|]. exists (Some 2%positive). split; [reflexivity|].
  split; [done|]. exists None. split; reflexivity.
Qed.

Lemma ex_sorted : sorted_by id [1%Z; 5%Z].
Proof. repeat (constructor; try (simpl; unfold id; lia)). Qed.

Lemma insert_element_refines_witness : exists h' head' ls',
  insert_element Z.ltb 3 ex_heap (Some 1%positive) (Some 3%positive) = Ok (h', head') /\
  linked h' head' ls' [1; 5; 3]%Z /\
  Permutation ls' [3; 1; 2]%positive /\ unchanged_off ex_heap h' [3; 1; 2]%positive.
Proof.
  apply (insert_element_refines Z.ltb 3 ex_heap (Some 1%positive) [1; 2]%positive [1; 5]%Z 3%positive 3%Z None);
    [exact ex_linked|reflexivity|apply (bool_decide_unpack _); vm_compute; exact I|simpl; lia].
Defined.

Lemma insert_element_sorted_iff_witness : exists h' head' ls' xs',
  insert_element (key_less id) 3 ex_heap (Some 1%positive) (Some 3%positive) = Ok (h', head') /\
  linked h' head' ls' xs' /\ Permutation xs' [3; 1; 5]%Z /\
  (sorted_by id xs' <-> insert_keeps_order id 3%Z [1; 5]%Z).
Proof.
  apply (insert_element_sorted_iff id 3 ex_heap (Some 1%positive) [1; 2]%positive [1; 5]%Z 3%positive 3%Z None);
    [exact ex_linked|reflexivity|apply (bool_decide_unpack _); vm_compute; exact I|simpl; lia|exact ex_sorted].
Defined.

Lemma drop_element_refines_witness : exists h' head' s' ls',
  drop_element Z.eqb (fun s l => l :: s) 3 ex_heap (Some 1%positive) 5%Z [] = Ok (h', head', s') /\
  linked h' head' ls' [1%Z] /\ unchanged_off ex_heap h' [1; 2]%positive /\
  exists l, [1; 2]%positive !! 1%nat = Some l /\ ls' = [1%positive] /\ s' = [l].
Proof.
  apply (drop_element_refines Z.eqb (fun s l => l :: s) 3 ex_heap (Some 1%positive)
    [1; 2]%positive [1; 5]%Z 5%Z []); [exact ex_linked|simpl; lia].
Defined.

Lemma clear_for_each_visit_witness :
  clear (fun s l => l :: s) 3 ex_heap (Some 1%positive) [] = Ok (None, [2; 1]%positive) /\
  for_each (fun s x => x :: s) 3 ex_heap (Some 1%positive) [] = Ok [5; 1]%Z.
Proof.
  split;
    [apply (clear_for_each_visit (fun s l => l :: s) (fun s _ => s) 3 ex_heap _ [1; 2]%positive [1; 5]%Z [])
    |apply (clear_for_each_visit (fun s _ => s) (fun s x => x :: s) 3 ex_heap _ [1; 2]%positive [1; 5]%Z [])];
    first [exact ex_linked|simpl; lia].
Defined.
