(* ===== verification/Serialize.v ===== *)
(** * Item serialisation (src_jni/serialize.hh, src_jni/serialize.cc)

    [encode_string]/[decode_string] with their C buffers; the output stream of an
    [ItemSerializer] as the text it appends; an [ItemDeserializer] as its unread
    input and end-of-file flag, threaded through a state-and-exception monad because
    the container loops catch [UnexpectedEndWhenDeserializing] and look at the flag.
    [Serializable] is the interface the overloads of [process] give a type, with the
    laws its clients need; the overloads are its instances. The [float] and [double]
    overloads are not modelled. *)

From Stdlib Require Import ZArith Lia Ascii String.
From stdpp Require Import base list strings numbers.
From S2P Require Import Prelude CxxString StdMap.
Local Open Scope string_scope.
Local Open Scope list_scope.
Local Open Scope Z_scope.
Local Open Scope vk_scope.

(** ** encode_string and decode_string *)

Definition NUL : ascii := of_byte 0.

Fixpoint nuls (n : nat) : string :=
  match n with O => EmptyString | S n => String NUL (nuls n) end.

(** [char inp[size + 1]] after [strncpy(inp, s.c_str(), sizeof(inp))]. *)
Definition c_buffer (s : string) : string :=
  (c_str s ++ nuls (String.length s + 1 - String.length (c_str s)))%string.

(** The loop of [encode_string] from [inp[k]] on; [tok] is the text from [tok] to [inp[k]]. *)
(* @src src_jni/serialize.cc:74-98 Serialize::encode_string *)
Fixpoint encode_loop (inp tok output : string) : string :=
  match inp with
  | EmptyString => (output ++ tok)%string
  | String c inp =>
      if byte_of c =? 0 then (output ++ tok)%string
      else if Ascii.eqb c "%" then encode_loop inp "" (output ++ tok ++ "%25")%string
      else if Ascii.eqb c "=" then encode_loop inp "" (output ++ tok ++ "%3d")%string
      else if Ascii.eqb c ";" then encode_loop inp "" (output ++ tok ++ "%3b")%string
      else encode_loop inp (tok ++ String c EmptyString)%string output
  end.

(* @src src_jni/serialize.cc:64-101 Serialize::encode_string *)
Definition encode_string (uncoded : string) : string :=
  if (String.length uncoded =? 0)%nat then "<empty>"
  else encode_loop (c_buffer uncoded) "" "".

(* @src src_jni/serialize.cc:41-45 Serialize::decode_string *)
Definition hex_value (c : ascii) : Z :=
  let v := byte_of c in
  if (v <=? byte_of "f") && (byte_of "a" <=? v) then 10 + v - byte_of "a"
  else if (v <=? byte_of "F") && (byte_of "A" <=? v) then 10 + v - byte_of "A"
  else if (v <=? byte_of "9") && (byte_of "0" <=? v) then v - byte_of "0"
  else v.

(** The loop of [decode_string] from [inp[k]] on; reading past the buffer, which
    a [%] in its last two characters leads to, is undefined behaviour. *)
(* @src src_jni/serialize.cc:35-61 Serialize::decode_string *)
Fixpoint decode_loop (inp tok output : string) : result string :=
  match inp with
  | EmptyString => Err (UndefinedBehaviour "read past inp")
  | String c inp =>
      if byte_of c =? 0 then Ok (output ++ tok)%string
      else if Ascii.eqb c "%" then
        match inp with
        | String v0 (String v1 inp) =>
            let v := u8 (Z.lor (Z.shiftl (hex_value v0) 4) (hex_value v1)) in
            decode_loop inp "" (output ++ tok ++ c_str (String (of_byte v) EmptyString))%string
        | _ => Err (UndefinedBehaviour "read past inp")
        end
      else decode_loop inp (tok ++ String c EmptyString)%string output
  end.

(* @src src_jni/serialize.cc:27-62 Serialize::decode_string *)
Definition decode_string (encoded : string) : result string :=
  decode_loop (c_buffer encoded) "" "".

(** What [encode_string] writes for one character. *)
Definition enc_char (c : ascii) : string :=
  if Ascii.eqb c "%" then "%25" else if Ascii.eqb c "=" then "%3d"
  else if Ascii.eqb c ";" then "%3b" else String c EmptyString.

Fixpoint enc (s : string) : string :=
  match s with EmptyString => EmptyString | String c s => (enc_char c ++ enc s)%string end.

Lemma c_buffer_nul_free s : nul_free s = true -> c_buffer s = (s ++ String NUL EmptyString)%string.
Proof.
  intros H. unfold c_buffer. rewrite c_str_nul_free by done.
  replace (String.length s + 1 - String.length s)%nat with 1%nat by lia. done.
Qed.

Lemma encode_loop_enc s : forall tok out, nul_free s = true ->
  encode_loop (s ++ String NUL EmptyString)%string tok out = (out ++ tok ++ enc s)%string.
Proof.
  induction s as [|c s IH]; intros tok out H; cbn [append encode_loop enc nul_free] in *.
  - change (byte_of NUL =? 0) with true. cbv iota. by rewrite string_app_nil_r.
  - zbool. destruct (byte_of c =? 0) eqn:E; [zbool; lia|]. unfold enc_char.
    destruct (Ascii.eqb c "%"), (Ascii.eqb c "="), (Ascii.eqb c ";");
      rewrite IH by done; by rewrite ?string_app_assoc.
Qed.

Lemma encode_string_enc s : nul_free s = true -> s <> EmptyString -> encode_string s = enc s.
Proof.
  intros H Hne. unfold encode_string. destruct s as [|c s]; [done|]. simpl Nat.eqb. cbv iota.
  by rewrite c_buffer_nul_free, encode_loop_enc.
Qed.

Lemma enc_nul_free s : nul_free s = true -> nul_free (enc s) = true.
Proof.
  induction s as [|c s IH]; intros H; [done|]. cbn [enc nul_free] in *. zbool.
  rewrite nul_free_app, IH by done. unfold enc_char.
  repeat case_if; try done. simpl. by rewrite (proj2 (Z.eqb_neq _ _)).
Qed.

Lemma enc_contains s c : c = ";"%char \/ c = "="%char -> contains c (enc s) = false.
Proof.
  intros Hc. induction s as [|d s IH]; [done|]. cbn [enc]. rewrite contains_app, IH, orb_false_r.
  unfold enc_char. destruct (Ascii.eqb_spec d "%"); [by destruct Hc as [->| ->]|].
  destruct (Ascii.eqb_spec d "="); [by destruct Hc as [->| ->]|].
  destruct (Ascii.eqb_spec d ";"); [by destruct Hc as [->| ->]|].
  cbn [contains]. rewrite orb_false_r. apply Ascii.eqb_neq. by destruct Hc as [->| ->].
Qed.

Lemma enc_nonempty s : s <> EmptyString -> enc s <> EmptyString.
Proof.
  destruct s as [|c s]; [done|]. intros _. cbn [enc]. unfold enc_char. repeat case_if; done.
Qed.

Lemma decode_loop_enc s : forall tok out, nul_free s = true ->
  decode_loop (enc s ++ String NUL EmptyString)%string tok out = Ok (out ++ tok ++ s)%string.
Proof.
  induction s as [|c s IH]; intros tok out H; cbn [enc nul_free] in *.
  - cbn. by rewrite string_app_nil_r.
  - zbool. unfold enc_char.
    destruct (Ascii.eqb_spec c "%") as [->|H1]; [|destruct (Ascii.eqb_spec c "=") as [->|H2];
      [|destruct (Ascii.eqb_spec c ";") as [->|H3]]].
    1-3: cbn [append decode_loop]; change (byte_of "%" =? 0) with false;
      rewrite Ascii.eqb_refl; cbv iota; rewrite IH by done; by rewrite ?string_app_assoc.
    cbn [append decode_loop]. rewrite (proj2 (Z.eqb_neq _ _)) by done.
    rewrite (proj2 (Ascii.eqb_neq _ _) H1). rewrite IH by done. by rewrite ?string_app_assoc.
Qed.

Lemma decode_enc s : nul_free s = true -> decode_string (enc s) = Ok s.
Proof.
  intros H. unfold decode_string. rewrite c_buffer_nul_free by by apply enc_nul_free.
  by rewrite decode_loop_enc.
Qed.

Lemma encode_string_nul_free s : nul_free s = true -> nul_free (encode_string s) = true.
Proof.
  intros H. destruct (String.string_dec s EmptyString) as [->|Hne]; [done|].
  rewrite encode_string_enc by done. by apply enc_nul_free.
Qed.

Lemma encode_string_contains s c : nul_free s = true -> c = ";"%char \/ c = "="%char ->
  contains c (encode_string s) = false.
Proof.
  intros H Hc. destruct (String.string_dec s EmptyString) as [->|Hne].
  - by destruct Hc as [->| ->].
  - rewrite encode_string_enc by done. by apply enc_contains.
Qed.

Lemma decode_encode s : nul_free s = true -> s <> EmptyString ->
  decode_string (encode_string s) = Ok s.
Proof. intros H Hne. rewrite encode_string_enc by done. by apply decode_enc. Qed.

Lemma encode_string_nonempty s : nul_free s = true -> encode_string s <> EmptyString.
Proof.
  intros H. destruct (String.string_dec s EmptyString) as [->|Hne]; [done|].
  rewrite encode_string_enc by done. by apply enc_nonempty.
Qed.

(** ** ItemDeserializer: the input stream and the two ways it fails *)

(** [std::istringstream is]: what is unread, and [eofbit]. *)
(* @src src_jni/serialize.hh:166-167 ItemDeserializer::is *)
Record istream : Type := IStream { unread : string; is_eof : bool }.

(** A deserialising step: its value or exception, and the stream it leaves. *)
Definition D (A : Type) : Type := istream -> result A * istream.
Definition dret {A} (a : A) : D A := fun st => (Ok a, st).
Definition dthrow {A} (e : exn) : D A := fun st => (Err e, st).
Definition dbind {A B} (m : D A) (k : A -> D B) : D B := fun st =>
  match m st with
  | (Ok a, st) => k a st
  | (Err e, st) => (Err e, st)
  end.
Definition dlift {A} (m : result A) : D A := fun st => (m, st).

Notation "'do!' x ':=' m 'in' k" := (dbind m (fun x => k))
  (at level 10, x pattern, m at level 100, k at level 200) : vk_scope.

(** [std::getline(is, val, ';')]; on a stream at its end nothing is read. *)
Definition getline : D string := fun st =>
  if is_eof st then (Ok "", st)
  else match split_at ";" (unread st) with
       | (val, Some rest) => (Ok val, IStream rest false)
       | (val, None) => (Ok val, IStream EmptyString true)
       end.

(* @src src_jni/serialize.hh:182-187 ItemDeserializer::get_string *)
Definition get_string : D string :=
  do! val := getline in
  fun st => if is_eof st then (Err UnexpectedEndWhenDeserializing, st) else (Ok val, st).

(* @src src_jni/serialize.hh:169-180 ItemDeserializer::verify_type *)
Definition verify_type (type_identifier : string) : D unit :=
  do! type := get_string in
  if String.eqb type type_identifier then dret tt else dthrow UnexpectedTypeWhenDeserializing.

(* @src src_jni/serialize.hh:191-192 ItemDeserializer::ItemDeserializer *)
Definition new_deserializer (input : string) : result istream :=
  let! text := decode_string input in Ok (IStream text false).

(* @src src_jni/serialize.hh:91-93 ItemSerializer::result *)
Definition serializer_result (result_stream : string) : string := encode_string result_stream.

(** [ItemDeserializer subdeser(decode_string(subserialized))], and a computation on it. *)
Definition in_subdeserializer {A} (subserialized : string) (m : D A) : result A :=
  let! text := decode_string subserialized in
  let! st := new_deserializer text in
  fst (m st).

(** One item of the stream: an identifier without [;], and a payload. *)
Definition item (identifier payload : string) : string :=
  (identifier ++ String ";" (payload ++ String ";" EmptyString))%string.

Definition get_item {A} (identifier : string) (read : string -> result A) : D A :=
  do! _ := verify_type identifier in
  do! val := get_string in
  dlift (read val).

(** The stream moved: it is shorter, or at its end. *)
Definition moved (st st' : istream) : Prop :=
  is_eof st' = true \/ (String.length (unread st') < String.length (unread st))%nat.

Definition not_longer (st st' : istream) : Prop :=
  is_eof st' = true \/ (String.length (unread st') <= String.length (unread st))%nat.

(** What [process] on a type promises to the code that serialises a value of it, reads
    it back, or loops over the items of a container: the text round trips, it has no
    NUL, every call on a stream with input consumes some, a stream without a complete item is
    reported as ended, and no call runs out of fuel. *)
Class Serializable (A : Type) : Type := {
  ser : A -> string;
  deser : D A;
  ser_ok : A -> Prop;
  ser_text : forall a, ser_ok a -> nul_free (ser a) = true /\ ser a <> EmptyString;
  ser_deser : forall a rest, ser_ok a ->
    deser (IStream (ser a ++ rest)%string false) = (Ok a, IStream rest false);
  deser_moves : forall st, is_eof st = false -> moved st (snd (deser st));
  deser_eof : forall st, is_eof st = true -> is_eof (snd (deser st)) = true;
  deser_at_end : forall st, is_eof st = false -> contains ";" (unread st) = false ->
    deser st = (Err UnexpectedEndWhenDeserializing, IStream EmptyString true);
  deser_fuel : forall st, fst (deser st) <> Err OutOfFuel
}.

Lemma split_at_length s pre rest : split_at ";" s = (pre, Some rest) ->
  (String.length rest < String.length s)%nat.
Proof.
  revert pre; induction s as [|c s IH]; intros pre; simpl; [done|].
  destruct (Ascii.eqb c ";").
  - intros [= <- <-]. lia.
  - destruct (split_at ";" s) as [p r]. intros [= <- ->]. specialize (IH p eq_refl). lia.
Qed.

Lemma get_string_item s rest : contains ";" s = false ->
  get_string (IStream (s ++ String ";" rest)%string false) = (Ok s, IStream rest false).
Proof. intros H. unfold get_string, dbind, getline. simpl. by rewrite split_at_app. Qed.

Lemma get_string_moves st : is_eof st = false -> moved st (snd (get_string st)).
Proof.
  intros H. unfold get_string, dbind, getline, moved. rewrite H.
  destruct (split_at ";" (unread st)) as [val [rest|]] eqn:E; simpl; [|by left].
  right. by eapply split_at_length.
Qed.

Lemma get_string_end st : is_eof st = false -> contains ";" (unread st) = false ->
  get_string st = (Err UnexpectedEndWhenDeserializing, IStream EmptyString true).
Proof. intros H1 H2. unfold get_string, dbind, getline. by rewrite H1, split_at_none. Qed.

Lemma get_string_fuel st : fst (get_string st) <> Err OutOfFuel.
Proof.
  unfold get_string, dbind, getline. destruct (is_eof st) eqn:E; simpl; [by rewrite E|].
  by destruct (split_at ";" (unread st)) as [val [rest|]].
Qed.

Lemma moved_trans st1 st2 st3 : moved st1 st2 -> (is_eof st2 = true -> is_eof st3 = true) ->
  (is_eof st2 = false -> moved st2 st3) -> moved st1 st3.
Proof.
  unfold moved. destruct (is_eof st2); [tauto|]. intros [|H1] _ H2; [done|].
  destruct (H2 eq_refl); [by left|right; lia].
Qed.

Lemma get_string_eof st : is_eof st = true -> is_eof (snd (get_string st)) = true.
Proof. intros H. unfold get_string, dbind, getline. rewrite H. simpl. by rewrite H. Qed.

Lemma item_nul_free i p : nul_free i = true -> nul_free p = true -> nul_free (item i p) = true.
Proof.
  intros Hi Hp. unfold item. rewrite nul_free_app, Hi. cbn [nul_free].
  by rewrite nul_free_app, Hp.
Qed.

Lemma item_nonempty i p : item i p <> EmptyString.
Proof. unfold item. by destruct i. Qed.

Section get_item.
Context {A : Type} (i : string) (read : string -> result A).

Lemma verify_type_item j rest : contains ";" j = false ->
  verify_type i (IStream (j ++ String ";" rest)%string false) =
    if String.eqb j i then (Ok tt, IStream rest false)
    else (Err UnexpectedTypeWhenDeserializing, IStream rest false).
Proof. intros H. unfold verify_type, dbind. rewrite get_string_item by done. by case_if. Qed.

Lemma get_item_item p rest : contains ";" i = false -> contains ";" p = false ->
  get_item i read (IStream (item i p ++ rest)%string false) = (read p, IStream rest false).
Proof.
  intros Hi Hp. unfold get_item, item. rewrite string_app_assoc. cbn [append].
  unfold dbind. rewrite verify_type_item, String.eqb_refl by done.
  rewrite string_app_assoc. cbn [append]. by rewrite get_string_item.
Qed.

Lemma verify_type_snd st : snd (verify_type i st) = snd (get_string st).
Proof.
  unfold verify_type, dbind. destruct (get_string st) as [[v|e] st']; [|done]. by case_if.
Qed.

Lemma get_item_moves st : is_eof st = false -> moved st (snd (get_item i read st)).
Proof.
  intros H. pose proof (verify_type_snd st) as Hv. pose proof (get_string_moves st H) as Hm.
  unfold get_item. unfold dbind at 1. destruct (verify_type i st) as [[[]|e] st']; simpl in *; subst; [|done].
  eapply moved_trans; [exact Hm| |].
  - intros He. unfold dbind. pose proof (get_string_eof _ He) as He2.
    by destruct (get_string (snd (get_string st))) as [[?|?] ?].
  - intros He. unfold dbind. pose proof (get_string_moves _ He) as He2.
    by destruct (get_string (snd (get_string st))) as [[?|?] ?].
Qed.

Lemma get_item_eof st : is_eof st = true -> is_eof (snd (get_item i read st)) = true.
Proof.
  intros H. pose proof (verify_type_snd st) as Hv. pose proof (get_string_eof st H) as He.
  unfold get_item. unfold dbind at 1. destruct (verify_type i st) as [[[]|e] st']; simpl in *; subst; [|done].
  unfold dbind. pose proof (get_string_eof _ He) as He2.
  by destruct (get_string (snd (get_string st))) as [[?|?] ?].
Qed.

Lemma get_item_end st : is_eof st = false -> contains ";" (unread st) = false ->
  get_item i read st = (Err UnexpectedEndWhenDeserializing, IStream EmptyString true).
Proof.
  intros H1 H2. unfold get_item, verify_type. unfold dbind. by rewrite get_string_end.
Qed.

Lemma get_item_fuel st : (forall p, read p <> Err OutOfFuel) ->
  fst (get_item i read st) <> Err OutOfFuel.
Proof.
  intros Hr. unfold get_item, verify_type, dbind. pose proof (get_string_fuel st) as H1.
  destruct (get_string st) as [[v|e] st']; simpl in *; [|congruence]. case_if; [|done]. simpl.
  pose proof (get_string_fuel st') as H2.
  destruct (get_string st') as [[w|e] st'']; simpl in *; [apply Hr|congruence].
Qed.
End get_item.

(** ** Scalars *)

Lemma contains_semicolon_to_string v : contains ";" (to_string v) = false.
Proof. apply to_string_contains; [reflexivity|discriminate]. Qed.

Section scalar.
(** A type written as one item: its identifier, how it prints and how it is read. *)
Context {A : Type} (i : string) (put : A -> string) (read : string -> result A) (ok : A -> Prop).
Context (i_text : nul_free i = true /\ contains ";" i = false).
Context (put_text : forall a, ok a -> nul_free (put a) = true /\ contains ";" (put a) = false).
Context (read_put : forall a, ok a -> read (put a) = Ok a).
Context (read_fuel : forall p, read p <> Err OutOfFuel).

Definition scalar : Serializable A.
Proof.
  refine {| ser := fun a => item i (put a); deser := get_item i read; ser_ok := ok |}.
  - intros a Ha. split; [|apply item_nonempty]. apply item_nul_free; [apply i_text|by apply put_text].
  - intros a rest Ha. rewrite get_item_item by (apply i_text || by apply put_text). by rewrite read_put.
  - intros st. apply get_item_moves.
  - intros st. apply get_item_eof.
  - intros st. apply get_item_end.
  - intros st. by apply get_item_fuel.
Defined.
End scalar.

(* @src src_jni/serialize.hh:54-56 ItemSerializer::process(bool) *)
Definition put_bool (v : bool) : string := if v then "true" else "false".

(* @src src_jni/serialize.hh:201-206 ItemDeserializer::process(bool&) *)
Definition read_bool (val_s : string) : result bool := Ok (String.eqb val_s "true").

#[export] Instance bool_serializable : Serializable bool.
Proof.
  refine (scalar "bool" put_bool read_bool (fun _ => True) _ _ _ _).
  - by split.
  - intros [] _; by split.
  - by intros [].
  - done.
Defined.

(* @src src_jni/serialize.hh:208-213 ItemDeserializer::process(int&) *)
Definition read_int (val_s : string) : result Z := Ok (stoi val_s).

(* @src src_jni/serialize.hh:58-60 ItemSerializer::process(int) *)
#[export] Instance int_serializable : Serializable Z.
Proof.
  refine (scalar "int" to_string read_int in_i32 _ _ _ _).
  - by split.
  - intros v _. split; [apply to_string_nul_free|apply contains_semicolon_to_string].
  - intros v Hv. unfold read_int. by rewrite stoi_to_string.
  - done.
Defined.

(* @src src_jni/serialize.hh:215-220 ItemDeserializer::process(unsigned&) *)
Definition read_uint (val_s : string) : result Z := Ok (u32 (stoul val_s)).

(** [unsigned int]; not an instance, since [Z] already has the one of [int]. *)
(* @src src_jni/serialize.hh:62-64 ItemSerializer::process(unsigned) *)
Definition uint_serializable : Serializable Z.
Proof.
  refine (scalar "uint" to_string read_uint in_u32 _ _ _ _).
  - by split.
  - intros v _. split; [apply to_string_nul_free|apply contains_semicolon_to_string].
  - intros v Hv. unfold read_uint. by rewrite stoul_to_string, u32_id.
  - done.
Defined.

Lemma decode_loop_fuel s : forall tok out, decode_loop s tok out <> Err OutOfFuel.
Proof.
  enough (H : forall n s, (String.length s <= n)%nat ->
    forall tok out, decode_loop s tok out <> Err OutOfFuel) by (intros tok out; by apply (H (String.length s))).
  clear s. induction n as [|n IH]; intros s Hlen tok out; destruct s as [|c s]; simpl in *; try done; try lia.
  do 2 (case_if; [try done|]).
  - destruct s as [|v0 [|v1 s]]; try done. apply IH. simpl in Hlen. lia.
  - apply IH. lia.
Qed.

Lemma decode_string_fuel s : decode_string s <> Err OutOfFuel.
Proof. apply decode_loop_fuel. Qed.

(* @src src_jni/serialize.hh:194-199 ItemDeserializer::process(std::string&) *)
Definition read_string (val_s : string) : result string := decode_string val_s.

(* @src src_jni/serialize.hh:50-52 ItemSerializer::process(std::string) *)
#[export] Instance string_serializable : Serializable string.
Proof.
  refine (scalar "string" encode_string read_string
    (fun s => nul_free s = true /\ s <> EmptyString) _ _ _ _).
  - by split.
  - intros s [Hs _]. split; [by apply encode_string_nul_free|apply encode_string_contains; auto].
  - intros s [Hs Hne]. by apply decode_encode.
  - apply decode_string_fuel.
Defined.

(** ** Fields in a row: the calls of a [serderize] member *)

Section fields.
Context {A B : Type}.

(** The second field's type may depend on the first field. *)
Section fields_then.
Context (SA : Serializable A) (SB : A -> Serializable B).

Definition fields_then : Serializable (A * B).
Proof.
  refine {| ser := fun p => (@ser A SA (fst p) ++ @ser B (SB (fst p)) (snd p))%string;
            deser := do! a := @deser A SA in do! b := @deser B (SB a) in dret (a, b);
            ser_ok := fun p => @ser_ok A SA (fst p) /\ @ser_ok B (SB (fst p)) (snd p) |}.
  - intros [a b] [Ha Hb]; simpl in *. destruct (ser_text a Ha) as [H1 H2], (ser_text (Serializable := SB a) b Hb) as [H3 H4].
    split; [by rewrite nul_free_app, H1|]. by destruct (ser a).
  - intros [a b] rest [Ha Hb]; simpl in *. unfold dbind.
    by rewrite string_app_assoc, ser_deser, ser_deser.
  - intros st H. pose proof (deser_moves (A:=A) st H) as Hm. unfold dbind.
    destruct (deser (A:=A) st) as [[a|e] st']; simpl in *; [|done].
    pose proof (deser_moves (Serializable := SB a) st') as Hm'. pose proof (deser_eof (Serializable := SB a) st') as He.
    destruct (deser (Serializable := SB a) st') as [[b|e] st'']; simpl in *;
      (eapply moved_trans; [exact Hm|exact He|exact Hm']).
  - intros st H. pose proof (deser_eof (A:=A) st H) as Hm. unfold dbind.
    destruct (deser (A:=A) st) as [[a|e] st']; simpl in *; [|done].
    pose proof (deser_eof (Serializable := SB a) st' Hm) as He.
    by destruct (deser (Serializable := SB a) st') as [[b|e] st''].
  - intros st H1 H2. unfold dbind. by rewrite deser_at_end.
  - intros st. unfold dbind. pose proof (deser_fuel (A:=A) st).
    destruct (deser (A:=A) st) as [[a|e] st']; simpl in *; [|congruence].
    pose proof (deser_fuel (Serializable := SB a) st').
    destruct (deser (Serializable := SB a) st') as [[b|e] st'']; simpl in *; [done|congruence].
Defined.
End fields_then.

Context (SA : Serializable A) (SB : Serializable B).

Definition fields_pair : Serializable (A * B) := fields_then SA (fun _ => SB).

(** The same fields, gathered in a struct; [ok] are the values that have these fields. *)
Section fields_part.
Context (make : A -> B) (fields : B -> A) (ok : B -> Prop) (ok_fields : forall b, ok b -> @ser_ok A SA (fields b) /\ make (fields b) = b).

Definition fields_part : Serializable B.
Proof.
  refine {| ser := fun b => @ser A SA (fields b);
            deser := do! a := @deser A SA in dret (make a);
            ser_ok := ok |}.
  - intros b Hb. by apply ser_text, ok_fields.
  - intros b rest Hb. destruct (ok_fields b Hb) as [Hok Hm]. unfold dbind. rewrite ser_deser by done. simpl. by rewrite Hm.
  - intros st H. pose proof (deser_moves (A:=A) st H) as Hm. unfold dbind.
    by destruct (deser (A:=A) st) as [[a|e] st'].
  - intros st H. pose proof (deser_eof (A:=A) st H) as Hm. unfold dbind.
    by destruct (deser (A:=A) st) as [[a|e] st'].
  - intros st H1 H2. unfold dbind. by rewrite deser_at_end.
  - intros st. unfold dbind. pose proof (deser_fuel (A:=A) st).
    destruct (deser (A:=A) st) as [[a|e] st']; simpl in *; [done|congruence].
Defined.
End fields_part.

Definition fields_struct (make : A -> B) (fields : B -> A) (make_fields : forall b, make (fields b) = b) : Serializable B :=
  fields_part make fields (fun b => @ser_ok A SA (fields b)) (fun b Hb => conj Hb (make_fields b)).
End fields.

(** ** Nested items: a sub-serialiser's result, encoded once more *)

Lemma in_subdeserializer_result {A} (text : string) (m : D A) : nul_free text = true ->
  in_subdeserializer (encode_string (serializer_result text)) m =
    fst (m (IStream (if String.eqb text "" then "<empty>" else text) false)).
Proof.
  intros H. unfold in_subdeserializer, new_deserializer, serializer_result.
  rewrite decode_encode by (by apply encode_string_nul_free || by apply encode_string_nonempty).
  cbn [rbind]. destruct (String.eqb_spec text "") as [->|Hne]; [done|].
  by rewrite decode_encode.
Qed.

Lemma in_subdeserializer_fuel {A} p (m : D A) : (forall st, fst (m st) <> Err OutOfFuel) ->
  in_subdeserializer p m <> Err OutOfFuel.
Proof.
  intros Hm. unfold in_subdeserializer, new_deserializer.
  pose proof (decode_string_fuel p). destruct (decode_string p) as [t|e]; simpl; [|congruence].
  pose proof (decode_string_fuel t). destruct (decode_string t) as [u|e]; simpl; [done|congruence].
Qed.

Section nested.
Context {A : Type} (i : string) (put : A -> string) (get : D A) (ok : A -> Prop).
Context (i_text : nul_free i = true /\ contains ";" i = false).
Context (put_text : forall a, ok a -> nul_free (put a) = true).
Context (get_put : forall a, ok a ->
  fst (get (IStream (if String.eqb (put a) "" then "<empty>" else put a) false)) = Ok a).
Context (get_fuel : forall st, fst (get st) <> Err OutOfFuel).

Definition nested : Serializable A.
Proof.
  refine {| ser := fun a => item i (encode_string (serializer_result (put a)));
            deser := get_item i (fun p => in_subdeserializer p get); ser_ok := ok |}.
  - intros a Ha. split; [|apply item_nonempty]. apply item_nul_free; [apply i_text|].
    by apply encode_string_nul_free, encode_string_nul_free, put_text.
  - intros a rest Ha. rewrite get_item_item; [|apply i_text|].
    + by rewrite in_subdeserializer_result, get_put by auto.
    + apply encode_string_contains; [|by left]. by apply encode_string_nul_free, put_text.
  - intros st. apply get_item_moves.
  - intros st. apply get_item_eof.
  - intros st. apply get_item_end.
  - intros st. apply get_item_fuel. intros p. by apply in_subdeserializer_fuel.
Defined.
End nested.

(** A [serderize]-able object behind a pointer or a [shared_ptr]. *)
(* @src src_jni/serialize.hh:106-115 ItemSerializer::process(shared_ptr) *)
Definition put_object {A} (S : Serializable A) (a : A) : string := ser a.

(* @src src_jni/serialize.hh:322-333 ItemDeserializer::process(pointer) *)
Definition get_object {A} (S : Serializable A) : D A := deser.

(* @src src_jni/serialize.hh:128-138 ItemSerializer::process(pointer) *)
Definition object_serializable {A} (identifier : string) (S : Serializable A)
    (i_text : nul_free identifier = true /\ contains ";" identifier = false) : Serializable A.
Proof.
  refine (nested identifier (put_object S) (get_object S) ser_ok i_text _ _ _).
  - intros a Ha. by apply ser_text.
  - intros a Ha. destruct (ser_text a Ha) as [_ Hne]. unfold put_object, get_object.
    apply String.eqb_neq in Hne as ->. pose proof (ser_deser a "" Ha) as Hd.
    rewrite string_app_nil_r in Hd. by rewrite Hd.
  - apply deser_fuel.
Defined.

(* @src src_jni/serialize.hh:96-104 ItemSerializer::process(pair) *)
#[export] Instance pair_serializable {A B} (SA : Serializable A) (SB : Serializable B) :
  Serializable (A * B) := object_serializable "pair" (fields_pair SA SB) (conj eq_refl eq_refl).

(** ** Containers *)

Section containers.
Context {A : Type} (S : Serializable A).

(* @src src_jni/serialize.hh:145-147 ItemSerializer::process(ContainerT) *)
Fixpoint put_elements (elements : list A) : string :=
  match elements with
  | [] => EmptyString
  | a :: l => (ser a ++ put_elements l)%string
  end.

(** [while(!subdeser.eof())] around [try ... catch(UnexpectedEndWhenDeserializing)]. *)
(* @src src_jni/serialize.hh:349-356 ItemDeserializer::process(ContainerT) *)
Fixpoint get_elements {C} (insert : C -> A -> C) (fuel : nat) (elements : C) : D C := fun subdeser =>
  match fuel with
  | O => (Err OutOfFuel, subdeser)
  | Datatypes.S fuel =>
      if is_eof subdeser then (Ok elements, subdeser)
      else match deser subdeser with
           | (Ok element, subdeser) => get_elements insert fuel (insert elements element) subdeser
           | (Err UnexpectedEndWhenDeserializing, subdeser) =>
               get_elements insert fuel elements subdeser
           | (Err e, subdeser) => (Err e, subdeser)
           end
  end.

(** One round per character of input, one to see its end, one to stop. *)
Definition elements_fuel (st : istream) : nat := String.length (unread st) + 3.

Lemma get_elements_put {C} (insert : C -> A -> C) elements : forall fuel acc,
  Forall ser_ok elements -> (length elements + 2 <= fuel)%nat ->
  get_elements insert fuel acc (IStream (put_elements elements) false) =
    (Ok (fold_left insert elements acc), IStream EmptyString true).
Proof.
  induction elements as [|a l IH]; intros fuel acc Hok Hf.
  - do 2 (destruct fuel as [|fuel]; [simpl in Hf; lia|]). cbn [get_elements is_eof put_elements].
    by rewrite deser_at_end.
  - destruct fuel as [|fuel]; [simpl in Hf; lia|]. cbn [get_elements is_eof put_elements].
    apply List.Forall_cons_iff in Hok as [Ha Hl]. rewrite ser_deser by done. cbv iota.
    rewrite IH by (done || simpl in Hf; lia). done.
Qed.

Lemma put_elements_nul_free elements : Forall ser_ok elements ->
  nul_free (put_elements elements) = true.
Proof.
  induction 1 as [|a l Ha Hl IH]; [done|]. simpl. rewrite nul_free_app, IH.
  by destruct (ser_text a Ha) as [-> _].
Qed.

Lemma put_elements_length elements : Forall ser_ok elements ->
  (length elements <= String.length (put_elements elements))%nat.
Proof.
  induction 1 as [|a l Ha Hl IH]; [done|]. simpl. rewrite string_length_app.
  destruct (ser_text a Ha) as [_ Hne]. destruct (ser a); [done|]. simpl. lia.
Qed.

Lemma get_elements_fuel {C} (insert : C -> A -> C) fuel : forall acc st,
  ((if is_eof st then 1 else String.length (unread st) + 2) <= fuel)%nat ->
  fst (get_elements insert fuel acc st) <> Err OutOfFuel.
Proof.
  induction fuel as [|fuel IH]; intros acc st Hf; [destruct (is_eof st); lia|]. cbn [get_elements].
  destruct (is_eof st) eqn:E; [done|]. pose proof (deser_moves st E) as Hm.
  pose proof (deser_fuel st) as Hfu. destruct (deser st) as [[a|e] st']; simpl in *.
  - apply IH. destruct (is_eof st') eqn:E'; [lia|]. destruct Hm; [congruence|lia].
  - assert (fst (get_elements insert fuel acc st') <> Err OutOfFuel).
    { apply IH. destruct (is_eof st') eqn:E'; [lia|]. destruct Hm; [congruence|lia]. }
    destruct e; done.
Qed.

(** [elements.clear()], then insertion at [elements.end()]. *)
(* @src src_jni/serialize.hh:335-357 ItemDeserializer::process(ContainerT) *)
Definition get_container : D (list A) := fun subdeser =>
  get_elements (fun elements element => elements ++ [element]) (elements_fuel subdeser) [] subdeser.

Lemma fold_left_snoc (l acc : list A) : fold_left (fun xs x => xs ++ [x]) l acc = acc ++ l.
Proof.
  revert acc; induction l as [|x l IH]; intros acc; simpl; [by rewrite app_nil_r|].
  by rewrite IH, <- app_assoc.
Qed.

Lemma get_container_put elements : Forall ser_ok elements ->
  fst (get_container (IStream (if String.eqb (put_elements elements) "" then "<empty>"
                               else put_elements elements) false)) = Ok elements.
Proof.
  intros Hok. destruct (String.eqb_spec (put_elements elements) "") as [He|Hne].
  - pose proof (put_elements_length elements Hok) as Hlen. rewrite He in Hlen.
    destruct elements; [|simpl in Hlen; lia]. unfold get_container, elements_fuel.
    cbn [unread String.length Nat.add get_elements is_eof]. by rewrite deser_at_end.
  - unfold get_container. rewrite get_elements_put; [by rewrite fold_left_snoc|done|].
    unfold elements_fuel. pose proof (put_elements_length elements Hok). simpl. lia.
Qed.

Lemma get_container_fuel st : fst (get_container st) <> Err OutOfFuel.
Proof. apply get_elements_fuel. unfold elements_fuel. destruct (is_eof st); lia. Qed.

(* @src src_jni/serialize.hh:140-150 ItemSerializer::process(ContainerT) *)
Definition container_serializable : Serializable (list A) :=
  nested "container" put_elements get_container (Forall ser_ok) (conj eq_refl eq_refl)
    put_elements_nul_free get_container_put get_container_fuel.

(** ** Arrays *)

(** The loop of [process(array_size, elements)]: [elements[index++]] is assigned while
    the index is below the size and there is input. *)
(* @src src_jni/serialize.hh:305-320 ItemDeserializer::process(array) *)
Fixpoint get_array (elements : list A) : D (list A) := fun subdeser =>
  match elements with
  | [] => (Ok [], subdeser)
  | old :: elements =>
      if is_eof subdeser then (Ok (old :: elements), subdeser)
      else match deser subdeser with
           | (Ok element, subdeser) => (do! l := get_array elements in dret (element :: l)) subdeser
           | (Err UnexpectedEndWhenDeserializing, subdeser) =>
               (do! l := get_array elements in dret (old :: l)) subdeser
           | (Err e, subdeser) => (Err e, subdeser)
           end
  end.

Lemma get_array_put elements : forall old, Forall ser_ok elements -> length old = length elements ->
  fst (get_array old (IStream (put_elements elements) false)) = Ok elements.
Proof.
  induction elements as [|a l IH]; intros [|x old] Hok Hlen; try done.
  apply List.Forall_cons_iff in Hok as [Ha Hl]. injection Hlen as Hlen. cbn [get_array is_eof put_elements].
  rewrite ser_deser by done. cbv iota. unfold dbind. specialize (IH old Hl Hlen).
  destruct (get_array old (IStream (put_elements l) false)) as [[r|e] st]; simpl in *; congruence.
Qed.
End containers.

(** ** Round trip of a whole message value *)

(** [ItemSerializer::result] of one value, then an [ItemDeserializer] on it. *)
Definition write_one {A} (S : Serializable A) (a : A) : string := serializer_result (ser a).
Definition read_one {A} (S : Serializable A) (input : string) : result A :=
  let! st := new_deserializer input in fst (deser st).

Lemma read_write_one {A} (S : Serializable A) a : ser_ok a -> read_one S (write_one S a) = Ok a.
Proof.
  intros Ha. unfold read_one, write_one, new_deserializer, serializer_result.
  destruct (ser_text a Ha) as [H1 H2]. rewrite decode_encode by done. cbn [rbind].
  pose proof (ser_deser a "" Ha) as Hd. rewrite string_app_nil_r in Hd. by rewrite Hd.
Qed.

(** ** Maps *)

Section maps.
Context {U V : Type} `{!OrderedKey U} (SU : Serializable U) (SV : Serializable V).

(** The map is not cleared first; [insert] leaves a key already present alone. *)
(* @src src_jni/serialize.hh:274-291 ItemDeserializer::process(std::map) *)
Definition get_map (elements : smap U V) : D (smap U V) := fun subdeser =>
  get_elements (pair_serializable SU SV) (fun m element => minsert m (fst element) (snd element))
    (elements_fuel subdeser) elements subdeser.

Lemma fold_left_minsert (m : smap U V) : forall acc, smap_ok (acc ++ m) ->
  fold_left (fun m element => minsert m (fst element) (snd element)) m acc = acc ++ m.
Proof.
  induction m as [|[k v] m IH]; intros acc Hok; simpl; [by rewrite app_nil_r|].
  rewrite (minsert_append _ _ _ m) by done. rewrite IH; by rewrite <- app_assoc.
Qed.

Lemma get_map_put (m : smap U V) : smap_ok m /\ Forall ser_ok m ->
  fst (get_map [] (IStream (if String.eqb (put_elements (pair_serializable SU SV) m) "" then "<empty>"
                            else put_elements (pair_serializable SU SV) m) false)) = Ok m.
Proof.
  intros [Hok Hser]. pose proof (put_elements_length _ m Hser) as Hlen. unfold get_map.
  destruct (String.eqb_spec (put_elements (pair_serializable SU SV) m) "") as [He|Hne].
  - rewrite He in Hlen. destruct m; [|simpl in Hlen; lia]. unfold elements_fuel.
    cbn [unread String.length Nat.add get_elements is_eof]. by rewrite deser_at_end.
  - rewrite get_elements_put; [by rewrite fold_left_minsert|done|]. unfold elements_fuel. simpl. lia.
Qed.

Lemma get_map_fuel elements st : fst (get_map elements st) <> Err OutOfFuel.
Proof. apply get_elements_fuel. unfold elements_fuel. destruct (is_eof st); lia. Qed.

(** A map is written by the container overload, as its pairs in key order. *)
Definition map_serializable : Serializable (smap U V) :=
  nested "container" (put_elements (pair_serializable SU SV)) (get_map [])
    (fun m => smap_ok m /\ Forall ser_ok m) (conj eq_refl eq_refl)
    (fun m H => put_elements_nul_free _ m (proj2 H)) get_map_put (get_map_fuel []).
End maps.

(** ** Fields that depend on a flag before them *)

Section flagged.
Context {A : Type} (S : Serializable A).

Lemma bool_at_eof st : is_eof st = true ->
  deser (A := bool) st = (Err UnexpectedEndWhenDeserializing, st).
Proof.
  intros H. cbn. unfold get_item, verify_type, dbind, get_string, dbind, getline. rewrite H. by rewrite H.
Qed.

(** A flag, then the value if there is one. *)
Definition put_option (o : option A) : string :=
  match o with
  | None => ser false
  | Some a => (ser true ++ ser a)%string
  end.

Definition get_option : D (option A) :=
  do! has := deser (A := bool) in
  if (has : bool) then do! a := deser (A := A) in dret (Some a) else dret None.

(** A flag and a value for each element, then a flag that there are no more. *)
Fixpoint put_chain (l : list A) : string :=
  match l with
  | [] => ser false
  | a :: l => (ser true ++ ser a ++ put_chain l)%string
  end.

Fixpoint get_chain (fuel : nat) : D (list A) := fun st =>
  match fuel with
  | O => (Err OutOfFuel, st)
  | Datatypes.S fuel =>
      (do! has := deser (A := bool) in
       if (has : bool) then do! a := deser (A := A) in do! l := get_chain fuel in dret (a :: l)
       else dret []) st
  end.

Definition chain_fuel (st : istream) : nat := String.length (unread st) + 2.

Lemma get_option_put o rest : (forall a, o = Some a -> ser_ok a) ->
  get_option (IStream (put_option o ++ rest)%string false) = (Ok o, IStream rest false).
Proof.
  intros Ho. unfold get_option, put_option, dbind. destruct o as [a|].
  - rewrite string_app_assoc, ser_deser by done. by rewrite ser_deser by auto.
  - by rewrite ser_deser.
Qed.

Lemma get_chain_put l rest : forall fuel, Forall ser_ok l -> (length l < fuel)%nat ->
  get_chain fuel (IStream (put_chain l ++ rest)%string false) = (Ok l, IStream rest false).
Proof.
  induction l as [|a l IH]; intros [|fuel] Hl Hf; try (simpl in Hf; lia); cbn [get_chain put_chain]; unfold dbind.
  - by rewrite ser_deser.
  - apply List.Forall_cons_iff in Hl as [Ha Hl]. rewrite string_app_assoc, ser_deser by done.
    rewrite string_app_assoc, ser_deser by done. by rewrite IH by (done || simpl in Hf; lia).
Qed.

Lemma put_chain_length l : (length l < String.length (put_chain l))%nat.
Proof.
  induction l as [|a l IH]; [cbv; lia|]. cbn [put_chain length]. rewrite !string_length_app.
  assert (1 <= String.length (ser true))%nat by (vm_compute; lia). lia.
Qed.

Lemma get_chain_shape fuel : forall st,
  (is_eof st = true -> is_eof (snd (get_chain fuel st)) = true) /\
  (is_eof st = false -> fuel <> O -> moved st (snd (get_chain fuel st))).
Proof.
  induction fuel as [|fuel IH]; intros st; [done|]. cbn [get_chain]. unfold dbind. split; intros H.
  - by rewrite bool_at_eof.
  - intros _. pose proof (deser_moves (A:=bool) st H) as Hm.
    destruct (deser (A:=bool) st) as [[[]|e] st1]; cbn [snd] in *; [|done|done].
    pose proof (deser_moves (A:=A) st1) as Hm1. pose proof (deser_eof (A:=A) st1) as He1.
    destruct (deser (A:=A) st1) as [[a|e] st2]; cbn [snd] in *; [|by eapply moved_trans].
    destruct (IH st2) as [He2 Hm2].
    assert (moved st st2) as Hm' by (by eapply moved_trans). destruct fuel as [|fuel]; [done|].
    destruct (get_chain (Datatypes.S fuel) st2) as [[l|e] st3]; cbn [snd] in *;
      (eapply moved_trans; [exact Hm'|exact He2|auto]).
Qed.

Lemma get_chain_fuel fuel : forall st,
  ((if is_eof st then 1 else String.length (unread st) + 2) <= fuel)%nat ->
  fst (get_chain fuel st) <> Err OutOfFuel.
Proof.
  induction fuel as [|fuel IH]; intros st Hf; [destruct (is_eof st); lia|]. cbn [get_chain]. unfold dbind.
  destruct (is_eof st) eqn:E; [by rewrite bool_at_eof|].
  pose proof (deser_moves (A:=bool) st E) as Hm. pose proof (deser_fuel (A:=bool) st) as Hfu.
  destruct (deser (A:=bool) st) as [[[]|e] st1]; cbn [fst snd] in *; [|done|congruence].
  pose proof (deser_moves (A:=A) st1) as Hm1. pose proof (deser_eof (A:=A) st1) as He1.
  pose proof (deser_fuel (A:=A) st1) as Hfu1.
  destruct (deser (A:=A) st1) as [[a|e] st2]; cbn [fst snd] in *; [|congruence].
  specialize (IH st2). assert (moved st st2) as Hm' by (by eapply moved_trans).
  destruct (get_chain fuel st2) as [[l|e] st3]; cbn [fst snd] in *; [done|].
  intros [= ->]. apply IH; [|done]. destruct (is_eof st2) eqn:E2; [lia|].
  destruct Hm' as [|Hm']; [congruence|lia].
Qed.

Lemma moved_length st st' : moved st st' -> is_eof st' = false ->
  (String.length (unread st') < String.length (unread st))%nat.
Proof. intros [->|H]; done. Qed.

Definition option_fields : Serializable (option A).
Proof.
  refine {| ser := put_option; deser := get_option; ser_ok := fun o => forall a, o = Some a -> ser_ok a |}.
  - intros [a|] Ho; [|by split]. cbn [put_option].
    destruct (ser_text a (Ho a eq_refl)) as [H1 H2], (@ser_text bool bool_serializable true I) as [H3 H4].
    split; [by rewrite nul_free_app, H1, H3|done].
  - intros o rest. apply get_option_put.
  - intros st H. unfold get_option, dbind. pose proof (deser_moves (A:=bool) st H) as Hm.
    destruct (deser (A:=bool) st) as [[[]|e] st1]; cbn [snd] in *; [|done|done].
    pose proof (deser_moves (A:=A) st1) as Hm1. pose proof (deser_eof (A:=A) st1) as He1.
    by destruct (deser (A:=A) st1) as [[a|e] st2]; eapply moved_trans.
  - intros st H. unfold get_option, dbind. by rewrite bool_at_eof.
  - intros st H1 H2. unfold get_option, dbind. by rewrite (deser_at_end (A:=bool)).
  - intros st. unfold get_option, dbind. pose proof (deser_fuel (A:=bool) st).
    destruct (deser (A:=bool) st) as [[[]|e] st1]; cbn [fst] in *; [|done|congruence].
    pose proof (deser_fuel (A:=A) st1).
    destruct (deser (A:=A) st1) as [[a|e] st2]; cbn [fst] in *; [done|congruence].
Defined.

Definition chain_fields : Serializable (list A).
Proof.
  refine {| ser := put_chain; deser := fun st => get_chain (chain_fuel st) st; ser_ok := Forall ser_ok |}.
  - intros l Hl. split.
    + induction Hl as [|a l Ha Hl IH]; [done|]. cbn [put_chain].
      destruct (ser_text a Ha) as [H1 H2], (@ser_text bool bool_serializable true I) as [H3 H4].
      by rewrite !nul_free_app, H1, H3, IH.
    + pose proof (put_chain_length l). by destruct (put_chain l); [simpl in *; lia|].
  - intros l rest Hl. apply get_chain_put; [done|]. unfold chain_fuel. cbn [unread].
    rewrite string_length_app. pose proof (put_chain_length l). lia.
  - intros st H. apply get_chain_shape; [done|]. unfold chain_fuel. lia.
  - intros st H. by apply get_chain_shape.
  - intros st H1 H2. unfold chain_fuel. rewrite Nat.add_comm. cbn [Nat.add get_chain]. unfold dbind.
    by rewrite (deser_at_end (A:=bool)).
  - intros st. apply get_chain_fuel. unfold chain_fuel. destruct (is_eof st); lia.
Defined.
End flagged.

(** ** What the encoding promises *)

(** [decode_string] inverts [encode_string] on every string without a NUL byte except
    the empty one, which comes back as the seven characters "<empty>"; and the encoded
    text never contains the delimiters [;] and [=] of the formats it is embedded in. *)
Theorem encode_string_roundtrip s : nul_free s = true ->
  decode_string (encode_string s) = Ok (if String.eqb s "" then "<empty>" else s) /\
  contains ";" (encode_string s) = false /\ contains "=" (encode_string s) = false.
Proof.
  intros H. split; [|split; apply encode_string_contains; auto].
  destruct (String.eqb_spec s "") as [->|Hne]; [done|by apply decode_encode].
Qed.

Lemma encode_string_roundtrip_witness :
  nul_free "a;b=%;" = true /\ encode_string "a;b=%;" = "a%3bb%3d%25%3b" /\
  decode_string (encode_string "a;b=%;") = Ok "a;b=%;" /\
  decode_string (encode_string "") = Ok "<empty>".
Proof.
  split; [reflexivity|]. split; [reflexivity|].
  split; [exact (proj1 (encode_string_roundtrip "a;b=%;" eq_refl))
         |exact (proj1 (encode_string_roundtrip "" eq_refl))].
Defined.

Lemma decode_loop_percent s t : forall tok out, nul_free s = true -> nul_free t = true ->
  (String.length t < 2)%nat ->
  is_ok (decode_loop (enc s ++ String "%" (t ++ String NUL EmptyString))%string tok out) = false.
Proof.
  induction s as [|c s IH]; intros tok out Hs Ht Hlen; cbn [enc nul_free] in *.
  - destruct t as [|x [|y t]]; simpl in Hlen; try lia; reflexivity.
  - zbool. rewrite string_app_assoc. unfold enc_char.
    destruct (Ascii.eqb_spec c "%") as [->|H1]; [|destruct (Ascii.eqb_spec c "=") as [->|H2];
      [|destruct (Ascii.eqb_spec c ";") as [->|H3]]].
    1-3: cbn [append decode_loop]; change (byte_of "%" =? 0) with false;
      rewrite Ascii.eqb_refl; cbv iota; by apply IH.
    cbn [append decode_loop]. rewrite (proj2 (Z.eqb_neq _ _)) by done.
    rewrite (proj2 (Ascii.eqb_neq _ _) H1). by apply IH.
Qed.

(** [decode_string] reads past the end of its buffer on any input that ends in a
    [%] with fewer than two characters after it, whatever encoded text comes before. *)
Theorem decode_string_truncated s t : nul_free s = true -> nul_free t = true ->
  (String.length t < 2)%nat ->
  is_ok (decode_string (enc s ++ String "%" t)%string) = false.
Proof.
  intros Hs Ht Hlen. unfold decode_string.
  rewrite c_buffer_nul_free by (rewrite nul_free_app, enc_nul_free by done; cbn [nul_free]; by rewrite Ht).
  rewrite string_app_assoc. by apply decode_loop_percent.
Qed.

Lemma decode_string_truncated_witness :
  nul_free "a=" = true /\ is_ok (decode_string "a%3d%4") = false.
Proof.
  split; [reflexivity|].
  apply (decode_string_truncated "a=" "4"); [reflexivity|reflexivity|simpl; lia].
Defined.

(** What [ItemSerializer] writes for a container, [ItemDeserializer] reads back, for
    any element type whose [process] overloads satisfy [Serializable]: all the elements
    in order, including when there are none. *)
Theorem container_roundtrip {A} (S : Serializable A) (elements : list A) :
  Forall ser_ok elements ->
  read_one (container_serializable S) (write_one (container_serializable S) elements) = Ok elements.
Proof. intros Hok. by apply read_write_one. Qed.

Lemma container_roundtrip_witness :
  let S := container_serializable (pair_serializable int_serializable string_serializable) in
  read_one S (write_one S [(-7, "x;y"); (42, "%")]) = Ok [(-7, "x;y"); (42, "%")] /\
  read_one S (write_one S []) = Ok [].
Proof.
  intros S. split; apply container_roundtrip; repeat constructor; simpl; try done;
    unfold in_i32; lia.
Defined.

(** The [while(!subdeser.eof())] loops of [ItemDeserializer] terminate on every input,
    malformed ones included: one round per character of input and three more are enough,
    for a container of any [Serializable] element type and for containers nested in it. *)
Theorem container_read_terminates {A} (S : Serializable A) (input : string) :
  read_one (container_serializable S) input <> Err OutOfFuel.
Proof.
  unfold read_one, new_deserializer. pose proof (decode_string_fuel input).
  destruct (decode_string input) as [t|e]; simpl; [exact (@deser_fuel _ (container_serializable S) _)|congruence].
Qed.
