(* ===== verification/Message.v ===== *)
(** * Protocol messages (Message and MessageHandler of src_jni/remote_interface.cc)

    A [Message] is a map from encoded keys to encoded values on the sending side, the
    same record with decoded ones on the receiving side, a byte buffer, and the count
    [data2send] that becomes the 8 digit header. The [asio::streambuf] is the text it
    holds. The constructor leaves [encoded], [body_length] and [client_id] as they
    are in memory: they are arguments of [new_message]. A [MessageHandler] is its
    write queue and the operation in flight; the transport completes one at a time. *)

From Stdlib Require Import ZArith Lia Ascii String.
From stdpp Require Import base list strings numbers.
From S2P Require Import Prelude CxxString StdMap Serialize.
Local Open Scope string_scope.
Local Open Scope list_scope.
Local Open Scope Z_scope.
Local Open Scope vk_scope.

(* @src src_jni/remote_interface.hh:244-256 Message *)
Record message : Type := Message {
  encoded : bool;
  body_length : Z;
  client_id : Z;
  sbuf : string;
  data2send : Z;
  key2val : smap string string
}.

(* @src src_jni/remote_interface.hh:201-201 Message::header_length *)
Definition header_length : Z := 8.

(* @src src_jni/remote_interface.cc:53-55 Message::Message *)
Definition new_message (encoded0 : bool) (body_length0 client_id0 : Z) : message :=
  Message encoded0 body_length0 client_id0 "" 0 [].

Definition str_size (s : string) : Z := Z.of_nat (String.length s).

(* @src src_jni/remote_interface.cc:70-84 Message::set_value *)
Definition set_value (m : message) (key value : string) : result message :=
  if contains ";" key then Err IllegalChar
  else if contains "=" key then Err IllegalChar
  else if contains ";" value then Err IllegalChar
  else if contains "=" value then Err IllegalChar
  else
    let enc_key := encode_string key in
    let enc_val := encode_string value in
    Ok (Message false (body_length m) (client_id m) (sbuf m)
          (i32 (data2send m + (str_size enc_key + str_size enc_val + 2)))
          (mset (key2val m) enc_key enc_val)).

(* @src src_jni/remote_interface.cc:86-95 Message::get_value *)
Definition get_value (m : message) (key : string) : result string :=
  match mfind (key2val m) key with
  | Some v => Ok v
  | None => Err (NoSuchKey key)
  end.

(** [reply_received_callback] and [awaiting_reply] are reset too; they are not modelled. *)
(* @src src_jni/remote_interface.cc:181-186 Message::clear_msg_content *)
Definition clear_msg_content (m : message) : message :=
  Message (encoded m) (body_length m) (client_id m) (sbuf m) 0 [].

(* @src src_jni/remote_interface.cc:97-100 Message::prepare_buffer *)
Definition prepare_buffer (m : message) : message := clear_msg_content m.

(** The bytes the transport wrote into the prepared buffer. *)
(* @src src_jni/remote_interface.cc:102-104 Message::commit_data *)
Definition commit_data (m : message) (bytes : string) : message :=
  Message (encoded m) (body_length m) (client_id m) (sbuf m ++ bytes)%string (data2send m) (key2val m).

(* @src src_jni/remote_interface.cc:106-108 Message::get_data *)
Definition get_data (m : message) : string := sbuf m.

Fixpoint drop_chars (n : nat) (s : string) : string :=
  match n, s with
  | O, _ => s
  | Datatypes.S n, EmptyString => EmptyString
  | Datatypes.S n, String _ s => drop_chars n s
  end.

Fixpoint take_chars (n : nat) (s : string) : string :=
  match n, s with
  | O, _ => EmptyString
  | Datatypes.S n, EmptyString => EmptyString
  | Datatypes.S n, String c s => String c (take_chars n s)
  end.

(** [sbuf.consume(n)] removes at most what there is; a negative [int] is a huge size. *)
(* @src src_jni/remote_interface.cc:110-113 Message::recycle *)
Definition recycle (m : message) : message :=
  let n := if data2send m <? 0 then String.length (sbuf m) else Z.to_nat (data2send m) in
  clear_msg_content
    (Message (encoded m) (body_length m) (client_id m) (drop_chars n (sbuf m))
       (data2send m) (key2val m)).

(** ** The header: [snprintf("%08x")] and [sscanf("%08x")] *)

Definition hex_digit (d : Z) : ascii := if d <? 10 then of_byte (48 + d) else of_byte (87 + d).

(** The [n] low hexadecimal digits of [v]. *)
Fixpoint hex_digits (n : nat) (v : Z) (acc : string) : string :=
  match n with
  | O => acc
  | Datatypes.S n => hex_digits n (Z.shiftr v 4) (String (hex_digit (Z.land v 15)) acc)
  end.

Definition print_08x (v : Z) : string := hex_digits 8 (u32 v) "".

(** The longest prefix of at most [width] hexadecimal digits. *)
Fixpoint scan_digits (width : nat) (acc : Z) (some : bool) (s : string) : option Z :=
  match width, s with
  | Datatypes.S width, String c s' =>
      match digit_value 16 c with
      | Some d => scan_digits width (16 * acc + d) true s'
      | None => if some then Some acc else None
      end
  | _, _ => if some then Some acc else None
  end.

(** [sscanf(s, "%08x", &v)]: an optional sign and an optional [0x] count in the width. *)
Definition scan_08x (s : string) : option Z :=
  let '(neg, w, s) :=
    match s with
    | String c s' => if Ascii.eqb c "-" then (true, 7%nat, s')
                     else if Ascii.eqb c "+" then (false, 7%nat, s') else (false, 8%nat, s)
    | _ => (false, 8%nat, s)
    end in
  let v := match s with
           | String z (String x s') =>
               if Ascii.eqb z "0" && (Ascii.eqb x "x" || Ascii.eqb x "X")
               then match scan_digits (w - 2) 0 false s' with Some v => Some v | None => Some 0 end
               else scan_digits w 0 false s
           | _ => scan_digits w 0 false s
           end in
  v ≫= fun v => Some (if neg then u32 (- v) else u32 v).

(** [is >> header]: leading white space skipped, then up to the next or the end. *)
Fixpoint take_word (s : string) : string * string :=
  match s with
  | EmptyString => (EmptyString, EmptyString)
  | String c s' => if is_space c then (EmptyString, s)
                   else let '(w, rest) := take_word s' in (String c w, rest)
  end.

Definition read_word (s : string) : string * string := take_word (skip_spaces s).

(* @src src_jni/remote_interface.cc:124-133 Message::decode_header *)
Definition decode_header (m : message) : message :=
  let '(header, rest) := read_word (sbuf m) in
  Message (encoded m) (default (body_length m) (scan_08x (c_str header))) (client_id m) rest
    (data2send m) (key2val m).

(* @src src_jni/remote_interface.cc:115-122 Message::decode_client_id *)
Definition decode_client_id (m : message) : message :=
  let '(header, rest) := read_word (sbuf m) in
  Message (encoded m) (body_length m)
    (match scan_08x (c_str header) with Some v => i32 v | None => client_id m end) rest
    (data2send m) (key2val m).

(** ** The body *)

(** The loop of lines 140-150. [text] is what the stream has not read; a key is looked for
    at the start of every round, and one read to the end of the stream is dropped. *)
(* @src src_jni/remote_interface.cc:140-150 Message::decode_body *)
Fixpoint decode_body_loop (fuel : nat) (text : string) (kv : smap string string)
  : result (string * smap string string) :=
  match fuel with
  | O => Err OutOfFuel
  | Datatypes.S fuel =>
      match split_at "=" text with
      | (_, None) => Ok ("", kv)
      | (key, Some text) =>
          if String.eqb key "" then Ok (text, kv)
          else
            let '(val, rest) := split_at ";" text in
            let! k := decode_string key in
            let! v := decode_string val in
            let kv := mset kv k v in
            match rest with
            | None => Ok ("", kv)
            | Some text => decode_body_loop fuel text kv
            end
      end
  end.

(* @src src_jni/remote_interface.cc:135-153 Message::decode_body *)
Definition decode_body (m : message) : result message :=
  let! (rest, kv) := decode_body_loop (Datatypes.S (String.length (sbuf m))) (sbuf m) (key2val m) in
  Ok (Message (encoded m) (body_length m) (client_id m) rest (data2send m) kv).

(* @src src_jni/remote_interface.cc:167-175 Message::encode *)
Fixpoint body_text (kv : smap string string) : string :=
  match kv with
  | [] => EmptyString
  | (enc_key, enc_val) :: kv => (enc_key ++ String "=" (enc_val ++ String ";" (body_text kv)))%string
  end.

(* @src src_jni/remote_interface.cc:155-179 Message::encode *)
Definition encode (m : message) : message :=
  if encoded m then m
  else Message true (body_length m) (client_id m)
         (sbuf m ++ print_08x (data2send m) ++ body_text (key2val m))%string
         (i32 (data2send m + header_length)) (key2val m).

(** ** Reading from a connection *)

(** [asio::async_read] of [n] bytes: it completes once they have all arrived. *)
Definition async_read (n : Z) (wire : string) : option (string * string) :=
  if str_size wire <? n then None
  else Some (take_chars (Z.to_nat n) wire, drop_chars (Z.to_nat n) wire).

(** One round of [do_read_header] and [do_read_body]: [None] while bytes are missing. *)
(* @src src_jni/remote_interface.cc:272-317 MessageHandler::do_read_header *)
Definition read_message (m : message) (wire : string) : option (result message * string) :=
  match async_read header_length wire with
  | None => None
  | Some (header, wire) =>
      let m := decode_header (commit_data (prepare_buffer m) header) in
      match async_read (body_length m) wire with
      | None => None
      | Some (body, wire) => Some (decode_body (commit_data (prepare_buffer m) body), wire)
      end
  end.

(** ** The header round trips *)

Lemma hex_digit_spec d : 0 <= d < 16 ->
  digit_value 16 (hex_digit d) = Some d /\ is_space (hex_digit d) = false /\
  byte_of (hex_digit d) <> 0 /\ Ascii.eqb (hex_digit d) "-" = false /\
  Ascii.eqb (hex_digit d) "+" = false /\ Ascii.eqb (hex_digit d) "x" = false /\
  Ascii.eqb (hex_digit d) "X" = false.
Proof.
  apply (forall_below (fun d => digit_value 16 (hex_digit d) = Some d /\ is_space (hex_digit d) = false /\
  byte_of (hex_digit d) <> 0 /\ Ascii.eqb (hex_digit d) "-" = false /\
  Ascii.eqb (hex_digit d) "+" = false /\ Ascii.eqb (hex_digit d) "x" = false /\
  Ascii.eqb (hex_digit d) "X" = false) 16).
  cbv [map seq Z.of_nat Pos.of_succ_nat Pos.succ].
  repeat (apply List.Forall_cons; [repeat split; vm_compute; congruence|]). apply List.Forall_nil.
Qed.

(** Eight digits, the most significant first. *)
Fixpoint hex_string (ds : list Z) : string :=
  match ds with [] => EmptyString | d :: ds => String (hex_digit d) (hex_string ds) end.

Definition nibbles (v : Z) : list Z :=
  map (fun i => Z.land (Z.shiftr v i) 15) [28; 24; 20; 16; 12; 8; 4; 0].

Lemma print_08x_nibbles v : print_08x v = hex_string (nibbles (u32 v)).
Proof.
  unfold print_08x, nibbles. generalize (u32 v) as w; intros w.
  cbn [map hex_string hex_digits]. rewrite !Z.shiftr_shiftr by lia. reflexivity.
Qed.

Lemma nibbles_range v : Forall (fun d => 0 <= d < 16) (nibbles v).
Proof.
  unfold nibbles. apply List.Forall_map, List.Forall_forall. intros i _.
  change 15 with (Z.ones 4). rewrite Z.land_ones by lia. apply Z.mod_pos_bound. lia.
Qed.

Lemma nibbles_value v : 0 <= v < 2^32 -> fold_left (fun acc d => 16 * acc + d) (nibbles v) 0 = v.
Proof.
  intros Hv. unfold nibbles. cbn [map fold_left].
  change 15 with (Z.ones 4). rewrite !Z.land_ones by lia. rewrite !Z.shiftr_div_pow2 by lia.
  change (2^4) with 16. rewrite Z.pow_0_r, Z.div_1_r.
  assert (E2 : v / 2^8 = v / 16 / 16) by (rewrite Z.div_div by lia; done).
  assert (E3 : v / 2^12 = v / 16 / 16 / 16) by (rewrite !Z.div_div by lia; done).
  assert (E4 : v / 2^16 = v / 16 / 16 / 16 / 16) by (rewrite !Z.div_div by lia; done).
  assert (E5 : v / 2^20 = v / 16 / 16 / 16 / 16 / 16) by (rewrite !Z.div_div by lia; done).
  assert (E6 : v / 2^24 = v / 16 / 16 / 16 / 16 / 16 / 16) by (rewrite !Z.div_div by lia; done).
  assert (E7 : v / 2^28 = v / 16 / 16 / 16 / 16 / 16 / 16 / 16) by (rewrite !Z.div_div by lia; done).
  rewrite E7, E6, E5, E4, E3, E2. clear E2 E3 E4 E5 E6 E7.
  Z.to_euclidean_division_equations. lia.
Qed.

Lemma scan_digits_hex ds : forall width acc some, (length ds <= width)%nat ->
  Forall (fun d => 0 <= d < 16) ds -> (ds <> [] \/ some = true) ->
  scan_digits width acc some (hex_string ds) = Some (fold_left (fun acc d => 16 * acc + d) ds acc).
Proof.
  induction ds as [|d ds IH]; intros width acc some Hw Hall Hor.
  - destruct Hor as [Hn| ->]; [done|]. by destruct width.
  - destruct width as [|width]; [simpl in Hw; lia|]. apply List.Forall_cons_iff in Hall as [Hd Hall].
    cbn [hex_string scan_digits fold_left]. destruct (hex_digit_spec d Hd) as [-> _].
    rewrite IH; [done|simpl in Hw; lia|done|by right].
Qed.

Lemma scan_print_08x v : 0 <= v < 2^32 -> scan_08x (print_08x v) = Some v.
Proof.
  intros Hv. rewrite print_08x_nibbles, u32_id by done.
  pose proof (nibbles_range v) as Hr. pose proof (nibbles_value v Hv) as Hval.
  assert (length (nibbles v) = 8%nat) as Hlen by done.
  destruct (nibbles v) as [|d0 [|d1 ds]]; try done.
  pose proof Hr as Hr'. apply List.Forall_cons_iff in Hr' as [H0 Hr']. apply List.Forall_cons_iff in Hr' as [H1 _].
  destruct (hex_digit_spec d0 H0) as (_ & _ & _ & Hm & Hp & _).
  destruct (hex_digit_spec d1 H1) as (_ & _ & _ & _ & _ & Hx & HX).
  unfold scan_08x. cbn [hex_string]. rewrite Hm, Hp, Hx, HX, andb_false_r.
  change (String (hex_digit d0) (String (hex_digit d1) (hex_string ds))) with (hex_string (d0 :: d1 :: ds)).
  rewrite scan_digits_hex, Hval by (done || lia || by left). simpl. by rewrite u32_id.
Qed.

Lemma hex_string_word ds : Forall (fun d => 0 <= d < 16) ds ->
  take_word (hex_string ds) = (hex_string ds, "") /\ nul_free (hex_string ds) = true.
Proof.
  induction 1 as [|d ds Hd Hall [IH1 IH2]]; [done|]. cbn [hex_string take_word nul_free].
  destruct (hex_digit_spec d Hd) as (_ & -> & Hb & _). rewrite IH1, IH2.
  by rewrite (proj2 (Z.eqb_neq _ _) Hb).
Qed.

Lemma read_word_header v : read_word (print_08x v) = (print_08x v, "") /\
  c_str (print_08x v) = print_08x v.
Proof.
  rewrite print_08x_nibbles. pose proof (nibbles_range (u32 v)) as Hr.
  destruct (hex_string_word _ Hr) as [H1 H2]. split; [|by apply c_str_nul_free].
  unfold read_word. destruct (nibbles (u32 v)) as [|d ds] eqn:E; [done|].
  apply List.Forall_cons_iff in Hr as [Hd _]. destruct (hex_digit_spec d Hd) as (_ & Hs & _).
  cbn [hex_string skip_spaces]. rewrite Hs. exact H1.
Qed.

Lemma print_08x_length v : String.length (print_08x v) = 8%nat.
Proof. by rewrite print_08x_nibbles. Qed.

(** ** The body round trips *)

(** What a key or a value must be for [set_value] to accept it and C to copy it. *)
Definition wire_text (s : string) : Prop :=
  nul_free s = true /\ contains ";" s = false /\ contains "=" s = false.

Definition good_key (k : string) : Prop := wire_text k /\ k <> "".
Definition good_pair (p : string * string) : Prop := good_key (fst p) /\ wire_text (snd p).

(** The value the receiver sees: the empty one is not restored. *)
Definition wire_value (v : string) : string := if String.eqb v "" then "<empty>" else v.

Lemma decode_encode_value v : nul_free v = true -> decode_string (encode_string v) = Ok (wire_value v).
Proof.
  intros H. unfold wire_value. destruct (String.eqb_spec v "") as [->|Hne]; [done|by apply decode_encode].
Qed.

Lemma encode_inj k k' : good_key k -> good_key k' -> encode_string k = encode_string k' -> k = k'.
Proof.
  intros [[H1 _] Hk] [[H2 _] Hk'] He. apply (f_equal decode_string) in He.
  rewrite !decode_encode in He by done. congruence.
Qed.

(** An entry [set_value] stored. *)
Definition stored (e : string * string) : Prop :=
  exists k v, good_key k /\ nul_free v = true /\ e = (encode_string k, encode_string v).

Lemma decode_body_stored (kv : smap string string) : forall fuel acc,
  smap_ok kv -> smap_ok acc -> Forall stored kv -> (length kv < fuel)%nat ->
  exists kv', decode_body_loop fuel (body_text kv) acc = Ok ("", kv') /\ smap_ok kv' /\
    forall k, good_key k ->
      match mfind kv (encode_string k) with
      | Some ev => exists v, decode_string ev = Ok v /\ mfind kv' k = Some v
      | None => mfind kv' k = mfind acc k
      end.
Proof.
  induction kv as [|[ek ev] kv IH]; intros fuel acc Hkv Hacc Hst Hf;
    (destruct fuel as [|fuel]; [simpl in Hf; lia|]); cbn [decode_body_loop body_text].
  - simpl. exists acc. done.
  - apply List.Forall_cons_iff in Hst as [(k0 & v0 & Hk0 & Hv0 & [= -> ->]) Hst].
    apply smap_ok_cons in Hkv as [Hlt Hkv]. destruct Hk0 as [[Hn0 Hc0] Hne0].
    rewrite split_at_app by (apply encode_string_contains; auto).
    rewrite (proj2 (String.eqb_neq _ _)) by (by apply encode_string_nonempty).
    rewrite split_at_app by (apply encode_string_contains; auto).
    rewrite decode_encode, decode_encode_value by done. cbn [rbind].
    destruct (IH fuel (mset acc k0 (wire_value v0))) as (kv' & He & Hok' & Hfind);
      [done|by apply mset_ok|done|simpl in Hf; lia|].
    exists kv'. split; [done|]. split; [done|]. intros k Hk. specialize (Hfind k Hk). cbn [mfind].
    destruct (key_eqb (encode_string k) (encode_string k0)) eqn:E.
    + apply key_eqb_spec in E. apply encode_inj in E; [|done|by split]. subst k.
      exists (wire_value v0). split; [by apply decode_encode_value|].
      destruct (mfind kv (encode_string k0)) as [ev|] eqn:E2.
      * apply mfind_elem in E2; [|done]. specialize (Hlt _ _ E2). by rewrite key_lt_irrefl in Hlt.
      * rewrite Hfind, mfind_mset by done. by rewrite key_eqb_refl.
    + destruct (mfind kv (encode_string k)); [done|].
      rewrite Hfind, mfind_mset by done. rewrite key_eqb_neq; [done|].
      intros ->. by rewrite key_eqb_refl in E.
Qed.

(** A run of [set_value] calls. *)
Definition set_values (m : message) (kvs : list (string * string)) : result message :=
  rfold (fun m p => set_value m (fst p) (snd p)) m kvs.

Definition pair_size (p : string * string) : Z :=
  str_size (encode_string (fst p)) + str_size (encode_string (snd p)) + 2.

(** The bytes [data2send] counts for a run of calls. *)
Definition wire_size (kvs : list (string * string)) : Z :=
  fold_right (fun p n => pair_size p + n) 0 kvs.

Definition lookup_kv (kvs : list (string * string)) (k : string) : option string :=
  snd <$> List.find (fun p => String.eqb (fst p) k) kvs.

(** What [get_value] answers on the receiving side for a message with these pairs. *)
Definition received (kvs : list (string * string)) (k : string) : result string :=
  match lookup_kv kvs k with
  | Some v => Ok (wire_value v)
  | None => Err (NoSuchKey k)
  end.

Lemma set_value_good m k v : good_pair (k, v) ->
  set_value m k v = Ok (Message false (body_length m) (client_id m) (sbuf m)
    (i32 (data2send m + pair_size (k, v))) (mset (key2val m) (encode_string k) (encode_string v))).
Proof.
  intros [[(_ & H1 & H2) _] (_ & H3 & H4)]; simpl in *. unfold set_value. by rewrite H1, H2, H3, H4.
Qed.

Lemma pair_size_pos p : 0 <= pair_size p.
Proof. unfold pair_size, str_size. lia. Qed.

Lemma wire_size_pos kvs : 0 <= wire_size kvs.
Proof. induction kvs as [|p kvs IH]; simpl; [done|]. pose proof (pair_size_pos p). lia. Qed.

(** What a run of calls leaves in a message: the count, and the last value of each key. *)
Lemma set_values_good kvs : forall m, Forall good_pair kvs -> smap_ok (key2val m) ->
  Forall stored (key2val m) -> 0 <= data2send m -> data2send m + wire_size kvs < 2^31 ->
  exists m', set_values m kvs = Ok m' /\
    data2send m' = data2send m + wire_size kvs /\ sbuf m' = sbuf m /\
    body_length m' = body_length m /\ (encoded m' = encoded m \/ encoded m' = false) /\
    (kvs <> [] -> encoded m' = false) /\ smap_ok (key2val m') /\ Forall stored (key2val m') /\
    (NoDup (map fst kvs) -> forall k, good_key k ->
       mfind (key2val m') (encode_string k) =
         match lookup_kv kvs k with
         | Some v => Some (encode_string v)
         | None => mfind (key2val m) (encode_string k)
         end).
Proof.
  induction kvs as [|[k v] kvs IH]; intros m Hall Hok Hst Hpos Hsize.
  - exists m. cbn. rewrite Z.add_0_r. do 4 (split; [done|]). split; [by left|]. done.
  - apply List.Forall_cons_iff in Hall as [Hp Hall]. cbn [wire_size fold_right] in Hsize.
    fold (wire_size kvs) in Hsize. pose proof (pair_size_pos (k, v)). pose proof (wire_size_pos kvs).
    unfold set_values. cbn [rfold fst snd]. rewrite (set_value_good _ _ _ Hp). cbn [rbind].
    rewrite i32_id by (unfold in_i32; lia).
    destruct Hp as [Hk Hv]. simpl in Hk, Hv.
    edestruct (IH (Message false (body_length m) (client_id m) (sbuf m)
      (data2send m + pair_size (k, v)) (mset (key2val m) (encode_string k) (encode_string v))))
      as (m' & He & Hd & Hs & Hb & Hen & _ & Hok' & Hst' & Hfind); cbn [key2val data2send] in *;
      [done|by apply mset_ok| |lia|lia|].
    { apply List.Forall_forall. intros [k' v'] Hin%list_elem_of_In.
      apply mset_elem in Hin as [[= -> ->]|Hin].
      - exists k, v. destruct Hv. auto.
      - rewrite List.Forall_forall in Hst. by apply Hst, list_elem_of_In. }
    exists m'. split; [done|]. split; [rewrite Hd; cbn [wire_size fold_right]; fold (wire_size kvs); lia|].
    split; [done|]. split; [done|]. cbn [encoded] in Hen.
    split; [right; by destruct Hen|]. split; [by destruct Hen|]. split; [done|]. split; [done|].
    intros Hnd k' Hk'. cbn [map fst] in Hnd. apply list.NoDup_cons in Hnd as [Hnin Hnd].
    rewrite (Hfind Hnd k' Hk'). unfold lookup_kv. cbn [List.find fst].
    destruct (String.eqb_spec k k') as [->|Hne]; cbn [fmap option_fmap option_map snd].
    + rewrite mfind_mset, key_eqb_refl by done.
      destruct (List.find _ kvs) as [[k2 v2]|] eqn:E; [|done].
      apply find_some in E as [Hin Heq]. apply String.eqb_eq in Heq. simpl in Heq; subst.
      destruct Hnin. apply list_elem_of_In. by apply (in_map fst) in Hin.
    + rewrite mfind_mset by done. rewrite key_eqb_neq; [done|]. intros Heq. apply encode_inj in Heq; auto.
Qed.

(** [data2send] against the text [encode] writes: equal unless a key was set twice. *)
Fixpoint body_size (kv : smap string string) : Z :=
  match kv with [] => 0 | (k, v) :: kv => str_size k + str_size v + 2 + body_size kv end.

Lemma body_text_size kv : str_size (body_text kv) = body_size kv.
Proof.
  induction kv as [|[k v] kv IH]; [done|]. cbn [body_text body_size]. rewrite <- IH. unfold str_size.
  rewrite string_length_app. cbn [String.length]. rewrite string_length_app. cbn [String.length]. lia.
Qed.

Lemma body_size_mset kv k v : smap_ok kv ->
  body_size (mset kv k v) = body_size kv + str_size k + str_size v + 2 -
    match mfind kv k with Some v' => str_size k + str_size v' + 2 | None => 0 end.
Proof.
  induction kv as [|[k' v'] kv IH]; intros Hok; cbn [mset mfind body_size]; [lia|].
  apply smap_ok_cons in Hok as [Hlt Hok].
  destruct (key_lt k k') eqn:E1.
  - cbn [body_size]. rewrite key_eqb_neq by (intros ->; by rewrite key_lt_irrefl in E1).
    destruct (mfind kv k) as [w|] eqn:E; [|lia]. apply mfind_elem in E; [|done].
    specialize (Hlt _ _ E). apply key_lt_asym in Hlt. congruence.
  - destruct (key_lt k' k) eqn:E2; cbn [body_size].
    + rewrite IH by done. rewrite key_eqb_neq by (intros ->; by rewrite key_lt_irrefl in E2). lia.
    + assert (k = k') as -> by (by apply key_lt_total). rewrite key_eqb_refl. lia.
Qed.

Lemma set_values_body_le kvs : forall m m', smap_ok (key2val m) -> Forall good_pair kvs ->
  set_values m kvs = Ok m' ->
  smap_ok (key2val m') /\ body_size (key2val m') <= body_size (key2val m) + wire_size kvs.
Proof.
  induction kvs as [|[k v] kvs IH]; intros m m' Hok Hall He.
  - injection He as <-. split; [done|]. cbn. lia.
  - apply List.Forall_cons_iff in Hall as [Hp Hall]. unfold set_values in He. cbn [rfold fst snd] in He.
    rewrite (set_value_good _ _ _ Hp) in He. cbn [rbind] in He.
    apply IH in He as [Hok' Hle]; [|by apply mset_ok|done]. split; [done|].
    cbn [key2val] in Hle. rewrite body_size_mset in Hle by done.
    cbn [wire_size fold_right]. fold (wire_size kvs).
    assert (pair_size (k, v) = str_size (encode_string k) + str_size (encode_string v) + 2) as -> by done.
    destruct (mfind (key2val m) (encode_string k)) as [w|]; unfold str_size in *; lia.
Qed.

Lemma set_values_body_nodup kvs : forall m m', smap_ok (key2val m) -> Forall good_pair kvs ->
  NoDup (map fst kvs) -> (forall k, k ∈ map fst kvs -> mfind (key2val m) (encode_string k) = None) ->
  set_values m kvs = Ok m' ->
  body_size (key2val m') = body_size (key2val m) + wire_size kvs.
Proof.
  induction kvs as [|[k v] kvs IH]; intros m m' Hok Hall Hnd Hnone He.
  - injection He as <-. cbn. lia.
  - apply List.Forall_cons_iff in Hall as [Hp Hall]. unfold set_values in He. cbn [rfold fst snd] in He.
    rewrite (set_value_good _ _ _ Hp) in He. cbn [rbind] in He.
    cbn [map fst] in Hnd, Hnone. apply list.NoDup_cons in Hnd as [Hnin Hnd].
    apply IH in He; [|by apply mset_ok|done|done|].
    + rewrite He. cbn [key2val]. rewrite body_size_mset, Hnone by (done || by left).
      cbn [wire_size fold_right]. fold (wire_size kvs).
      assert (pair_size (k, v) = str_size (encode_string k) + str_size (encode_string v) + 2) as -> by done. lia.
    + intros k' Hin. cbn [key2val]. rewrite mfind_mset by done.
      rewrite key_eqb_neq; [apply Hnone; by right|]. intros Heq.
      apply encode_inj in Heq as ->; [done| |by destruct Hp].
      apply list_elem_of_In, in_map_iff in Hin as ([k2 v2] & <- & Hin).
      rewrite List.Forall_forall in Hall. by destruct (Hall _ Hin).
Qed.

Lemma take_drop_app s t : take_chars (String.length s) (s ++ t)%string = s /\
  drop_chars (String.length s) (s ++ t)%string = t.
Proof. induction s as [|c s [IH1 IH2]]; simpl; [by destruct t|]. by rewrite IH1, IH2. Qed.

Lemma async_read_app s t : async_read (str_size s) (s ++ t)%string = Some (s, t).
Proof.
  unfold async_read, str_size. rewrite string_length_app.
  destruct (Z.ltb_spec (Z.of_nat (String.length s + String.length t)) (Z.of_nat (String.length s))); [lia|].
  rewrite Nat2Z.id. by destruct (take_drop_app s t) as [-> ->].
Qed.

(** A receiver that has read a header knows how many bytes to wait for. *)
Lemma read_header r n wire : sbuf r = "" -> 0 <= n < 2^32 ->
  read_message r (print_08x n ++ wire)%string =
    let m := Message (encoded r) n (client_id r) "" 0 [] in
    match async_read n wire with
    | None => None
    | Some (body, wire) => Some (decode_body (commit_data (prepare_buffer m) body), wire)
    end.
Proof.
  intros Hs Hn. unfold read_message. change header_length with 8.
  replace 8 with (str_size (print_08x n)) by (unfold str_size; by rewrite print_08x_length).
  rewrite async_read_app. unfold commit_data, prepare_buffer, clear_msg_content, decode_header.
  cbn [sbuf encoded body_length client_id data2send key2val]. rewrite Hs. cbn [append].
  destruct (read_word_header n) as [-> ->]. by rewrite scan_print_08x.
Qed.

Lemma encode_data m : encoded m = false -> sbuf m = "" ->
  get_data (encode m) = (print_08x (data2send m) ++ body_text (key2val m))%string.
Proof. intros He Hs. unfold get_data, encode. by rewrite He, Hs. Qed.

Lemma smap_length_body kv : Z.of_nat (length kv) <= body_size kv.
Proof. induction kv as [|[k v] kv IH]; cbn [length body_size]; [done|]. unfold str_size. lia. Qed.

(** C8: A message built with [set_value] on distinct keys and sent travels intact: for any
    bytes that follow on the connection, the receiver reads exactly this message's bytes
    and ends with an empty buffer, and [get_value] of every key gives the value that was
    set for it (an empty value arriving as "<empty>"), and [NoSuchKey] for any other key. *)
Theorem message_roundtrip b0 l0 c0 r wire kvs :
  Forall good_pair kvs -> NoDup (map fst kvs) -> kvs <> [] -> wire_size kvs < 2^31 -> sbuf r = "" ->
  exists m r', set_values (new_message b0 l0 c0) kvs = Ok m /\
    read_message r (get_data (encode m) ++ wire)%string = Some (Ok r', wire) /\ sbuf r' = "" /\
    forall k, good_key k -> get_value r' k = received kvs k.
Proof.
  intros Hall Hnd Hne Hsize Hr.
  destruct (set_values_good kvs (new_message b0 l0 c0)) as
    (m & He & Hd & Hs & _ & _ & Hen & Hok & Hst & Hfind); [done|constructor|constructor|done|done|].
  assert (Hb : body_size (key2val m) = wire_size kvs)
    by (apply (set_values_body_nodup kvs (new_message b0 l0 c0) m); done || constructor).
  pose proof (wire_size_pos kvs) as Hpos. cbn in Hd, Hs. rewrite Z.add_0_l in Hd.
  rewrite <- body_text_size in Hb. pose proof (smap_length_body (key2val m)) as Hlen.
  rewrite <- body_text_size in Hlen. unfold str_size in Hlen.
  destruct (decode_body_stored (key2val m) (Datatypes.S (String.length (body_text (key2val m)))) [])
    as (kv' & Hdec & Hok' & Hv); [done|constructor|done|lia|].
  exists m, (Message (encoded r) (wire_size kvs) (client_id r) "" 0 kv').
  split; [done|]. rewrite encode_data, Hd, string_app_assoc by auto.
  rewrite read_header by (done || lia). cbv zeta. rewrite <- Hb at 1. rewrite async_read_app.
  split; [|split; [done|]].
  - unfold decode_body, commit_data, prepare_buffer, clear_msg_content.
    cbn [sbuf encoded body_length client_id data2send key2val append]. by rewrite Hdec.
  - intros k Hk. specialize (Hv k Hk). rewrite (Hfind Hnd k Hk) in Hv. unfold get_value, received. cbn [key2val].
    destruct (lookup_kv kvs k) as [v|] eqn:E; cbn in Hv; [|by rewrite Hv].
    destruct Hv as (w & Hw & ->). unfold lookup_kv in E. apply fmap_Some in E as ([k2 v2] & E & ->).
    apply find_some in E as [Hin _]. rewrite List.Forall_forall in Hall. destruct (Hall _ Hin) as [_ [Hn _]].
    rewrite decode_encode_value in Hw by done. congruence.
Qed.

Lemma wire_size_app l1 l2 : wire_size (l1 ++ l2) = wire_size l1 + wire_size l2.
Proof. induction l1 as [|p l1 IH]; simpl; [done|]. rewrite IH. lia. Qed.

Lemma lookup_kv_in kvs k : k ∈ map fst kvs -> exists v, lookup_kv kvs k = Some v.
Proof.
  intros Hin. unfold lookup_kv. destruct (List.find _ kvs) as [p|] eqn:E; [by eexists|].
  apply list_elem_of_In, in_map_iff in Hin as (p & Hp2 & Hin). apply (find_none _ _ E) in Hin.
  by rewrite Hp2, String.eqb_refl in Hin.
Qed.

Lemma set_values_app m l1 l2 :
  set_values m (l1 ++ l2) = rbind (set_values m l1) (fun m => set_values m l2).
Proof. apply rfold_app. Qed.

(** A key set again, anywhere in a run of calls. *)
Lemma set_values_overcount b0 l0 c0 kvs1 k v kvs2 :
  Forall good_pair (kvs1 ++ (k, v) :: kvs2) -> NoDup (map fst kvs1) -> k ∈ map fst kvs1 ->
  wire_size (kvs1 ++ (k, v) :: kvs2) < 2^31 ->
  exists m, set_values (new_message b0 l0 c0) (kvs1 ++ (k, v) :: kvs2) = Ok m /\
    encoded m = false /\ sbuf m = "" /\ 0 <= data2send m < 2^31 /\
    str_size (body_text (key2val m)) < data2send m.
Proof.
  intros Hall Hnd Hin Hsize. pose proof Hall as Hall0.
  apply Forall_app in Hall as [Hkvs1 Hall]. apply List.Forall_cons_iff in Hall as [Hp Hkvs2].
  pose proof (wire_size_pos kvs1). pose proof (wire_size_pos kvs2). pose proof (pair_size_pos (k, v)).
  destruct (set_values_good _ (new_message b0 l0 c0) Hall0) as
    (m & He & Hd & Hs & _ & _ & Hen & _); [constructor|constructor|done|done|].
  exists m. split; [done|]. split; [by apply Hen; destruct kvs1|]. split; [done|].
  cbn [new_message data2send] in Hd. rewrite Z.add_0_l in Hd. split; [rewrite Hd; split; [apply wire_size_pos|done]|].
  rewrite wire_size_app in Hsize, Hd. cbn [wire_size fold_right] in Hsize, Hd. fold (wire_size kvs2) in Hsize, Hd.
  destruct (set_values_good kvs1 (new_message b0 l0 c0)) as
    (m1 & He1 & Hd1 & _ & _ & _ & _ & Hok1 & _ & Hfind); [done|constructor|constructor|done|cbn; lia|].
  destruct (set_values_body_le kvs1 (new_message b0 l0 c0) m1) as [_ Hle]; [constructor|done|done|].
  rewrite set_values_app, He1 in He. cbn [rbind set_values rfold fst snd] in He.
  rewrite (set_value_good _ _ _ Hp) in He. cbn [rbind] in He.
  apply (set_values_body_le kvs2) in He as [_ Hle2]; [|by apply mset_ok|done].
  cbn [key2val new_message body_size] in Hle, Hle2. rewrite body_text_size.
  rewrite body_size_mset, (Hfind Hnd k) in Hle2 by (done || by destruct Hp).
  destruct (lookup_kv_in _ _ Hin) as [w Hw]. rewrite Hw in Hle2.
  unfold pair_size, str_size in *. cbn [fst snd] in *. lia.
Qed.

Lemma read_overcounted r m : sbuf r = "" -> encoded m = false -> sbuf m = "" ->
  0 <= data2send m < 2^31 -> str_size (body_text (key2val m)) < data2send m ->
  read_message r (get_data (encode m)) = None.
Proof.
  intros Hr He Hs Hd Hlt. rewrite encode_data by done. rewrite read_header by (done || lia).
  cbv zeta. unfold async_read. by rewrite (proj2 (Z.ltb_lt _ _)).
Qed.

(** [set_value] called again with a key already set replaces the value but adds
    the length of the new pair to [data2send]: the header then announces more bytes than
    [encode] writes, and a receiver waits for them, which are not coming. *)
Theorem set_value_twice_overcounts b0 l0 c0 r kvs1 k v kvs2 :
  Forall good_pair (kvs1 ++ (k, v) :: kvs2) -> NoDup (map fst kvs1) -> k ∈ map fst kvs1 ->
  wire_size (kvs1 ++ (k, v) :: kvs2) < 2^31 -> sbuf r = "" ->
  exists m, set_values (new_message b0 l0 c0) (kvs1 ++ (k, v) :: kvs2) = Ok m /\
    str_size (body_text (key2val m)) < data2send m /\
    read_message r (get_data (encode m)) = None.
Proof.
  intros Hall Hnd Hin Hsize Hr.
  destruct (set_values_overcount b0 l0 c0 kvs1 k v kvs2) as (m & He & Hen & Hs & Hd & Hlt); try done.
  exists m. split; [done|]. split; [done|by apply read_overcounted].
Qed.

Lemma message_roundtrip_witness : exists m r',
  set_values (new_message true 7 7) [("id", "4"); ("name", "50%"); ("group", "")] = Ok m /\
  read_message (new_message true 7 7) (get_data (encode m) ++ "next")%string = Some (Ok r', "next") /\
  sbuf r' = "" /\
  get_value r' "name" = Ok "50%" /\ get_value r' "group" = Ok "<empty>" /\
  get_value r' "gain" = Err (NoSuchKey "gain").
Proof.
  destruct (message_roundtrip true 7 7 (new_message true 7 7) "next"
    [("id", "4"); ("name", "50%"); ("group", "")]) as (m & r' & H1 & H2 & H3 & H4);
    [repeat constructor; done|apply (bool_decide_unpack _); vm_compute; exact I|done|reflexivity|reflexivity|].
  exists m, r'. split; [exact H1|]. split; [exact H2|]. split; [exact H3|].
  split; [apply (H4 "name"); repeat split; done|].
  split; [apply (H4 "group"); repeat split; done|apply (H4 "gain"); repeat split; done].
Defined.

Lemma set_value_twice_overcounts_witness :
  exists m, set_values (new_message true 7 7) [("id", "4"); ("id", "12"); ("a", "b")] = Ok m /\
    str_size (body_text (key2val m)) < data2send m /\
    read_message (new_message true 7 7) (get_data (encode m)) = None.
Proof.
  apply (set_value_twice_overcounts true 7 7 (new_message true 7 7) [("id", "4")] "id" "12" [("a", "b")]);
    [repeat constructor; done|apply (bool_decide_unpack _); vm_compute; exact I|by left|reflexivity|reflexivity].
Defined.

(** ** The write queue of a connection *)

(** [writing] is the operation in flight: the bytes handed to [async_write]; [tcp_out] is
    what the transport has confirmed, [udp_out] the datagrams sent. *)
(* @src src_jni/remote_interface.hh:421-434 MessageHandler *)
Record message_handler : Type := MessageHandler {
  has_udp_socket : bool;
  write_msgs : list message;
  writing : option string;
  tcp_out : string;
  udp_out : list string
}.

Definition VUKNOB_MAX_UDP_SIZE : Z := 512.

(* @src src_jni/remote_interface.cc:319-324 MessageHandler::do_write *)
Definition do_write (h : message_handler) : message_handler :=
  MessageHandler (has_udp_socket h) (write_msgs h)
    (match write_msgs h with msg :: _ => Some (get_data msg) | [] => None end) (tcp_out h) (udp_out h).

(* @src src_jni/remote_interface.cc:340-347 MessageHandler::do_write_udp *)
Definition do_write_udp (h : message_handler) (msg : message) : message_handler :=
  MessageHandler (has_udp_socket h) (write_msgs h) (writing h) (tcp_out h) (udp_out h ++ [get_data msg]).

(* @src src_jni/remote_interface.cc:361-376 MessageHandler::deliver_message *)
Definition deliver_message (h : message_handler) (msg : message) (via_udp : bool) : message_handler :=
  let msg := encode msg in
  if via_udp && has_udp_socket h && (body_length msg <=? VUKNOB_MAX_UDP_SIZE) then do_write_udp h msg
  else
    let write_in_progress := match write_msgs h with [] => false | _ => true end in
    let h := MessageHandler (has_udp_socket h) (write_msgs h ++ [msg]) (writing h) (tcp_out h) (udp_out h) in
    if negb write_in_progress then do_write h else h.

(** The handler of a write that completed without an error. *)
(* @src src_jni/remote_interface.cc:325-334 MessageHandler::do_write *)
Definition write_completed (h : message_handler) (sent : string) : message_handler :=
  let h := MessageHandler (has_udp_socket h) (tl (write_msgs h)) None (tcp_out h ++ sent)%string (udp_out h) in
  match write_msgs h with
  | [] => h
  | _ => do_write h
  end.

(** Deliveries and completions in any order; a write completes only while one is in
    flight. The second index collects the bytes of the queued messages, in order. *)
Inductive handler_run (udp : bool) : message_handler -> list string -> Prop :=
| run_start : handler_run udp (MessageHandler udp [] None "" []) []
| run_deliver h sent msg :
    handler_run udp h sent ->
    handler_run udp (deliver_message h msg false) (sent ++ [get_data (encode msg)])
| run_deliver_udp h sent msg :
    handler_run udp h sent -> udp_out (deliver_message h msg true) <> udp_out h ->
    handler_run udp (deliver_message h msg true) sent
| run_completed h sent bytes :
    handler_run udp h sent -> writing h = Some bytes ->
    handler_run udp (write_completed h bytes) sent.

Definition text_of (l : list string) : string := fold_right String.append "" l.

Lemma text_of_app l1 l2 : text_of (l1 ++ l2) = (text_of l1 ++ text_of l2)%string.
Proof. induction l1 as [|s l1 IH]; simpl; [done|]. by rewrite IH, string_app_assoc. Qed.

Record handler_inv (h : message_handler) (sent : list string) : Prop := {
  inv_writing : writing h = (get_data <$> head (write_msgs h));
  inv_order : text_of sent = (tcp_out h ++ text_of (map get_data (write_msgs h)))%string
}.

Lemma handler_run_inv udp h sent : handler_run udp h sent -> handler_inv h sent.
Proof.
  induction 1 as [|h sent msg Hr [Hw Ho]|h sent msg Hr [Hw Ho] Hudp|h sent bytes Hr [Hw Ho] Hb].
  - by split.
  - unfold deliver_message. cbn [andb]. destruct (write_msgs h) as [|q qs] eqn:E; split;
      cbn [do_write negb write_msgs writing tcp_out head app fmap option_fmap option_map] in *; try done.
    all: rewrite text_of_app, Ho; simpl; rewrite ?map_app, ?text_of_app, ?string_app_assoc; done.
  - unfold deliver_message in *. case_if; [by split|].
    by case_if; cbn [do_write udp_out] in Hudp.
  - rewrite Hw in Hb. unfold write_completed. destruct (write_msgs h) as [|q qs] eqn:E; [done|].
    simpl in Hb. injection Hb as <-. unfold do_write. split; cbn [write_msgs writing tcp_out tl].
    + by destruct qs.
    + rewrite Ho. by destruct qs; simpl; rewrite ?string_app_assoc.
Qed.

(** [MessageHandler] writes the queued messages one at a time and in the order they
    were delivered: at every moment the bytes confirmed so far followed by the messages
    still queued are exactly the messages delivered, a write is in flight exactly when the
    queue is not empty, and it is writing the message at the front. *)
Theorem write_queue_fifo udp h sent : handler_run udp h sent ->
  text_of sent = (tcp_out h ++ text_of (map get_data (write_msgs h)))%string /\
  writing h = (get_data <$> head (write_msgs h)) /\
  (writing h = None -> tcp_out h = text_of sent).
Proof.
  intros [Hw Ho]%handler_run_inv. split; [done|]. split; [done|]. rewrite Hw, Ho.
  destruct (write_msgs h) as [|q qs]; [|done]. intros _. cbn. by rewrite string_app_nil_r.
Qed.

Lemma write_queue_fifo_witness :
  let m1 := Message false 0 0 "" 4 [("a", "b")] in
  let m2 := Message false 0 0 "" 4 [("c", "d")] in
  let h := deliver_message (deliver_message (MessageHandler true [] None "" []) m1 false) m2 false in
  writing h = Some "00000004a=b;" /\
  text_of [get_data (encode m1); get_data (encode m2)] = text_of (map get_data (write_msgs h)).
Proof.
  intros m1 m2 h. split; [reflexivity|].
  assert (Hr : handler_run true h [get_data (encode m1); get_data (encode m2)]).
  { apply (run_deliver true _ [get_data (encode m1)]). apply (run_deliver true _ []). constructor. }
  exact (proj1 (write_queue_fifo true h _ Hr)).
Defined.

(** ** Byte arrays in message values *)

(** [char] data as [0..255]; each byte becomes two letters from [a] to [p]. *)
(* @src src_jni/remote_interface.hh:165-180 encode_byte_array *)
Fixpoint encode_byte_array (data : list Z) : string :=
  match data with
  | [] => EmptyString
  | b :: data =>
      String (of_byte (Z.shiftr (Z.land b 0xf0) 4 + byte_of "a"))
        (String (of_byte (Z.land b 0x0f + byte_of "a")) (encode_byte_array data))
  end.

(** [len = size / 2]: an odd last character is ignored; a byte is kept to its 8 bits. *)
(* @src src_jni/remote_interface.hh:182-197 decode_byte_array *)
Fixpoint decode_byte_array (encoded : string) : list Z :=
  match encoded with
  | String c0 (String c1 encoded) =>
      u8 (Z.lor (Z.shiftl (byte_of c0 - byte_of "a") 4) (byte_of c1 - byte_of "a"))
        :: decode_byte_array encoded
  | _ => []
  end.

Lemma byte_letters b : 0 <= b < 256 ->
  exists c0 c1, of_byte (Z.shiftr (Z.land b 0xf0) 4 + byte_of "a") = c0 /\
    of_byte (Z.land b 0x0f + byte_of "a") = c1 /\
    u8 (Z.lor (Z.shiftl (byte_of c0 - byte_of "a") 4) (byte_of c1 - byte_of "a")) = b /\
    97 <= byte_of c0 <= 112 /\ 97 <= byte_of c1 <= 112.
Proof.
  intros Hb. do 2 eexists. split; [reflexivity|]. split; [reflexivity|]. revert b Hb.
  assert (forallb (fun b => let c0 := of_byte (Z.shiftr (Z.land b 0xf0) 4 + byte_of "a") in
    let c1 := of_byte (Z.land b 0x0f + byte_of "a") in
    (u8 (Z.lor (Z.shiftl (byte_of c0 - byte_of "a") 4) (byte_of c1 - byte_of "a")) =? b) &&
    ((97 <=? byte_of c0) && (byte_of c0 <=? 112)) && ((97 <=? byte_of c1) && (byte_of c1 <=? 112)))
    (map Z.of_nat (seq 0 256)) = true) as Hall by (vm_compute; reflexivity).
  intros b Hb. rewrite forallb_forall in Hall. specialize (Hall b).
  assert (In b (map Z.of_nat (seq 0 256))) as Hin.
  { apply in_map_iff. exists (Z.to_nat b). split; [lia|]. apply in_seq. lia. }
  specialize (Hall Hin). cbv zeta in Hall. zbool. auto.
Qed.

(** [decode_byte_array] recovers every byte [encode_byte_array] wrote, and the encoded
    text is two letters per byte, so it passes unchanged through [set_value]. *)
Theorem byte_array_roundtrip data : Forall in_u8 data ->
  decode_byte_array (encode_byte_array data) = data /\
  String.length (encode_byte_array data) = (2 * length data)%nat /\
  wire_text (encode_byte_array data).
Proof.
  unfold wire_text. induction 1 as [|b data Hb Hall (IH1 & IH2 & IH3 & IH4 & IH5)]; [done|].
  cbn [encode_byte_array]. destruct (byte_letters b Hb) as (c0 & c1 & -> & -> & Hv & H0 & H1).
  cbn [decode_byte_array String.length length nul_free contains].
  rewrite Hv, IH1, IH2, IH3, IH4, IH5, !orb_false_r. split; [done|]. split; [lia|].
  rewrite !(proj2 (Z.eqb_neq _ _)) by lia. split; [done|].
  split; apply orb_false_iff; split; apply Ascii.eqb_neq; intros ->; vm_compute in H0, H1; tauto || lia.
Qed.

Lemma byte_array_roundtrip_witness :
  Forall in_u8 [0; 127; 255] /\ decode_byte_array (encode_byte_array [0; 127; 255]) = [0; 127; 255].
Proof.
  assert (Forall in_u8 [0; 127; 255]) as H by (repeat constructor; unfold in_u8; lia).
  split; [exact H|apply (byte_array_roundtrip _ H)].
Defined.
