(* ===== verification/Sequence.v ===== *)
(** * The pattern sequence object (src_jni/engine_code/sequence.hh, sequence.cc)

    A [Sequence] exists on the server and, mirrored, on every client. The
    [process_*] members are the same code on both sides; the server's handlers run them
    and broadcast a command, the clients' handlers run them on the command. A handler
    gets the message as the function [get_value] is on it, and a broadcast is the list of
    [set_value] calls that build it. Notes and instances are the values of the linked
    lists of LinkedList.v; the allocators they come from are the ones of Common.v, and
    an object in a list is taken to stay allocated until it is dropped. *)

From Stdlib Require Import ZArith Lia Ascii String.
From stdpp Require Import base list strings numbers.
From S2P Require Import Prelude CxxString StdMap Common LinkedList Serialize Message.
Local Open Scope string_scope.
Local Open Scope list_scope.
Local Open Scope Z_scope.
Local Open Scope vk_scope.

(** ** Data *)

(* @src src_jni/engine_code/sequence.hh:44-48 Sequence::PatternInstance *)
Record pattern_instance : Type := PatternInstance {
  pattern_id : Z;
  start_at : Z;
  loop_length : Z;
  stop_at : Z
}.

(** [start_at] is compared twice and [loop_length] never. *)
(* @src src_jni/engine_code/sequence.hh:50-56 Sequence::PatternInstance::operator== *)
Definition instance_eqb (lhs rhs : pattern_instance) : bool :=
  let a := pattern_id lhs =? pattern_id rhs in
  let b := start_at lhs =? start_at rhs in
  let c := start_at lhs =? start_at rhs in
  let d := stop_at lhs =? stop_at rhs in
  a && b && c && d.

(* @src src_jni/engine_code/sequence.hh:62-64 Sequence::PatternInstance::operator< *)
Definition instance_ltb (lhs rhs : pattern_instance) : bool := start_at lhs <? start_at rhs.

(* @src src_jni/engine_code/sequence.hh:72-79 Sequence::Note *)
Record note : Type := Note {
  channel : Z;
  program : Z;
  velocity : Z;
  note_key : Z;
  on_at : Z;
  length : Z
}.

(* @src src_jni/engine_code/sequence.hh:87-95 Sequence::Note::operator== *)
Definition note_eqb (lhs rhs : note) : bool :=
  let a := channel lhs =? channel rhs in
  let b := program lhs =? program rhs in
  let c := velocity lhs =? velocity rhs in
  let d := note_key lhs =? note_key rhs in
  let e := on_at lhs =? on_at rhs in
  let f := length lhs =? length rhs in
  a && b && c && d && e && f.

(* @src src_jni/engine_code/sequence.hh:101-103 Sequence::Note::operator< *)
Definition note_ltb (lhs rhs : note) : bool := on_at lhs <? on_at rhs.

(* @src src_jni/engine_code/sequence.hh:180-183 Sequence::Pattern *)
Record pattern : Type := Pattern { id : Z; name : string; note_list : list note }.

(* @src src_jni/engine_code/sequence.hh:194-197 Sequence *)
Record sequence : Type := Sequence {
  patterns : smap Z pattern;
  instance_list : list pattern_instance;
  sequence_name : string
}.

(** ** The commands' effect, on either side *)

(** The allocator hands out an object whose list is empty: new, or cleared when dropped. *)
(* @src src_jni/engine_code/sequence.cc:589-594 Sequence::process_add_pattern *)
Definition process_add_pattern (s : sequence) (new_name : string) (new_id : Z) : sequence :=
  Sequence (mset (patterns s) new_id (Pattern new_id new_name [])) (instance_list s) (sequence_name s).

(* @src src_jni/engine_code/sequence.cc:596-611 Sequence::process_del_pattern *)
Definition process_del_pattern (s : sequence) (pattern_id : Z) : bool * sequence :=
  match mfind (patterns s) pattern_id with
  | Some _ => (true, Sequence (merase (patterns s) pattern_id) (instance_list s) (sequence_name s))
  | None => (false, s)
  end.

(* @src src_jni/engine_code/sequence.cc:622-643 Sequence::process_add_pattern_instance *)
Definition overlaps (start stop : Z) (pin : pattern_instance) : bool :=
  ((start <=? start_at pin) && (start_at pin <=? stop))
  || ((start <=? stop_at pin) && (stop_at pin <=? stop)).

(* @src src_jni/engine_code/sequence.cc:613-662 Sequence::process_add_pattern_instance *)
Definition process_add_pattern_instance (s : sequence) (pattern_id start loop_length stop : Z)
  : bool * sequence :=
  if i32 (stop - start) <=? 0 then (false, s)
  else match mfind (patterns s) pattern_id with
       | None => (false, s)
       | Some _ =>
           let did_overlap :=
             fold_left (fun did_overlap pin => if overlaps start stop pin then true else did_overlap)
               (instance_list s) false in
           if did_overlap then (false, s)
           else
             let new_instance := PatternInstance pattern_id start loop_length stop in
             (true, Sequence (patterns s) (list_insert instance_ltb new_instance (instance_list s))
                      (sequence_name s))
       end.

(* @src src_jni/engine_code/sequence.cc:664-671 Sequence::process_del_pattern_instance *)
Definition process_del_pattern_instance (s : sequence) (pin : pattern_instance) : sequence :=
  Sequence (patterns s) (list_drop instance_eqb pin (instance_list s)) (sequence_name s).

(** The pattern [ptrn_itr->second], updated in place. *)
Definition with_notes (s : sequence) (pattern_id : Z) (f : list note -> list note) : sequence :=
  match mfind (patterns s) pattern_id with
  | None => s
  | Some ptrn =>
      Sequence (mset (patterns s) pattern_id (Pattern (id ptrn) (name ptrn) (f (note_list ptrn))))
        (instance_list s) (sequence_name s)
  end.

(* @src src_jni/engine_code/sequence.cc:673-689 Sequence::process_add_note *)
Definition process_add_note (s : sequence) (pattern_id : Z) (new_note : note) : sequence :=
  with_notes s pattern_id (list_insert note_ltb new_note).

(* @src src_jni/engine_code/sequence.cc:691-702 Sequence::process_delete_note *)
Definition process_delete_note (s : sequence) (pattern_id : Z) (n : note) : sequence :=
  with_notes s pattern_id (list_drop note_eqb n).

(** ** Messages *)

(** A received message, as [get_value] on it; a message to send, as its [set_value] calls. *)
Definition view : Type := string -> result string.
Definition pairs : Type := list (string * string).

Definition get_int (msg : view) (key : string) : result Z := rmap stoi (msg key).
Definition get_uint (msg : view) (key : string) : result Z := rmap stoul (msg key).

(** [send_message]: the object id, the command, then the callback's values; building it
    fails on a character [set_value] refuses. *)
(* @src src_jni/remote_interface.cc:453-480 BaseObject::send_object_message *)
Definition send_message (obj_id : Z) (command_id : string) (values : pairs) : result pairs :=
  let kvs := ("id", to_string obj_id) :: ("commandid", command_id) :: values in
  let! _ := set_values (new_message false 0 0) kvs in
  Ok kvs.

(* @src src_jni/engine_code/sequence.cc:434-440 Sequence::handle_cmd_del_note *)
Definition get_note (msg : view) : result note :=
  let! channel := get_int msg "channel" in
  let! program := get_int msg "program" in
  let! velocity := get_int msg "velocity" in
  let! key := get_int msg "note" in
  let! on_at := get_int msg "on_at" in
  let! length := get_int msg "length" in
  Ok (Note channel program velocity key on_at length).

(* @src src_jni/engine_code/sequence.cc:177-197 Sequence::handle_req_add_note *)
Definition put_note (pattern_id : Z) (n : note) : pairs :=
  [("pattern_id", to_string pattern_id); ("channel", to_string (channel n));
   ("program", to_string (program n)); ("velocity", to_string (velocity n));
   ("note", to_string (note_key n)); ("on_at", to_string (on_at n)); ("length", to_string (length n))].

(* @src src_jni/engine_code/sequence.cc:119-125 Sequence::handle_req_del_pattern_instance *)
Definition get_instance (msg : view) : result pattern_instance :=
  let! pattern_id := get_uint msg "pattern_id" in
  let! start := get_int msg "start_at" in
  let! loop_length := get_int msg "loop_length" in
  let! stop := get_int msg "stop_at" in
  Ok (PatternInstance pattern_id start loop_length stop).

(* @src src_jni/engine_code/sequence.cc:135-146 Sequence::handle_req_del_pattern_instance *)
Definition put_instance (pin : pattern_instance) : pairs :=
  [("pattern_id", to_string (pattern_id pin)); ("start_at", to_string (start_at pin));
   ("loop_length", to_string (loop_length pin)); ("stop_at", to_string (stop_at pin))].

(** The next identifier is a [uint32_t]. *)
Definition id_allocator_in_range (ids : id_allocator) : Prop := in_u32 (fst (get_id ids)).

(** ** The server: a handler leaves its state, and a broadcast or an exception *)

Record server : Type := Server { seq : sequence; pattern_id_allocator : id_allocator }.

Definition reply : Type := result (option pairs).
Definition sent (m : result pairs) : reply := rmap Some m.

(** [let!] for a handler: an exception before any change leaves the state. *)
Definition parse {A} (st : server) (m : result A) (k : A -> server * reply) : server * reply :=
  match m with Ok a => k a | Err e => (st, Err e) end.

(* @src src_jni/engine_code/sequence.cc:39-58 Sequence::handle_req_add_pattern *)
Definition handle_req_add_pattern (obj_id : Z) (st : server) (msg : view) : server * reply :=
  parse st (msg "name") (fun new_name =>
  let '(new_id, ids) := get_id (pattern_id_allocator st) in
  (Server (process_add_pattern (seq st) new_name new_id) ids,
   sent (send_message obj_id "cmd_add_ptrn" [("pattern_id", to_string new_id); ("name", new_name)]))).

(* @src src_jni/engine_code/sequence.cc:60-82 Sequence::handle_req_del_pattern *)
Definition handle_req_del_pattern (obj_id : Z) (st : server) (msg : view) : server * reply :=
  parse st (get_uint msg "pattern_id") (fun pattern_id =>
  let '(found, s) := process_del_pattern (seq st) pattern_id in
  if found then
    match free_id (pattern_id_allocator st) pattern_id with
    | Ok ids => (Server s ids,
                 sent (send_message obj_id "cmd_del_ptrn" [("pattern_id", to_string pattern_id)]))
    | Err e => (Server s (pattern_id_allocator st), Err e)
    end
  else (st, Ok None)).

(* @src src_jni/engine_code/sequence.cc:84-114 Sequence::handle_req_add_pattern_instance *)
Definition handle_req_add_pattern_instance (obj_id : Z) (st : server) (msg : view) : server * reply :=
  parse st (get_instance msg) (fun pin =>
  let '(operation_successfull, s) :=
    process_add_pattern_instance (seq st) (pattern_id pin) (start_at pin) (loop_length pin) (stop_at pin) in
  (Server s (pattern_id_allocator st),
   if operation_successfull then sent (send_message obj_id "cmd_add_ptrn_inst" (put_instance pin))
   else Ok None)).

(* @src src_jni/engine_code/sequence.cc:116-149 Sequence::handle_req_del_pattern_instance *)
Definition handle_req_del_pattern_instance (obj_id : Z) (st : server) (msg : view) : server * reply :=
  parse st (get_instance msg) (fun pin =>
  (Server (process_del_pattern_instance (seq st) pin) (pattern_id_allocator st),
   sent (send_message obj_id "cmd_del_ptrn_inst" (put_instance pin)))).

(* @src src_jni/engine_code/sequence.cc:151-200 Sequence::handle_req_add_note *)
Definition handle_req_add_note (obj_id : Z) (st : server) (msg : view) : server * reply :=
  parse st (get_uint msg "pattern_id") (fun pattern_id =>
  parse st (get_note msg) (fun n =>
  (Server (process_add_note (seq st) pattern_id n) (pattern_id_allocator st),
   sent (send_message obj_id "cmd_add_note" (put_note pattern_id n))))).

(** The command broadcast is the one that deletes a pattern instance. *)
(* @src src_jni/engine_code/sequence.cc:202-249 Sequence::handle_req_del_note *)
Definition handle_req_del_note (obj_id : Z) (st : server) (msg : view) : server * reply :=
  parse st (get_note msg) (fun n =>
  parse st (get_uint msg "pattern_id") (fun pattern_id =>
  (Server (process_delete_note (seq st) pattern_id n) (pattern_id_allocator st),
   sent (send_message obj_id "cmd_del_ptrn_inst" (put_note pattern_id n))))).

(* @src src_jni/engine_code/sequence.hh:229-235 Sequence::register_handlers *)
Definition server_handler (command_id : string) : option (Z -> server -> view -> server * reply) :=
  if String.eqb command_id "req_add_ptrn" then Some handle_req_add_pattern
  else if String.eqb command_id "req_del_ptrn" then Some handle_req_del_pattern
  else if String.eqb command_id "req_add_ptrn_inst" then Some handle_req_add_pattern_instance
  else if String.eqb command_id "req_del_ptrn_inst" then Some handle_req_del_pattern_instance
  else if String.eqb command_id "req_add_note" then Some handle_req_add_note
  else if String.eqb command_id "req_del_note" then Some handle_req_del_note
  else None.

(** ** The client *)

(* @src src_jni/engine_code/sequence.cc:367-375 Sequence::handle_cmd_add_pattern *)
Definition handle_cmd_add_pattern (s : sequence) (msg : view) : result sequence :=
  let! new_name := msg "name" in
  let! new_id := get_uint msg "pattern_id" in
  Ok (process_add_pattern s new_name new_id).

(* @src src_jni/engine_code/sequence.cc:377-384 Sequence::handle_cmd_del_pattern *)
Definition handle_cmd_del_pattern (s : sequence) (msg : view) : result sequence :=
  let! pattern_id := get_uint msg "pattern_id" in
  Ok (snd (process_del_pattern s pattern_id)).

(* @src src_jni/engine_code/sequence.cc:386-396 Sequence::handle_cmd_add_pattern_instance *)
Definition handle_cmd_add_pattern_instance (s : sequence) (msg : view) : result sequence :=
  let! pin := get_instance msg in
  Ok (snd (process_add_pattern_instance s (pattern_id pin) (start_at pin) (loop_length pin) (stop_at pin))).

(* @src src_jni/engine_code/sequence.cc:398-411 Sequence::handle_cmd_del_pattern_instance *)
Definition handle_cmd_del_pattern_instance (s : sequence) (msg : view) : result sequence :=
  let! to_del := get_instance msg in
  Ok (process_del_pattern_instance s to_del).

(* @src src_jni/engine_code/sequence.cc:413-426 Sequence::handle_cmd_add_note *)
Definition handle_cmd_add_note (s : sequence) (msg : view) : result sequence :=
  let! pattern_id := get_uint msg "pattern_id" in
  let! n := get_note msg in
  Ok (process_add_note s pattern_id n).

(* @src src_jni/engine_code/sequence.cc:428-445 Sequence::handle_cmd_del_note *)
Definition handle_cmd_del_note (s : sequence) (msg : view) : result sequence :=
  let! n := get_note msg in
  let! pattern_id := get_uint msg "pattern_id" in
  Ok (process_delete_note s pattern_id n).

(* @src src_jni/engine_code/sequence.hh:237-242 Sequence::register_handlers *)
Definition client_handler (command_id : string) : option (sequence -> view -> result sequence) :=
  if String.eqb command_id "cmd_add_ptrn" then Some handle_cmd_add_pattern
  else if String.eqb command_id "cmd_del_ptrn" then Some handle_cmd_del_pattern
  else if String.eqb command_id "cmd_add_ptrn_inst" then Some handle_cmd_add_pattern_instance
  else if String.eqb command_id "cmd_del_ptrn_inst" then Some handle_cmd_del_pattern_instance
  else if String.eqb command_id "cmd_add_note" then Some handle_cmd_add_note
  else if String.eqb command_id "cmd_del_note" then Some handle_cmd_del_note
  else None.

(** ** Dispatch *)

(* @src src_jni/remote_interface.cc:722-729 SimpleBaseObject::process_message_server *)
Definition process_message_server (obj_id : Z) (st : server) (msg : view) : server * reply :=
  parse st (msg "commandid") (fun command_id =>
  match server_handler command_id with
  | Some handler => handler obj_id st msg
  | None => (st, Ok None)
  end).

(* @src src_jni/remote_interface.cc:731-738 SimpleBaseObject::process_message_client *)
Definition process_message_client (s : sequence) (msg : view) : result sequence :=
  let! command_id := msg "commandid" in
  match client_handler command_id with
  | Some handler => handler s msg
  | None => Ok s
  end.

(** ** The client's requests; the key "id" they set is the one of the object id *)

(* @src src_jni/remote_interface.cc:710-715 SimpleBaseObject::send_message_to_server *)
Definition send_message_to_server (obj_id : Z) (command_id : string) (values : pairs) : result pairs :=
  send_message obj_id command_id values.

(* @src src_jni/engine_code/sequence.cc:447-454 Sequence::add_pattern *)
Definition add_pattern (obj_id : Z) (new_name : string) : result pairs :=
  send_message_to_server obj_id "req_add_ptrn" [("name", new_name)].

(* @src src_jni/engine_code/sequence.cc:466-473 Sequence::delete_pattern *)
Definition delete_pattern (obj_id pattern_id : Z) : result pairs :=
  send_message_to_server obj_id "req_del_ptrn" [("id", to_string pattern_id)].

(* @src src_jni/engine_code/sequence.cc:475-489 Sequence::insert_pattern_in_sequence *)
Definition insert_pattern_in_sequence (obj_id : Z) (pin : pattern_instance) : result pairs :=
  send_message_to_server obj_id "req_add_ptrn_inst"
    [("id", to_string (pattern_id pin)); ("start_at", to_string (start_at pin));
     ("loop_length", to_string (loop_length pin)); ("stop_at", to_string (stop_at pin))].

(* @src src_jni/engine_code/sequence.cc:503-518 Sequence::delete_pattern_from_sequence *)
Definition delete_pattern_from_sequence (obj_id : Z) (pin : pattern_instance) : result pairs :=
  send_message_to_server obj_id "req_del_ptrn_inst"
    [("id", to_string (pattern_id pin)); ("start_at", to_string (start_at pin));
     ("loop_length", to_string (loop_length pin)); ("stop_at", to_string (stop_at pin))].

Definition note_values (n : note) : pairs :=
  [("channel", to_string (channel n)); ("program", to_string (program n));
   ("velocity", to_string (velocity n)); ("note", to_string (note_key n));
   ("on_at", to_string (on_at n)); ("length", to_string (length n))].

(* @src src_jni/engine_code/sequence.cc:521-538 Sequence::add_note *)
Definition add_note (obj_id pattern_id : Z) (n : note) : result pairs :=
  send_message_to_server obj_id "req_add_note" (("id", to_string pattern_id) :: note_values n).

(* @src src_jni/engine_code/sequence.cc:557-579 Sequence::delete_note *)
Definition delete_note (obj_id pattern_id : Z) (n : note) : result pairs :=
  send_message_to_server obj_id "req_del_note" (("id", to_string pattern_id) :: note_values n).

(* @src src_jni/engine_code/sequence.cc:456-464 Sequence::get_pattern_ids *)
Definition get_pattern_ids (s : sequence) : list Z := map (fun p => id (snd p)) (patterns s).

(* @src src_jni/engine_code/sequence.cc:491-501 Sequence::get_sequence *)
Definition get_sequence (s : sequence) : list pattern_instance := instance_list s.

(* @src src_jni/engine_code/sequence.cc:540-555 Sequence::get_notes *)
Definition get_notes (s : sequence) (pattern_id : Z) : list note :=
  match mfind (patterns s) pattern_id with
  | None => []
  | Some ptrn => note_list ptrn
  end.

(** ** Serialisation: what a client that connects later gets *)

Definition note_tuple : Type := Z * (Z * (Z * (Z * (Z * Z)))).

(* @src src_jni/engine_code/sequence.cc:704-712 Sequence::Note::serderize_single *)
Definition note_fields : Serializable note :=
  let int := int_serializable in
  fields_struct (fields_pair int (fields_pair int (fields_pair int (fields_pair int (fields_pair int int)))))
    (fun '(c, (p, (v, (k, (o, l))))) => Note c p v k o l)
    (fun n => (channel n, (program n, (velocity n, (note_key n, (on_at n, length n))))))
    (fun n => match n with Note _ _ _ _ _ _ => eq_refl end).

(** A note and the notes that follow it in the list. *)
(* @src src_jni/engine_code/sequence.cc:714-731 Sequence::Note::serderize *)
Definition note_serderize : Serializable (note * list note) :=
  fields_pair note_fields (chain_fields note_fields).

Definition head_and_tail (l : list note) : option (note * list note) :=
  match l with [] => None | n :: l => Some (n, l) end.
Definition whole_list (o : option (note * list note)) : list note :=
  match o with None => [] | Some (n, l) => n :: l end.

Lemma whole_head_and_tail l : whole_list (head_and_tail l) = l.
Proof. by destruct l. Qed.

(* @src src_jni/engine_code/sequence.cc:739-751 Sequence::Pattern::serderize *)
Definition pattern_serderize : Serializable pattern :=
  let notes := option_fields (object_serializable "SequenceNote" note_serderize (conj eq_refl eq_refl)) in
  fields_struct (fields_pair uint_serializable (fields_pair string_serializable notes))
    (fun '(i, (n, l)) => Pattern i n (whole_list l))
    (fun p => (id p, (name p, head_and_tail (note_list p))))
    (fun p => match p with Pattern i n l => f_equal (Pattern i n) (whole_head_and_tail l) end).

(* @src src_jni/engine_code/sequence.cc:757-764 Sequence::serderize_sequence *)
Definition serderize_sequence : Serializable (string * smap Z pattern) :=
  fields_pair string_serializable
    (map_serializable uint_serializable
       (object_serializable "SequencePattern" pattern_serderize (conj eq_refl eq_refl))).

(* @src src_jni/engine_code/sequence.cc:301-305 Sequence::serialize *)
Definition serialize (s : sequence) : pairs :=
  [("sequence_data", write_one serderize_sequence (sequence_name s, patterns s))].

(* @src src_jni/engine_code/sequence.cc:766-785 Sequence::Sequence *)
Definition new_client_sequence (serialized : view) : result sequence :=
  let! data := serialized "sequence_data" in
  let! (sequence_name, patterns) := read_one serderize_sequence data in
  Ok (Sequence patterns [] sequence_name).

(* @src src_jni/engine_code/sequence.cc:787-803 Sequence::Sequence *)
Definition new_server_sequence : sequence := Sequence [] [] "".

(** ** Transport of the values *)

Definition legal (p : string * string) : Prop :=
  (contains ";" (fst p) = false /\ contains "=" (fst p) = false) /\
  (contains ";" (snd p) = false /\ contains "=" (snd p) = false).

Lemma set_values_legal kvs : forall m m', set_values m kvs = Ok m' -> Forall legal kvs.
Proof.
  induction kvs as [|[k v] kvs IH]; intros m m' He; [constructor|].
  unfold set_values in He. cbn [rfold fst snd] in He. inv_bind He. unfold set_value in Hx.
  repeat case_if_in Hx; try discriminate Hx. constructor; [by repeat split|by eapply IH].
Qed.

Lemma send_message_inv obj_id command_id values kvs :
  send_message obj_id command_id values = Ok kvs ->
  kvs = ("id", to_string obj_id) :: ("commandid", command_id) :: values /\ Forall legal kvs.
Proof.
  unfold send_message. cbv zeta. intros He. inv_bind He. injection He as <-.
  split; [done|by eapply set_values_legal].
Qed.

Lemma set_values_ok kvs : forall m, Forall good_pair kvs -> exists m', set_values m kvs = Ok m'.
Proof.
  induction kvs as [|[k v] kvs IH]; intros m Hall; [by exists m|].
  apply List.Forall_cons_iff in Hall as [Hp Hall]. unfold set_values. cbn [rfold fst snd].
  rewrite (set_value_good _ _ _ Hp). by apply IH.
Qed.

Lemma send_message_good obj_id c values :
  Forall good_pair (("id", to_string obj_id) :: ("commandid", c) :: values) ->
  send_message obj_id c values = Ok (("id", to_string obj_id) :: ("commandid", c) :: values).
Proof.
  intros Hall. unfold send_message. cbv zeta.
  destruct (set_values_ok _ (new_message false 0 0) Hall) as [m ->]. done.
Qed.

Lemma to_string_wire v : wire_text (to_string v) /\ wire_value (to_string v) = to_string v.
Proof.
  split.
  - split; [apply to_string_nul_free|]. split; apply to_string_contains; done.
  - unfold wire_value. by rewrite (proj2 (String.eqb_neq _ _)) by apply to_string_nonempty.
Qed.

Lemma stoi_wire v : in_i32 v -> stoi (wire_value (to_string v)) = v.
Proof. intros H. destruct (to_string_wire v) as [_ ->]. by apply stoi_to_string. Qed.

Lemma stoul_wire v : in_u32 v -> stoul (wire_value (to_string v)) = v.
Proof. intros H. destruct (to_string_wire v) as [_ ->]. by apply stoul_to_string. Qed.

Lemma good_number k v : good_key k -> good_pair (k, to_string v).
Proof. intros Hk. split; [done|apply to_string_wire]. Qed.

Definition instance_in_range (pin : pattern_instance) : Prop :=
  in_u32 (pattern_id pin) /\ in_i32 (start_at pin) /\ in_i32 (loop_length pin) /\ in_i32 (stop_at pin).

Definition note_in_range (n : note) : Prop :=
  in_i32 (channel n) /\ in_i32 (program n) /\ in_i32 (velocity n) /\ in_i32 (note_key n) /\
  in_i32 (on_at n) /\ in_i32 (length n).

Lemma get_int_inv msg k v : get_int msg k = Ok v -> in_i32 v.
Proof. unfold get_int, rmap. intros H. inv_bind H. injection H as <-. apply stoi_range. Qed.

Lemma get_uint_inv msg k v : get_uint msg k = Ok v -> in_u32 v.
Proof. unfold get_uint, rmap. intros H. inv_bind H. injection H as <-. apply stoul_range. Qed.

Lemma get_instance_range msg pin : get_instance msg = Ok pin -> instance_in_range pin.
Proof.
  unfold get_instance. intros H. do 4 inv_bind H. injection H as <-.
  repeat split; cbn; by (eapply get_uint_inv || eapply get_int_inv).
Qed.

Lemma get_note_range msg n : get_note msg = Ok n -> note_in_range n.
Proof.
  unfold get_note. intros H. do 6 inv_bind H. injection H as <-.
  repeat split; cbn; by eapply get_int_inv.
Qed.

(** What the client reads back from the pairs the server sent. *)
Lemma received_instance obj_id c pin : instance_in_range pin ->
  get_instance (received (("id", to_string obj_id) :: ("commandid", c) :: put_instance pin)) = Ok pin.
Proof.
  intros (H1 & H2 & H3 & H4). unfold get_instance, get_uint, get_int, received, rmap. cbn.
  rewrite stoul_wire, !stoi_wire by done. by destruct pin.
Qed.

Lemma received_note obj_id c i n : in_u32 i -> note_in_range n ->
  let msg := received (("id", to_string obj_id) :: ("commandid", c) :: put_note i n) in
  get_note msg = Ok n /\ get_uint msg "pattern_id" = Ok i.
Proof.
  intros Hi (H1 & H2 & H3 & H4 & H5 & H6). unfold get_note, get_uint, get_int, received, rmap. cbn.
  rewrite stoul_wire, !stoi_wire by done. by destruct n.
Qed.

Lemma received_command obj_id c values :
  String.eqb c "" = false -> received (("id", to_string obj_id) :: ("commandid", c) :: values) "commandid" = Ok c.
Proof. intros H. unfold received. cbn. unfold wire_value. by rewrite H. Qed.

(** A broadcast that [message_roundtrip] carries unchanged. *)
Definition deliverable (kvs : pairs) : Prop := Forall good_pair kvs /\ NoDup (map fst kvs).

Ltac nodup_keys := apply (bool_decide_unpack _); vm_compute; exact I.

Lemma header_good obj_id c : wire_text c -> good_pair ("id", to_string obj_id) /\ good_pair ("commandid", c).
Proof. intros Hc. split; [by apply good_number; repeat split|by repeat split; destruct Hc as (? & ? & ?)]. Qed.

Lemma deliverable_instance obj_id c pin : wire_text c ->
  deliverable (("id", to_string obj_id) :: ("commandid", c) :: put_instance pin).
Proof.
  intros Hc. destruct (header_good obj_id c Hc) as [H1 H2]. split; [|cbn; nodup_keys].
  repeat (apply List.Forall_cons; [first [done|by apply good_number; repeat split]|]). constructor.
Qed.

Lemma deliverable_note obj_id c i n : wire_text c ->
  deliverable (("id", to_string obj_id) :: ("commandid", c) :: put_note i n).
Proof.
  intros Hc. destruct (header_good obj_id c Hc) as [H1 H2]. split; [|cbn; nodup_keys].
  repeat (apply List.Forall_cons; [first [done|by apply good_number; repeat split]|]). constructor.
Qed.

Lemma deliverable_pattern obj_id i n : wire_text n ->
  deliverable [("id", to_string obj_id); ("commandid", "cmd_add_ptrn");
               ("pattern_id", to_string i); ("name", n)].
Proof.
  intros Hn. destruct (header_good obj_id "cmd_add_ptrn") as [H1 H2]; [by repeat split|].
  split; [|cbn; nodup_keys].
  repeat (apply List.Forall_cons; [first [done|by apply good_number; repeat split]|]).
  constructor.
Qed.

Lemma deliverable_pattern_id obj_id i :
  deliverable [("id", to_string obj_id); ("commandid", "cmd_del_ptrn"); ("pattern_id", to_string i)].
Proof.
  destruct (header_good obj_id "cmd_del_ptrn") as [H1 H2]; [by repeat split|].
  split; [|cbn; nodup_keys].
  repeat (apply List.Forall_cons; [first [done|by apply good_number; repeat split]|]). constructor.
Qed.

(** ** Replication *)

(** The client's copy: same patterns, notes and instances; its name was set when it was built. *)
Definition mirrors (server_side client_side : sequence) : Prop :=
  patterns client_side = patterns server_side /\ instance_list client_side = instance_list server_side.

Definition clean_name (msg : view) : Prop :=
  forall n, msg "name" = Ok n -> nul_free n = true /\ n <> "".

(** What the client must do with the server's answer. *)
Definition client_follows (st' : server) (r : option pairs) (c : sequence) : Prop :=
  match r with
  | None => mirrors (seq st') c
  | Some kvs => deliverable kvs /\
      exists c', process_message_client c (received kvs) = Ok c' /\ mirrors (seq st') c'
  end.

Lemma parse_ok {A} st (m : result A) k st' r :
  parse st m k = (st', Ok r) -> exists a, m = Ok a /\ k a = (st', Ok r).
Proof. unfold parse. destruct m; [eauto|by intros [= _ _]]. Qed.

Lemma sent_ok m r : sent m = Ok r -> exists kvs, m = Ok kvs /\ r = Some kvs.
Proof. unfold sent, rmap. intros H. inv_bind H. injection H as <-. eauto. Qed.

Lemma mirrors_with_notes s c i f : mirrors s c -> mirrors (with_notes s i f) (with_notes c i f).
Proof. intros [Hp Hi]. unfold with_notes. rewrite Hp. by destruct (mfind (patterns s) i); split. Qed.

Lemma add_instance_refused s i a l b s' :
  process_add_pattern_instance s i a l b = (false, s') -> s' = s.
Proof.
  unfold process_add_pattern_instance. case_if; [by intros [= <-]|].
  destruct (mfind (patterns s) i); [|by intros [= <-]]. cbv zeta.
  destruct (fold_left _ (instance_list s) false); [by intros [= <-]|done].
Qed.

Lemma mirrors_add_instance s c i a l b : mirrors s c ->
  mirrors (snd (process_add_pattern_instance s i a l b)) (snd (process_add_pattern_instance c i a l b)).
Proof.
  intros [Hp Hi]. unfold process_add_pattern_instance. rewrite Hp, Hi.
  case_if; [by split|]. destruct (mfind (patterns s) i); [|by split]. cbv zeta.
  destruct (fold_left _ (instance_list s) false); by split.
Qed.

Section handlers_replicate.
Context (obj_id : Z) (st st' : server) (msg : view) (r : option pairs) (c : sequence).
Context (Hm : mirrors (seq st) c).

Lemma add_pattern_follows : clean_name msg ->
  id_allocator_in_range (pattern_id_allocator st) ->
  handle_req_add_pattern obj_id st msg = (st', Ok r) -> client_follows st' r c.
Proof.
  intros Hname Hids H. unfold handle_req_add_pattern in H. apply parse_ok in H as (n & Hn & H).
  pose proof (Hids) as Hid. unfold id_allocator_in_range in Hid.
  destruct (get_id (pattern_id_allocator st)) as [i ids]. cbn [fst] in Hid.
  injection H as <- H. apply sent_ok in H as (kvs & H & ->).
  apply send_message_inv in H as [-> Hleg]. destruct (Hname n Hn) as [Hnul Hne].
  do 3 apply List.Forall_cons_iff in Hleg as [_ Hleg]. apply List.Forall_cons_iff in Hleg as [[_ [Hl1 Hl2]] _].
  split; [by apply deliverable_pattern|]. exists (process_add_pattern c n i). split.
  - unfold process_message_client. rewrite received_command by done. cbn [rbind].
    change (client_handler "cmd_add_ptrn") with (Some handle_cmd_add_pattern).
    unfold handle_cmd_add_pattern, get_uint, received, rmap. cbn.
    rewrite stoul_wire by done. unfold wire_value. by rewrite (proj2 (String.eqb_neq _ _)).
  - destruct Hm as [Hp Hi]. unfold process_add_pattern. by rewrite Hp, Hi.
Qed.

Lemma del_pattern_follows :
  handle_req_del_pattern obj_id st msg = (st', Ok r) -> client_follows st' r c.
Proof.
  intros H. unfold handle_req_del_pattern in H. apply parse_ok in H as (i & Hi & H).
  apply get_uint_inv in Hi. destruct Hm as [Hp Hil]. unfold process_del_pattern in H.
  destruct (mfind (patterns (seq st)) i) as [ptrn|] eqn:E; [|by injection H as <- <-].
  destruct (free_id (pattern_id_allocator st) i) as [ids|e]; [|by injection H].
  injection H as <- H. apply sent_ok in H as (kvs & H & ->). apply send_message_inv in H as [-> _].
  split; [apply deliverable_pattern_id|]. exists (snd (process_del_pattern c i)). split.
  - unfold process_message_client. rewrite received_command by done. cbn [rbind].
    change (client_handler "cmd_del_ptrn") with (Some handle_cmd_del_pattern).
    unfold handle_cmd_del_pattern, get_uint, received, rmap. cbn. by rewrite stoul_wire.
  - unfold process_del_pattern. rewrite Hp, E. by split.
Qed.

Lemma add_instance_follows :
  handle_req_add_pattern_instance obj_id st msg = (st', Ok r) -> client_follows st' r c.
Proof.
  intros H. unfold handle_req_add_pattern_instance in H. apply parse_ok in H as (pin & Hpin & H).
  apply get_instance_range in Hpin.
  pose proof (mirrors_add_instance (seq st) c (pattern_id pin) (start_at pin) (loop_length pin) (stop_at pin) Hm) as Hmir.
  destruct (process_add_pattern_instance (seq st) (pattern_id pin) (start_at pin) (loop_length pin) (stop_at pin))
    as [[] s'] eqn:E; cbn [snd] in Hmir; injection H as <- H.
  - apply sent_ok in H as (kvs & H & ->). apply send_message_inv in H as [-> _].
    split; [by apply deliverable_instance|]. eexists. split; [|exact Hmir].
    unfold process_message_client. rewrite received_command by done. cbn [rbind].
    change (client_handler "cmd_add_ptrn_inst") with (Some handle_cmd_add_pattern_instance).
    unfold handle_cmd_add_pattern_instance. by rewrite received_instance.
  - subst r. by apply add_instance_refused in E as ->.
Qed.

Lemma del_instance_follows :
  handle_req_del_pattern_instance obj_id st msg = (st', Ok r) -> client_follows st' r c.
Proof.
  intros H. unfold handle_req_del_pattern_instance in H. apply parse_ok in H as (pin & Hpin & H).
  apply get_instance_range in Hpin. injection H as <- H.
  apply sent_ok in H as (kvs & H & ->). apply send_message_inv in H as [-> _].
  split; [by apply deliverable_instance|]. exists (process_del_pattern_instance c pin). split.
  - unfold process_message_client. rewrite received_command by done. cbn [rbind].
    change (client_handler "cmd_del_ptrn_inst") with (Some handle_cmd_del_pattern_instance).
    unfold handle_cmd_del_pattern_instance. by rewrite received_instance.
  - destruct Hm as [Hp Hi]. unfold process_del_pattern_instance. by rewrite Hi.
Qed.

Lemma add_note_follows :
  handle_req_add_note obj_id st msg = (st', Ok r) -> client_follows st' r c.
Proof.
  intros H. unfold handle_req_add_note in H. apply parse_ok in H as (i & Hi & H).
  apply parse_ok in H as (n & Hn & H). apply get_uint_inv in Hi. apply get_note_range in Hn.
  injection H as <- H. apply sent_ok in H as (kvs & H & ->). apply send_message_inv in H as [-> _].
  split; [by apply deliverable_note|]. exists (process_add_note c i n). split.
  - unfold process_message_client. rewrite received_command by done. cbn [rbind].
    change (client_handler "cmd_add_note") with (Some handle_cmd_add_note).
    unfold handle_cmd_add_note. destruct (received_note obj_id "cmd_add_note" i n Hi Hn) as [H1 H2].
    rewrite H2. cbn [rbind]. by rewrite H1.
  - by apply mirrors_with_notes.
Qed.
End handlers_replicate.

Lemma request_followed obj_id st st' c msg r :
  mirrors (seq st) c -> clean_name msg -> id_allocator_in_range (pattern_id_allocator st) ->
  msg "commandid" <> Ok "req_del_note" ->
  process_message_server obj_id st msg = (st', Ok r) -> client_follows st' r c.
Proof.
  intros Hm Hname Hids Hcmd H. unfold process_message_server in H.
  apply parse_ok in H as (cmd & Hc & H). unfold server_handler in H.
  repeat case_if_in H; try by injection H as <- <-.
  - by eapply add_pattern_follows.
  - by eapply del_pattern_follows.
  - by eapply add_instance_follows.
  - by eapply del_instance_follows.
  - by eapply add_note_follows.
  - apply String.eqb_eq in E4. congruence.
Qed.


(** Whatever a handler broadcasts starts with the object's identifier and a command. *)
Lemma broadcast_header obj_id st msg st' kvs :
  process_message_server obj_id st msg = (st', Ok (Some kvs)) ->
  exists c values, kvs = ("id", to_string obj_id) :: ("commandid", c) :: values.
Proof.
  assert (Hsent : forall c values, sent (send_message obj_id c values) = Ok (Some kvs) ->
    exists c values, kvs = ("id", to_string obj_id) :: ("commandid", c) :: values).
  { intros c values (m & Hm & [= ->])%sent_ok. apply send_message_inv in Hm as [-> _]. by do 2 eexists. }
  intros H. unfold process_message_server in H. apply parse_ok in H as (cmd & _ & H).
  unfold server_handler in H. repeat case_if_in H; [..|by injection H].
  - apply parse_ok in H as (n & _ & H). destruct (get_id _). injection H as _ H. by eapply Hsent.
  - apply parse_ok in H as (i & _ & H). destruct (process_del_pattern _ _) as [[] s]; [|by injection H].
    destruct (free_id _ _); [|by injection H]. injection H as _ H. by eapply Hsent.
  - apply parse_ok in H as (n & _ & H). destruct (process_add_pattern_instance _ _ _ _ _) as [[] s];
      injection H as _ H; [by eapply Hsent|done].
  - apply parse_ok in H as (n & _ & H). injection H as _ H. by eapply Hsent.
  - apply parse_ok in H as (i & _ & H). apply parse_ok in H as (n & _ & H). injection H as _ H. by eapply Hsent.
  - apply parse_ok in H as (i & _ & H). apply parse_ok in H as (n & _ & H). injection H as _ H. by eapply Hsent.
Qed.

(** The pattern 0 with a note, and an instance of it. *)
Definition ex_sequence : sequence :=
  Sequence [(0, Pattern 0 "drums" [Note 0 0 100 36 0 4])] [PatternInstance 0 0 16 64] "seq".
Definition ex_server : server := Server ex_sequence (IDAllocator [(1, tt); (2, tt)] 3).

Definition ex_request (kvs : pairs) : view := received kvs.


(** Deleting a note is not replicated: whatever note is deleted, the server removes it
    and broadcasts it under the command that deletes a pattern instance; the client's
    handler then throws [NoSuchKey] for [start_at] and its copy keeps the note. *)
Theorem del_note_not_replicated obj_id st c msg pattern_id n :
  get_note msg = Ok n -> get_uint msg "pattern_id" = Ok pattern_id ->
  msg "commandid" = Ok "req_del_note" ->
  exists kvs, process_message_server obj_id st msg =
      (Server (process_delete_note (seq st) pattern_id n) (pattern_id_allocator st), Ok (Some kvs)) /\
    process_message_client c (received kvs) = Err (NoSuchKey "start_at").
Proof.
  intros Hn Hi Hc. unfold process_message_server. rewrite Hc. cbn [parse].
  change (server_handler "req_del_note") with (Some handle_req_del_note).
  unfold handle_req_del_note. rewrite Hn. cbn [parse]. rewrite Hi. cbn [parse].
  destruct (deliverable_note obj_id "cmd_del_ptrn_inst" pattern_id n) as [Hall _]; [by repeat split|].
  rewrite send_message_good by done. eexists. split; [reflexivity|].
  unfold process_message_client. rewrite received_command by done. cbn [rbind].
  change (client_handler "cmd_del_ptrn_inst") with (Some handle_cmd_del_pattern_instance).
  unfold handle_cmd_del_pattern_instance, get_instance, get_uint, get_int, received, rmap. reflexivity.
Qed.

Lemma del_note_not_replicated_witness : exists kvs,
  process_message_server 9 ex_server
    (ex_request (("commandid", "req_del_note") :: put_note 0 (Note 0 0 100 36 0 4))) =
    (Server (process_delete_note ex_sequence 0 (Note 0 0 100 36 0 4)) (pattern_id_allocator ex_server), Ok (Some kvs)) /\
  process_message_client ex_sequence (received kvs) = Err (NoSuchKey "start_at").
Proof.
  apply (del_note_not_replicated 9 ex_server ex_sequence
    (ex_request (("commandid", "req_del_note") :: put_note 0 (Note 0 0 100 36 0 4)))); vm_compute; reflexivity.
Defined.

(** ** The requests of the client side *)

Lemma put_decimal_length fuel : forall n acc,
  (String.length (put_decimal fuel n acc) <= fuel + String.length acc)%nat.
Proof.
  induction fuel as [|fuel IH]; intros n acc; cbn [put_decimal]; [lia|]. case_if; cbn [String.length]; [lia|].
  specialize (IH (n / 10) (String (digit_char (n mod 10)) acc)). cbn [String.length] in IH. lia.
Qed.

Lemma to_string_length v : (String.length (to_string v) <= 21)%nat.
Proof.
  unfold to_string, decimal_fuel. case_if; cbn [String.length];
    [pose proof (put_decimal_length 20 (- v) "")|pose proof (put_decimal_length 20 v "")]; cbn [String.length] in *; lia.
Qed.

Lemma enc_length s : (String.length (enc s) <= 3 * String.length s)%nat.
Proof.
  induction s as [|c s IH]; [done|]. cbn [enc]. rewrite string_length_app. cbn [String.length].
  assert (String.length (enc_char c) <= 3)%nat by (unfold enc_char; repeat case_if; cbn; lia). lia.
Qed.

Lemma number_pair_size k v : (String.length k <= 20)%nat -> good_key k -> pair_size (k, to_string v) <= 200.
Proof.
  intros Hk [[Hn _] Hne]. unfold pair_size, str_size. cbn [fst snd].
  destruct (to_string_wire v) as [[Hv _] _].
  rewrite !encode_string_enc by (done || apply to_string_nonempty).
  pose proof (enc_length k). pose proof (enc_length (to_string v)). pose proof (to_string_length v). lia.
Qed.

Definition numeric (p : string * string) : Prop :=
  exists k v, p = (k, to_string v) /\ good_key k /\ (String.length k <= 20)%nat.

Lemma numeric_pair k v : nul_free k = true -> contains ";" k = false -> contains "=" k = false ->
  k <> "" -> (String.length k <=? 20)%nat = true -> numeric (k, to_string v).
Proof.
  intros H1 H2 H3 H4 H5%Nat.leb_le. exists k, v. split; [done|]. split; [by split|done].
Qed.

(** A request whose third pair sets "id" again. *)
Lemma request_lost r obj_id c pattern_id values :
  sbuf r = "" -> wire_text c -> (String.length c <= 20)%nat -> c <> "" ->
  (List.length values <= 6)%nat ->
  Forall numeric values ->
  exists kvs m, send_message_to_server obj_id c (("id", to_string pattern_id) :: values) = Ok kvs /\
    set_values (new_message false 0 0) kvs = Ok m /\ read_message r (get_data (encode m)) = None.
Proof.
  intros Hr Hc Hlen Hne Hnum Hvals. unfold send_message_to_server.
  destruct (header_good obj_id c Hc) as [H1 H2].
  assert (Hid : good_key "id") by by repeat split.
  assert (Hgood : Forall good_pair values).
  { eapply List.Forall_impl; [|exact Hvals]. intros p (k & v & -> & Hk & _). by apply good_number. }
  assert (Hall : Forall good_pair ([("id", to_string obj_id); ("commandid", c)] ++
    ("id", to_string pattern_id) :: values)).
  { repeat (apply List.Forall_cons; [first [done|by apply good_number]|]). done. }
  assert (Hsz : wire_size values <= 200 * Z.of_nat (List.length values)).
  { clear Hnum Hall Hgood. induction Hvals as [|p vs (k & v & -> & Hk & Hkl) _ IH]; [done|].
    cbn [wire_size fold_right List.length]. fold (wire_size vs).
    pose proof (number_pair_size k v Hkl Hk). lia. }
  rewrite send_message_good by done.
  destruct (set_values_overcount false 0 0 [("id", to_string obj_id); ("commandid", c)] "id"
    (to_string pattern_id) values) as (m & Hm & He & Hs & Hd & Hlt); [done|nodup_keys|by left| |].
  - rewrite wire_size_app. cbn [wire_size fold_right]. fold (wire_size values).
    pose proof (number_pair_size "id" obj_id ltac:(cbn; lia) Hid).
    pose proof (number_pair_size "id" pattern_id ltac:(cbn; lia) Hid).
    assert (pair_size ("commandid", c) <= 200).
    { unfold pair_size, str_size. cbn [fst snd]. destruct Hc as [Hcn _].
      rewrite !encode_string_enc by done. pose proof (enc_length c). vm_compute (String.length (enc "commandid")). lia. }
    lia.
  - eexists _, m. split; [done|]. split; [done|by apply read_overcounted].
Qed.

Ltac number_pairs :=
  repeat (apply List.Forall_cons; [apply numeric_pair; (reflexivity || discriminate)|]); apply List.Forall_nil.

(** The client's requests to delete a pattern, to insert or delete an instance, and to
    add or delete a note set the key "id" a second time, over the object id: the message
    announces more bytes than it has and the server, reading exactly what was sent, waits
    for the rest instead of handling the request. *)
Theorem client_requests_lost r obj_id i pin n request :
  sbuf r = "" ->
  In request [delete_pattern obj_id i; insert_pattern_in_sequence obj_id pin;
              delete_pattern_from_sequence obj_id pin; add_note obj_id i n; delete_note obj_id i n] ->
  exists kvs m, request = Ok kvs /\ set_values (new_message false 0 0) kvs = Ok m /\
    read_message r (get_data (encode m)) = None.
Proof.
  intros Hr Hin. cbn [In] in Hin.
  destruct Hin as [<-|[<-|[<-|[<-|[<-|[]]]]]];
    [apply (request_lost r obj_id "req_del_ptrn" i [])
    |apply (request_lost r obj_id "req_add_ptrn_inst" (pattern_id pin)
       [("start_at", to_string (start_at pin)); ("loop_length", to_string (loop_length pin));
        ("stop_at", to_string (stop_at pin))])
    |apply (request_lost r obj_id "req_del_ptrn_inst" (pattern_id pin)
       [("start_at", to_string (start_at pin)); ("loop_length", to_string (loop_length pin));
        ("stop_at", to_string (stop_at pin))])
    |apply (request_lost r obj_id "req_add_note" i (note_values n))
    |apply (request_lost r obj_id "req_del_note" i (note_values n))];
    first [exact Hr|discriminate|split; [reflexivity|split; reflexivity]|cbn; lia|number_pairs].
Qed.

Lemma client_requests_lost_witness : exists kvs m,
  add_note 9 0 (Note 0 0 100 36 0 4) = Ok kvs /\ set_values (new_message false 0 0) kvs = Ok m /\
  read_message (new_message false 0 0) (get_data (encode m)) = None.
Proof.
  apply (client_requests_lost (new_message false 0 0) 9 0 (PatternInstance 0 0 0 0) (Note 0 0 100 36 0 4)
    (add_note 9 0 (Note 0 0 100 36 0 4))); [reflexivity|]. do 3 right. by left.
Defined.

(** ** Pattern instances *)

Definition disjoint_from (start stop : Z) (pin : pattern_instance) : Prop :=
  stop_at pin < start \/ stop < start_at pin.
Definition encloses (start stop : Z) (pin : pattern_instance) : Prop :=
  start_at pin < start /\ stop < stop_at pin.

Lemma fold_overlap start stop l : forall b,
  fold_left (fun did_overlap pin => if overlaps start stop pin then true else did_overlap) l b =
    b || existsb (overlaps start stop) l.
Proof.
  induction l as [|p l IH]; intros b; cbn [fold_left existsb]; [by rewrite orb_false_r|].
  rewrite IH. by destruct (overlaps start stop p), b.
Qed.

Lemma overlaps_spec start stop pin : start < stop -> start_at pin < stop_at pin ->
  overlaps start stop pin = false <-> disjoint_from start stop pin \/ encloses start stop pin.
Proof. unfold overlaps, disjoint_from, encloses. intros H1 H2. lia. Qed.

(** A pattern instance is inserted exactly when it has a positive length, its pattern
    exists, and every instance already there is either disjoint from it or strictly
    encloses it: the overlap test misses an instance that covers the whole new one. *)
Theorem add_instance_iff s i start loop stop :
  in_i32 (stop - start) ->
  Forall (fun pin => start_at pin < stop_at pin) (instance_list s) ->
  fst (process_add_pattern_instance s i start loop stop) = true <->
    start < stop /\ is_Some (mfind (patterns s) i) /\
    Forall (fun pin => disjoint_from start stop pin \/ encloses start stop pin) (instance_list s).
Proof.
  intros Hr Hl. unfold process_add_pattern_instance. rewrite i32_id by done.
  destruct (Z.leb_spec (stop - start) 0); [split; [done|lia]|].
  destruct (mfind (patterns s) i) as [p|]; [|split; [done|by intros (_ & [? ?] & _)]].
  cbv zeta. rewrite fold_overlap. cbn [orb].
  assert (Hiff : existsb (overlaps start stop) (instance_list s) = false <->
    Forall (fun pin => disjoint_from start stop pin \/ encloses start stop pin) (instance_list s)).
  { induction Hl as [|pin l Hp Hl IH]; [split; [constructor|done]|]. cbn [existsb].
    rewrite orb_false_iff, IH, overlaps_spec, List.Forall_cons_iff by (done || lia). done. }
  destruct (existsb _ _); cbn [fst]; rewrite <- Hiff; [split; [done|by intros (_ & _ & ?)]|].
  split; [|done]. intros _. split; [lia|]. split; [by eexists|done].
Qed.

Lemma add_instance_iff_witness :
  in_i32 (40 - 20) /\ fst (process_add_pattern_instance ex_sequence 0 20 8 40) = true /\
  encloses 20 40 (PatternInstance 0 0 16 64).
Proof.
  split; [unfold in_i32; lia|]. split; [|unfold encloses; cbn; lia].
  apply (add_instance_iff ex_sequence 0 20 8 40); [unfold in_i32; lia|repeat constructor|].
  split; [lia|]. split; [by eexists|]. constructor; [right; unfold encloses; cbn; lia|constructor].
Defined.

(** ** Serialisation for a client that connects later *)

Definition text_ok (s : string) : Prop := nul_free s = true /\ s <> "".

Definition pattern_ok (key : Z) (p : pattern) : Prop :=
  in_u32 key /\ in_u32 (id p) /\ text_ok (name p) /\ Forall note_in_range (note_list p).

(** Sequences whose strings and numbers are the ones the encoding carries. *)
Definition serialisable (s : sequence) : Prop :=
  text_ok (sequence_name s) /\ smap_ok (patterns s) /\
  forall key p, (key, p) ∈ patterns s -> pattern_ok key p.

Lemma note_fields_ok n : note_in_range n -> ser_ok (Serializable := note_fields) n.
Proof. intros (H1 & H2 & H3 & H4 & H5 & H6). cbn. auto 6. Qed.

Lemma pattern_serderize_ok p : in_u32 (id p) -> text_ok (name p) -> Forall note_in_range (note_list p) ->
  ser_ok (Serializable := pattern_serderize) p.
Proof.
  intros Hi Hn Hl. split; [exact Hi|]. split; [exact Hn|]. cbn [snd]. intros [n l] He.
  destruct (note_list p) as [|n0 l0]; [done|]. cbn in He. injection He as <- <-.
  apply List.Forall_cons_iff in Hl as [Hn0 Hl0]. split; [by apply note_fields_ok|].
  eapply List.Forall_impl; [|exact Hl0]. intros m. apply note_fields_ok.
Qed.

Lemma serderize_sequence_ok s : serialisable s ->
  ser_ok (Serializable := serderize_sequence) (sequence_name s, patterns s).
Proof.
  intros (Hn & Hok & Hp). split; [exact Hn|]. split; [exact Hok|].
  apply List.Forall_forall. intros [k p] Hin. apply list_elem_of_In, Hp in Hin as (H1 & H2 & H3 & H4).
  split; [exact H1|]. by apply pattern_serderize_ok.
Qed.

Lemma write_one_wire {A} (S : Serializable A) a : ser_ok a -> wire_text (write_one S a) /\ write_one S a <> "".
Proof.
  intros Ha. destruct (ser_text a Ha) as [Hn Hne]. unfold write_one, serializer_result.
  rewrite encode_string_enc by done. split; [|by apply enc_nonempty].
  split; [by apply enc_nul_free|]. split; apply enc_contains; auto.
Qed.

(** The same with pairs in front, as the message that announces an object has. *)
Lemma serialized_sequence_read s header : serialisable s -> lookup_kv header "sequence_data" = None ->
  Forall good_pair (serialize s) /\
  new_client_sequence (received (header ++ serialize s)) = Ok (Sequence (patterns s) [] (sequence_name s)).
Proof.
  intros Hs%serderize_sequence_ok Hh. destruct (write_one_wire _ _ Hs) as [Hw Hne]. split.
  - apply List.Forall_cons; [|constructor]. split; [by repeat split|exact Hw].
  - assert (Hl : lookup_kv (header ++ serialize s) "sequence_data" =
                 Some (write_one serderize_sequence (sequence_name s, patterns s))).
    { clear Hs Hw Hne. unfold lookup_kv in *. induction header as [|p header IH]; [done|]. cbn in *.
      destruct (String.eqb (fst p) "sequence_data"); [done|]. by apply IH. }
    unfold new_client_sequence, received. rewrite Hl. unfold wire_value.
    apply String.eqb_neq in Hne as ->. cbn [rbind]. by rewrite read_write_one.
Qed.

(** A client that connects later is built from [Sequence::serialize]: the one value it
    writes passes through a message unchanged, and reading it gives back the name and every
    pattern with its notes in order, but no pattern instance: [serderize_sequence]
    does not write [instance_list]. *)
Theorem late_client_sequence s : serialisable s ->
  Forall good_pair (serialize s) /\
  new_client_sequence (received (serialize s)) = Ok (Sequence (patterns s) [] (sequence_name s)).
Proof. intros Hs. by apply (serialized_sequence_read s []). Qed.

Lemma late_client_sequence_witness :
  serialisable ex_sequence /\
  new_client_sequence (received (serialize ex_sequence)) = Ok (Sequence (patterns ex_sequence) [] "seq") /\
  instance_list ex_sequence = [PatternInstance 0 0 16 64].
Proof.
  assert (Hs : serialisable ex_sequence).
  { split; [by split|]. split; [repeat constructor|]. intros k p Hin.
    apply list_elem_of_singleton in Hin. injection Hin as -> ->.
    repeat (split || constructor); cbn; try done; lia. }
  split; [exact Hs|]. split; [apply (late_client_sequence ex_sequence Hs)|reflexivity].
Defined.

(** ** Identifiers on the server *)

(** Every pattern is stored under its identifier, which the allocator considers taken. *)
Record server_inv (st : server) : Prop := {
  inv_patterns : smap_ok (patterns (seq st));
  inv_ids : smap_ok (available_ids (pattern_id_allocator st));
  inv_total : 0 <= total_amount (pattern_id_allocator st);
  inv_available : forall i, is_Some (mfind (available_ids (pattern_id_allocator st)) i) ->
    0 <= i < total_amount (pattern_id_allocator st);
  inv_key : forall i p, mfind (patterns (seq st)) i = Some p -> id p = i;
  inv_taken : forall i, is_Some (mfind (patterns (seq st)) i) ->
    0 <= i < total_amount (pattern_id_allocator st) /\
    mfind (available_ids (pattern_id_allocator st)) i = None
}.

Lemma server_inv_same_patterns st s : server_inv st -> patterns s = patterns (seq st) ->
  server_inv (Server s (pattern_id_allocator st)).
Proof. intros [H1 H2 H3 H4 H5 H6] He. by split; cbn [seq pattern_id_allocator]; rewrite ?He. Qed.

Lemma server_inv_with_notes st i f : server_inv st ->
  server_inv (Server (with_notes (seq st) i f) (pattern_id_allocator st)).
Proof.
  intros Hinv. pose proof Hinv as [H1 H2 H3 H4 H5 H6]. unfold with_notes.
  destruct (mfind (patterns (seq st)) i) as [p|] eqn:E; [|by apply server_inv_same_patterns].
  split; cbn [seq pattern_id_allocator patterns]; try done; [by apply mset_ok| |].
  - intros j q. rewrite mfind_mset by done. destruct (key_eqb j i) eqn:Ej; [|apply H5].
    apply key_eqb_spec in Ej as ->. intros [= <-]. cbn. by apply H5.
  - intros j. rewrite mfind_mset by done. destruct (key_eqb j i) eqn:Ej; [|apply H6].
    apply key_eqb_spec in Ej as ->. intros _. apply H6. rewrite E. by eexists.
Qed.

Lemma get_id_fresh st : server_inv st -> total_amount (pattern_id_allocator st) + 1 < 2^32 ->
  let i := fst (get_id (pattern_id_allocator st)) in
  mfind (patterns (seq st)) i = None /\ 0 <= i <= total_amount (pattern_id_allocator st) /\
  forall n, server_inv (Server (process_add_pattern (seq st) n i) (snd (get_id (pattern_id_allocator st)))).
Proof.
  intros [H1 H2 H3 H4 H5 H6] Hlt. unfold get_id.
  pose proof (mbegin_spec _ H2) as Hb. destruct (mbegin _) as [b|]; cbn [fst snd].
  - destruct Hb as [Hb Hmin]. pose proof (H4 b Hb) as Hr.
    assert (Hnone : mfind (patterns (seq st)) b = None).
    { destruct (mfind (patterns (seq st)) b) eqn:E; [|done]. destruct (H6 b) as [_ Hx]; [rewrite E; by eexists|].
      rewrite Hx in Hb. by destruct Hb. }
    split; [done|]. split; [lia|]. intros n.
    split; cbn [seq pattern_id_allocator patterns process_add_pattern available_ids total_amount];
      [by apply mset_ok|by apply merase_ok|done| | |].
    + intros i. rewrite mfind_merase by done. destruct (key_eqb i b); [by intros [? ?]|apply H4].
    + intros i p. rewrite mfind_mset by done. destruct (key_eqb i b) eqn:E; [|apply H5].
      apply key_eqb_spec in E as ->. by intros [= <-].
    + intros i. rewrite mfind_mset, mfind_merase by done. destruct (key_eqb i b) eqn:E; [|apply H6].
      apply key_eqb_spec in E as ->. done.
  - assert (Hnone : mfind (patterns (seq st)) (total_amount (pattern_id_allocator st)) = None).
    { destruct (mfind (patterns (seq st)) _) eqn:E; [|done].
      destruct (H6 (total_amount (pattern_id_allocator st))) as [Hx _]; [rewrite E; by eexists|lia]. }
    split; [done|]. split; [lia|]. intros n. rewrite u32_id by (unfold in_u32; lia).
    split; cbn [seq pattern_id_allocator patterns process_add_pattern available_ids total_amount];
      [by apply mset_ok|done|lia| | |].
    + intros i Hi. apply H4 in Hi. lia.
    + intros i p. rewrite mfind_mset by done. destruct (key_eqb i _) eqn:E; [|apply H5].
      apply key_eqb_spec in E as ->. by intros [= <-].
    + intros i. rewrite mfind_mset by done. rewrite Hb. destruct (key_eqb i _) eqn:E.
      * apply key_eqb_spec in E as ->. intros _. split; [lia|done].
      * intros Hi. apply H6 in Hi as [? _]. split; [lia|done].
Qed.

Lemma del_pattern_inv st i : server_inv st -> is_Some (mfind (patterns (seq st)) i) ->
  exists ids, free_id (pattern_id_allocator st) i = Ok ids /\
    server_inv (Server (Sequence (merase (patterns (seq st)) i) (instance_list (seq st)) (sequence_name (seq st))) ids).
Proof.
  intros [H1 H2 H3 H4 H5 H6] Hi. destruct (H6 i Hi) as [Hr Hav]. unfold free_id. rewrite Hav.
  eexists. split; [done|].
  split; cbn [seq pattern_id_allocator patterns available_ids total_amount];
    [by apply merase_ok|by apply mset_ok|done| | |].
  - intros j. rewrite mfind_mset by done. destruct (key_eqb j i) eqn:E; [|apply H4].
    apply key_eqb_spec in E as ->. done.
  - intros j p. rewrite mfind_merase by done. destruct (key_eqb j i); [done|apply H5].
  - intros j. rewrite mfind_merase, mfind_mset by done. destruct (key_eqb j i); [by intros [? ?]|apply H6].
Qed.

Lemma sent_error m e : sent m = Err e -> m = Err e.
Proof. unfold sent, rmap. destruct m; cbn; congruence. Qed.

Lemma set_value_error m k v e : set_value m k v = Err e -> e = IllegalChar.
Proof. unfold set_value. repeat case_if; congruence. Qed.

Lemma send_message_error obj_id c values e : send_message obj_id c values = Err e -> e = IllegalChar.
Proof.
  unfold send_message. cbv zeta. generalize (("id", to_string obj_id) :: ("commandid", c) :: values) as kvs.
  intros kvs. enough (H : forall m e, set_values m kvs = Err e -> e = IllegalChar).
  { destruct (set_values (new_message false 0 0) kvs) eqn:E; cbn [rbind]; [done|]. intros [= <-]. by eapply H. }
  induction kvs as [|[k v] kvs IH]; intros m e'; unfold set_values; cbn [rfold fst snd]; [done|].
  destruct (set_value m k v) as [m'|e''] eqn:E; cbn [rbind]; [apply IH|].
  intros [= <-]. by eapply set_value_error.
Qed.

Lemma sent_not_freed_twice obj_id c values : sent (send_message obj_id c values) <> Err IDFreedTwice.
Proof. by intros H%sent_error%send_message_error. Qed.

Lemma get_instance_error msg e : get_instance msg = Err e -> exists k, msg k = Err e.
Proof.
  unfold get_instance, get_uint, get_int, rmap. intros H.
  destruct (msg "pattern_id") eqn:E1; cbn [rbind] in H; [|injection H as <-; eauto].
  destruct (msg "start_at") eqn:E2; cbn [rbind] in H; [|injection H as <-; eauto].
  destruct (msg "loop_length") eqn:E3; cbn [rbind] in H; [|injection H as <-; eauto].
  destruct (msg "stop_at") eqn:E4; cbn [rbind] in H; [done|injection H as <-; eauto].
Qed.

Lemma get_note_error msg e : get_note msg = Err e -> exists k, msg k = Err e.
Proof.
  unfold get_note, get_int, rmap. intros H.
  destruct (msg "channel") eqn:E1; cbn [rbind] in H; [|injection H as <-; eauto].
  destruct (msg "program") eqn:E2; cbn [rbind] in H; [|injection H as <-; eauto].
  destruct (msg "velocity") eqn:E3; cbn [rbind] in H; [|injection H as <-; eauto].
  destruct (msg "note") eqn:E4; cbn [rbind] in H; [|injection H as <-; eauto].
  destruct (msg "on_at") eqn:E5; cbn [rbind] in H; [|injection H as <-; eauto].
  destruct (msg "length") eqn:E6; cbn [rbind] in H; [done|injection H as <-; eauto].
Qed.

Lemma get_uint_error msg k e : get_uint msg k = Err e -> msg k = Err e.
Proof. unfold get_uint, rmap. destruct (msg k); cbn; congruence. Qed.

(** A handler's outcome keeps the identifiers consistent and frees none twice. *)
Definition safe_outcome (out : server * reply) : Prop :=
  server_inv (fst out) /\ snd out <> Err IDFreedTwice.

Lemma parse_safe {A} st (m : result A) k :
  server_inv st -> (m <> Err IDFreedTwice) -> (forall a, m = Ok a -> safe_outcome (k a)) ->
  safe_outcome (parse st m k).
Proof. intros Hst Hm Hk. unfold parse. destruct m as [a|e]; [by apply Hk|]. split; cbn; congruence. Qed.

Section ids_safe.
Context (obj_id : Z) (st : server) (msg : view).
Context (Hinv : server_inv st) (Hmsg : forall k, msg k <> Err IDFreedTwice).

Lemma get_uint_safe k : get_uint msg k <> Err IDFreedTwice.
Proof. intros H%get_uint_error. by eapply Hmsg. Qed.

Lemma get_note_safe : get_note msg <> Err IDFreedTwice.
Proof. intros [k H]%get_note_error. by eapply Hmsg. Qed.

Lemma get_instance_safe : get_instance msg <> Err IDFreedTwice.
Proof. intros [k H]%get_instance_error. by eapply Hmsg. Qed.

Lemma add_pattern_safe : total_amount (pattern_id_allocator st) + 1 < 2^32 ->
  safe_outcome (handle_req_add_pattern obj_id st msg).
Proof.
  intros Hlt. apply parse_safe; [done|apply Hmsg|]. intros n _.
  pose proof (get_id_fresh st Hinv Hlt) as (_ & _ & Hi).
  destruct (get_id (pattern_id_allocator st)) as [i ids]. split; [apply Hi|apply sent_not_freed_twice].
Qed.

Lemma del_pattern_safe : safe_outcome (handle_req_del_pattern obj_id st msg).
Proof.
  apply parse_safe; [done|apply get_uint_safe|]. intros i _. unfold process_del_pattern.
  destruct (mfind (patterns (seq st)) i) as [p|] eqn:E; [|by split].
  destruct (del_pattern_inv st i Hinv) as (ids & -> & Hids); [rewrite E; by eexists|].
  split; [done|apply sent_not_freed_twice].
Qed.

Lemma add_instance_safe : safe_outcome (handle_req_add_pattern_instance obj_id st msg).
Proof.
  apply parse_safe; [done|apply get_instance_safe|]. intros pin _.
  destruct (process_add_pattern_instance _ _ _ _ _) as [b s] eqn:E. split.
  - apply server_inv_same_patterns; [done|]. unfold process_add_pattern_instance in E.
    case_if_in E; [by injection E as _ <-|].
    destruct (mfind (patterns (seq st)) (pattern_id pin)); [|by injection E as _ <-].
    cbv zeta in E. destruct (fold_left _ (instance_list (seq st)) false); by injection E as _ <-.
  - cbn [snd]. destruct b; [apply sent_not_freed_twice|done].
Qed.

Lemma process_message_safe : total_amount (pattern_id_allocator st) + 1 < 2^32 ->
  safe_outcome (process_message_server obj_id st msg).
Proof.
  intros Hlt. apply parse_safe; [done|apply Hmsg|]. intros cmd _. unfold server_handler.
  repeat case_if; try by split.
  - by apply add_pattern_safe.
  - apply del_pattern_safe.
  - apply add_instance_safe.
  - apply parse_safe; [done|apply get_instance_safe|]. intros pin _.
    split; [by apply server_inv_same_patterns|apply sent_not_freed_twice].
  - apply parse_safe; [done|apply get_uint_safe|]. intros i _.
    apply parse_safe; [done|apply get_note_safe|]. intros n _.
    split; [by apply server_inv_with_notes|apply sent_not_freed_twice].
  - apply parse_safe; [done|apply get_note_safe|]. intros n _.
    apply parse_safe; [done|apply get_uint_safe|]. intros i _.
    split; [by apply server_inv_with_notes|apply sent_not_freed_twice].
Qed.
End ids_safe.

(** Pattern identifiers stay consistent: on every message, whatever it contains and
    whether or not its handler throws, the server keeps every pattern under its own
    identifier, taken in the allocator; so a new pattern never replaces another and no
    identifier is freed twice. *)
Theorem server_ids_safe obj_id st msg st' r :
  server_inv st -> total_amount (pattern_id_allocator st) + 1 < 2^32 ->
  (forall k, msg k <> Err IDFreedTwice) ->
  process_message_server obj_id st msg = (st', r) ->
  server_inv st' /\ r <> Err IDFreedTwice.
Proof.
  intros Hinv Hlt Hmsg H. pose proof (process_message_safe obj_id st msg Hinv Hmsg Hlt) as Hs.
  rewrite H in Hs. exact Hs.
Qed.

Lemma ex_server_inv : server_inv ex_server.
Proof.
  split; cbn -[mfind]; try (repeat constructor; done); try lia.
  - intros i [[] Hi]. apply mfind_elem in Hi; [|repeat constructor].
    rewrite !elem_of_cons, elem_of_nil in Hi. naive_solver lia.
  - intros i p Hp. apply mfind_elem in Hp; [|repeat constructor].
    rewrite !elem_of_cons, elem_of_nil in Hp. naive_solver.
  - intros i [p Hp]. apply mfind_elem in Hp; [|repeat constructor].
    rewrite !elem_of_cons, elem_of_nil in Hp. destruct Hp as [[= -> ->]|[]]. split; [lia|reflexivity].
Qed.

Lemma server_ids_safe_witness :
  exists st' r, process_message_server 9 ex_server
      (ex_request [("commandid", "req_del_ptrn"); ("pattern_id", "0")]) = (st', r) /\
    server_inv st' /\ r <> Err IDFreedTwice.
Proof.
  do 2 eexists. split; [vm_compute; reflexivity|].
  eapply (server_ids_safe 9 ex_server (ex_request [("commandid", "req_del_ptrn"); ("pattern_id", "0")]));
    [exact ex_server_inv|reflexivity| |vm_compute; reflexivity].
  intros k. unfold ex_request, received. by destruct (lookup_kv _ k).
Defined.

(** Deleting a pattern leaves its instances: a handled [req_del_pattern] keeps the
    instance list as it is, and if the freed identifier is the smallest available one the
    next pattern added gets it, so that the old instances now play the new pattern. *)
Theorem deleted_pattern_instances_revive obj_id st msg msg' i n p st1 r1 st2 r2 :
  server_inv st -> get_uint msg "pattern_id" = Ok i -> mfind (patterns (seq st)) i = Some p ->
  (forall j, is_Some (mfind (available_ids (pattern_id_allocator st)) j) -> i < j) ->
  msg' "name" = Ok n ->
  handle_req_del_pattern obj_id st msg = (st1, r1) ->
  handle_req_add_pattern obj_id st1 msg' = (st2, r2) ->
  instance_list (seq st2) = instance_list (seq st) /\
  mfind (patterns (seq st1)) i = None /\
  mfind (patterns (seq st2)) i = Some (Pattern i n []).
Proof.
  intros Hinv Hi Hp Hmin Hn H1 H2.
  destruct (del_pattern_inv st i Hinv) as (ids & Hf & Hinv1); [rewrite Hp; by eexists|].
  unfold handle_req_del_pattern, process_del_pattern in H1. rewrite Hi in H1. cbn [parse] in H1.
  rewrite Hp, Hf in H1. injection H1 as <- _.
  pose proof (inv_ids _ Hinv) as Hok. pose proof (inv_patterns _ Hinv) as Hpat.
  unfold free_id in Hf. destruct (mfind _ i) in Hf; [done|]. injection Hf as <-.
  unfold handle_req_add_pattern in H2. rewrite Hn in H2. cbn [parse] in H2.
  pose proof (mbegin_spec _ (inv_ids _ Hinv1)) as Hb. cbn [pattern_id_allocator available_ids] in Hb.
  unfold get_id in H2. cbn [pattern_id_allocator available_ids] in H2.
  destruct (mbegin _) as [b|].
  - destruct Hb as [Hb Hmin']. rewrite mfind_mset in Hb by done.
    assert (b = i) as ->.
    { destruct (key_eqb b i) eqn:E; [by apply key_eqb_spec|]. apply Hmin in Hb.
      assert (b <= i); [|lia]. apply Hmin'. rewrite mfind_mset, key_eqb_refl by done. by eexists. }
    injection H2 as <- _. cbn [seq patterns instance_list process_add_pattern].
    split; [done|]. split.
    + by rewrite mfind_merase, key_eqb_refl.
    + rewrite mfind_mset, key_eqb_refl by (by apply merase_ok). done.
  - specialize (Hb i). rewrite mfind_mset, key_eqb_refl in Hb by done. done.
Qed.

Lemma deleted_pattern_instances_revive_witness :
  exists st1 r1 st2 r2,
    handle_req_del_pattern 9 ex_server (ex_request [("pattern_id", "0")]) = (st1, r1) /\
    handle_req_add_pattern 9 st1 (ex_request [("name", "bass")]) = (st2, r2) /\
    instance_list (seq st2) = [PatternInstance 0 0 16 64] /\
    mfind (patterns (seq st1)) 0 = None /\
    mfind (patterns (seq st2)) 0 = Some (Pattern 0 "bass" []).
Proof.
  do 4 eexists. split; [vm_compute; reflexivity|]. split; [vm_compute; reflexivity|].
  eapply (deleted_pattern_instances_revive 9 ex_server (ex_request [("pattern_id", "0")])
    (ex_request [("name", "bass")]) 0 "bass"); [exact ex_server_inv|reflexivity|reflexivity| |reflexivity
    |vm_compute; reflexivity|vm_compute; reflexivity].
  intros j [[] Hj]. apply mfind_elem in Hj; [|repeat constructor].
  cbn [ex_server pattern_id_allocator available_ids] in Hj.
  rewrite !elem_of_cons, elem_of_nil in Hj. naive_solver lia.
Defined.
