(* ===== verification/MidiBuilder.v ===== *)
(** * Building MIDI output buffers (src_jni/midi_generation.hh, midi_generation.cc)

    Events live in nodes of a memory shared by three kinds of singly linked chains: the
    global free chain, and each builder's chains of events still to send and of events to
    free. A [MidiEvent*] is the address of its node (the source converts between the two by
    an offset). A chain's first node also points to its last. The output buffer is an
    array of event pointers. [malloc] gives memory never used before. *)

From Stdlib Require Import ZArith Lia.
From stdpp Require Import base list gmap strings.
From S2P Require Import Prelude.
Local Open Scope string_scope.
Local Open Scope list_scope.
Local Open Scope Z_scope.
Local Open Scope vk_scope.

Definition chain_ptr : Type := option positive.

(* @src src_jni/midi_generation.hh:33-39 MidiEventChain *)
Record chain_node : Type := ChainNode {
  data : list Z;
  next_in_chain : chain_ptr;
  last_in_chain : chain_ptr
}.

Notation memory := (gmap positive chain_node).

(** The memory, the head of the global free chain, and where [malloc] allocates next. *)
(* @src src_jni/midi_generation.cc:33-35 MidiEventChainControler::next_free_midi_event *)
Record world : Type := World {
  mem : memory;
  next_free_midi_event : chain_ptr;
  brk : positive
}.

Definition node (m : memory) (p : chain_ptr) : result chain_node :=
  match p with
  | None => Err (UndefinedBehaviour "null chain")
  | Some l => match m !! l with
              | Some n => Ok n
              | None => Err (UndefinedBehaviour "dangling chain")
              end
  end.

(** [*p = n] for a node that exists. *)
Definition put_node (m : memory) (p : chain_ptr) (n : chain_node) : result memory :=
  let! _ := node m p in
  match p with
  | None => Err (UndefinedBehaviour "null chain")
  | Some l => Ok (<[l := n]> m)
  end.

Definition set_next (m : memory) (p q : chain_ptr) : result memory :=
  let! n := node m p in put_node m p (ChainNode (data n) q (last_in_chain n)).
Definition set_last (m : memory) (p q : chain_ptr) : result memory :=
  let! n := node m p in put_node m p (ChainNode (data n) (next_in_chain n) q).
Definition set_data (m : memory) (p : chain_ptr) (bytes : list Z) : result memory :=
  let! n := node m p in put_node m p (ChainNode bytes (next_in_chain n) (last_in_chain n)).

Definition DEFAULT_MAX_FREE_CHAIN : nat := 256.

(** [k] zeroed nodes from address [l], each linked to the one after it, the last to [NULL]. *)
(* @src src_jni/midi_generation.cc:41-60 MidiEventChainControler::init_free_midi_event_chain *)
Fixpoint fresh_chain (k : nat) (l : positive) (m : memory) : memory :=
  match k with
  | O => m
  | S k =>
      let next := match k with O => None | _ => Some (Pos.succ l) end in
      <[l := ChainNode [] next None]> (fresh_chain k (Pos.succ l) m)
  end.

(* @src src_jni/midi_generation.cc:41-60 MidiEventChainControler::init_free_midi_event_chain *)
Definition init_free_midi_event_chain (w : world) : world :=
  World (fresh_chain DEFAULT_MAX_FREE_CHAIN (brk w) (mem w)) (Some (brk w))
    (brk w + Pos.of_nat (DEFAULT_MAX_FREE_CHAIN + 1)).

(** The node returned is emptied; the caller writes the event's bytes. *)
(* @src src_jni/midi_generation.cc:66-87 MidiEventChainControler::pop_next_free_midi *)
Definition pop_next_free_midi (w : world) (size : Z) : result (chain_ptr * world) :=
  if 4 <? size then Err (JException "Illegal call to pop_next_free_midi()")
  else
    let w := match next_free_midi_event w with
             | None => init_free_midi_event_chain w
             | Some _ => w
             end in
    let retval := next_free_midi_event w in
    let! n := node (mem w) retval in
    let! m := set_next (mem w) retval None in
    let! m := set_last m retval retval in
    Ok (retval, World m (next_in_chain n) (brk w)).

(* @src src_jni/midi_generation.cc:93-105 MidiEventChainControler::push_next_free_midi *)
Definition push_next_free_midi (w : world) (element : chain_ptr) : result world :=
  let! last :=
    match next_free_midi_event w with
    | Some _ => let! n := node (mem w) (next_free_midi_event w) in Ok (last_in_chain n)
    | None => Ok element
    end in
  let! m := set_last (mem w) element last in
  let! m := set_next m element (next_free_midi_event w) in
  Ok (World m element (brk w)).

(** The head of the queue, and the queue without it. *)
(* @src src_jni/midi_generation.cc:107-123 MidiEventChainControler::get_chain_head *)
Definition get_chain_head (m : memory) (queue : chain_ptr) : result (chain_ptr * memory * chain_ptr) :=
  match queue with
  | None => Ok (None, m, None)
  | Some _ =>
      let! n := node m queue in
      let! m := match next_in_chain n with
                | Some _ => set_last m (next_in_chain n) (last_in_chain n)
                | None => Ok m
                end in
      let! m := set_next m queue None in
      let! m := set_last m queue queue in
      Ok (queue, m, next_in_chain n)
  end.

(** The destination afterwards; the source becomes [NULL]. *)
(* @src src_jni/midi_generation.cc:131-148 MidiEventChainControler::join_chains *)
Definition join_chains (m : memory) (destination source : chain_ptr) : result (memory * chain_ptr) :=
  match source with
  | None => Ok (m, destination)
  | Some _ =>
      match destination with
      | None => Ok (m, source)
      | Some _ =>
          let! d := node m destination in
          let! s := node m source in
          let! m := set_next m (last_in_chain d) source in
          let! m := set_last m destination (last_in_chain s) in
          Ok (m, destination)
      end
  end.

(* @src src_jni/midi_generation.cc:125-129 MidiEventChainControler::chain_to_tail *)
Definition chain_to_tail (m : memory) (chain event : chain_ptr) : result (memory * chain_ptr) :=
  match event with
  | None => Ok (m, chain)
  | Some _ => join_chains m chain event
  end.

(** ** The builder *)

(** [buffer] is the array in use, [None] before the first one and after it is finished. *)
(* @src src_jni/midi_generation.hh:68-78 MidiEventBuilder *)
Record builder : Type := Builder {
  buffer : option (list chain_ptr);
  buffer_size : Z;
  buffer_position : Z;
  buffer_p_last_skip : Z;
  remaining_midi_chain : chain_ptr;
  freeable_midi_chain : chain_ptr
}.

(** The constructor leaves the buffer members as they are in memory. *)
(* @src src_jni/midi_generation.cc:156-156 MidiEventBuilder::MidiEventBuilder *)
Definition new_builder (buffer0 : option (list chain_ptr)) (size0 position0 skip0 : Z) : builder :=
  Builder buffer0 size0 position0 skip0 None None.

(** [buffer[buffer_position++] = mev] *)
Definition buffer_put (b : builder) (mev : chain_ptr) : result builder :=
  match buffer b with
  | None => Err (UndefinedBehaviour "no buffer")
  | Some a =>
      let! a := store a (buffer_position b) mev in
      Ok (Builder (Some a) (buffer_size b) (buffer_position b + 1) (buffer_p_last_skip b)
            (remaining_midi_chain b) (freeable_midi_chain b))
  end.

Definition with_remaining (b : builder) (p : chain_ptr) : builder :=
  Builder (buffer b) (buffer_size b) (buffer_position b) (buffer_p_last_skip b) p (freeable_midi_chain b).
Definition with_freeable (b : builder) (p : chain_ptr) : builder :=
  Builder (buffer b) (buffer_size b) (buffer_position b) (buffer_p_last_skip b) (remaining_midi_chain b) p.
Definition with_mem (w : world) (m : memory) : world := World m (next_free_midi_event w) (brk w).

(* @src src_jni/midi_generation.cc:158-165 MidiEventBuilder::chain_event *)
Definition chain_event (w : world) (b : builder) (mev : chain_ptr) : result (world * builder) :=
  if buffer_size b <=? buffer_position b then
    let! (m, p) := chain_to_tail (mem w) (remaining_midi_chain b) mev in
    Ok (with_mem w m, with_remaining b p)
  else
    let! b := buffer_put b mev in
    let! (m, p) := chain_to_tail (mem w) (freeable_midi_chain b) mev in
    Ok (with_mem w m, with_freeable b p).

(* @src src_jni/midi_generation.cc:167-172 MidiEventBuilder::process_freeable_chain *)
Fixpoint process_freeable_chain (fuel : nat) (w : world) (b : builder) : result (world * builder) :=
  match fuel with
  | O => Err OutOfFuel
  | S fuel =>
      match freeable_midi_chain b with
      | None => Ok (w, b)
      | Some _ =>
          let! (mev, m, p) := get_chain_head (mem w) (freeable_midi_chain b) in
          let! w := push_next_free_midi (with_mem w m) mev in
          process_freeable_chain fuel w (with_freeable b p)
      end
  end.

(* @src src_jni/midi_generation.cc:174-181 MidiEventBuilder::process_remaining_chain *)
Fixpoint process_remaining_chain (fuel : nat) (w : world) (b : builder) : result (world * builder) :=
  match fuel with
  | O => Err OutOfFuel
  | S fuel =>
      if (buffer_position b <? buffer_size b) && bool_decide (is_Some (remaining_midi_chain b)) then
        let! (mev, m, p) := get_chain_head (mem w) (remaining_midi_chain b) in
        let! b := buffer_put (with_remaining b p) mev in
        let! (m, p) := chain_to_tail m (freeable_midi_chain b) mev in
        process_remaining_chain fuel (with_mem w m) (with_freeable b p)
      else Ok (w, b)
  end.

(* @src src_jni/midi_generation.cc:183-190 MidiEventBuilder::use_buffer *)
Definition use_buffer (fuel : nat) (w : world) (b : builder) (a : list chain_ptr) (size : Z)
  : result (world * builder) :=
  process_remaining_chain fuel w
    (Builder (Some a) size 0 0 (remaining_midi_chain b) (freeable_midi_chain b)).

(* @src src_jni/midi_generation.cc:192-197 MidiEventBuilder::finish_current_buffer *)
Definition finish_current_buffer (fuel : nat) (w : world) (b : builder) : result (world * builder) :=
  process_freeable_chain fuel w
    (Builder None 0 1 (buffer_p_last_skip b) (remaining_midi_chain b) (freeable_midi_chain b)).

(* @src src_jni/midi_generation.cc:199-203 MidiEventBuilder::skip *)
Definition skip (b : builder) (skip_length : Z) : bool * builder :=
  let last_skip := i32 (buffer_p_last_skip b + skip_length) in
  let position := if buffer_position b <? last_skip then last_skip else buffer_position b in
  (position <? buffer_size b,
   Builder (buffer b) (buffer_size b) position last_skip (remaining_midi_chain b) (freeable_midi_chain b)).

(** [SET_MIDI_DATA_3] on the popped node, then [chain_event]. *)
Definition queue_event (w : world) (b : builder) (status b1 b2 : Z) : result (world * builder) :=
  let! (mev, w) := pop_next_free_midi w 3 in
  let! m := set_data (mem w) mev [u8 status; u8 b1; u8 b2] in
  chain_event (with_mem w m) b mev.

Definition MIDI_NOTE_OFF : Z := 0x80.
Definition MIDI_NOTE_ON : Z := 0x90.
Definition MIDI_CONTROL_CHANGE : Z := 0xb0.
Definition MIDI_PITCH_BEND : Z := 0xe0.

(* @src src_jni/midi_generation.cc:233-243 MidiEventBuilder::queue_note_on *)
Definition queue_note_on (w : world) (b : builder) (note velocity channel : Z) : result (world * builder) :=
  queue_event w b (Z.lor MIDI_NOTE_ON (Z.land channel 0x0f)) note velocity.

(* @src src_jni/midi_generation.cc:245-255 MidiEventBuilder::queue_note_off *)
Definition queue_note_off (w : world) (b : builder) (note velocity channel : Z) : result (world * builder) :=
  queue_event w b (Z.lor MIDI_NOTE_OFF (Z.land channel 0x0f)) note velocity.

(* @src src_jni/midi_generation.cc:257-269 MidiEventBuilder::queue_controller *)
Definition queue_controller (w : world) (b : builder) (controller value channel : Z)
  : result (world * builder) :=
  queue_event w b (Z.lor MIDI_CONTROL_CHANGE (Z.land channel 0x0f)) controller value.

(* @src src_jni/midi_generation.cc:271-281 MidiEventBuilder::queue_pitch_bend *)
Definition queue_pitch_bend (w : world) (b : builder) (value_lsb value_msb channel : Z)
  : result (world * builder) :=
  queue_event w b (Z.lor MIDI_PITCH_BEND (Z.land channel 0x0f)) value_lsb value_msb.

(** A command with fewer than two bytes after it reads past the data. *)
(* @src src_jni/midi_generation.cc:205-231 MidiEventBuilder::queue_midi_data *)
Fixpoint queue_midi_data (w : world) (b : builder) (bytes : list Z) : result (world * builder) :=
  match bytes with
  | [] => Ok (w, b)
  | status :: bytes =>
      let kind := Z.land status 0xf0 in
      let queue := if kind =? MIDI_NOTE_OFF then Some queue_note_off
                   else if kind =? MIDI_NOTE_ON then Some queue_note_on
                   else if kind =? MIDI_CONTROL_CHANGE then Some queue_controller
                   else if kind =? MIDI_PITCH_BEND then Some queue_pitch_bend
                   else None in
      match queue with
      | None => Ok (w, b)
      | Some queue =>
          match bytes with
          | b1 :: b2 :: bytes =>
              let! (w, b) := queue w b b1 b2 (Z.land status 0x0f) in
              queue_midi_data w b bytes
          | _ => Err (UndefinedBehaviour "read past data")
          end
      end
  end.

(** ** Chains as lists of addresses *)

(** Following [next_in_chain] from [p] visits [ls] and ends in [NULL]. *)
Fixpoint chain_seg (m : memory) (p : chain_ptr) (ls : list positive) : Prop :=
  match ls with
  | [] => p = None
  | l :: ls => p = Some l /\ exists d q la, m !! l = Some (ChainNode d q la) /\ chain_seg m q ls
  end.

(** A queue: its first node also knows the last one. *)
Definition chain_queue (m : memory) (p : chain_ptr) (ls : list positive) : Prop :=
  chain_seg m p ls /\
  forall l ls', ls = l :: ls' -> exists n, m !! l = Some n /\ last_in_chain n = last ls.

Lemma chain_seg_frame m m' p ls :
  (forall l, l ∈ ls -> m' !! l = m !! l) -> chain_seg m p ls -> chain_seg m' p ls.
Proof.
  revert p; induction ls as [|l ls IH]; intros p Hf; simpl; [done|].
  intros (-> & d & q & la & Hl & Hs). split; [done|]. exists d, q, la. split.
  - by rewrite Hf by left.
  - apply IH; [|done]. intros l' Hl'. apply Hf. by right.
Qed.

Lemma chain_queue_frame m m' p ls :
  (forall l, l ∈ ls -> m' !! l = m !! l) -> chain_queue m p ls -> chain_queue m' p ls.
Proof.
  intros Hf [Hs Hl]. split; [by eapply chain_seg_frame|]. intros l ls' ->.
  destruct (Hl l ls' eq_refl) as (n & Hn & Hlast). exists n. split; [|done]. by rewrite Hf by left.
Qed.

Lemma chain_seg_ptr m p ls : chain_seg m p ls -> p = head ls.
Proof. destruct ls; simpl; [done|by intros [-> _]]. Qed.

Lemma node_some m l n : m !! l = Some n -> node m (Some l) = Ok n.
Proof. simpl. by intros ->. Qed.

Lemma put_node_some m l n n' : m !! l = Some n -> put_node m (Some l) n' = Ok (<[l := n']> m).
Proof. intros H. unfold put_node. by rewrite (node_some _ _ _ H). Qed.

Lemma chain_set_next_some m l d q la r : m !! l = Some (ChainNode d q la) ->
  set_next m (Some l) r = Ok (<[l := ChainNode d r la]> m).
Proof. intros H. unfold set_next. rewrite (node_some _ _ _ H). cbn [rbind]. by erewrite put_node_some. Qed.

Lemma set_last_some m l d q la r : m !! l = Some (ChainNode d q la) ->
  set_last m (Some l) r = Ok (<[l := ChainNode d q r]> m).
Proof. intros H. unfold set_last. rewrite (node_some _ _ _ H). cbn [rbind]. by erewrite put_node_some. Qed.

(** The event bytes at each address. *)
Definition events (m : memory) (ls : list positive) : list (list Z) :=
  flat_map (fun l => match m !! l with Some n => [data n] | None => [] end) ls.

(** Two memories with the same nodes outside [ls], and the same bytes everywhere. *)
Definition relinked (m m' : memory) (ls : list positive) : Prop :=
  (forall l, l ∉ ls -> m' !! l = m !! l) /\ (forall l, data <$> m' !! l = data <$> m !! l).

Lemma relinked_refl m ls : relinked m m ls.
Proof. by split. Qed.

Lemma relinked_trans m1 m2 m3 ls : relinked m1 m2 ls -> relinked m2 m3 ls -> relinked m1 m3 ls.
Proof. intros [H1 H2] [H3 H4]. split; intros l; [intros Hl; by rewrite H3, H1|by rewrite H4, H2]. Qed.

Lemma relinked_mono m1 m2 ls ls' : relinked m1 m2 ls -> (forall l, l ∈ ls -> l ∈ ls') -> relinked m1 m2 ls'.
Proof. intros [H1 H2] Hs. split; [|done]. intros l Hl. apply H1. intros Hin. by apply Hl, Hs. Qed.

Lemma relinked_insert m l d q la q' la' ls : m !! l = Some (ChainNode d q la) -> l ∈ ls ->
  relinked m (<[l := ChainNode d q' la']> m) ls.
Proof.
  intros Hl Hin. split; intros k.
  - intros Hk. rewrite lookup_insert_ne; [done|]. by intros ->.
  - destruct (decide (k = l)) as [->|Hne]; [by rewrite lookup_insert_eq, Hl|].
    by rewrite lookup_insert_ne.
Qed.

Lemma relinked_events m m' ls ls' : relinked m m' ls -> events m' ls' = events m ls'.
Proof.
  intros [_ H]. unfold events. induction ls' as [|l ls' IH]; [done|]. cbn [flat_map]. rewrite IH. f_equal.
  specialize (H l). destruct (m' !! l), (m !! l); simpl in H; congruence.
Qed.

Lemma events_app m l1 l2 : events m (l1 ++ l2) = events m l1 ++ events m l2.
Proof. apply flat_map_app. Qed.

(** A detached node: a queue of its own. *)
Definition detached (m : memory) (l : positive) : Prop :=
  exists d, m !! l = Some (ChainNode d None (Some l)).

Lemma last_cons_ne {A} (x : A) l : l <> [] -> last (x :: l) = last l.
Proof. by destruct l. Qed.

Lemma get_chain_head_spec m l ls : chain_queue m (Some l) (l :: ls) -> NoDup (l :: ls) ->
  exists m', get_chain_head m (Some l) = Ok (Some l, m', head ls) /\
    relinked m m' (l :: ls) /\ detached m' l /\ chain_queue m' (head ls) ls.
Proof.
  intros [(_ & d & q & la & Hl & Hs) Hlast] Hnd. apply list.NoDup_cons in Hnd as [Hnin Hnd].
  destruct (Hlast l ls eq_refl) as (n & Hn & Hla). rewrite Hl in Hn. injection Hn as <-. simpl in Hla.
  pose proof (chain_seg_ptr _ _ _ Hs) as ->. unfold get_chain_head. rewrite (node_some _ _ _ Hl); cbn [rbind next_in_chain last_in_chain].
  destruct ls as [|k ls]; cbn [head].
  - cbn [rbind]. rewrite (chain_set_next_some _ _ _ _ _ _ Hl); cbn [rbind].
    erewrite set_last_some by apply lookup_insert_eq; cbn [rbind]. rewrite insert_insert_eq.
    eexists. split; [done|]. split; [eapply relinked_insert; [done|by left]|].
    split; [exists d; apply lookup_insert_eq|]. by split.
  - destruct Hs as (_ & dk & qk & lak & Hk & Hs). assert (k <> l) as Hne by (intros ->; apply Hnin; by left).
    rewrite (set_last_some _ _ _ _ _ _ Hk); cbn [rbind].
    erewrite chain_set_next_some by (rewrite lookup_insert_ne by done; exact Hl); cbn [rbind].
    erewrite set_last_some by apply lookup_insert_eq; cbn [rbind]. rewrite insert_insert_eq.
    eexists. split; [done|]. split.
    + eapply relinked_trans; [eapply (relinked_insert m k); [done|right; by left]|].
      eapply relinked_insert; [rewrite lookup_insert_ne by done; exact Hl|by left].
    + split; [exists d; apply lookup_insert_eq|]. split.
      * split; [done|]. exists dk, qk, la. rewrite lookup_insert_ne by done. rewrite lookup_insert_eq.
        split; [done|]. eapply chain_seg_frame; [|exact Hs]. intros j Hj.
        apply list.NoDup_cons in Hnd as [Hk' _].
        rewrite lookup_insert_ne by (intros ->; apply Hnin; by right).
        by rewrite lookup_insert_ne by (intros ->; done).
      * intros l0 ls0 [= <- <-]. eexists. rewrite lookup_insert_ne by done. rewrite lookup_insert_eq.
        split; [done|]. cbn [last_in_chain]. rewrite Hla. by apply last_cons_ne.
Qed.

(** The [last_in_chain] members play no part in following a chain. *)
Lemma chain_seg_set_last m l d q la la' p ls : m !! l = Some (ChainNode d q la) ->
  chain_seg m p ls -> chain_seg (<[l := ChainNode d q la']> m) p ls.
Proof.
  intros Hl. revert p; induction ls as [|k ls IH]; intros p; simpl; [done|].
  intros (-> & dk & qk & lak & Hk & Hs). split; [done|].
  destruct (decide (k = l)) as [->|Hne].
  - rewrite Hl in Hk. injection Hk as <- <- <-. exists d, q, la'. rewrite lookup_insert_eq. auto.
  - exists dk, qk, lak. rewrite lookup_insert_ne by done. auto.
Qed.

(** The last node of a chain, relinked to one more. *)
Lemma chain_seg_snoc m l d la ls : forall p z,
  chain_seg m p ls -> last ls = Some z -> NoDup ls -> l ∉ ls -> m !! l = Some (ChainNode d None la) ->
  exists dz laz, m !! z = Some (ChainNode dz None laz) /\
    chain_seg (<[z := ChainNode dz (Some l) laz]> m) p (ls ++ [l]).
Proof.
  induction ls as [|k ls IH]; intros p z Hs Hz Hnd Hnin Hl; [done|].
  destruct Hs as (-> & dk & qk & lak & Hk & Hs). apply list.NoDup_cons in Hnd as [Hk' Hnd].
  rewrite not_elem_of_cons in Hnin. destruct Hnin as [Hne Hnin].
  destruct ls as [|k2 ls].
  - injection Hz as <-. simpl in Hs; subst qk. exists dk, lak. split; [done|]. split; [done|].
    exists dk, (Some l), lak. rewrite lookup_insert_eq. split; [done|]. split; [done|].
    exists d, None, la. rewrite lookup_insert_ne by done. by split.
  - rewrite last_cons_ne in Hz by done. destruct (IH qk z Hs Hz Hnd Hnin Hl) as (dz & laz & Hzz & Hs').
    exists dz, laz. split; [done|]. split; [done|]. exists dk, qk, lak. split; [|exact Hs'].
    rewrite lookup_insert_ne; [done|]. intros ->. apply Hk'. apply last_Some in Hz as [l' ->].
    apply elem_of_app. right; left.
Qed.

Lemma chain_to_tail_spec m p ls l : chain_queue m p ls -> NoDup ls -> l ∉ ls -> detached m l ->
  exists m', chain_to_tail m p (Some l) = Ok (m', head (ls ++ [l])) /\
    relinked m m' ls /\ chain_queue m' (head (ls ++ [l])) (ls ++ [l]).
Proof.
  intros [Hs Hlast] Hnd Hnin [d Hl]. pose proof (chain_seg_ptr _ _ _ Hs) as ->. unfold chain_to_tail, join_chains.
  destruct ls as [|k ls]; cbn [head app].
  - exists m. split; [done|]. split; [apply relinked_refl|]. split.
    + split; [done|]. exists d, None, (Some l). by split.
    + intros l0 ls0 [= <- <-]. by eexists.
  - destruct (Hlast k ls eq_refl) as ([dk qk lak] & Hk & Hla). cbn [last_in_chain] in Hla.
    destruct (last (k :: ls)) as [z|] eqn:Hz; [|by apply last_None in Hz]. subst lak.
    destruct (chain_seg_snoc m l d (Some l) (k :: ls) _ z Hs Hz Hnd Hnin Hl) as (dz & laz & Hzz & Hs').
    rewrite (node_some _ _ _ Hk); cbn [rbind]. rewrite (node_some _ _ _ Hl); cbn [rbind last_in_chain].
    rewrite (chain_set_next_some _ _ _ _ _ _ Hzz); cbn [rbind].
    assert (exists q, <[z:=ChainNode dz (Some l) laz]> m !! k = Some (ChainNode dk q (Some z))) as [q Hk'].
    { destruct (decide (k = z)) as [->|Hne]; [|exists qk; by rewrite lookup_insert_ne].
      rewrite Hk in Hzz. injection Hzz as E1 E2 E3; subst dz qk laz. exists (Some l). by rewrite lookup_insert_eq. }
    rewrite (set_last_some _ _ _ _ _ _ Hk'); cbn [rbind]. eexists. split; [done|]. split.
    + eapply relinked_trans; [eapply (relinked_insert m z); [exact Hzz|]|eapply (relinked_insert _ k); [exact Hk'|by left]].
      apply last_Some in Hz as [l' ->]. apply elem_of_app. right; left.
    + split; [by eapply chain_seg_set_last|]. intros l0 ls0 [= <- <-]. eexists.
      rewrite lookup_insert_eq. split; [done|]. cbn [last_in_chain].
      rewrite app_comm_cons. by rewrite last_snoc.
Qed.

Lemma push_next_free_spec w l ls : chain_seg (mem w) (next_free_midi_event w) ls -> l ∉ ls ->
  detached (mem w) l ->
  exists w', push_next_free_midi w (Some l) = Ok w' /\ brk w' = brk w /\
    next_free_midi_event w' = Some l /\ relinked (mem w) (mem w') [l] /\
    chain_seg (mem w') (Some l) (l :: ls).
Proof.
  intros Hs Hnin [d Hl]. unfold push_next_free_midi.
  pose proof (chain_seg_ptr _ _ _ Hs) as Hp.
  assert (exists last : chain_ptr, match next_free_midi_event w with
    | Some _ => let! n := node (mem w) (next_free_midi_event w) in Ok (last_in_chain n)
    | None => Ok (A:=chain_ptr) (Some l) end = Ok last) as [la ->].
  { rewrite Hp. destruct ls as [|k ls]; cbn [head]; [by eexists|].
    destruct Hs as (_ & dk & qk & lak & Hk & _). rewrite (node_some _ _ _ Hk). by eexists. }
  cbn [rbind]. rewrite (set_last_some _ _ _ _ _ _ Hl); cbn [rbind].
  erewrite chain_set_next_some by apply lookup_insert_eq; cbn [rbind]. rewrite insert_insert_eq.
  eexists. split; [done|]. split; [done|]. split; [done|]. cbn [mem]. split.
  - eapply relinked_insert; [done|by left].
  - split; [done|]. exists d, (next_free_midi_event w), la. rewrite lookup_insert_eq. split; [done|].
    eapply chain_seg_frame; [|exact Hs]. intros k Hk. by rewrite lookup_insert_ne by (intros ->; done).
Qed.

(** ** malloc *)

Definition fresh_above (w : world) : Prop := forall l, (brk w <= l)%positive -> mem w !! l = None.

Fixpoint addresses (k : nat) (l : positive) : list positive :=
  match k with O => [] | S k => l :: addresses k (Pos.succ l) end.

Lemma addresses_range k : forall l x, x ∈ addresses k l -> (l <= x /\ x < l + Pos.of_nat (S k))%positive.
Proof.
  induction k as [|k IH]; intros l x; simpl addresses; [by intros Hx%elem_of_nil|].
  intros [->|Hx]%elem_of_cons; [lia|]. apply IH in Hx. lia.
Qed.

Lemma addresses_nodup k : forall l, NoDup (addresses k l).
Proof.
  induction k as [|k IH]; intros l; simpl; [constructor|]. apply list.NoDup_cons. split; [|apply IH].
  intros Hin%addresses_range. lia.
Qed.

Lemma fresh_chain_frame k : forall l m x, x ∉ addresses k l -> fresh_chain k l m !! x = m !! x.
Proof.
  induction k as [|k IH]; intros l m x; simpl; [done|]. rewrite not_elem_of_cons. intros [Hne Hx].
  rewrite lookup_insert_ne by done. by apply IH.
Qed.

Lemma fresh_chain_seg k : forall l m,
  chain_seg (fresh_chain k l m) (match k with O => None | _ => Some l end) (addresses k l).
Proof.
  induction k as [|k IH]; intros l m; simpl; [done|]. split; [done|].
  exists [], (match k with O => None | _ => Some (Pos.succ l) end), None. rewrite lookup_insert_eq.
  split; [done|]. eapply chain_seg_frame; [|apply (IH (Pos.succ l) m)].
  intros x Hx. rewrite lookup_insert_ne; [done|]. intros <-. apply addresses_range in Hx. lia.
Qed.

(** ** The builder's invariant *)

(** The events in a buffer, in slot order. *)
Definition slots (a : list chain_ptr) : list positive :=
  flat_map (fun p => match p with Some l => [l] | None => [] end) a.

Definition buffer_ok (b : builder) (fb : list positive) : Prop :=
  match buffer b with
  | None => fb = [] /\ buffer_size b <= buffer_position b
  | Some a => Z.of_nat (length a) = buffer_size b /\ 0 <= buffer_position b /\ slots a = fb /\
      forall i p, buffer_position b <= Z.of_nat i -> a !! i = Some p -> p = None
  end.

(** The three chains: free nodes [fr], events to send [rem], events in the buffer [fb]. *)
Record chains_ok (w : world) (b : builder) (fr rem fb : list positive) : Prop := {
  ok_nodup : NoDup (fr ++ rem ++ fb);
  ok_free : chain_seg (mem w) (next_free_midi_event w) fr;
  ok_remaining : chain_queue (mem w) (remaining_midi_chain b) rem;
  ok_freeable : chain_queue (mem w) (freeable_midi_chain b) fb;
  ok_fresh : fresh_above w
}.

Lemma chain_seg_dom m p ls l : chain_seg m p ls -> l ∈ ls -> is_Some (m !! l).
Proof.
  revert p; induction ls as [|k ls IH]; intros p; simpl; [by intros _ ?%elem_of_nil|].
  intros (-> & d & q & la & Hk & Hs) [->|Hin]%elem_of_cons; [by rewrite Hk; eexists|by eapply IH].
Qed.

Lemma relinked_fresh w m ls : fresh_above w -> (forall l, l ∈ ls -> is_Some (mem w !! l)) ->
  relinked (mem w) m ls -> fresh_above (with_mem w m).
Proof.
  intros Hf Hls [Hr _] l Hl. cbn [mem with_mem]. rewrite Hr; [by apply Hf|].
  intros Hin%Hls. cbn in Hl. rewrite Hf in Hin by done. by destruct Hin.
Qed.

Lemma relinked_dom m m' ls l : relinked m m' ls -> is_Some (m !! l) -> is_Some (m' !! l).
Proof.
  intros [_ H] Hl. specialize (H l). destruct (m' !! l); [by eexists|]. by destruct (m !! l), Hl.
Qed.

(** What popping leaves alone: the nodes in use. *)
Lemma pop_spec w fr others size : chain_seg (mem w) (next_free_midi_event w) fr -> fresh_above w ->
  NoDup (fr ++ others) -> (forall x, x ∈ others -> is_Some (mem w !! x)) -> size <= 4 ->
  exists l fr' w', pop_next_free_midi w size = Ok (Some l, w') /\
    chain_seg (mem w') (next_free_midi_event w') fr' /\ fresh_above w' /\ NoDup (l :: fr' ++ others) /\
    detached (mem w') l /\ (forall x, x ∈ others -> mem w' !! x = mem w !! x).
Proof.
  intros Hs Hf Hnd Hdom Hsize. unfold pop_next_free_midi.
  destruct (Z.ltb_spec 4 size) as [|_]; [lia|].
  assert (exists w1 l fr', (match next_free_midi_event w with
    | None => init_free_midi_event_chain w | Some _ => w end) = w1 /\
    next_free_midi_event w1 = Some l /\ chain_seg (mem w1) (Some l) (l :: fr') /\ fresh_above w1 /\
    NoDup ((l :: fr') ++ others) /\ (forall x, x ∈ others -> mem w1 !! x = mem w !! x))
    as (w1 & l & fr' & -> & Hp & Hs1 & Hf1 & Hnd1 & Hfr).
  { rewrite (chain_seg_ptr _ _ _ Hs). destruct fr as [|l fr']; cbn [head].
    - exists (init_free_midi_event_chain w), (brk w), (addresses 255 (Pos.succ (brk w))).
      assert (Hnew : forall x, x ∈ others -> x ∉ addresses DEFAULT_MAX_FREE_CHAIN (brk w)).
      { intros x Hx [Hr _]%addresses_range. apply Hdom in Hx. rewrite Hf in Hx by done. by destruct Hx. }
      split; [done|]. split; [done|]. split; [apply (fresh_chain_seg DEFAULT_MAX_FREE_CHAIN)|]. split; [|split].
      + intros x Hx. cbn [mem init_free_midi_event_chain brk] in *. rewrite fresh_chain_frame; [apply Hf; lia|].
        intros Hin%addresses_range. unfold DEFAULT_MAX_FREE_CHAIN in *. lia.
      + apply NoDup_app. split; [apply (addresses_nodup DEFAULT_MAX_FREE_CHAIN)|]. split; [|done].
        intros x Hx Hx'. by apply (Hnew x).
      + intros x Hx. cbn [mem init_free_midi_event_chain]. apply fresh_chain_frame. by apply Hnew.
    - exists w, l, fr'. pose proof (chain_seg_ptr _ _ _ Hs) as Hp. rewrite Hp in Hs. auto 7. }
  rewrite Hp. destruct Hs1 as (_ & d & q & la & Hl & Hs1).
  rewrite (node_some _ _ _ Hl); cbn [rbind next_in_chain].
  rewrite (chain_set_next_some _ _ _ _ _ _ Hl); cbn [rbind].
  erewrite set_last_some by apply lookup_insert_eq; cbn [rbind]. rewrite insert_insert_eq.
  cbn [app] in Hnd1. pose proof Hnd1 as Hnd2. apply list.NoDup_cons in Hnd2 as [Hnin _].
  exists l, fr'. eexists. split; [done|]. cbn [mem next_free_midi_event]. split; [|split; [|split; [done|split]]].
  - eapply chain_seg_frame; [|exact Hs1]. intros x Hx. rewrite lookup_insert_ne; [done|].
    intros ->. apply Hnin, elem_of_app. by left.
  - intros x Hx. cbn [mem brk] in *. rewrite lookup_insert_ne; [by apply Hf1|].
    intros <-. rewrite Hf1 in Hl by done. done.
  - exists d. by rewrite lookup_insert_eq.
  - intros x Hx. rewrite lookup_insert_ne; [by apply Hfr|]. intros <-. apply Hnin, elem_of_app. by right.
Qed.

Lemma slots_app a1 a2 : slots (a1 ++ a2) = slots a1 ++ slots a2.
Proof. apply flat_map_app. Qed.

Lemma slots_all_none a : (forall i p, a !! i = Some p -> p = None) -> slots a = [].
Proof.
  induction a as [|p a IH]; intros H; [done|]. cbn [slots flat_map].
  rewrite (H 0%nat p eq_refl). apply IH. intros i q Hq. by apply (H (S i) q).
Qed.

(** Writing into the first of the free slots. *)
Lemma buffer_put_spec b fb l a : buffer b = Some a -> buffer_ok b fb -> buffer_position b < buffer_size b ->
  exists b', buffer_put b (Some l) = Ok b' /\ buffer_ok b' (fb ++ [l]) /\
    is_Some (buffer b') /\ buffer_size b' = buffer_size b /\ buffer_position b' = buffer_position b + 1 /\
    remaining_midi_chain b' = remaining_midi_chain b /\ freeable_midi_chain b' = freeable_midi_chain b.
Proof.
  intros Hb Hok Hlt. unfold buffer_ok, buffer_put in *. rewrite Hb in *.
  destruct Hok as (Hlen & Hpos & Hsl & Hfree). rewrite store_in by lia. cbn [rbind].
  eexists. split; [done|]. cbn [buffer buffer_size buffer_position remaining_midi_chain freeable_midi_chain].
  split; [|split; [by eexists|done]]. rewrite length_insert. split; [done|]. split; [lia|]. split.
  - set (n := Z.to_nat (buffer_position b)). assert (n < length a)%nat as Hn by lia.
    destruct (lookup_lt_is_Some_2 a n Hn) as [x Hx].
    rewrite insert_take_drop by done. rewrite <- (take_drop_middle a n x Hx) in Hsl.
    assert (Htail : slots (drop (S n) a) = []).
    { apply slots_all_none. intros i p Hp. rewrite lookup_drop in Hp. eapply (Hfree (S n + i)%nat); [lia|done]. }
    assert (x = None) as -> by (apply (Hfree n); [lia|done]).
    rewrite slots_app in Hsl |- *. cbn [slots flat_map] in Hsl |- *. fold (slots (drop (S n) a)) in Hsl |- *.
    rewrite Htail in Hsl |- *. rewrite app_nil_r in Hsl. by rewrite Hsl.
  - intros i p Hi Hp. rewrite list_lookup_insert_ne in Hp by lia. by apply (Hfree i); [lia|].
Qed.

(** The bytes of every event are kept. *)
Definition same_data (w w' : world) : Prop := forall l n, mem w !! l = Some n -> data <$> mem w' !! l = Some (data n).

Lemma relinked_same_data w m ls : relinked (mem w) m ls -> same_data w (with_mem w m).
Proof. intros [_ H] l n Hl. cbn [mem with_mem]. by rewrite H, Hl. Qed.

Lemma events_same w w' ls : same_data w w' -> (forall l, l ∈ ls -> is_Some (mem w !! l)) ->
  events (mem w') ls = events (mem w) ls.
Proof.
  intros H Hdom. unfold events. induction ls as [|l ls IH]; [done|]. cbn [flat_map].
  rewrite IH by (intros x Hx; apply Hdom; by right). f_equal.
  destruct (Hdom l) as [n Hn]; [by left|]. specialize (H l n Hn). rewrite Hn.
  destruct (mem w' !! l); simpl in H; congruence.
Qed.

Lemma same_data_trans w1 w2 w3 : same_data w1 w2 -> same_data w2 w3 -> same_data w1 w3.
Proof.
  intros H1 H2 l n Hl. specialize (H1 l n Hl). destruct (mem w2 !! l) as [n2|] eqn:E; [|done].
  simpl in H1. injection H1 as <-. by apply H2.
Qed.

Section chains_lemmas.
Context (w : world) (b : builder) (fr rem fb : list positive).
Context (Hok : chains_ok w b fr rem fb).

Lemma ok_dom_rem l : l ∈ rem -> is_Some (mem w !! l).
Proof. destruct (ok_remaining _ _ _ _ _ Hok) as [Hs _]. by eapply chain_seg_dom. Qed.

Lemma ok_dom_fb l : l ∈ fb -> is_Some (mem w !! l).
Proof. destruct (ok_freeable _ _ _ _ _ Hok) as [Hs _]. by eapply chain_seg_dom. Qed.

Lemma ok_dom_others l : l ∈ rem ++ fb -> is_Some (mem w !! l).
Proof. intros [H|H]%elem_of_app; [by apply ok_dom_rem|by apply ok_dom_fb]. Qed.
End chains_lemmas.

(** An event that does not fit is the last of the events to send. *)
Lemma chain_remaining_spec w b fr rem fb l :
  chains_ok w b fr rem fb -> l ∉ fr ++ rem ++ fb -> detached (mem w) l -> buffer_size b <= buffer_position b ->
  exists w', chain_event w b (Some l) = Ok (w', with_remaining b (head (rem ++ [l]))) /\
    chains_ok w' (with_remaining b (head (rem ++ [l]))) fr (rem ++ [l]) fb /\ same_data w w'.
Proof.
  intros Hok Hnin Hdet Hpos. pose proof Hok as [Hnd Hf Hr Hb Hfresh]. unfold chain_event.
  destruct (Z.leb_spec (buffer_size b) (buffer_position b)); [|lia].
  rewrite !not_elem_of_app in Hnin. destruct Hnin as (Hn1 & Hn2 & Hn3).
  apply NoDup_app in Hnd as (Hnd1 & Hd1 & Hnd2). apply NoDup_app in Hnd2 as (Hnd2 & Hd2 & Hnd3).
  destruct (chain_to_tail_spec _ _ _ _ Hr Hnd2 Hn2 Hdet) as (m & -> & Hre & Hq). cbn [rbind].
  eexists. split; [done|]. split; [|by eapply relinked_same_data].
  assert (Hfr : forall ls : list positive, (forall x, x ∈ ls -> x ∉ rem) -> forall x, x ∈ ls -> m !! x = mem w !! x).
  { intros ls Hls x Hx. apply Hre. by apply Hls. }
  split; cbn [mem with_mem next_free_midi_event remaining_midi_chain freeable_midi_chain with_remaining].
  - rewrite app_assoc. rewrite (Permutation_app_comm (fr ++ rem ++ [l]) fb), app_assoc, app_assoc.
    apply NoDup_app. split; [|split].
    + rewrite <- app_assoc, Permutation_app_comm, <- app_assoc.
      apply NoDup_app. split; [done|]. split; [done|]. apply NoDup_app. auto.
    + intros x Hx ->%list_elem_of_singleton. rewrite !elem_of_app in Hx. naive_solver.
    + apply NoDup_singleton.
  - eapply chain_seg_frame; [|exact Hf]. apply Hfr. intros x Hx Hx'. by apply (Hd1 x Hx), elem_of_app; left.
  - exact Hq.
  - eapply chain_queue_frame; [|exact Hb]. apply Hfr. intros x Hx Hx'. by apply (Hd2 x Hx').
  - eapply relinked_fresh; [exact Hfresh| |exact Hre]. by eapply ok_dom_rem.
Qed.

(** A node put in the buffer is the last of the events to free. *)
Lemma chain_freeable_spec w b fr rem fb l :
  chains_ok w b fr rem fb -> l ∉ fr ++ rem ++ fb -> detached (mem w) l ->
  exists m, chain_to_tail (mem w) (freeable_midi_chain b) (Some l) = Ok (m, head (fb ++ [l])) /\
    chains_ok (with_mem w m) (with_freeable b (head (fb ++ [l]))) fr rem (fb ++ [l]) /\
    same_data w (with_mem w m).
Proof.
  intros Hok Hnin Hdet. pose proof Hok as [Hnd Hf Hr Hb Hfresh].
  rewrite !not_elem_of_app in Hnin. destruct Hnin as (Hn1 & Hn2 & Hn3).
  apply NoDup_app in Hnd as (Hnd1 & Hd1 & Hnd2). apply NoDup_app in Hnd2 as (Hnd2 & Hd2 & Hnd3).
  destruct (chain_to_tail_spec _ _ _ _ Hb Hnd3 Hn3 Hdet) as (m & -> & Hre & Hq).
  exists m. split; [done|]. split; [|by eapply relinked_same_data].
  split; cbn [mem with_mem next_free_midi_event remaining_midi_chain freeable_midi_chain with_freeable].
  - rewrite app_assoc, app_assoc. apply NoDup_app. split; [|split].
    + rewrite <- app_assoc. apply NoDup_app. split; [done|]. split; [done|]. apply NoDup_app. auto.
    + intros x Hx ->%list_elem_of_singleton. rewrite !elem_of_app in Hx. naive_solver.
    + apply NoDup_singleton.
  - eapply chain_seg_frame; [|exact Hf]. intros x Hx. apply Hre. intros Hx'. by apply (Hd1 x Hx), elem_of_app; right.
  - eapply chain_queue_frame; [|exact Hr]. intros x Hx. apply Hre. intros Hx'. by apply (Hd2 x Hx).
  - exact Hq.
  - eapply relinked_fresh; [exact Hfresh| |exact Hre]. by eapply ok_dom_fb.
Qed.

(** Both parts of the invariant. *)
Definition chains_and_buffer (w : world) (b : builder) (fr rem fb : list positive) : Prop :=
  chains_ok w b fr rem fb /\ buffer_ok b fb.

(** An event waits only while the buffer is full. *)
Definition builder_inv (w : world) (b : builder) (fr rem fb : list positive) : Prop :=
  chains_and_buffer w b fr rem fb /\ (buffer_position b < buffer_size b -> rem = []).

Lemma chains_ok_same w b b' fr rem fb : chains_ok w b fr rem fb ->
  remaining_midi_chain b' = remaining_midi_chain b -> freeable_midi_chain b' = freeable_midi_chain b ->
  chains_ok w b' fr rem fb.
Proof. intros [H1 H2 H3 H4 H5] E1 E2. split; rewrite ?E1, ?E2; done. Qed.

Lemma chain_event_spec w b fr rem fb l :
  chains_and_buffer w b fr rem fb -> l ∉ fr ++ rem ++ fb -> detached (mem w) l ->
  exists w' b', chain_event w b (Some l) = Ok (w', b') /\ same_data w w' /\
    (if buffer_size b <=? buffer_position b
     then chains_and_buffer w' b' fr (rem ++ [l]) fb /\ buffer_size b' <= buffer_position b'
     else chains_and_buffer w' b' fr rem (fb ++ [l])) /\ (is_Some (buffer b') <-> is_Some (buffer b)).
Proof.
  intros [Hok Hbuf] Hnin Hdet. destruct (Z.leb_spec (buffer_size b) (buffer_position b)) as [Hp|Hp].
  - destruct (chain_remaining_spec w b fr rem fb l Hok Hnin Hdet Hp) as (w' & He & Hok' & Hd).
    exists w', (with_remaining b (head (rem ++ [l]))). split; [done|]. split; [done|]. split; [split; [split; [exact Hok'|exact Hbuf]|exact Hp]|done].
  - destruct (buffer b) as [a|] eqn:Ea; [|unfold buffer_ok in Hbuf; rewrite Ea in Hbuf; lia].
    destruct (buffer_put_spec b fb l a Ea Hbuf Hp) as (b1 & Hput & Hbuf1 & Hsome & Hsz & Hps & Hr1 & Hf1).
    unfold chain_event. rewrite (proj2 (Z.leb_gt _ _)) by done. rewrite Hput. cbn [rbind].
    destruct (chain_freeable_spec w b1 fr rem fb l) as (m & He & Hok' & Hd);
      [by eapply chains_ok_same|done|done|]. rewrite He. cbn [rbind].
    eexists _, _. split; [done|]. split; [done|]. split; [split; [done|exact Hbuf1]|].
    cbn [with_freeable buffer]. split; [by eexists|done].
Qed.

Lemma queue_event_spec w b fr rem fb status b1 b2 : builder_inv w b fr rem fb ->
  exists w' b' fr' rem' fb', queue_event w b status b1 b2 = Ok (w', b') /\ builder_inv w' b' fr' rem' fb' /\
    events (mem w') fb' ++ events (mem w') rem' =
      events (mem w) fb ++ events (mem w) rem ++ [[u8 status; u8 b1; u8 b2]] /\
    (is_Some (buffer b') <-> is_Some (buffer b)).
Proof.
  intros [[Hok Hbuf] Hroom]. pose proof Hok as [Hnd Hf Hr Hb Hfresh]. unfold queue_event.
  destruct (pop_spec w fr (rem ++ fb) 3) as (l & fr' & w1 & -> & Hs1 & Hf1 & Hnd1 & [d Hl] & Hfr);
    [done|done|done|by eapply ok_dom_others|lia|]. cbn [rbind].
  set (bytes := [u8 status; u8 b1; u8 b2]).
  assert (set_data (mem w1) (Some l) bytes = Ok (<[l := ChainNode bytes None (Some l)]> (mem w1))) as ->.
  { unfold set_data. rewrite (node_some _ _ _ Hl). cbn [rbind]. by erewrite put_node_some. }
  cbn [rbind]. set (w2 := with_mem w1 (<[l := ChainNode bytes None (Some l)]> (mem w1))).
  apply list.NoDup_cons in Hnd1 as [Hnin Hnd1].
  assert (Hother : forall x, x <> l -> mem w2 !! x = mem w1 !! x).
  { intros x Hx. cbn [w2 with_mem mem]. by rewrite lookup_insert_ne. }
  assert (Hkeep : forall x, x ∈ rem ++ fb -> mem w2 !! x = mem w !! x).
  { intros x Hx. rewrite Hother; [by apply Hfr|]. intros ->. apply Hnin, elem_of_app. by right. }
  assert (Hok2 : chains_ok w2 b fr' rem fb).
  { split; [done| | | |].
    - eapply chain_seg_frame; [|exact Hs1]. intros x Hx. apply Hother. intros ->. apply Hnin, elem_of_app. by left.
    - eapply chain_queue_frame; [|exact Hr]. intros x Hx. apply Hkeep, elem_of_app. by left.
    - eapply chain_queue_frame; [|exact Hb]. intros x Hx. apply Hkeep, elem_of_app. by right.
    - intros x Hx. rewrite Hother; [by apply Hf1|]. intros ->. cbn [w2 with_mem brk] in Hx. by rewrite Hf1 in Hl. }
  assert (Hev : forall ls : list positive, (forall x, x ∈ ls -> x ∈ rem ++ fb) -> events (mem w2) ls = events (mem w) ls).
  { intros ls Hls. unfold events. induction ls as [|x ls IH]; [done|]. cbn [flat_map].
    rewrite IH by (intros y Hy; apply Hls; by right). by rewrite Hkeep by (apply Hls; by left). }
  assert (Hl2 : events (mem w2) [l] = [bytes]).
  { unfold events. cbn [flat_map w2 with_mem mem]. by rewrite lookup_insert_eq. }
  destruct (chain_event_spec w2 b fr' rem fb l) as (w' & b' & -> & Hdata & Hinv & Hsome);
    [by split|done|exists bytes; cbn [w2 with_mem mem]; by rewrite lookup_insert_eq|].
  assert (Hdom : forall ls : list positive, (forall x, x ∈ ls -> x = l \/ x ∈ rem ++ fb) -> events (mem w') ls = events (mem w2) ls).
  { intros ls Hls. apply events_same; [done|]. intros x [->|Hx]%Hls.
    - cbn [w2 with_mem mem]. rewrite lookup_insert_eq. by eexists.
    - rewrite Hkeep by done. by eapply ok_dom_others. }
  destruct (Z.leb_spec (buffer_size b) (buffer_position b)) as [Hp|Hp].
  - exists w', b', fr', (rem ++ [l]), fb. split; [done|]. split; [split; [apply Hinv|]|split; [|done]].
    + intros Hlt. destruct Hinv as [_ Hfull]. lia.
    + rewrite !Hdom by (intros x; rewrite ?elem_of_app, ?list_elem_of_singleton; naive_solver).
      rewrite events_app, Hl2, !Hev by (intros x; rewrite elem_of_app; naive_solver). done.
  - rewrite (Hroom Hp) in *. exists w', b', fr', [], (fb ++ [l]). split; [done|].
    split; [by split|split; [|done]]. cbn [events flat_map]. rewrite !app_nil_r.
    rewrite Hdom by (intros x; rewrite ?elem_of_app, ?list_elem_of_singleton; naive_solver).
    by rewrite events_app, Hl2, Hev by (intros x; rewrite elem_of_app; naive_solver).
Qed.

(** Taking the first event to send off its chain. *)
Lemma take_remaining_spec w b fr l rem fb : chains_ok w b fr (l :: rem) fb ->
  exists m, get_chain_head (mem w) (remaining_midi_chain b) = Ok (Some l, m, head rem) /\
    chains_ok (with_mem w m) (with_remaining b (head rem)) fr rem fb /\
    l ∉ fr ++ rem ++ fb /\ detached m l /\ same_data w (with_mem w m).
Proof.
  intros Hok. pose proof Hok as [Hnd Hf Hr Hb Hfresh].
  pose proof (Permutation_middle fr (rem ++ fb) l) as Hperm. cbn [app] in Hnd. rewrite <- Hperm in Hnd.
  apply list.NoDup_cons in Hnd as [Hnin Hnd].
  assert (Hndr : NoDup (l :: rem)).
  { apply list.NoDup_cons. split; [intros Hin; apply Hnin, elem_of_app; right; apply elem_of_app; by left|].
    apply NoDup_app in Hnd as (_ & _ & Hnd). by apply NoDup_app in Hnd as (Hnd & _). }
  destruct Hr as [Hr Hlast]. pose proof (chain_seg_ptr _ _ _ Hr) as Hp. cbn [head] in Hp.
  rewrite Hp in Hr. destruct (get_chain_head_spec (mem w) l rem) as (m & He & Hre & Hdet & Hq); [by split|done|].
  rewrite Hp. exists m. split; [done|]. split; [|split; [done|split; [done|by eapply relinked_same_data]]].
  assert (Hoff : forall ls : list positive, (forall x, x ∈ ls -> x ∉ l :: rem) -> forall x, x ∈ ls -> m !! x = mem w !! x).
  { intros ls Hls x Hx. apply Hre. by apply Hls. }
  apply NoDup_app in Hnd as (Hnd1 & Hd1 & Hnd2). apply NoDup_app in Hnd2 as (Hnd2 & Hd2 & Hnd3).
  rewrite !elem_of_app in Hnin. split; cbn [mem with_mem next_free_midi_event remaining_midi_chain freeable_midi_chain with_remaining].
  - apply NoDup_app. split; [done|]. split; [done|]. apply NoDup_app. auto.
  - eapply chain_seg_frame; [|exact Hf]. apply Hoff. intros x Hx [->|Hx']%elem_of_cons; [tauto|].
    by apply (Hd1 x Hx), elem_of_app; left.
  - exact Hq.
  - eapply chain_queue_frame; [|exact Hb]. apply Hoff. intros x Hx [->|Hx']%elem_of_cons; [tauto|].
    by apply (Hd2 x Hx').
  - eapply relinked_fresh; [exact Hfresh| |exact Hre]. by eapply ok_dom_rem.
Qed.

Lemma process_remaining_spec rem : forall fuel w b fr fb,
  chains_and_buffer w b fr rem fb -> is_Some (buffer b) -> (length rem < fuel)%nat ->
  exists w' b' rem' fb', process_remaining_chain fuel w b = Ok (w', b') /\
    builder_inv w' b' fr rem' fb' /\ fb' ++ rem' = fb ++ rem /\ same_data w w' /\ is_Some (buffer b').
Proof.
  induction rem as [|l rem IH]; intros fuel w b fr fb [Hok Hbuf] Hsome Hf;
    (destruct fuel as [|fuel]; [simpl in Hf; lia|]); cbn [process_remaining_chain].
  - destruct (ok_remaining _ _ _ _ _ Hok) as [Hr _]. simpl in Hr. rewrite Hr.
    rewrite bool_decide_eq_false_2 by (by intros [? ?]). rewrite andb_false_r.
    exists w, b, [], fb. split; [done|]. split; [by split|]. split; [done|]. split; [|done].
    intros x n ->. done.
  - destruct (ok_remaining _ _ _ _ _ Hok) as [Hr _]. pose proof (chain_seg_ptr _ _ _ Hr) as Hp. cbn [head] in Hp.
    rewrite bool_decide_eq_true_2 by (rewrite Hp; by eexists). rewrite andb_true_r.
    destruct (Z.ltb_spec (buffer_position b) (buffer_size b)) as [Hlt|Hge].
    2: { exists w, b, (l :: rem), fb. split; [done|]. split; [split; [by split|lia]|]. split; [done|].
         split; [|done]. intros x n ->. done. }
    destruct (take_remaining_spec w b fr l rem fb Hok) as (m & -> & Hok1 & Hnin & Hdet & Hd1). cbn [rbind].
    destruct Hsome as [a Ha].
    destruct (buffer_put_spec (with_remaining b (head rem)) fb l a) as (b1 & -> & Hbuf1 & Hsome1 & _ & _ & Hr1 & Hf1);
      [done|exact Hbuf|done|]. cbn [rbind]. rewrite Hf1. cbn [with_remaining freeable_midi_chain].
    destruct (chain_freeable_spec (with_mem w m) b1 fr rem fb l) as (m2 & He2 & Hok2 & Hd2);
      [by eapply chains_ok_same|done|done|].
    rewrite Hf1 in He2. cbn [with_remaining freeable_midi_chain with_mem mem] in He2. rewrite He2. cbn [rbind].
    change (with_mem w m2) with (with_mem (with_mem w m) m2).
    destruct (IH fuel (with_mem (with_mem w m) m2) (with_freeable b1 (head (fb ++ [l]))) fr (fb ++ [l]))
      as (w' & b' & rem' & fb' & He & Hinv & Hcat & Hd & Hs); [by split|done|simpl in Hf; lia|].
    exists w', b', rem', fb'. split; [done|]. split; [done|]. split; [by rewrite Hcat, <- app_assoc|].
    split; [|done]. by eapply same_data_trans; [eapply same_data_trans|].
Qed.

Lemma process_freeable_spec fb : forall fuel w b fr rem,
  chains_ok w b fr rem fb -> (length fb < fuel)%nat ->
  exists w' fr', process_freeable_chain fuel w b = Ok (w', with_freeable b None) /\
    chains_ok w' (with_freeable b None) fr' rem [] /\ same_data w w'.
Proof.
  induction fb as [|l fb IH]; intros fuel w b fr rem Hok Hf;
    (destruct fuel as [|fuel]; [simpl in Hf; lia|]); cbn [process_freeable_chain].
  - destruct (ok_freeable _ _ _ _ _ Hok) as [Hr _]. simpl in Hr. rewrite Hr.
    exists w, fr. replace (with_freeable b None) with b by (destruct b; simpl in *; by rewrite Hr).
    split; [done|]. split; [done|]. intros x n ->. done.
  - pose proof Hok as [Hnd Hfr Hr Hb Hfresh]. destruct Hb as [Hb Hlast].
    pose proof (chain_seg_ptr _ _ _ Hb) as Hp. cbn [head] in Hp. rewrite Hp in Hb |- *.
    apply NoDup_app in Hnd as (Hnd1 & Hd1 & Hnd2). apply NoDup_app in Hnd2 as (Hnd2 & Hd2 & Hnd3).
    destruct (get_chain_head_spec (mem w) l fb) as (m & -> & Hre & Hdet & Hq); [by split|done|]. cbn [rbind].
    apply list.NoDup_cons in Hnd3 as [Hnin Hnd3].
    assert (Hlfr : l ∉ fr) by (intros Hx; apply (Hd1 l Hx), elem_of_app; right; by left).
    assert (Hlrem : l ∉ rem) by (intros Hx; apply (Hd2 l Hx); by left).
    assert (Hfr1 : chain_seg m (next_free_midi_event w) fr).
    { eapply chain_seg_frame; [|exact Hfr]. intros x Hx. apply Hre. intros Hx'.
      apply (Hd1 x Hx), elem_of_app. by right. }
    destruct (push_next_free_spec (with_mem w m) l fr) as (w1 & -> & Hbrk & Hn1 & Hre1 & Hfr2);
      [done|done|done|]. cbn [rbind]. cbn [with_mem mem brk] in *.
    assert (Hfm : fresh_above (with_mem w m)).
    { eapply relinked_fresh; [exact Hfresh| |exact Hre]. by eapply ok_dom_fb. }
    assert (Hok1 : chains_ok w1 (with_freeable b (head fb)) (l :: fr) rem fb).
    { split; cbn [with_freeable remaining_midi_chain freeable_midi_chain].
      - cbn [app]. apply list.NoDup_cons. rewrite !elem_of_app. split; [tauto|].
        apply NoDup_app. split; [done|]. split.
        + intros x Hx Hx'. apply (Hd1 x Hx). rewrite elem_of_app in *. destruct Hx'; [by left|right; by right].
        + apply NoDup_app. split; [done|]. split; [|done]. intros x Hx Hx'. apply (Hd2 x Hx). by right.
      - by rewrite Hn1.
      - eapply chain_queue_frame; [|exact Hr]. intros x Hx. destruct Hre1 as [Hre1 _]. rewrite Hre1.
        + apply Hre. intros Hx'. by apply (Hd2 x Hx).
        + intros ->%list_elem_of_singleton. done.
      - eapply chain_queue_frame; [|exact Hq]. intros x Hx. destruct Hre1 as [Hre1 _]. apply Hre1.
        intros ->%list_elem_of_singleton. done.
      - intros x Hx. rewrite Hbrk in Hx. destruct Hre1 as [Hre1 _]. rewrite Hre1; [by apply Hfm|].
        intros ->%list_elem_of_singleton. destruct Hdet as [d Hdet]. cbn in Hx.
        specialize (Hfm l Hx). cbn in Hfm. congruence. }
    destruct (IH fuel w1 (with_freeable b (head fb)) (l :: fr) rem Hok1) as (w' & fr' & He & Hok' & Hd);
      [simpl in Hf; lia|].
    exists w', fr'. split; [exact He|]. split; [exact Hok'|].
    eapply same_data_trans; [by eapply relinked_same_data|]. eapply same_data_trans; [|exact Hd].
    intros x n Hx. destruct Hre1 as [_ Hre1].
    cbn [with_mem mem] in *. by rewrite Hre1, Hx.
Qed.

(** ** Runs of a builder *)

(** An array the caller has cleared. *)
Definition cleared (n : nat) : list chain_ptr := repeat None n.

(** The events of the buffer in use, in slot order. *)
Definition buffer_events (w : world) (b : builder) : list (list Z) :=
  match buffer b with Some a => events (mem w) (slots a) | None => [] end.

(** The events on the chain of those still to send: the first, and the ones after it. *)
Definition remaining_events (w : world) (b : builder) (evs : list (list Z)) : Prop :=
  exists ls, chain_seg (mem w) (remaining_midi_chain b) ls /\ evs = events (mem w) ls.

(** Any use of one builder: a cleared array is handed over, events are queued and slots
    skipped, the array is finished, and again. [queued] are the events queued so far, [sent]
    those found in the finished arrays, in slot order. *)
Inductive builder_run : world -> builder -> list (list Z) -> list (list Z) -> Prop :=
| run_start fuel b0 s0 p0 k0 n w' b' :
    use_buffer fuel (World ∅ None 1) (new_builder b0 s0 p0 k0) (cleared n) (Z.of_nat n) = Ok (w', b') ->
    builder_run w' b' [] []
| run_use fuel w b n w' b' queued sent :
    builder_run w b queued sent -> buffer b = None ->
    use_buffer fuel w b (cleared n) (Z.of_nat n) = Ok (w', b') ->
    builder_run w' b' queued sent
| run_queue w b status b1 b2 w' b' queued sent :
    builder_run w b queued sent -> queue_event w b status b1 b2 = Ok (w', b') ->
    builder_run w' b' (queued ++ [[u8 status; u8 b1; u8 b2]]) sent
| run_skip w b n queued sent :
    builder_run w b queued sent -> builder_run w (snd (skip b n)) queued sent
| run_finish fuel w b w' b' queued sent :
    builder_run w b queued sent -> finish_current_buffer fuel w b = Ok (w', b') ->
    builder_run w' b' queued (sent ++ buffer_events w b).

Lemma slots_cleared n : slots (cleared n) = [].
Proof.
  apply slots_all_none. intros i p Hp. apply list_elem_of_lookup_2, list_elem_of_In, repeat_spec in Hp. done.
Qed.

(** More fuel changes nothing. *)
Lemma process_remaining_more k fuel : forall w b r,
  process_remaining_chain fuel w b = Ok r -> process_remaining_chain (fuel + k) w b = Ok r.
Proof.
  induction fuel as [|fuel IH]; intros w b r; cbn [process_remaining_chain Nat.add]; [done|].
  case_if; [|done]. destruct (get_chain_head _ _) as [[[mev m] p]|]; cbn [rbind]; [|done].
  destruct (buffer_put _ _) as [b1|]; cbn [rbind]; [|done].
  destruct (chain_to_tail _ _ _) as [[m2 p2]|]; cbn [rbind]; [|done]. apply IH.
Qed.

Lemma process_freeable_more k fuel : forall w b r,
  process_freeable_chain fuel w b = Ok r -> process_freeable_chain (fuel + k) w b = Ok r.
Proof.
  induction fuel as [|fuel IH]; intros w b r; cbn [process_freeable_chain Nat.add]; [done|].
  destruct (freeable_midi_chain b); [|done].
  destruct (get_chain_head _ _) as [[[mev m] q]|]; cbn [rbind]; [|done].
  destruct (push_next_free_midi _ _) as [w1|]; cbn [rbind]; [|done]. apply IH.
Qed.

Lemma use_buffer_spec fuel w b n fr rem : chains_ok w b fr rem [] -> (length rem < fuel)%nat ->
  exists w' b' rem' fb', use_buffer fuel w b (cleared n) (Z.of_nat n) = Ok (w', b') /\
    builder_inv w' b' fr rem' fb' /\ fb' ++ rem' = rem /\ same_data w w' /\ is_Some (buffer b').
Proof.
  intros Hok Hf. unfold use_buffer.
  destruct (process_remaining_spec rem fuel w
    (Builder (Some (cleared n)) (Z.of_nat n) 0 0 (remaining_midi_chain b) (freeable_midi_chain b)) fr [])
    as (w' & b' & rem' & fb' & He & H); [|by eexists|done|by exists w', b', rem', fb'].
  split; [by eapply chains_ok_same|]. unfold buffer_ok. cbn [buffer buffer_size buffer_position].
  unfold cleared. rewrite repeat_length. split; [done|]. split; [lia|]. split; [apply slots_cleared|].
  intros i p _ Hp. apply list_elem_of_lookup_2, list_elem_of_In, repeat_spec in Hp. done.
Qed.

Lemma finish_spec fuel w b fr rem fb : builder_inv w b fr rem fb -> (length fb < fuel)%nat ->
  exists w' b' fr', finish_current_buffer fuel w b = Ok (w', b') /\ builder_inv w' b' fr' rem [] /\
    same_data w w' /\ buffer b' = None.
Proof.
  intros [[Hok Hbuf] Hroom] Hf. unfold finish_current_buffer.
  destruct (process_freeable_spec fb fuel w
    (Builder None 0 1 (buffer_p_last_skip b) (remaining_midi_chain b) (freeable_midi_chain b)) fr rem)
    as (w' & fr' & He & Hok' & Hd); [by eapply chains_ok_same|done|].
  eexists w', _, fr'. split; [exact He|]. split; [|by split]. split; [|cbn; lia].
  split; [exact Hok'|]. cbn. split; [done|lia].
Qed.

Lemma buffer_events_inv w b fr rem fb : builder_inv w b fr rem fb -> buffer_events w b = events (mem w) fb.
Proof.
  intros [[_ Hbuf] _]. unfold buffer_ok, buffer_events in *. destruct (buffer b) as [a|].
  - by destruct Hbuf as (_ & _ & -> & _).
  - by destruct Hbuf as [-> _].
Qed.

Lemma inv_same_events w w' b fr rem fb rem' fb' : chains_ok w b fr rem fb -> same_data w w' ->
  fb' ++ rem' = fb ++ rem ->
  events (mem w') fb' ++ events (mem w') rem' = events (mem w) fb ++ events (mem w) rem.
Proof.
  intros Hok Hd He. rewrite <- !events_app, He. apply events_same; [done|].
  intros l Hl. eapply ok_dom_others; [exact Hok|]. rewrite elem_of_app in *. tauto.
Qed.

Definition start_world : world := World ∅ None 1.

Lemma start_chains b0 s0 p0 k0 : chains_ok start_world (new_builder b0 s0 p0 k0) [] [] [].
Proof.
  split; [constructor|done|split; [done|by intros]|split; [done|by intros]|].
  intros l _. apply lookup_empty.
Qed.

Lemma skip_inv w b n fr rem fb : builder_inv w b fr rem fb -> builder_inv w (snd (skip b n)) fr rem fb.
Proof.
  intros [[Hok Hbuf] Hroom]. unfold skip. cbn [snd]. split; [split|].
  - by eapply chains_ok_same.
  - unfold buffer_ok in *. cbn [buffer buffer_size buffer_position]. destruct (buffer b) as [a|].
    + destruct Hbuf as (H1 & H2 & H3 & H4). split; [done|].
      destruct (Z.ltb_spec (buffer_position b) (i32 (buffer_p_last_skip b + n))); (split; [lia|]);
        (split; [done|]); intros i p Hi; apply H4; lia.
    + destruct Hbuf as [-> H2]. split; [done|]. case_if; zbool; lia.
  - cbn [buffer_position buffer_size]. case_if; zbool; intros; apply Hroom; lia.
Qed.

(** Every state of a run is consistent, and accounts for every event queued. *)
Lemma builder_run_inv w b queued sent : builder_run w b queued sent ->
  exists fr rem fb, builder_inv w b fr rem fb /\
    queued = sent ++ events (mem w) fb ++ events (mem w) rem.
Proof.
  induction 1 as [fuel b0 s0 p0 k0 n w' b' He|fuel w b n w' b' queued sent Hr IH Hnone He
    |w b status b1 b2 w' b' queued sent Hr IH He|w b n queued sent Hr IH|fuel w b w' b' queued sent Hr IH He].
  - apply (process_remaining_more 1) in He.
    destruct (use_buffer_spec (fuel + 1) start_world (new_builder b0 s0 p0 k0) n [] [] (start_chains _ _ _ _))
      as (w2 & b2 & rem' & fb' & He2 & Hinv & Hcat & _); [simpl; lia|].
    unfold use_buffer, start_world in He2. rewrite He2 in He. injection He as <- <-.
    apply app_eq_nil in Hcat as [-> ->]. by exists [], [], [].
  - destruct IH as (fr & rem & fb & Hinv & ->). pose proof Hinv as [[Hok Hbuf] Hroom].
    unfold buffer_ok in Hbuf. rewrite Hnone in Hbuf. destruct Hbuf as [-> _].
    apply (process_remaining_more (S (length rem))) in He.
    destruct (use_buffer_spec (fuel + S (length rem)) w b n fr rem Hok)
      as (w2 & b2 & rem' & fb' & He2 & Hinv' & Hcat & Hd & _); [lia|].
    unfold use_buffer in He2. rewrite He2 in He. injection He as <- <-.
    exists fr, rem', fb'. split; [done|]. f_equal. symmetry. by eapply inv_same_events.
  - destruct IH as (fr & rem & fb & Hinv & ->).
    destruct (queue_event_spec w b fr rem fb status b1 b2 Hinv) as (w2 & b2' & fr' & rem' & fb' & He2 & Hinv' & Hev & _).
    rewrite He2 in He. injection He as <- <-. exists fr', rem', fb'. split; [done|].
    by rewrite Hev, <- !app_assoc.
  - destruct IH as (fr & rem & fb & Hinv & ->). exists fr, rem, fb. split; [|done].
    by apply skip_inv.
  - destruct IH as (fr & rem & fb & Hinv & ->). apply (process_freeable_more (S (length fb))) in He.
    destruct (finish_spec (fuel + S (length fb)) w b fr rem fb Hinv) as (w2 & b2 & fr' & He2 & Hinv' & Hd & _); [lia|].
    unfold finish_current_buffer in He2. rewrite He2 in He. injection He as <- <-. exists fr', rem, []. split; [done|].
    rewrite (buffer_events_inv _ _ _ _ _ Hinv). cbn [events flat_map app]. rewrite <- app_assoc. do 2 f_equal.
    destruct Hinv as [[Hok _] _]. symmetry. apply events_same; [done|]. intros l Hl. by eapply ok_dom_rem.
Qed.

(** C9: No event is lost, duplicated or reordered. Whatever is queued, skipped and handed
    over, the events queued so far are exactly the ones found in the finished buffers, then
    those in the buffer in use in slot order, then those still on the chain of events to
    send, each with the bytes it was queued with. *)
Theorem builder_keeps_events w b queued sent : builder_run w b queued sent ->
  exists evs, remaining_events w b evs /\ queued = sent ++ buffer_events w b ++ evs.
Proof.
  intros (fr & rem & fb & Hinv & ->)%builder_run_inv. exists (events (mem w) rem).
  rewrite (buffer_events_inv _ _ _ _ _ Hinv). split; [|done].
  exists rem. split; [|done]. destruct Hinv as [[Hok _] _]. apply (ok_remaining _ _ _ _ _ Hok).
Qed.

(** The builder's pointer code never goes wrong and its loops end: in every state of a
    run, queueing any event succeeds (the free chain grows when it is empty), finishing the
    buffer succeeds with fuel for one round per event in it, and handing a buffer over
    succeeds with fuel for one round per event waiting: no [NULL] or stale pointer is
    followed and no slot outside the buffer is written. *)
Theorem builder_progress w b queued sent : builder_run w b queued sent ->
  (forall status b1 b2, is_ok (queue_event w b status b1 b2) = true) /\
  exists fuel0, forall fuel, (fuel0 <= fuel)%nat ->
    is_ok (finish_current_buffer fuel w b) = true /\
    (buffer b = None -> forall n, is_ok (use_buffer fuel w b (cleared n) (Z.of_nat n)) = true).
Proof.
  intros (fr & rem & fb & Hinv & _)%builder_run_inv. split.
  - intros status b1 b2. by destruct (queue_event_spec w b fr rem fb status b1 b2 Hinv)
      as (w' & b' & fr' & rem' & fb' & -> & _).
  - exists (S (length rem + length fb)). intros fuel Hf. split.
    + by destruct (finish_spec fuel w b fr rem fb Hinv) as (w' & b' & fr' & -> & _); [lia|].
    + intros Hnone n. destruct Hinv as [[Hok Hbuf] _]. unfold buffer_ok in Hbuf. rewrite Hnone in Hbuf.
      destruct Hbuf as [-> _].
      by destruct (use_buffer_spec fuel w b n fr rem Hok) as (w' & b' & rem' & fb' & -> & _); [lia|].
Qed.

(** A run: a buffer of one slot, two notes queued, the buffer finished. *)
Definition ex_run : result (world * builder) :=
  let! (w, b) := use_buffer 9 start_world (new_builder None 7 7 7) (cleared 1) 1 in
  let! (w, b) := queue_event w b 0x90 60 100 in
  queue_event w b 0x90 64 100.

Lemma ex_run_reached : exists w b, ex_run = Ok (w, b) /\
  builder_run w b [[144; 60; 100]; [144; 64; 100]] [].
Proof.
  unfold ex_run.
  destruct (use_buffer 9 start_world (new_builder None 7 7 7) (cleared 1) 1) as [[w1 b1]|] eqn:E1;
    [|exfalso; vm_compute in E1; discriminate].
  cbn [rbind]. destruct (queue_event w1 b1 144 60 100) as [[w2 b2]|] eqn:E2.
  2: { exfalso. apply (f_equal (fun r => match r with Ok (w, b) => is_ok (queue_event w b 144 60 100) | Err _ => true end)) in E1.
       cbv beta iota in E1. rewrite E2 in E1. vm_compute in E1. discriminate. }
  cbn [rbind]. destruct (queue_event w2 b2 144 64 100) as [[w3 b3]|] eqn:E3.
  2: { exfalso. pose proof (run_queue _ _ _ _ _ _ _ _ _ (run_start _ _ _ _ _ 1 _ _ E1) E2) as Hr.
       apply builder_run_inv in Hr as (fr & rem & fb & Hinv & _).
       by destruct (queue_event_spec w2 b2 fr rem fb 144 64 100 Hinv) as (w' & b' & fr' & rem' & fb' & E4 & _);
         rewrite E3 in E4. }
  exists w3, b3. split; [done|].
  exact (run_queue _ _ _ _ _ _ _ _ _ (run_queue _ _ _ _ _ _ _ _ _ (run_start _ _ _ _ _ 1 _ _ E1) E2) E3).
Qed.

Lemma builder_keeps_events_witness : exists w b, ex_run = Ok (w, b) /\
  exists evs, remaining_events w b evs /\ [[144; 60; 100]; [144; 64; 100]] = [] ++ buffer_events w b ++ evs.
Proof.
  destruct ex_run_reached as (w & b & He & Hr). exists w, b. split; [exact He|].
  exact (builder_keeps_events w b _ _ Hr).
Defined.

Lemma builder_progress_witness : exists w b, ex_run = Ok (w, b) /\ is_ok (queue_event w b 0x80 60 64) = true.
Proof.
  destruct ex_run_reached as (w & b & He & Hr). exists w, b. split; [exact He|].
  apply (builder_progress w b _ _ Hr).
Defined.
