(* ===== verification/PadTime.v ===== *)
(** * Times in lines and ticks (the PAD_TIME macros of src_jni/midi_generation.hh)

    A time is an [int]: the line number above [BITS_PER_LINE] bits of tick. *)

From Stdlib Require Import ZArith Lia.
From stdpp Require Import base numbers.
From S2P Require Import Prelude.
Local Open Scope Z_scope.

Definition BITS_PER_LINE : Z := 4.

(* @src src_jni/midi_generation.hh:29-29 PAD_TIME *)
Definition PAD_TIME (line tick : Z) : Z :=
  i32 (Z.lor (Z.land (u32 (Z.shiftl line BITS_PER_LINE)) 0xfffffff0) (u32 tick)).

(* @src src_jni/midi_generation.hh:30-30 PAD_TIME_LINE *)
Definition PAD_TIME_LINE (t : Z) : Z := Z.shiftr t BITS_PER_LINE.

(* @src src_jni/midi_generation.hh:31-31 PAD_TIME_TICK *)
Definition PAD_TIME_TICK (t : Z) : Z := Z.land (u32 t) 0x0000000f.

Lemma lor_low a b : 0 <= b < 16 -> Z.lor (16 * a) b = 16 * a + b.
Proof.
  intros Hb. assert (Z.land (16 * a) b = 0) as H.
  { apply Z.bits_inj'. intros n Hn. rewrite Z.land_spec, Z.bits_0.
    replace (16 * a) with (Z.shiftl a 4) by (rewrite Z.shiftl_mul_pow2 by lia; lia).
    rewrite Z.shiftl_spec by lia. destruct (Z.ltb_spec n 4).
    - rewrite Z.testbit_neg_r by lia. done.
    - rewrite (Z.bits_above_log2 b n); [apply andb_false_r|lia|].
      destruct (Z.eq_dec b 0) as [->|]; [cbn; lia|]. apply Z.log2_lt_pow2; [lia|].
      apply Z.lt_le_trans with (2^4); [cbn; lia|]. apply Z.pow_le_mono_r; lia. }
  rewrite <- Z.lxor_lor by done. rewrite <- Z.add_nocarry_lxor by done. done.
Qed.

Lemma PAD_TIME_value line tick : 0 <= line < 2^27 -> 0 <= tick < 16 -> PAD_TIME line tick = 16 * line + tick.
Proof.
  intros Hl Ht. unfold PAD_TIME, BITS_PER_LINE. rewrite Z.shiftl_mul_pow2 by lia.
  rewrite !u32_id by (unfold in_u32; lia).
  assert (Z.land (line * 2^4) 0xfffffff0 = 16 * line) as ->.
  { apply Z.bits_inj'. intros n Hn. rewrite Z.land_spec.
    replace (16 * line) with (Z.shiftl line 4) by (rewrite Z.shiftl_mul_pow2 by lia; lia).
    replace (line * 2^4) with (Z.shiftl line 4) by (rewrite Z.shiftl_mul_pow2 by lia; lia).
    change 0xfffffff0 with (Z.shiftl (Z.ones 28) 4). rewrite !Z.shiftl_spec by lia.
    destruct (Z.ltb_spec n 4); [by rewrite !(Z.testbit_neg_r _ (n - 4)) by lia|].
    destruct (Z.ltb_spec n 32).
    - rewrite (Z.ones_spec_low 28) by lia. apply andb_true_r.
    - rewrite (Z.ones_spec_high 28) by lia. rewrite andb_false_r. symmetry.
      apply (Z.bits_above_log2 line); [lia|]. destruct (Z.eq_dec line 0) as [->|]; [cbn; lia|].
      apply Z.log2_lt_pow2; [lia|]. apply Z.lt_le_trans with (2^27); [lia|].
      apply Z.pow_le_mono_r; lia. }
  rewrite lor_low by done. apply i32_id. unfold in_i32. lia.
Qed.

Lemma PAD_TIME_parts line tick : 0 <= line < 2^27 -> 0 <= tick < 16 ->
  PAD_TIME_LINE (PAD_TIME line tick) = line /\ PAD_TIME_TICK (PAD_TIME line tick) = tick.
Proof.
  intros Hl Ht. rewrite PAD_TIME_value by done. unfold PAD_TIME_LINE, PAD_TIME_TICK, BITS_PER_LINE.
  rewrite u32_id by (unfold in_u32; lia). split.
  - rewrite Z.shiftr_div_pow2 by lia. change (2^4) with 16. rewrite Z.mul_comm, Z.div_add_l by lia.
    rewrite Z.div_small by lia. lia.
  - change 0xf with (Z.ones 4). rewrite Z.land_ones by lia. change (2^4) with 16.
    rewrite Z.mul_comm, Z.add_comm, Z.mod_add by lia. apply Z.mod_small. lia.
Qed.

Lemma PAD_TIME_nonneg line tick : 0 <= line < 2^27 -> 0 <= tick < 16 -> 0 <= PAD_TIME line tick.
Proof. intros Hl Ht. rewrite PAD_TIME_value by done. lia. Qed.
