(* ===== verification/ControllerEnvelope.v ===== *)
(** * Controller envelopes (src_jni/engine_code/controller_envelope.hh and .cc)

    An envelope maps times to 14 bit values and plays them as controller or pitch bend
    messages. A map iterator is the key it points to, [None] is [end()]. The member [t] is 0
    from construction on: nothing assigns it. The MIDI messages go to the
    builder of MidiBuilder.v; here they are the list of calls made on it. *)

From Stdlib Require Import ZArith Lia.
From stdpp Require Import base list strings numbers.
From S2P Require Import Prelude StdMap PadTime.
Local Open Scope string_scope.
Local Open Scope list_scope.
Local Open Scope Z_scope.
Local Open Scope vk_scope.

(** The calls on the [MidiEventBuilder]. *)
Inductive midi_call : Type :=
| QueueController (controller value : Z)
| QueuePitchBend (value_lsb value_msb : Z).

(* @src src_jni/engine_code/controller_envelope.hh:30-45 ControllerEnvelope *)
Record envelope : Type := Envelope {
  t_member : Z;
  next_c : option Z;
  previous_c : option Z;
  control_point : smap Z Z;
  enabled : bool;
  controller_coarse : Z;
  controller_fine : Z
}.

Definition with_points (e : envelope) (m : smap Z Z) : envelope :=
  Envelope (t_member e) (next_c e) (previous_c e) m (enabled e) (controller_coarse e) (controller_fine e).
Definition with_cursor (e : envelope) (next previous : option Z) : envelope :=
  Envelope (t_member e) next previous (control_point e) (enabled e) (controller_coarse e) (controller_fine e).

(** [*it]; the end of the map is not dereferenceable. *)
Definition at_iterator (m : smap Z Z) (it : option Z) : result (Z * Z) :=
  match it with
  | None => Err (UndefinedBehaviour "end of map")
  | Some k => match mfind m k with
              | Some y => Ok (k, y)
              | None => Err (UndefinedBehaviour "invalid iterator")
              end
  end.

Definition iterator_eqb (a b : option Z) : bool := bool_decide (a = b).

(** [--] on an iterator that is not [begin()]. *)
Definition iterator_prev (m : smap Z Z) (it : option Z) : option Z :=
  match it with
  | Some k => mprev m k
  | None => match rev m with [] => None | p :: _ => Some (fst p) end
  end.

(* @src src_jni/engine_code/controller_envelope.cc:34-45 ControllerEnvelope::refresh_playback_data *)
Definition refresh_playback_data (e : envelope) : envelope :=
  match control_point e with
  | [] => e
  | m =>
      let next := lower_bound m (t_member e) in
      if iterator_eqb next None || iterator_eqb next (mbegin m) then with_cursor e next next
      else with_cursor e next (iterator_prev m next)
  end.

(* @src src_jni/engine_code/controller_envelope.cc:26-27 ControllerEnvelope::ControllerEnvelope *)
Definition new_envelope : envelope := Envelope 0 None None [] true (-1) (-1).

(** The value at [t] on the line through two points; equal times divide by zero. *)
(* @src src_jni/engine_code/controller_envelope.cc:71-71 ControllerEnvelope::process_envelope *)
Definition interpolate (previous next : Z * Z) (t : Z) : result Z :=
  let d := i32 (fst next - fst previous) in
  if d =? 0 then Err (UndefinedBehaviour "division by zero")
  else Ok (i32 (snd previous + c_div (i32 (i32 (snd next - snd previous) * i32 (t - fst previous))) d)).

Definition sc_special_first : Z := 1024.
Definition sc_pitch_bend : Z := 1024.

(* @src src_jni/engine_code/controller_envelope.cc:73-87 ControllerEnvelope::process_envelope *)
Definition emit (coarse fine y : Z) : list midi_call :=
  if (0 <=? coarse) && (coarse <? 128) then
    QueueController coarse (Z.land (Z.shiftr y 7) 0x7f)
      :: (if fine =? -1 then [] else [QueueController fine (Z.land y 0x7f)])
  else if sc_special_first <=? coarse then
    if coarse =? sc_pitch_bend then [QueuePitchBend (Z.land 0x7f y) (Z.land 0x7f (Z.shiftr y 7))] else []
  else [].

(** Lines 49-59: where the next control point is looked for when there was none. *)
(* @src src_jni/engine_code/controller_envelope.cc:51-59 ControllerEnvelope::process_envelope *)
Definition find_cursor (e : envelope) (t : Z) : envelope :=
  match next_c e with
  | Some _ => e
  | None =>
      let next := lower_bound (control_point e) t in
      if iterator_eqb next None || iterator_eqb next (mbegin (control_point e)) then with_cursor e next next
      else with_cursor e next (iterator_prev (control_point e) next)
  end.

(* @src src_jni/engine_code/controller_envelope.cc:48-88 ControllerEnvelope::process_envelope *)
Definition process_envelope (e : envelope) (t : Z) : result (list midi_call * envelope) :=
  if negb (enabled e) || (Nat.eqb (length (control_point e)) 0) then Ok ([], e)
  else
    let e := find_cursor e t in
    let m := control_point e in
    match next_c e with
    | None => Ok ([], e)
    | Some _ =>
        let! next := at_iterator m (next_c e) in
        if (t <? fst next) && iterator_eqb (next_c e) (mbegin m) then Ok ([], e)
        else
          let! (y, e) :=
            (if fst next =? t then Ok (snd next, with_cursor e (mnext m (fst next)) (previous_c e))
             else let! previous := at_iterator m (previous_c e) in
                  let! y := interpolate previous next t in
                  Ok (y, e)) in
          Ok (emit (controller_coarse e) (controller_fine e) y, e)
    end.

(* @src src_jni/engine_code/controller_envelope.cc:90-95 ControllerEnvelope::set_to *)
Definition set_to (e original : envelope) : envelope :=
  refresh_playback_data
    (Envelope (t_member e) (next_c e) (previous_c e) (control_point original) (enabled original)
       (controller_coarse e) (controller_fine e)).

(* @src src_jni/engine_code/controller_envelope.cc:97-100 ControllerEnvelope::set_control_point *)
Definition set_control_point (e : envelope) (line tick y : Z) : envelope :=
  refresh_playback_data (with_points e (mset (control_point e) (PAD_TIME line tick) y)).

(** [erase(k1, k2)] with [k1] not [end()]: the keys from [k1] up to [k2]; [k1] beyond [k2]
    is not a range. *)
Definition erase_iterators (m : smap Z Z) (k1 : Z) (k2 : option Z) : result (smap Z Z) :=
  match k2 with
  | None => Ok (List.filter (fun p => fst p <? k1) m)
  | Some b => if b <? k1 then Err (UndefinedBehaviour "erase of an invalid range")
              else Ok (List.filter (fun p => (fst p <? k1) || (b <=? fst p)) m)
  end.

(* @src src_jni/engine_code/controller_envelope.cc:109-117 ControllerEnvelope::set_control_point_line *)
Definition erase_between (m : smap Z Z) (first_x second_x : Z) : result (smap Z Z) :=
  match lower_bound m first_x with
  | None => Ok m
  | Some k1 => erase_iterators m k1 (upper_bound m second_x)
  end.

(* @src src_jni/engine_code/controller_envelope.cc:102-124 ControllerEnvelope::set_control_point_line *)
Definition set_control_point_line (e : envelope) (first_line first_tick first_y second_line second_tick second_y : Z)
  : result envelope :=
  let first_x := PAD_TIME first_line first_tick in
  let second_x := PAD_TIME second_line second_tick in
  let! m := erase_between (control_point e) first_x second_x in
  Ok (refresh_playback_data (with_points e (mset (mset m first_x first_y) second_x second_y))).

(* @src src_jni/engine_code/controller_envelope.cc:126-144 ControllerEnvelope::delete_control_point_range *)
Definition delete_control_point_range (e : envelope) (first_line first_tick second_line second_tick : Z)
  : result envelope :=
  let! m := erase_between (control_point e) (PAD_TIME first_line first_tick) (PAD_TIME second_line second_tick) in
  Ok (refresh_playback_data (with_points e m)).

(* @src src_jni/engine_code/controller_envelope.cc:146-155 ControllerEnvelope::delete_control_point *)
Definition delete_control_point (e : envelope) (line tick : Z) : envelope :=
  refresh_playback_data (with_points e (merase (control_point e) (PAD_TIME line tick))).

(* @src src_jni/engine_code/controller_envelope.cc:157-159 ControllerEnvelope::get_control_points *)
Definition get_control_points (e : envelope) : smap Z Z := control_point e.

(** What the attributes of a parsed [<envelope>] element hold; a missing number is -1. *)
Record envelope_xml : Type := EnvelopeXml {
  xml_id : string; xml_enabled : string; xml_coarse : Z; xml_fine : Z; xml_points : list (Z * Z)
}.

(* @src src_jni/engine_code/controller_envelope.cc:176-205 ControllerEnvelope::read_from_xml *)
Definition read_from_xml (e : envelope) (x : envelope_xml) : string * envelope :=
  let m := fold_left (fun m p => if (fst p =? -1) || (snd p =? -1) then m else mset m (fst p) (snd p))
             (xml_points x) (control_point e) in
  (xml_id x,
   refresh_playback_data
     (Envelope (t_member e) (next_c e) (previous_c e) m (String.eqb (xml_enabled x) "true")
        (xml_coarse x) (xml_fine x))).

(** The element [write_to_xml] prints. *)
(* @src src_jni/engine_code/controller_envelope.cc:161-174 ControllerEnvelope::write_to_xml *)
Definition write_to_xml (id : string) (e : envelope) : envelope_xml :=
  EnvelopeXml id (if enabled e then "true" else "false") (controller_coarse e) (controller_fine e)
    (control_point e).

(** ** Iterators over integer keys *)

Lemma key_lt_Z (a b : Z) : key_lt a b = (a <? b).
Proof. reflexivity. Qed.

Lemma upper_lower (m : smap Z Z) k : upper_bound m k = lower_bound m (k + 1).
Proof.
  induction m as [|[k1 v1] m IH]; simpl; [done|].
  destruct (Z.ltb_spec k k1), (Z.ltb_spec k1 (k + 1)); try lia; [done|apply IH].
Qed.

Lemma lower_bound_step (m : smap Z Z) t : mfind m t = None -> lower_bound m (t + 1) = lower_bound m t.
Proof.
  induction m as [|[k1 v1] m IH]; simpl; [done|]. destruct (key_eqb t k1) eqn:E; [done|].
  intros Hn. assert (t <> k1) by (intros ->; by rewrite key_eqb_refl in E).
  destruct (Z.ltb_spec k1 t), (Z.ltb_spec k1 (t + 1)); try lia; [by apply IH|done].
Qed.

Lemma lower_bound_least (m : smap Z Z) k : smap_ok m ->
  match lower_bound m k with
  | Some a => k <= a /\ is_Some (mfind m a) /\ forall j, is_Some (mfind m j) -> k <= j -> a <= j
  | None => forall j, is_Some (mfind m j) -> j < k
  end.
Proof.
  intros Hok. pose proof (lower_bound_spec m k Hok) as Hs. destruct (lower_bound m k) as [a|].
  - destruct Hs as (Ha & Hf & Hmin). apply Z.ltb_ge in Ha. split; [done|]. split; [done|].
    intros j [v Hj] Hkj. apply mfind_elem in Hj; [|done]. destruct (Z.le_gt_cases a j) as [|Hlt]; [done|].
    apply Hmin in Hj; [|by apply Z.ltb_lt]. apply Z.ltb_lt in Hj. lia.
  - intros j [v Hj]. apply mfind_elem in Hj; [|done]. apply Hs in Hj. by apply Z.ltb_lt in Hj.
Qed.

Lemma lower_bound_begin (m : smap Z Z) : (forall k, is_Some (mfind m k) -> 0 <= k) -> lower_bound m 0 = mbegin m.
Proof.
  destruct m as [|[k v] m]; simpl; intros H; [done|].
  assert (0 <= k) by (apply H; rewrite key_eqb_refl; by eexists).
  destruct (Z.ltb_spec k 0); [lia|done].
Qed.

(** ** Editing: the control points afterwards *)

Lemma erase_between_spec (m : smap Z Z) a b : smap_ok m -> a <= b ->
  exists m', erase_between m a b = Ok m' /\ smap_ok m' /\
    forall k, mfind m' k = if (a <=? k) && (k <=? b) then None else mfind m k.
Proof.
  intros Hok Hab. unfold erase_between. pose proof (lower_bound_least m a Hok) as Hl.
  destruct (lower_bound m a) as [k1|].
  - destruct Hl as (Hk1 & _ & Hmin). unfold erase_iterators. rewrite upper_lower.
    pose proof (lower_bound_least m (b + 1) Hok) as Hu. destruct (lower_bound m (b + 1)) as [k2|].
    + destruct Hu as (Hk2 & Hf2 & Hmin2). pose proof (Hmin k2 Hf2 ltac:(lia)) as H12.
      destruct (Z.ltb_spec k2 k1); [lia|]. eexists. split; [done|]. split; [by apply filter_smap_ok|].
      intros k. rewrite (mfind_filter m (fun x => (x <? k1) || (k2 <=? x))) by done.
      destruct (mfind m k) as [v|] eqn:E; [|by repeat case_match].
      assert (is_Some (mfind m k)) as Hk by (rewrite E; by eexists).
      pose proof (Hmin k Hk). pose proof (Hmin2 k Hk).
      destruct (Z.ltb_spec k k1), (Z.leb_spec k2 k), (Z.leb_spec a k), (Z.leb_spec k b); cbn [orb andb]; try done; lia.
    + eexists. split; [done|]. split; [by apply filter_smap_ok|].
      intros k. rewrite (mfind_filter m (fun x => x <? k1)) by done.
      destruct (mfind m k) as [v|] eqn:E; [|by repeat case_match].
      assert (is_Some (mfind m k)) as Hk by (rewrite E; by eexists).
      pose proof (Hmin k Hk). pose proof (Hu k Hk).
      destruct (Z.ltb_spec k k1), (Z.leb_spec a k), (Z.leb_spec k b); cbn [andb]; try done; lia.
  - exists m. split; [done|]. split; [done|]. intros k.
    destruct (mfind m k) as [v|] eqn:E; [|by case_match].
    assert (is_Some (mfind m k)) as Hk by (rewrite E; by eexists). pose proof (Hl k Hk).
    destruct (Z.leb_spec a k); [lia|done].
Qed.

Lemma refresh_points e : control_point (refresh_playback_data e) = control_point e.
Proof. unfold refresh_playback_data. destruct (control_point e) eqn:E; [done|]. by case_if. Qed.

(** [set_control_point_line] with its ends in order removes exactly the control points
    from the first time to the second, then sets the two ends (the second value if they
    coincide), and leaves every other point; [delete_control_point_range] removes exactly
    the points of the range. Both keep the map's order, and neither uses an invalid
    iterator range. *)
Theorem envelope_edit_ranges e l1 t1 y1 l2 t2 y2 :
  smap_ok (control_point e) -> PAD_TIME l1 t1 <= PAD_TIME l2 t2 ->
  exists e1 e2, set_control_point_line e l1 t1 y1 l2 t2 y2 = Ok e1 /\
    delete_control_point_range e l1 t1 l2 t2 = Ok e2 /\
    smap_ok (control_point e1) /\ smap_ok (control_point e2) /\
    (forall k, mfind (control_point e1) k =
       if k =? PAD_TIME l2 t2 then Some y2 else if k =? PAD_TIME l1 t1 then Some y1
       else if (PAD_TIME l1 t1 <=? k) && (k <=? PAD_TIME l2 t2) then None else mfind (control_point e) k) /\
    (forall k, mfind (control_point e2) k =
       if (PAD_TIME l1 t1 <=? k) && (k <=? PAD_TIME l2 t2) then None else mfind (control_point e) k).
Proof.
  intros Hok Hle. destruct (erase_between_spec _ _ _ Hok Hle) as (m & He & Hm & Hf).
  unfold set_control_point_line, delete_control_point_range. cbv zeta. rewrite He. cbn [rbind].
  eexists _, _. split; [done|]. split; [done|]. rewrite !refresh_points. cbn [control_point with_points].
  split; [by apply mset_ok, mset_ok|]. split; [done|]. split; [|exact Hf]. intros k.
  rewrite !mfind_mset, Hf by (done || by apply mset_ok).
  assert (forall a b : Z, key_eqb a b = (a =? b)) as Hkey.
  { intros a b. destruct (Z.eqb_spec a b) as [->|Hne]; [apply key_eqb_refl|by apply key_eqb_neq]. }
  by rewrite !Hkey.
Qed.

Definition ex_envelope : envelope :=
  refresh_playback_data (Envelope 0 None None [(0, 0); (10, 100); (20, 100)] true 7 (-1)).

Lemma envelope_edit_ranges_witness : PAD_TIME 0 5 <= PAD_TIME 1 0 /\
  exists e1 e2, set_control_point_line ex_envelope 0 5 9 1 0 8 = Ok e1 /\
    delete_control_point_range ex_envelope 0 5 1 0 = Ok e2 /\
    mfind (control_point e1) 10 = None /\ mfind (control_point e2) 20 = Some 100.
Proof.
  split; [vm_compute; congruence|].
  destruct (envelope_edit_ranges ex_envelope 0 5 9 1 0 8) as (e1 & e2 & H1 & H2 & _ & _ & H3 & H4);
    [repeat constructor|vm_compute; congruence|].
  exists e1, e2. split; [exact H1|]. split; [exact H2|]. split; [rewrite H3; reflexivity|rewrite H4; reflexivity].
Defined.

(** ** Playback *)

(** [process_envelope] at [t], [t + 1], ..., [n] times: what each call queues. *)
Fixpoint play (n : nat) (t : Z) (e : envelope) : result (list (list midi_call) * envelope) :=
  match n with
  | O => Ok ([], e)
  | S n =>
      let! (calls, e) := process_envelope e t in
      let! (rest, e) := play n (t + 1) e in
      Ok (calls :: rest, e)
  end.

(** The value played at [t]: a control point's own value; before the first point and after
    the last nothing; in between the line from the FIRST point to the next one. *)
Definition played_value (m : smap Z Z) (t : Z) : result (option Z) :=
  match lower_bound m t with
  | None => Ok None
  | Some k =>
      let! next := at_iterator m (Some k) in
      if k =? t then Ok (Some (snd next))
      else if iterator_eqb (Some k) (mbegin m) then Ok None
      else let! first := at_iterator m (mbegin m) in
           let! y := interpolate first next t in Ok (Some y)
  end.

Definition played_calls (e : envelope) (t : Z) : result (list midi_call) :=
  let! v := played_value (control_point e) t in
  Ok (match v with
      | None => []
      | Some y => emit (controller_coarse e) (controller_fine e) y
      end).

(** The cursor in the middle of a playback without interruption. *)
Definition cursor_at (e : envelope) (t : Z) : Prop :=
  next_c e = lower_bound (control_point e) t /\
  (next_c e <> None -> previous_c e = mbegin (control_point e)).

Definition same_envelope (e e' : envelope) : Prop :=
  control_point e' = control_point e /\ enabled e' = enabled e /\
  controller_coarse e' = controller_coarse e /\ controller_fine e' = controller_fine e.

Lemma process_envelope_step e t : smap_ok (control_point e) -> control_point e <> [] ->
  enabled e = true -> cursor_at e t ->
  match played_calls e t with
  | Ok calls => exists e', process_envelope e t = Ok (calls, e') /\ cursor_at e' (t + 1) /\ same_envelope e e'
  | Err x => process_envelope e t = Err x
  end.
Proof.
  intros Hok Hne Hen [Hnext Hprev]. unfold process_envelope. rewrite Hen. cbn [negb orb].
  assert (Nat.eqb (length (control_point e)) 0 = false) as -> by (by destruct (control_point e)).
  pose proof (lower_bound_least _ t Hok) as Hl. unfold played_calls, played_value.
  destruct (lower_bound (control_point e) t) as [k|] eqn:El.
  - destruct Hl as (Htk & [v Hv] & Hmin). unfold find_cursor. rewrite Hnext, Hnext.
    cbn [at_iterator]. rewrite Hv. cbn [rbind fst snd].
    rewrite Hprev by (by rewrite Hnext).
    destruct (Z.eqb_spec k t) as [->|Hkt].
    + destruct (Z.ltb_spec t t); [lia|]. cbn [andb rbind]. eexists. split; [done|].
      split; [|by repeat split]. split; [|done]. cbn [with_cursor next_c control_point].
      unfold mnext. apply upper_lower.
    + destruct (Z.ltb_spec t k); [|lia]. cbn [andb].
      assert (Hstep : lower_bound (control_point e) (t + 1) = Some k).
      { rewrite lower_bound_step; [done|]. destruct (mfind (control_point e) t) as [w|] eqn:E; [|done].
        assert (k <= t); [|lia]. apply Hmin; [rewrite E; by eexists|lia]. }
      destruct (iterator_eqb (Some k) (mbegin (control_point e))).
      * eexists. split; [done|]. split; [|by repeat split]. split; [by rewrite Hstep|done].
      * destruct (at_iterator (control_point e) (mbegin (control_point e))) as [first|x]; cbn [rbind]; [|done].
        destruct (interpolate first (k, v) t) as [y|x]; cbn [rbind]; [|done].
        eexists. split; [done|]. split; [|by repeat split]. split; [by rewrite Hstep|done].
  - cbn [rbind]. unfold find_cursor. rewrite Hnext, El. unfold iterator_eqb at 1.
    rewrite bool_decide_eq_true_2 by done. cbn [orb with_cursor next_c]. eexists. split; [done|].
    split; [|by repeat split]. split; [|done]. cbn [with_cursor next_c control_point].
    rewrite lower_bound_step; [done|]. destruct (mfind (control_point e) t) as [w|] eqn:E; [|done].
    assert (t < t); [|lia]. apply Hl. rewrite E. by eexists.
Qed.

(** The times of the control points are non-negative [int]s. *)
Definition points_ok (m : smap Z Z) : Prop :=
  smap_ok m /\ m <> [] /\ forall k, is_Some (mfind m k) -> 0 <= k < 2^31.

Lemma begin_find (m : smap Z Z) : m <> [] -> exists k v, mbegin m = Some k /\ mfind m k = Some v.
Proof.
  destruct m as [|[k v] m]; [done|]. intros _. exists k, v. split; [done|]. cbn [mfind]. by rewrite key_eqb_refl.
Qed.

Lemma begin_least (m : smap Z Z) k j : smap_ok m -> mbegin m = Some k -> is_Some (mfind m j) -> k <= j.
Proof.
  destruct m as [|[k0 v0] m]; [done|]. intros Hok [= ->] [v Hj].
  apply mfind_elem in Hj; [|done]. apply smap_ok_cons in Hok as [Hall _].
  apply elem_of_cons in Hj as [[= -> _]|Hj]; [lia|]. apply Hall in Hj. apply Z.ltb_lt in Hj. lia.
Qed.

Lemma played_calls_ok e t : points_ok (control_point e) -> is_ok (played_calls e t) = true.
Proof.
  intros (Hok & Hne & Hr). unfold played_calls, played_value.
  pose proof (lower_bound_least _ t Hok) as Hl. destruct (lower_bound (control_point e) t) as [k|]; [|done].
  destruct Hl as (_ & [v Hv] & _). cbn [at_iterator]. rewrite Hv. cbn [rbind fst snd].
  case_if; [done|]. destruct (begin_find _ Hne) as (k0 & v0 & Hb & Hk0).
  rewrite Hb. unfold iterator_eqb. case_bool_decide as Hd; [done|]. cbn [at_iterator]. rewrite Hk0. cbn [rbind].
  unfold interpolate. cbn [fst snd].
  assert (0 <= k < 2^31) by (apply Hr; rewrite Hv; by eexists).
  assert (0 <= k0 < 2^31) by (apply Hr; rewrite Hk0; by eexists).
  rewrite i32_id by (unfold in_i32; lia). destruct (Z.eqb_spec (k - k0) 0); [|done].
  exfalso. apply Hd. f_equal. lia.
Qed.

Lemma refresh_cursor e : points_ok (control_point e) -> t_member e = 0 ->
  cursor_at (refresh_playback_data e) 0 /\ same_envelope e (refresh_playback_data e).
Proof.
  intros (Hok & Hne & Hr) Ht. unfold refresh_playback_data.
  destruct (control_point e) as [|p m] eqn:E; [done|]. rewrite <- E in *. rewrite Ht.
  rewrite lower_bound_begin by (intros k Hk; apply Hr in Hk; lia).
  assert (Hself : forall a, iterator_eqb a None || iterator_eqb a a = true).
  { intros a. unfold iterator_eqb. by rewrite (bool_decide_eq_true_2 (a = a)), orb_true_r by done. }
  rewrite Hself. split; [|by repeat split].
  split; cbn [with_cursor next_c previous_c control_point]; [|done].
  rewrite lower_bound_begin by (intros k Hk; apply Hr in Hk; lia). done.
Qed.

Lemma play_spec n : forall t e, points_ok (control_point e) -> enabled e = true -> cursor_at e t ->
  exists calls e', play n t e = Ok (calls, e') /\ length calls = n /\
    forall i c, calls !! i = Some c -> played_calls e (t + Z.of_nat i) = Ok c.
Proof.
  induction n as [|n IH]; intros t e Hp Hen Hc; cbn [play]; [exists [], e; by repeat split|].
  pose proof Hp as (Hok & Hne & _). pose proof (process_envelope_step e t Hok Hne Hen Hc) as Hs.
  pose proof (played_calls_ok e t Hp) as Hpc. destruct (played_calls e t) as [c0|] eqn:E0; [|done].
  destruct Hs as (e1 & -> & Hc1 & Hcp & Hen1 & Hco & Hfi). cbn [rbind].
  destruct (IH (t + 1) e1) as (calls & e' & -> & Hlen & Hall); [by rewrite Hcp|by rewrite Hen1|done|].
  cbn [rbind]. exists (c0 :: calls), e'. split; [done|]. split; [simpl; by f_equal|].
  intros [|i] c; cbn [lookup list_lookup]; [intros [= <-]; by rewrite Z.add_0_r|].
  intros Hi%Hall. unfold played_calls in *. rewrite Hcp, Hco, Hfi in Hi.
  replace (t + Z.of_nat (S i)) with (t + 1 + Z.of_nat i) by lia. done.
Qed.

(** C36: Playback from the start, tick by tick, of an enabled envelope whose cursor was just
    refreshed never fails, and every tick queues what [played_calls] says: at a control
    point its value, before the first and after the last nothing, and between two points a
    value on the line from the FIRST point of the envelope (not the preceding one) to the
    next. *)
Theorem envelope_playback e n :
  points_ok (control_point e) -> t_member e = 0 -> enabled e = true ->
  exists calls e', play n 0 (refresh_playback_data e) = Ok (calls, e') /\ length calls = n /\
    forall i c, calls !! i = Some c -> played_calls e (Z.of_nat i) = Ok c.
Proof.
  intros Hp Ht Hen. destruct (refresh_cursor e Hp Ht) as [Hc (Hcp & Hen' & Hco & Hfi)].
  destruct (play_spec n 0 (refresh_playback_data e)) as (calls & e' & H1 & H2 & H3);
    [by rewrite Hcp|by rewrite Hen'|done|].
  exists calls, e'. split; [done|]. split; [done|]. intros i c Hi%H3.
  unfold played_calls in *. by rewrite Hcp, Hco, Hfi in Hi.
Qed.

Lemma ex_points_ok : points_ok (control_point ex_envelope).
Proof.
  split; [repeat constructor|]. split; [done|]. intros k [v Hk]. apply mfind_elem in Hk; [|repeat constructor].
  change (control_point ex_envelope) with [(0, 0); (10, 100); (20, 100)] in Hk.
  rewrite !elem_of_cons, elem_of_nil in Hk. naive_solver lia.
Qed.

(** At tick 11, between two points of value 100, the value played is 55. *)
Lemma envelope_playback_witness :
  (exists calls e', play 12 0 (refresh_playback_data ex_envelope) = Ok (calls, e') /\ length calls = 12%nat /\
     forall i c, calls !! i = Some c -> played_calls ex_envelope (Z.of_nat i) = Ok c) /\
  played_value (control_point ex_envelope) 11 = Ok (Some 55).
Proof.
  split; [|vm_compute; reflexivity].
  apply (envelope_playback ex_envelope 12); [exact ex_points_ok|reflexivity|reflexivity].
Defined.

(** Editing while playing: once an edit has refreshed the cursor, processing any
    tick after the first control point divides by zero, because the refresh looks for
    the member [t], which stays 0, and leaves both iterators on the first point. *)
Theorem edit_during_playback_divides_by_zero e line tick y t k :
  points_ok (mset (control_point e) (PAD_TIME line tick) y) -> t_member e = 0 -> enabled e = true ->
  mbegin (mset (control_point e) (PAD_TIME line tick) y) = Some k -> k < t ->
  process_envelope (set_control_point e line tick y) t = Err (UndefinedBehaviour "division by zero").
Proof.
  intros Hp Ht Hen Hb Hkt. unfold set_control_point.
  set (e1 := with_points e (mset (control_point e) (PAD_TIME line tick) y)) in *.
  destruct (refresh_cursor e1 Hp Ht) as [[Hn Hpr] (Hcp & Hen' & _ & _)].
  destruct Hp as (Hok & Hne & Hr). unfold process_envelope. rewrite Hen'. change (enabled e1) with (enabled e). rewrite Hen. cbn [negb orb].
  rewrite Hcp. assert (Nat.eqb (length (control_point e1)) 0 = false) as ->.
  { cbn [e1 with_points control_point]. by destruct (mset _ _ _). }
  rewrite Hcp, lower_bound_begin in Hn by (intros j Hj; apply Hr in Hj; lia).
  cbn [e1 with_points control_point] in Hn, Hcp. rewrite Hb in Hn.
  assert (find_cursor (refresh_playback_data e1) t = refresh_playback_data e1) as ->.
  { unfold find_cursor. by rewrite Hn. }
  rewrite Hpr by (by rewrite Hn). rewrite Hn, Hcp. cbn [e1 with_points control_point].
  destruct (begin_find _ Hne) as (k' & v & Hb' & Hv). rewrite Hb in Hb'. injection Hb' as <-.
  cbn [at_iterator]. rewrite Hv. cbn [rbind fst snd].
  destruct (Z.ltb_spec t k); [lia|]. cbn [andb]. destruct (Z.eqb_spec k t); [lia|].
  rewrite Hb. cbn [at_iterator]. rewrite Hv. cbn [rbind]. unfold interpolate. cbn [fst snd].
  by rewrite Z.sub_diag.
Qed.

Lemma edit_during_playback_divides_by_zero_witness :
  mbegin (control_point ex_envelope) = Some 0 /\
  process_envelope (set_control_point ex_envelope 2 0 64) 5 = Err (UndefinedBehaviour "division by zero").
Proof.
  split; [reflexivity|].
  apply (edit_during_playback_divides_by_zero ex_envelope 2 0 64 5 0); try reflexivity.
  split; [repeat constructor|]. split; [done|]. intros k [v Hk]. apply mfind_elem in Hk; [|repeat constructor].
  change ((k, v) ∈ [(0, 0); (10, 100); (20, 100); (32, 64)]) in Hk.
  rewrite !elem_of_cons, elem_of_nil in Hk. naive_solver lia.
Defined.
