(* ===== verification/RemoteContext.v ===== *)
(** * The two ends of the remote interface: [Server] and [Client]

    [engine_code/server.cc] keeps the authoritative objects and broadcasts what happens
    to them; [engine_code/client.cc] keeps a copy of each, built from the messages it
    receives. What the contexts need of the objects is the interface [RemoteObject]
    (the virtual members of [BaseObject]); what makes copies stay equal is
    [ReplicatedObject], whose instance for [Sequence] is in [SequenceObject.v]. The
    theorems here are proved against the two interfaces. A message is the list of
    its [set_value] calls and the receiver's view of it is [received]: [Message.v] shows
    that the connection carries the one to the other, in order. *)

From Stdlib Require Import ZArith Lia Ascii String List Sorted Permutation.
From stdpp Require Import base list strings numbers option.
From S2P Require Import Prelude CxxString StdMap Serialize Message Sequence.
Local Open Scope string_scope.
Local Open Scope list_scope.
Local Open Scope Z_scope.
Local Open Scope vk_scope.

(* @src src_jni/remote_interface.hh:134-134 __MSG_CREATE_OBJECT *)
Definition MSG_CREATE_OBJECT : Z := -1.
(* @src src_jni/remote_interface.hh:135-135 __MSG_FLUSH_ALL_OBJECTS *)
Definition MSG_FLUSH_ALL_OBJECTS : Z := -2.
(* @src src_jni/remote_interface.hh:136-136 __MSG_DELETE_OBJECT *)
Definition MSG_DELETE_OBJECT : Z := -3.
(* @src src_jni/remote_interface.hh:137-137 __MSG_FAILURE_RESPONSE *)
Definition MSG_FAILURE_RESPONSE : Z := -4.
(* @src src_jni/remote_interface.hh:138-138 __MSG_PROTOCOL_VERSION *)
Definition MSG_PROTOCOL_VERSION : Z := -5.
(* @src src_jni/remote_interface.hh:139-139 __MSG_REPLY *)
Definition MSG_REPLY : Z := -6.
(* @src src_jni/remote_interface.hh:140-140 __MSG_CLIENT_ID *)
Definition MSG_CLIENT_ID : Z := -7.
Definition VUKNOB_PROTOCOL_VERSION : Z := 9.

(** A message built with [set_value] calls, which may refuse a character. *)
Definition build (kvs : pairs) : result pairs :=
  let! _ := set_values (new_message false 0 0) kvs in Ok kvs.

(** ** What the contexts call in an object *)

(** Where a handler sends a message: [context->distribute_message] or [src->deliver_message]. *)
Inductive target : Type := Everyone | Sender.

(** The virtual members of [BaseObject], with the server's object and the client's copy. A
    handler returns the object, what it sent, and the exception it threw, if any. *)
Class RemoteObject (Obj Copy : Type) : Type := {
  type_name : Obj -> string;
  serialize : Obj -> pairs;
  process_message_server : Z -> Obj -> view -> Obj * list (target * pairs) * option exn;
  create_and_register : string -> view -> option (result Copy);
  process_message_client : Copy -> view -> result Copy
}.

Section contexts.
Context {Obj Copy : Type} `{RemoteObject Obj Copy}.

(** ** The server *)

(** [written] is what was delivered to each [ClientAgent] ever accepted: an agent that is no
    longer in [client_agents] lives on, held by its pending read. *)
(* @src src_jni/engine_code/server.hh:36-42 Server *)
Record remote_server : Type := RemoteServer {
  all_objects : smap Z Obj;
  last_obj_id : Z;
  client_agents : smap Z unit;
  next_client_agent_id : Z;
  written : smap Z (list pairs)
}.

(* @src src_jni/engine_code/server.cc:232-233 Server::Server *)
Definition new_server : remote_server := RemoteServer [] (-1) [] 0 [].

Definition with_objects (st : remote_server) (objects : smap Z Obj) : remote_server :=
  RemoteServer objects (last_obj_id st) (client_agents st) (next_client_agent_id st) (written st).

Definition with_written (st : remote_server) (w : smap Z (list pairs)) : remote_server :=
  RemoteServer (all_objects st) (last_obj_id st) (client_agents st) (next_client_agent_id st) w.

Definition messages_to (w : smap Z (list pairs)) (agent : Z) : list pairs := default [] (mfind w agent).

Definition deliver (w : smap Z (list pairs)) (agent : Z) (msg : pairs) : smap Z (list pairs) :=
  mset w agent (messages_to w agent ++ [msg]).

(* @src src_jni/engine_code/server.cc:533-538 Server::distribute_message *)
Definition distribute_message (st : remote_server) (msg : pairs) : remote_server :=
  with_written st (fold_left (fun w agent => deliver w (fst agent) msg) (client_agents st) (written st)).

(* @src src_jni/engine_code/server.cc:540-544 Server::get_object *)
Definition get_object (st : remote_server) (objid : Z) : result Obj :=
  match mfind (all_objects st) objid with
  | Some obj => Ok obj
  | None => Err NoSuchObject
  end.

(** [++last_obj_id] wraps to the smallest [int32_t]. *)
(* @src src_jni/engine_code/server.cc:83-89 Server::reserve_new_obj_id *)
Definition reserve_new_obj_id (st : remote_server) : remote_server * result Z :=
  let new_obj_id := i32 (last_obj_id st + 1) in
  (RemoteServer (all_objects st) new_obj_id (client_agents st) (next_client_agent_id st) (written st),
   if new_obj_id <? 0 then Err ObjIdOverflow else Ok new_obj_id).

(* @src src_jni/engine_code/server.cc:358-363 Server::add_create_object_header *)
Definition add_create_object_header (objid : Z) (obj : Obj) : pairs :=
  [("id", to_string MSG_CREATE_OBJECT); ("new_objid", to_string objid); ("factory", type_name obj)].

(* @src src_jni/engine_code/server.cc:365-368 Server::add_destroy_object_header *)
Definition add_destroy_object_header (objid : Z) : pairs :=
  [("id", to_string MSG_DELETE_OBJECT); ("objid", to_string objid)].

Definition create_object_message (objid : Z) (obj : Obj) : pairs :=
  add_create_object_header objid obj ++ serialize obj.

(** The broadcast comes before the object leaves the map. *)
(* @src src_jni/engine_code/server.cc:91-105 Server::delete_object *)
Definition delete_object (st : remote_server) (objid : Z) : remote_server * option exn :=
  match mfind (all_objects st) objid with
  | None => (st, None)
  | Some _ =>
      match build (add_destroy_object_header objid) with
      | Err e => (st, Some e)
      | Ok msg => (with_objects (distribute_message st msg) (merase (all_objects st) objid), None)
      end
  end.

(** The object is in the map before its callback runs: a callback that throws leaves it
    there, unannounced. *)
(* @src src_jni/engine_code/server.hh:48-61 Server::remember_object *)
Definition remember_object (st : remote_server) (objid : Z) (new_obj : Obj)
    (new_object_init_callback : Obj -> Obj * option exn) : remote_server * option exn :=
  let '(obj, thrown) := new_object_init_callback new_obj in
  let st := with_objects st (mset (all_objects st) objid obj) in
  match thrown with
  | Some e => (st, Some e)
  | None =>
      match build (create_object_message objid obj) with
      | Err e => (st, Some e)
      | Ok msg => (distribute_message st msg, None)
      end
  end.

(** [create] is [create_object_on_server]: [None] if the type has no factory. *)
(* @src src_jni/engine_code/server.hh:63-72 Server::create_object_from_factory *)
Definition create_object_from_factory (st : remote_server) (create : option (Z -> Obj))
    (new_object_init_callback : Obj -> Obj * option exn) : remote_server * option exn :=
  let '(st, new_id) := reserve_new_obj_id st in
  match new_id, create with
  | Err e, _ => (st, Some e)
  | Ok _, None => (st, Some NoSuchFactory)
  | Ok objid, Some create => remember_object st objid (create objid) new_object_init_callback
  end.

(** Every factory takes an identifier, only those of static single objects create one. *)
(* @src src_jni/remote_interface.cc:560-569 BaseObject::create_static_single_objects_on_server *)
Fixpoint create_static_single_objects_on_server (st : remote_server)
    (server_factories_by_name : list (string * option (Z -> Obj))) : remote_server * option exn :=
  match server_factories_by_name with
  | [] => (st, None)
  | (_, create_static_single_object) :: factories =>
      let '(st, new_id) := reserve_new_obj_id st in
      match new_id with
      | Err e => (st, Some e)
      | Ok objid =>
          match create_static_single_object with
          | None => create_static_single_objects_on_server st factories
          | Some create =>
              let '(st, thrown) := remember_object st objid (create objid) (fun obj => (obj, None)) in
              match thrown with
              | Some e => (st, Some e)
              | None => create_static_single_objects_on_server st factories
              end
          end
      end
  end.

(* @src src_jni/engine_code/server.cc:417-451 Server::create_service_objects *)
Definition create_service_objects (st : remote_server) (handle_list global_control sample_bank : option (Z -> Obj))
    (server_factories_by_name : list (string * option (Z -> Obj))) : remote_server * option exn :=
  let create st factory := create_object_from_factory st factory (fun obj => (obj, None)) in
  let '(st, thrown) := create st handle_list in
  match thrown with Some e => (st, Some e) | None =>
  let '(st, thrown) := create st global_control in
  match thrown with Some e => (st, Some e) | None =>
  let '(st, thrown) := create st sample_bank in
  match thrown with Some e => (st, Some e) | None =>
  create_static_single_objects_on_server st server_factories_by_name
  end end end.

(* @src src_jni/engine_code/server.cc:351-356 Server::drop_client *)
Definition drop_client (st : remote_server) (agent : Z) : remote_server :=
  RemoteServer (all_objects st) (last_obj_id st) (merase (client_agents st) agent)
    (next_client_agent_id st) (written st).

Definition deliver_to (st : remote_server) (agent : Z) (msg : pairs) : remote_server :=
  with_written st (deliver (written st) agent msg).

(* @src src_jni/engine_code/server.cc:370-375 Server::send_protocol_version_to_new_client *)
Definition protocol_version_message : pairs :=
  [("id", to_string MSG_PROTOCOL_VERSION); ("pversion", to_string VUKNOB_PROTOCOL_VERSION)].

(* @src src_jni/engine_code/server.cc:377-382 Server::send_client_id_to_new_client *)
Definition client_id_message (agent : Z) : pairs :=
  [("id", to_string MSG_CLIENT_ID); ("clid", to_string agent)].

(* @src src_jni/engine_code/server.cc:384-391 Server::send_all_objects_to_new_client *)
Definition send_all_objects_to_new_client (st : remote_server) (agent : Z) : result remote_server :=
  rfold (fun st obj => let! msg := build (create_object_message (fst obj) (snd obj)) in
                       Ok (deliver_to st agent msg)) st (all_objects st).

(* @src src_jni/engine_code/server.cc:268-293 Server::do_accept *)
Definition do_accept (st : remote_server) : result remote_server :=
  let new_id := next_client_agent_id st in
  let st := RemoteServer (all_objects st) (last_obj_id st) (mset (client_agents st) new_id tt)
              (i32 (next_client_agent_id st + 1)) (mset (written st) new_id []) in
  let! pversion := build protocol_version_message in
  let st := deliver_to st new_id pversion in
  let! clid := build (client_id_message new_id) in
  let st := deliver_to st new_id clid in
  send_all_objects_to_new_client st new_id.

Definition handler : Type := Z -> Obj -> view -> Obj * list (target * pairs) * option exn.

(** What a handler sent, in order. *)
Definition send_out (src : Z) (st : remote_server) (out : target * pairs) : remote_server :=
  match fst out with
  | Everyone => distribute_message st (snd out)
  | Sender => deliver_to st src (snd out)
  end.

(** [handle] is [process_message_server] of the object. *)
(* @src src_jni/engine_code/server.cc:393-409 Server::route_incomming_message *)
Definition route_incomming_message (handle : handler) (st : remote_server) (src : Z) (msg : view) : remote_server * option exn :=
  match get_int msg "id" with
  | Err e => (st, Some e)
  | Ok identifier =>
      if identifier =? MSG_DELETE_OBJECT then
        match get_int msg "objid" with
        | Err e => (st, Some e)
        | Ok identifier =>
            match mfind (all_objects st) identifier with
            | None => (st, Some NoSuchObject)
            | Some _ => delete_object st identifier
            end
        end
      else
        match mfind (all_objects st) identifier with
        | None => (st, Some NoSuchObject)
        | Some obj =>
            let '(obj, outs, thrown) := handle identifier obj msg in
            (fold_left (send_out src) outs (with_objects st (mset (all_objects st) identifier obj)), thrown)
        end
  end.

(* @src src_jni/engine_code/server.cc:453-462 Server::on_remove_object *)
Definition on_remove_object (st : remote_server) (objid : Z) : remote_server * option exn :=
  match mfind (all_objects st) objid with
  | None => (st, Some NoSuchObject)
  | Some _ => delete_object st objid
  end.

(* @src src_jni/engine_code/server.cc:53-67 Server::ClientAgent::on_message_received *)
Definition agent_on_message_received (handle : handler) (st : remote_server) (agent : Z) (msg : view) : remote_server * option exn :=
  match route_incomming_message handle st agent msg with
  | (st, Some (FailureResponse resp_msg)) =>
      if String.eqb resp_msg "" then (st, None)
      else match build [("id", to_string MSG_FAILURE_RESPONSE); ("response", resp_msg)] with
           | Err e => (st, Some e)
           | Ok response => (deliver_to st agent response, None)
           end
  | (st, thrown) => (st, thrown)
  end.

(** A message has arrived from [agent]. An exception drops the agent; the next header is
    read in either case, and the socket stays open. ([UndefinedBehaviour] is no exception:
    an object whose handler has it is outside the theorems.) *)
(* @src src_jni/remote_interface.cc:299-312 MessageHandler::do_read_body *)
Definition agent_read (handle : handler) (st : remote_server) (agent : Z) (msg : view) : remote_server :=
  match agent_on_message_received handle st agent msg with
  | (st, None) => st
  | (st, Some _) => drop_client st agent
  end.

(** What the server itself does to an object and tells its clients, from [io_service.post]. *)
(* @src src_jni/remote_interface.cc:453-480 BaseObject::send_object_message *)
Definition act_on_object (st : remote_server) (objid : Z) (action : Obj -> Obj * list pairs) : result remote_server :=
  match mfind (all_objects st) objid with
  | None => Err (JException "Tried to use deleted RemoteInterface object.")
  | Some obj =>
      let '(obj, msgs) := action obj in
      let! msgs := rfold (fun sent msg => let! m := build (("id", to_string objid) :: msg) in Ok (sent ++ [m])) [] msgs in
      Ok (fold_left distribute_message msgs (with_objects st (mset (all_objects st) objid obj)))
  end.

(** ** The client *)

(** A request that waits for its reply is its [reply_to] handler, by a number;
    [replied] is the handlers called so far, with the reply or with [NULL]. Handlers are taken
    to return; the only ones that throw are those of Scales.v on a malformed reply. *)
(* @src src_jni/engine_code/client.hh:34-41 Client *)
Record remote_client : Type := RemoteClient {
  cl_objects : smap Z Copy;
  cl_client_id : Z;
  next_reply_id : Z;
  msg_waiting_for_reply : smap Z Z;
  replied : list (Z * option view);
  failure_responses : list string;
  connected : bool
}.

Definition new_client : remote_client := RemoteClient [] (-1) 0 [] [] [] true.

Definition with_copies (c : remote_client) (objects : smap Z Copy) : remote_client :=
  RemoteClient objects (cl_client_id c) (next_reply_id c) (msg_waiting_for_reply c) (replied c)
    (failure_responses c) (connected c).

Definition with_waiting (c : remote_client) (waiting : smap Z Z) (calls : list (Z * option view))
  : remote_client :=
  RemoteClient (cl_objects c) (cl_client_id c) (next_reply_id c) waiting (replied c ++ calls)
    (failure_responses c) (connected c).

Definition failure_response_callback (c : remote_client) (text : string) : remote_client :=
  RemoteClient (cl_objects c) (cl_client_id c) (next_reply_id c) (msg_waiting_for_reply c) (replied c)
    (failure_responses c ++ [text]) (connected c).

Definition disconnect (c : remote_client) : remote_client :=
  RemoteClient (cl_objects c) (cl_client_id c) (next_reply_id c) (msg_waiting_for_reply c) (replied c)
    (failure_responses c) false.

(* @src src_jni/engine_code/client.cc:81-86 Client::flush_all_objects *)
Definition flush_all_objects (c : remote_client) : remote_client := with_copies c [].

(* @src src_jni/engine_code/client.cc:93-100 Client::link_object *)
Definition link_object (c : remote_client) (obj_id : Z) (new_obj : Copy) : result remote_client :=
  match mfind (cl_objects c) obj_id with
  | Some _ => Err DuplicateObjectId
  | None => if obj_id <? 0 then Err ObjIdOverflow
            else Ok (with_copies c (mset (cl_objects c) obj_id new_obj))
  end.

(** The constructor of [BaseObject] reads the identifier, then the type reads its own. *)
(* @src src_jni/remote_interface.cc:543-558 BaseObject::create_object_on_client *)
Definition create_object_on_client (msg : view) : result (Z * Copy) :=
  let! factory_type := msg "factory" in
  match create_and_register factory_type msg with
  | None => Err NoSuchFactory
  | Some created =>
      let! obj_id := get_int msg "new_objid" in
      let! o := created in
      Ok (obj_id, o)
  end.

(* @src src_jni/engine_code/client.cc:109-187 Client::on_message_received *)
Definition on_message_received (c : remote_client) (msg : view) : result remote_client :=
  let! identifier := get_int msg "id" in
  if identifier =? MSG_PROTOCOL_VERSION then
    let! protocol_version := get_int msg "pversion" in
    if VUKNOB_PROTOCOL_VERSION <? protocol_version
    then Ok (disconnect (failure_response_callback c
               "Server is to new - you must upgrade before you can connect."))
    else Ok c
  else if identifier =? MSG_CLIENT_ID then
    let! clid := get_int msg "clid" in
    Ok (RemoteClient (cl_objects c) clid (next_reply_id c) (msg_waiting_for_reply c) (replied c)
          (failure_responses c) (connected c))
  else if identifier =? MSG_CREATE_OBJECT then
    let! (obj_id, new_obj) := create_object_on_client msg in
    link_object c obj_id new_obj
  else if identifier =? MSG_FLUSH_ALL_OBJECTS then Ok (flush_all_objects c)
  else if identifier =? MSG_REPLY then
    let! reply_identifier := get_int msg "repid" in
    match mfind (msg_waiting_for_reply c) reply_identifier with
    | None => Ok c
    | Some request => Ok (with_waiting c (merase (msg_waiting_for_reply c) reply_identifier)
                            [(request, Some msg)])
    end
  else if identifier =? MSG_DELETE_OBJECT then
    let! objid := get_int msg "objid" in
    Ok (with_copies c (merase (cl_objects c) objid))
  else if identifier =? MSG_FAILURE_RESPONSE then
    let! response := msg "response" in
    Ok (failure_response_callback c response)
  else
    match mfind (cl_objects c) identifier with
    | None => Err NoSuchObject
    | Some obj =>
        let! obj := process_message_client obj msg in
        Ok (with_copies c (mset (cl_objects c) identifier obj))
    end.

(* @src src_jni/engine_code/client.cc:189-199 Client::on_connection_dropped *)
Definition on_connection_dropped (c : remote_client) : remote_client :=
  flush_all_objects
    (with_waiting c [] (map (fun waiting => (snd waiting, None)) (msg_waiting_for_reply c))).

(* @src src_jni/remote_interface.cc:289-317 MessageHandler::do_read_body *)
Definition client_read (c : remote_client) (msg : view) : remote_client :=
  match on_message_received c msg with
  | Ok c => c
  | Err _ => on_connection_dropped c
  end.

(** The message to send, if there is one; [request] is the handler if a reply is awaited. *)
(* @src src_jni/engine_code/client.cc:279-296 Client::distribute_message *)
Definition client_distribute_message (c : remote_client) (msg : pairs) (request : option Z)
  : remote_client * option pairs :=
  match request with
  | None => (c, Some msg)
  | Some request =>
      match mfind (msg_waiting_for_reply c) (next_reply_id c) with
      | Some _ => (with_waiting c (msg_waiting_for_reply c) [(request, None)], None)
      | None =>
          (RemoteClient (cl_objects c) (cl_client_id c) (i32 (next_reply_id c + 1))
             (mset (msg_waiting_for_reply c) (next_reply_id c) request) (replied c)
             (failure_responses c) (connected c),
           Some (msg ++ [("repid", to_string (next_reply_id c))]))
      end
  end.

(* @src src_jni/engine_code/client.cc:102-107 Client::on_remove_object *)
Definition client_on_remove_object (c : remote_client) (objid : Z) : remote_client * option pairs :=
  client_distribute_message c (add_destroy_object_header objid) None.

(* @src src_jni/engine_code/client.cc:298-302 Client::get_object *)
Definition client_get_object (c : remote_client) (objid : Z) : result Copy :=
  match mfind (cl_objects c) objid with
  | Some obj => Ok obj
  | None => Err NoSuchObject
  end.

(** A client that handles messages in the order they were written, none throwing. *)
Definition run_client (c : remote_client) (msgs : list pairs) : result remote_client :=
  rfold (fun c msg => on_message_received c (received msg)) c msgs.

(** ** Requests and their replies *)

Inductive client_event : Type :=
| Incoming (msg : view)
| Dropped
| Send (msg : pairs)
| Ask (msg : pairs) (request : Z).

Definition client_step (c : remote_client) (ev : client_event) : remote_client :=
  match ev with
  | Incoming msg => client_read c msg
  | Dropped => on_connection_dropped c
  | Send msg => fst (client_distribute_message c msg None)
  | Ask msg request => fst (client_distribute_message c msg (Some request))
  end.

Definition asked (evs : list client_event) : list Z :=
  flat_map (fun ev => match ev with Ask _ request => [request] | _ => [] end) evs.

Definition accounted (c : remote_client) (requests : list Z) : Prop :=
  smap_ok (msg_waiting_for_reply c) /\
  Permutation requests (map fst (replied c) ++ map snd (msg_waiting_for_reply c)).

Lemma dropped_accounted c requests : accounted c requests -> accounted (on_connection_dropped c) requests.
Proof.
  intros [Hok Hp]. split; [apply smap_ok_nil|]. cbn. rewrite app_nil_r, map_app, map_map. exact Hp.
Qed.

Lemma accounted_same c c' requests : msg_waiting_for_reply c' = msg_waiting_for_reply c ->
  replied c' = replied c -> accounted c requests -> accounted c' requests.
Proof. unfold accounted. by intros -> ->. Qed.

Lemma received_accounted c msg c' requests : accounted c requests ->
  on_message_received c msg = Ok c' -> accounted c' requests.
Proof.
  intros Ha Hr. pose proof Ha as [Hok Hp]. unfold on_message_received in Hr. inv_bind Hr.
  repeat case_if_in Hr;
    try (inv_bind Hr; repeat case_if_in Hr; injection Hr as <-; by apply (accounted_same c)).
  - inv_bind Hr. destruct x0 as [obj_id new_obj]. unfold link_object in Hr.
    destruct (mfind (cl_objects c) obj_id); [done|]. case_if_in Hr; [done|].
    injection Hr as <-. by apply (accounted_same c).
  - injection Hr as <-. by apply (accounted_same c).
  - inv_bind Hr. destruct (mfind (msg_waiting_for_reply c) x0) as [request|] eqn:Ew; injection Hr as <-; [|done].
    split; cbn; [by apply merase_ok|]. rewrite Hp, (merase_perm _ _ _ Hok Ew), map_app. cbn.
    by rewrite <- app_assoc.
  - destruct (mfind (cl_objects c) x) as [obj|]; [|done]. inv_bind Hr. injection Hr as <-.
    by apply (accounted_same c).
Qed.

Lemma step_accounted c requests ev : accounted c requests ->
  accounted (client_step c ev) (requests ++ asked [ev]).
Proof.
  intros Ha. destruct ev as [msg| |msg|msg request]; cbn [asked flat_map app]; rewrite ?app_nil_r;
    cbn [client_step].
  - unfold client_read. destruct (on_message_received c msg) eqn:E;
      [by eapply received_accounted|by apply dropped_accounted].
  - by apply dropped_accounted.
  - done.
  - destruct Ha as [Hok Hp]. unfold client_distribute_message.
    destruct (mfind (msg_waiting_for_reply c) (next_reply_id c)) eqn:E; (split; cbn; [by auto with vk|]).
    + rewrite map_app, Hp. cbn. rewrite <- !app_assoc. apply Permutation_app_head, Permutation_app_comm.
    + rewrite (mset_fresh_perm _ _ _ E), Hp, <- app_assoc.
      apply Permutation_app_head. symmetry. apply Permutation_cons_append.
Qed.

(** No request is forgotten or answered twice: whatever messages arrive (malformed ones and
    replies nobody waits for included) and whenever the connection drops, every request
    that asked for a reply is either still waiting or has had its handler called exactly
    once; after a drop none is waiting. *)
Theorem replies_accounted evs :
  let c := fold_left client_step evs new_client in
  Permutation (asked evs) (map fst (replied c) ++ map snd (msg_waiting_for_reply c)) /\
  msg_waiting_for_reply (client_step c Dropped) = [].
Proof.
  split; [|done]. cut (accounted (fold_left client_step evs new_client) (asked evs)); [by intros []|].
  induction evs as [|ev evs IH] using rev_ind; [split; [apply smap_ok_nil|done]|].
  rewrite fold_left_app. cbn [fold_left]. unfold asked. rewrite flat_map_app. by apply step_accounted.
Qed.
End contexts.

Arguments remote_server Obj : clear implicits.
Arguments remote_client Copy : clear implicits.
Arguments handler Obj : clear implicits.

(** ** Replication *)

(** What a handler sends arrives as it was sent: a broadcast at the copies of its object, a
    reply at the handler that waits for it. *)
Definition addressed (objid : Z) (out : target * pairs) : Prop :=
  deliverable (snd out) /\
  match fst out with
  | Everyone => get_int (received (snd out)) "id" = Ok objid
  | Sender => get_int (received (snd out)) "id" = Ok MSG_REPLY /\ is_ok (get_int (received (snd out)) "repid") = true
  end.

Definition broadcasts (outs : list (target * pairs)) : list pairs :=
  flat_map (fun out => match fst out with Everyone => [snd out] | Sender => [] end) outs.

(** What makes copies stay equal: an announced object is read back equal, and what its
    handler broadcasts for a request does to a copy what the request did to the object. *)
Class ReplicatedObject (Obj Copy : Type) `{RemoteObject Obj Copy} : Type := {
  obj_mirrors : Obj -> Copy -> Prop;
  announceable : Obj -> Prop;
  understood : Obj -> view -> Prop;
  type_name_nonempty obj : type_name obj <> "";
  announce_deliverable objid obj : announceable obj -> deliverable (create_object_message objid obj);
  announce_mirrors objid obj : announceable obj -> exists copy,
    create_and_register (type_name obj) (received (create_object_message objid obj)) = Some (Ok copy) /\
    obj_mirrors obj copy;
  request_mirrors objid obj msg obj' outs : 0 <= objid < 2^31 ->
    understood obj msg -> process_message_server objid obj msg = (obj', outs, None) ->
    Forall (addressed objid) outs /\
    forall copy, obj_mirrors obj copy -> exists copy',
      rfold (fun o m => process_message_client o (received m)) copy (broadcasts outs) = Ok copy' /\ obj_mirrors obj' copy'
}.

Section replication.
Context {Obj Copy : Type} `{ReplicatedObject Obj Copy}.
Implicit Types (st : remote_server Obj) (c : remote_client Copy).

Definition objects_mirror : smap Z Obj -> smap Z Copy -> Prop := smap_rel obj_mirrors.

(** What can happen on the server's thread. A handler that asks for more than the object and
    the message is the event [Perform], with the handler as it is then. *)
Inductive event : Type :=
| Accept
| Create (create : Z -> Obj) (new_object_init_callback : Obj -> Obj * option exn)
| Remove (objid : Z)
| Receive (agent : Z) (msg : view)
| Perform (handle : handler Obj) (agent : Z) (msg : view)
| Act (objid : Z) (action : Obj -> Obj * list pairs).

Definition server_step st (ev : event) : result (remote_server Obj) :=
  match ev with
  | Accept => do_accept st
  | Create create init => Ok (fst (create_object_from_factory st (Some create) init))
  | Remove objid => Ok (fst (on_remove_object st objid))
  | Receive agent msg => Ok (agent_read process_message_server st agent msg)
  | Perform handle agent msg => Ok (agent_read handle st agent msg)
  | Act objid action => act_on_object st objid action
  end.

(** What was done to the object reaches every copy. *)
Definition followed (objid : Z) (obj obj' : Obj) (outs : list (target * pairs)) : Prop :=
  Forall (addressed objid) outs /\
  forall copy, obj_mirrors obj copy -> exists copy',
    rfold (fun o m => process_message_client o (received m)) copy (broadcasts outs) = Ok copy' /\ obj_mirrors obj' copy'.

Definition told (objid : Z) (msgs : list pairs) : list (target * pairs) :=
  map (fun msg => (Everyone, ("id", to_string objid) :: msg)) msgs.

(** A request either is one the type replicates, or failed without an effect. *)
Definition request_replicable (handle : handler Obj) (understood : Obj -> view -> Prop) st (msg : view) : Prop :=
  (forall k e, msg k = Err e -> e = NoSuchKey k) /\
  forall objid obj, get_int msg "id" = Ok objid -> objid <> MSG_DELETE_OBJECT ->
    mfind (all_objects st) objid = Some obj ->
    let '(obj', outs, thrown) := handle objid obj msg in
    understood obj msg /\ thrown = None \/
    obj' = obj /\ outs = [] /\ forall text, thrown = Some (FailureResponse text) -> nul_free text = true.

(** The events copies can follow: an object is created or sent to a new client only when its
    serialisation is complete, and requests and actions are ones that reach the copies. *)
Definition replicable st (ev : event) : Prop :=
  match ev with
  | Accept => Forall (fun e => announceable (snd e)) (all_objects st)
  | Create create init =>
      let '(obj, thrown) := init (create (last_obj_id st + 1)) in
      last_obj_id st + 1 < 2^31 /\ thrown = None /\ announceable obj
  | Remove _ => True
  | Receive _ msg => request_replicable process_message_server understood st msg
  | Perform handle _ msg =>
      request_replicable handle (fun obj msg => forall objid obj' outs, get_int msg "id" = Ok objid ->
        handle objid obj msg = (obj', outs, None) -> followed objid obj obj' outs) st msg
  | Act objid action => forall obj, mfind (all_objects st) objid = Some obj ->
      followed objid obj (fst (action obj)) (told objid (snd (action obj)))
  end.

Record server_ok st : Prop := {
  ok_objects : smap_ok (all_objects st);
  ok_written : smap_ok (written st);
  ok_agents : smap_ok (client_agents st);
  ok_last : -1 <= last_obj_id st < 2^31;
  ok_ids : forall objid, is_Some (mfind (all_objects st) objid) -> 0 <= objid <= last_obj_id st;
  ok_next : in_i32 (next_client_agent_id st)
}.

(** A client that has handled what was written to it has copies that mirror the objects. *)
Definition in_sync st (agent : Z) : Prop :=
  Forall deliverable (messages_to (written st) agent) /\
  exists c, run_client new_client (messages_to (written st) agent) = Ok c /\
    objects_mirror (all_objects st) (cl_objects c).

Definition all_in_sync st : Prop := forall agent, is_Some (mfind (client_agents st) agent) -> in_sync st agent.

(** *** Building and delivering *)

Lemma build_deliverable msg : deliverable msg -> build msg = Ok msg.
Proof. intros [Hall _]. unfold build. by destruct (set_values_ok _ (new_message false 0 0) Hall) as [m ->]. Qed.

Lemma written_ok_deliver w k msg : smap_ok w -> smap_ok (deliver w k msg).
Proof. apply mset_ok. Qed.

Lemma messages_to_deliver w k msg k' : smap_ok w ->
  messages_to (deliver w k msg) k' = if k' =? k then messages_to w k ++ [msg] else messages_to w k'.
Proof.
  intros Hw. unfold messages_to at 1, deliver. rewrite mfind_mset by done.
  destruct (Z.eqb_spec k' k) as [->|Hn]; [by rewrite key_eqb_refl|by rewrite key_eqb_neq].
Qed.

Lemma fold_deliver msg (agents : smap Z unit) : forall w, smap_ok agents -> smap_ok w ->
  let w' := fold_left (fun w agent => deliver w (fst agent) msg) agents w in
  smap_ok w' /\ forall k, messages_to w' k =
    match mfind agents k with Some _ => messages_to w k ++ [msg] | None => messages_to w k end.
Proof.
  induction agents as [|[k0 []] agents IH]; intros w Ha Hw; [done|].
  cbn [fold_left fst]. apply smap_ok_cons in Ha as Ha'. destruct Ha' as [Hlt Ha'].
  destruct (IH (deliver w k0 msg)) as [Hok Hm]; [done|by apply written_ok_deliver|].
  split; [done|]. intros k. rewrite Hm, messages_to_deliver by done. cbn [mfind].
  destruct (Z.eqb_spec k k0) as [->|Hn].
  - rewrite key_eqb_refl. by rewrite mfind_lt_none.
  - by rewrite key_eqb_neq.
Qed.

Lemma distribute_ok st msg : server_ok st -> server_ok (distribute_message st msg).
Proof.
  intros [H1 H2 H3 H4 H5 H6]. split; try done. cbn. by apply fold_deliver.
Qed.

Lemma messages_distribute st msg k : server_ok st ->
  messages_to (written (distribute_message st msg)) k =
  match mfind (client_agents st) k with
  | Some _ => messages_to (written st) k ++ [msg] | None => messages_to (written st) k end.
Proof. intros [H1 H2 H3 H4 H5 H6]. cbn. by apply fold_deliver. Qed.

Lemma run_client_app c l1 l2 :
  run_client c (l1 ++ l2) = let! c := run_client c l1 in run_client c l2.
Proof. apply rfold_app. Qed.

(** A client that gets more messages and follows them to new objects. *)
Lemma in_sync_more st st' agent msgs :
  messages_to (written st') agent = messages_to (written st) agent ++ msgs ->
  Forall deliverable msgs -> in_sync st agent ->
  (forall c, objects_mirror (all_objects st) (cl_objects c) ->
     exists c', run_client c msgs = Ok c' /\ objects_mirror (all_objects st') (cl_objects c')) ->
  in_sync st' agent.
Proof.
  intros He Hd [Hall (c & Hrun & Hm)] Hf. unfold in_sync. rewrite He. split; [by apply Forall_app|].
  destruct (Hf c Hm) as (c' & Hrun' & Hm'). exists c'. rewrite run_client_app, Hrun. done.
Qed.

Lemma in_sync_same st st' agent :
  messages_to (written st') agent = messages_to (written st) agent ->
  all_objects st' = all_objects st -> in_sync st agent -> in_sync st' agent.
Proof. unfold in_sync. by intros -> ->. Qed.

(** *** What a client does with each message *)

Lemma received_number kvs k v : in_i32 v -> lookup_kv kvs k = Some (to_string v) ->
  get_int (received kvs) k = Ok v.
Proof. intros Hv Hk. unfold get_int, rmap, received. rewrite Hk. cbn. by rewrite stoi_wire. Qed.

Ltac known_id v := rewrite (received_number _ "id" v) by (unfold in_i32; cbn; lia || done); cbn [rbind].

Lemma client_creates c objid obj : announceable obj -> 0 <= objid < 2^31 ->
  mfind (cl_objects c) objid = None ->
  exists copy, obj_mirrors obj copy /\
    on_message_received c (received (create_object_message objid obj)) =
      Ok (with_copies c (mset (cl_objects c) objid copy)).
Proof.
  intros Ha Hid Hnone. destruct (announce_mirrors objid obj Ha) as (copy & Hc & Hm).
  exists copy. split; [done|]. unfold on_message_received. known_id MSG_CREATE_OBJECT.
  unfold create_object_on_client.
  replace (received (create_object_message objid obj) "factory") with (Ok (type_name obj)).
  2:{ unfold received, create_object_message, lookup_kv. cbn. unfold wire_value.
      by rewrite (proj2 (String.eqb_neq _ _)) by apply type_name_nonempty. }
  cbn [rbind]. rewrite Hc. rewrite (received_number _ "new_objid" objid) by (unfold in_i32; lia || done).
  cbn. unfold link_object. rewrite Hnone. by destruct (Z.ltb_spec objid 0); [lia|].
Qed.

Lemma destroy_deliverable objid : deliverable (add_destroy_object_header objid).
Proof.
  split; [|cbn; nodup_keys].
  repeat (apply List.Forall_cons; [by apply good_number; repeat split|]). constructor.
Qed.

Lemma client_destroys c objid : 0 <= objid < 2^31 ->
  on_message_received c (received (add_destroy_object_header objid)) =
    Ok (with_copies c (merase (cl_objects c) objid)).
Proof.
  intros Hid. unfold on_message_received. known_id MSG_DELETE_OBJECT.
  cbn -[get_int]. by rewrite (received_number _ "objid" objid) by (unfold in_i32; lia || done).
Qed.

Lemma client_routes c objid msg : 0 <= objid -> get_int msg "id" = Ok objid ->
  on_message_received c msg =
    match mfind (cl_objects c) objid with
    | None => Err NoSuchObject
    | Some copy => let! copy := process_message_client copy msg in
                   Ok (with_copies c (mset (cl_objects c) objid copy))
    end.
Proof.
  intros Hpos Hid. unfold on_message_received. rewrite Hid. cbn [rbind].
  repeat rewrite (proj2 (Z.eqb_neq objid _)) by (unfold MSG_PROTOCOL_VERSION, MSG_CLIENT_ID,
    MSG_CREATE_OBJECT, MSG_FLUSH_ALL_OBJECTS, MSG_REPLY, MSG_DELETE_OBJECT, MSG_FAILURE_RESPONSE; lia).
  done.
Qed.

(** What [src]'s request brings the client [agent]. *)
Definition inbox (src agent : Z) (outs : list (target * pairs)) : list pairs :=
  flat_map (fun out => match fst out with Everyone => [snd out] | Sender => if agent =? src then [snd out] else [] end) outs.

Lemma client_gets_reply c msg : get_int msg "id" = Ok MSG_REPLY -> is_ok (get_int msg "repid") = true ->
  exists c', on_message_received c msg = Ok c' /\ cl_objects c' = cl_objects c.
Proof.
  intros Hid Hr. unfold on_message_received. rewrite Hid. cbn [rbind].
  change (MSG_REPLY =? MSG_PROTOCOL_VERSION) with false. change (MSG_REPLY =? MSG_CLIENT_ID) with false.
  change (MSG_REPLY =? MSG_CREATE_OBJECT) with false. change (MSG_REPLY =? MSG_FLUSH_ALL_OBJECTS) with false.
  rewrite Z.eqb_refl. cbv iota. destruct (get_int msg "repid") as [r|]; [|done]. cbn [rbind].
  destruct (mfind (msg_waiting_for_reply c) r); by eexists.
Qed.

Lemma client_follows objid src agent outs : forall c copy copy', 0 <= objid ->
  smap_ok (cl_objects c) -> mfind (cl_objects c) objid = Some copy -> Forall (addressed objid) outs ->
  rfold (fun o m => process_message_client o (received m)) copy (broadcasts outs) = Ok copy' ->
  exists c', run_client c (inbox src agent outs) = Ok c' /\ cl_objects c' = mset (cl_objects c) objid copy'.
Proof.
  induction outs as [|[[] m] outs IH]; intros c copy copy' Hpos Hok Hfind Hall Hrun.
  - injection Hrun as <-. exists c. split; [done|]. by rewrite mset_same.
  - apply List.Forall_cons_iff in Hall as [[_ Hid] Hall]. cbn in Hrun. inv_bind Hrun.
    unfold run_client. cbn [inbox flat_map fst snd app rfold]. rewrite (client_routes c objid) by done. rewrite Hfind, Hx. cbn [rbind].
    destruct (IH (with_copies c (mset (cl_objects c) objid x)) x copy') as (c' & Hc' & Ho); try done.
    + by apply mset_ok.
    + cbn. rewrite mfind_mset by done. by rewrite key_eqb_refl.
    + exists c'. split; [exact Hc'|]. rewrite Ho. cbn. by apply mset_mset.
  - apply List.Forall_cons_iff in Hall as [[_ [Hid Hr]] Hall].
    change (inbox src agent ((Sender, m) :: outs)) with ((if agent =? src then [m] else []) ++ inbox src agent outs).
    destruct (agent =? src); [|by apply IH with copy].
    destruct (client_gets_reply c (received m) Hid Hr) as (c1 & Hc1 & Ho1).
    unfold run_client. cbn [app rfold]. rewrite Hc1. cbn [rbind].
    destruct (IH c1 copy copy') as (c' & Hc' & Ho); rewrite ?Ho1; try done.
    exists c'. split; [exact Hc'|]. by rewrite Ho, Ho1.
Qed.

Lemma failure_response_followed c text : wire_text text ->
  exists c', on_message_received c (received [("id", to_string MSG_FAILURE_RESPONSE); ("response", text)]) = Ok c' /\
    cl_objects c' = cl_objects c.
Proof.
  intros _. unfold on_message_received. known_id MSG_FAILURE_RESPONSE. cbn. by eexists.
Qed.

(** *** A new client *)

Definition creations (objects : smap Z Obj) : list pairs :=
  map (fun e => create_object_message (fst e) (snd e)) objects.

Lemma creations_deliverable l : Forall (fun e => announceable (snd e)) l -> Forall deliverable (creations l).
Proof. induction 1; constructor; [by apply announce_deliverable|done]. Qed.

Lemma send_all_objects_written agent l : forall st,
  Forall (fun e => announceable (snd e)) l -> smap_ok (written st) ->
  exists w, rfold (fun st obj => let! msg := build (create_object_message (fst obj) (snd obj)) in
                                 Ok (deliver_to st agent msg)) st l = Ok (with_written st w) /\
    smap_ok w /\ forall k, messages_to w k =
      if k =? agent then messages_to (written st) k ++ creations l else messages_to (written st) k.
Proof.
  induction l as [|[objid obj] l IH]; intros st Hall Hw.
  - exists (written st). split; [by destruct st|]. split; [done|]. intros k. rewrite app_nil_r. by case_if.
  - apply List.Forall_cons_iff in Hall as [Ha Hall]. cbn [rfold fst snd].
    rewrite build_deliverable by (by apply announce_deliverable). cbn [rbind].
    destruct (IH (deliver_to st agent (create_object_message objid obj))) as (w & -> & Hok & Hm);
      [done|by apply written_ok_deliver|].
    exists w. split; [done|]. split; [done|]. intros k. rewrite Hm. cbn [deliver_to written with_written].
    rewrite messages_to_deliver by done. destruct (Z.eqb_spec k agent) as [->|]; [|done].
    by rewrite <- app_assoc.
Qed.

Lemma client_creates_all l : forall l0 c, smap_ok (l0 ++ l) ->
  Forall (fun e => announceable (snd e)) l -> (forall objid obj, (objid, obj) ∈ l -> 0 <= objid < 2^31) ->
  objects_mirror l0 (cl_objects c) ->
  exists c', run_client c (creations l) = Ok c' /\ objects_mirror (l0 ++ l) (cl_objects c').
Proof.
  induction l as [|[objid obj] l IH]; intros l0 c Hok Hall Hid Hm.
  - exists c. split; [done|]. by rewrite app_nil_r.
  - apply List.Forall_cons_iff in Hall as [Ha Hall]. apply smap_ok_app in Hok as Hlt. destruct Hlt as [Hok0 Hlt].
    pose proof (smap_rel_keys _ _ _ Hm) as Hkeys.
    assert (Hbelow : forall k v, (k, v) ∈ cl_objects c -> key_lt k objid = true).
    { intros k v Hin. assert (is_Some (mfind l0 k)) as [o Ho].
      { apply mfind_in_keys; [done|]. rewrite <- Hkeys. apply list_elem_of_In, in_map_iff.
        exists (k, v). split; [done|by apply list_elem_of_In]. }
      apply mfind_elem in Ho; [|done]. apply (Hlt _ _ _ obj Ho). by left. }
    destruct (client_creates c objid obj Ha) as (copy & Hmir & Hrun).
    + apply (Hid objid obj). by left.
    + destruct (mfind (cl_objects c) objid) as [v|] eqn:E; [|done].
      apply mfind_elem in E; [|by eapply smap_rel_ok]. apply Hbelow in E. by rewrite key_lt_irrefl in E.
    + rewrite mset_append in Hrun by done. unfold creations, run_client. cbn [map rfold fst snd].
      rewrite Hrun. cbn [rbind].
      destruct (IH (l0 ++ [(objid, obj)]) (with_copies c (cl_objects c ++ [(objid, copy)]))) as (c' & Hc' & Hm').
      * by rewrite <- app_assoc.
      * done.
      * intros k o Hin. apply (Hid k o). by right.
      * apply Forall2_app; [done|]. by constructor.
      * exists c'. split; [exact Hc'|]. by rewrite <- app_assoc in Hm'.
Qed.

Lemma client_greeting agent : in_i32 agent -> exists c,
  run_client (new_client (Copy := Copy)) [protocol_version_message; client_id_message agent] = Ok c /\
  cl_objects c = [].
Proof.
  intros Hid. unfold run_client. cbn [rfold].
  replace (on_message_received new_client (received protocol_version_message)) with (Ok (new_client (Copy := Copy)))
    by (vm_compute; reflexivity).
  cbn [rbind]. unfold on_message_received at 1. known_id MSG_CLIENT_ID. cbn -[get_int].
  rewrite (received_number _ "clid" agent) by done. cbn. by eexists.
Qed.

Lemma greeting_deliverable agent : Forall deliverable [protocol_version_message; client_id_message agent].
Proof.
  repeat (apply List.Forall_cons; [split; [|cbn; nodup_keys];
    repeat (apply List.Forall_cons; [by apply good_number; repeat split|]); constructor|]). constructor.
Qed.

(** The invariant: the server's bookkeeping, and every listed client in sync. *)
Definition server_inv st : Prop := server_ok st /\ all_in_sync st.

Lemma accept_inv st st' : server_inv st -> Forall (fun e => announceable (snd e)) (all_objects st) ->
  do_accept st = Ok st' -> server_inv st'.
Proof.
  intros [[H1 H2 H3 H4 H5 H6] Hsync] Ha Hacc. unfold do_accept in Hacc.
  pose proof (greeting_deliverable (next_client_agent_id st)) as Hg.
  apply List.Forall_cons_iff in Hg as Hg'. destruct Hg' as [Hg1 Hg2]. apply List.Forall_cons_iff in Hg2 as [Hg2 _].
  rewrite !build_deliverable in Hacc by done. cbn [rbind] in Hacc.
  set (agent := next_client_agent_id st) in *.
  match type of Hacc with send_all_objects_to_new_client ?s _ = _ => set (st1 := s) in Hacc end.
  assert (Hw1 : smap_ok (written st1)) by (by repeat apply mset_ok).
  destruct (send_all_objects_written agent (all_objects st) st1 Ha Hw1) as (w & He & Hw & Hm).
  unfold send_all_objects_to_new_client in Hacc. change (all_objects st1) with (all_objects st) in Hacc.
  rewrite He in Hacc. injection Hacc as <-.
  assert (Hnew : messages_to w agent =
    [protocol_version_message; client_id_message agent] ++ creations (all_objects st)).
  { rewrite Hm, Z.eqb_refl. cbn [st1 deliver_to written with_written]. rewrite !messages_to_deliver by (by repeat apply mset_ok).
    rewrite Z.eqb_refl. unfold messages_to. rewrite mfind_mset by done. by rewrite key_eqb_refl. }
  assert (Hold : forall k, k <> agent -> messages_to w k = messages_to (written st) k).
  { intros k Hn. rewrite Hm, (proj2 (Z.eqb_neq _ _)) by done. cbn [st1 deliver_to written with_written].
    rewrite !messages_to_deliver by (by repeat apply mset_ok). rewrite (proj2 (Z.eqb_neq _ _)) by done.
    unfold messages_to. rewrite mfind_mset by done. by rewrite key_eqb_neq. }
  split; [split; cbn; try done; [by apply mset_ok|apply i32_range]|].
  intros k Hk. destruct (Z.eq_dec k agent) as [->|Hn].
  - unfold in_sync. cbn [written with_written]. rewrite Hnew. split.
    + apply Forall_app. split; [done|by apply creations_deliverable].
    + destruct (client_greeting agent H6) as (c0 & Hc0 & Ho). rewrite run_client_app, Hc0. cbn [rbind].
      destruct (client_creates_all (all_objects st) [] c0) as (c' & Hc' & Hm'); try done.
      * intros objid obj Hin. apply mfind_elem in Hin; [|done]. specialize (H5 objid). rewrite Hin in H5.
        specialize (H5 (ltac:(eauto))). lia.
      * rewrite Ho. constructor.
      * by exists c'.
  - apply (in_sync_same st); [by apply Hold|done|]. apply Hsync. cbn in Hk.
    rewrite mfind_mset in Hk by done. by rewrite key_eqb_neq in Hk.
Qed.

(** *** Broadcasts *)

Definition broadcast st (msgs : list pairs) : remote_server Obj := fold_left distribute_message msgs st.

Lemma broadcast_written msgs : forall st, server_ok st ->
  smap_ok (written (broadcast st msgs)) /\ forall k, messages_to (written (broadcast st msgs)) k =
    match mfind (client_agents st) k with
    | Some _ => messages_to (written st) k ++ msgs | None => messages_to (written st) k end.
Proof.
  induction msgs as [|m msgs IH]; intros st Hok.
  - split; [by destruct Hok|]. intros k. cbn. rewrite app_nil_r. by destruct (mfind _ k).
  - cbn. destruct (IH (distribute_message st m)) as [Hw Hm]; [by apply distribute_ok|].
    split; [done|]. intros k. unfold broadcast in Hm. rewrite Hm, messages_distribute by done. cbn.
    destruct (mfind (client_agents st) k); [|done]. by rewrite <- app_assoc.
Qed.

(** The step every broadcasting operation takes: new objects, and messages that make the
    copies follow. *)
Lemma broadcast_inv st st' msgs : server_inv st ->
  st' = RemoteServer (all_objects st') (last_obj_id st') (client_agents st) (next_client_agent_id st)
          (written (broadcast st msgs)) ->
  smap_ok (all_objects st') -> -1 <= last_obj_id st' < 2^31 ->
  (forall objid, is_Some (mfind (all_objects st') objid) -> 0 <= objid <= last_obj_id st') ->
  Forall deliverable msgs ->
  (forall c, objects_mirror (all_objects st) (cl_objects c) ->
     exists c', run_client c msgs = Ok c' /\ objects_mirror (all_objects st') (cl_objects c')) ->
  server_inv st'.
Proof.
  intros [Hok Hsync] He H1 H4 H5 Hd Hf. destruct (broadcast_written msgs st Hok) as [Hw Hm].
  pose proof Hok as [O1 O2 O3 O4 O5 O6]. split.
  - rewrite He. split; cbn; done.
  - intros k Hk. assert (Hk' : is_Some (mfind (client_agents st) k)) by (by rewrite He in Hk).
    apply (in_sync_more st st' k msgs); [|done|by apply Hsync|done].
    rewrite He. cbn [written]. rewrite Hm. destruct Hk' as [[] ->]. done.
Qed.

Lemma delete_inv st objid : server_inv st -> server_inv (fst (delete_object st objid)).
Proof.
  intros Hinv. pose proof Hinv as [[O1 O2 O3 O4 O5 O6] _]. unfold delete_object.
  destruct (mfind (all_objects st) objid) as [obj|] eqn:E; [|done].
  rewrite build_deliverable by apply destroy_deliverable. cbn [fst].
  apply (broadcast_inv st _ [add_destroy_object_header objid]); try done.
  - by apply merase_ok.
  - cbn. intros k. rewrite mfind_merase by done. case_if; [by intros [? ?]|apply O5].
  - constructor; [apply destroy_deliverable|constructor].
  - intros c Hm. unfold run_client. cbn [rfold].
    assert (0 <= objid <= last_obj_id st) by (apply O5; eauto).
    rewrite client_destroys by lia. cbn [rbind]. eexists. split; [done|]. by apply smap_rel_erase.
Qed.

(** An object that is created and announced. *)
Lemma created st create init : server_ok st -> replicable st (Create create init) ->
  let id := last_obj_id st + 1 in let obj := fst (init (create id)) in
  id < 2^31 /\ announceable obj /\ mfind (all_objects st) id = None /\
  create_object_from_factory st (Some create) init =
    (distribute_message (RemoteServer (mset (all_objects st) id obj) id (client_agents st) (next_client_agent_id st) (written st))
       (create_object_message id obj), None).
Proof.
  intros [O1 O2 O3 O4 O5 O6] Hrep. cbn in Hrep. cbv zeta.
  destruct (init (create (last_obj_id st + 1))) as [obj thrown] eqn:Ei. destruct Hrep as (Hid & -> & Ha).
  split; [done|]. split; [done|]. split.
  - destruct (mfind _ (last_obj_id st + 1)) eqn:E; [|done].
    assert (0 <= last_obj_id st + 1 <= last_obj_id st) by (apply O5; eauto). lia.
  - unfold create_object_from_factory, reserve_new_obj_id. rewrite i32_id by (unfold in_i32; lia).
    destruct (Z.ltb_spec (last_obj_id st + 1) 0); [lia|]. unfold remember_object. rewrite Ei.
    by rewrite build_deliverable by (by apply announce_deliverable).
Qed.

Lemma create_inv st create init : server_inv st -> replicable st (Create create init) ->
  server_inv (fst (create_object_from_factory st (Some create) init)).
Proof.
  intros Hinv Hrep. pose proof Hinv as [[O1 O2 O3 O4 O5 O6] _].
  destruct (created st create init) as (Hid & Ha & Hnew & ->); [by destruct Hinv|done|]. cbn [fst].
  set (obj := fst _) in *. apply (broadcast_inv st _ [create_object_message (last_obj_id st + 1) obj]); try done.
  - by apply mset_ok.
  - cbn. lia.
  - cbn. intros k. rewrite mfind_mset by done. destruct (key_eqb k _) eqn:E.
    + apply key_eqb_spec in E as ->. lia.
    + intros Hk%O5. lia.
  - constructor; [by apply announce_deliverable|constructor].
  - intros c Hm. pose proof (smap_rel_find _ _ _ (last_obj_id st + 1) Hm) as Hc. rewrite Hnew in Hc.
    destruct (client_creates c (last_obj_id st + 1) obj Ha) as (copy & Hmir & Hrun); [lia|done|].
    unfold run_client. cbn [rfold]. rewrite Hrun. cbn [rbind]. eexists. split; [done|]. by apply smap_rel_set.
Qed.

Lemma drop_inv st agent : server_inv st -> server_inv (drop_client st agent).
Proof.
  intros [[O1 O2 O3 O4 O5 O6] Hsync]. split; [split; cbn; try done; by apply merase_ok|].
  intros k Hk. cbn in Hk. rewrite mfind_merase in Hk by done. destruct (key_eqb k agent); [by destruct Hk|].
  by apply (in_sync_same st), Hsync.
Qed.

Lemma deliver_response_inv st agent text : server_inv st -> wire_text text ->
  server_inv (deliver_to st agent [("id", to_string MSG_FAILURE_RESPONSE); ("response", text)]).
Proof.
  intros [[O1 O2 O3 O4 O5 O6] Hsync] Ht. split; [split; cbn; try done; by apply written_ok_deliver|].
  intros k Hk. destruct (Z.eq_dec k agent) as [->|Hn].
  - eapply in_sync_more; [|idtac|by apply Hsync|].
    + cbn [deliver_to written with_written]. rewrite messages_to_deliver by done. by rewrite Z.eqb_refl.
    + constructor; [|constructor]. split; [|cbn; nodup_keys].
      constructor; [by apply good_number; repeat split|]. constructor; [|constructor]. by split; [repeat split|].
    + intros c Hm. destruct (failure_response_followed c text Ht) as (c' & Hc' & Ho).
      unfold run_client. cbn [rfold]. rewrite Hc'. exists c'. split; [done|]. by rewrite Ho.
  - apply (in_sync_same st); [|done|by apply Hsync].
    cbn [deliver_to written with_written]. rewrite messages_to_deliver by done.
    by rewrite (proj2 (Z.eqb_neq _ _)).
Qed.

(** What a handler sends, and who gets it. *)
Lemma sent_fields src outs : forall st, fold_left (send_out src) outs st = with_written st (written (fold_left (send_out src) outs st)).
Proof. induction outs as [|[[] m] outs IH]; intros st; [by destruct st| |]; cbn [fold_left]; by rewrite IH at 1. Qed.

Lemma sent_written src outs : forall st, server_ok st ->
  smap_ok (written (fold_left (send_out src) outs st)) /\ forall k, is_Some (mfind (client_agents st) k) ->
    messages_to (written (fold_left (send_out src) outs st)) k = messages_to (written st) k ++ inbox src k outs.
Proof.
  induction outs as [|[to m] outs IH]; intros st Hok.
  - split; [by destruct Hok|]. intros k _. by rewrite app_nil_r.
  - assert (Hok1 : server_ok (send_out src st (to, m))).
    { destruct to; [by apply distribute_ok|]. destruct Hok as [O1 O2 O3 O4 O5 O6]. split; cbn; try done. by apply written_ok_deliver. }
    destruct (IH _ Hok1) as [Hw Hm]. split; [exact Hw|]. intros k Hk.
    change (inbox src k ((to, m) :: outs)) with ((match to with Everyone => [m] | Sender => if k =? src then [m] else [] end) ++ inbox src k outs).
    cbn [fold_left]. rewrite Hm by (by destruct to). destruct to; unfold send_out; cbn [fst snd].
    + rewrite messages_distribute by done. destruct Hk as [u ->]. by rewrite <- app_assoc.
    + destruct Hok as [O1 O2 O3 O4 O5 O6]. cbn [deliver_to written with_written]. rewrite messages_to_deliver by done.
      destruct (Z.eqb_spec k src) as [->|]; [by rewrite <- app_assoc|done].
Qed.

Lemma known_id st objid : server_ok st -> is_Some (mfind (all_objects st) objid) -> 0 <= objid < 2^31.
Proof. intros [O1 O2 O3 O4 O5 O6] Ho. assert (0 <= objid <= last_obj_id st) by (by apply O5). lia. Qed.

Lemma request_inv st objid obj obj' outs : server_inv st -> mfind (all_objects st) objid = Some obj ->
  followed objid obj obj' outs -> forall src,
  server_inv (fold_left (send_out src) outs (with_objects st (mset (all_objects st) objid obj'))).
Proof.
  intros [Hok Hsync] Hfind [Hall Hcopy] src. pose proof Hok as [O1 O2 O3 O4 O5 O6].
  assert (Hid : 0 <= objid < 2^31) by (apply (known_id st); [done|by rewrite Hfind]).
  set (st1 := with_objects st (mset (all_objects st) objid obj')).
  assert (Hok1 : server_ok st1).
  { split; cbn; try done; [by apply mset_ok|]. intros k. rewrite mfind_mset by done. destruct (key_eqb k objid) eqn:E; [|apply O5].
    apply key_eqb_spec in E as ->. intros _. apply O5. eauto. }
  destruct (sent_written src outs st1 Hok1) as [Hw Hm]. rewrite sent_fields. destruct Hok1 as [P1 P2 P3 P4 P5 P6].
  split; [by split|]. intros k Hk.
  apply (in_sync_more st _ k (inbox src k outs)); [by apply Hm| |by apply Hsync|].
  - apply List.Forall_forall. intros m Hin. apply in_flat_map in Hin as (out & Hout & Hin).
    apply (proj1 (List.Forall_forall _ _) Hall) in Hout as [Hd _].
    destruct (fst out); [|destruct (k =? src); [|done]]; by destruct Hin as [<-|[]].
  - intros c Hmir. pose proof (smap_rel_find _ _ _ objid Hmir) as Hc. rewrite Hfind in Hc.
    destruct Hc as (copy & Hc & Hmc). destruct (Hcopy copy Hmc) as (copy' & Hrun & Hmc').
    destruct (client_follows objid src k outs c copy copy') as (c' & Hc' & Ho); try done; [lia|by eapply smap_rel_ok|].
    exists c'. split; [done|]. rewrite Ho. by apply smap_rel_set.
Qed.

Lemma with_objects_same st objid obj : server_ok st -> mfind (all_objects st) objid = Some obj ->
  with_objects st (mset (all_objects st) objid obj) = st.
Proof. intros [O1 _ _ _ _ _] Hf. rewrite mset_same by done. by destruct st. Qed.

Lemma get_int_error msg k e : (forall k e, msg k = Err e -> e = NoSuchKey k) ->
  get_int msg k = Err e -> e = NoSuchKey k.
Proof. unfold get_int, rmap. intros Hv. destruct (msg k) eqn:E; cbn; [done|]. intros [= ->]. by apply Hv. Qed.

Lemma delete_thrown st objid : snd (delete_object st objid) = None.
Proof.
  unfold delete_object. destruct (mfind _ objid); [|done].
  by rewrite build_deliverable by apply destroy_deliverable.
Qed.

(** What routing a message leaves, and what it throws. *)
Lemma route_inv handle und st src msg : server_inv st -> request_replicable handle und st msg ->
  (forall objid obj obj' outs, 0 <= objid < 2^31 -> get_int msg "id" = Ok objid -> und obj msg -> handle objid obj msg = (obj', outs, None) -> followed objid obj obj' outs) ->
  let '(st', thrown) := route_incomming_message handle st src msg in
  server_inv st' /\ forall text, thrown = Some (FailureResponse text) -> nul_free text = true.
Proof.
  intros Hinv [Hview Hrep] Hfol. unfold route_incomming_message.
  destruct (get_int msg "id") as [objid|e] eqn:Eid.
  2:{ apply get_int_error in Eid as ->; [|done]. done. }
  destruct (Z.eqb_spec objid MSG_DELETE_OBJECT) as [->|Hn].
  - destruct (get_int msg "objid") as [i|e] eqn:Ei.
    + destruct (mfind (all_objects st) i); [|done].
      pose proof (delete_inv st i Hinv). pose proof (delete_thrown st i).
      destruct (delete_object st i) as [st' thrown]. cbn in *. subst thrown. done.
    + apply get_int_error in Ei as ->; [|done]. done.
  - destruct (mfind (all_objects st) objid) as [obj|] eqn:E; [|done].
    specialize (Hrep objid obj eq_refl Hn E).
    destruct (handle objid obj msg) as [[obj' outs] thrown] eqn:Ep.
    destruct Hrep as [[Hu ->]|(-> & -> & Ht)].
    + split; [|done]. apply (request_inv st objid obj); [done|done|]. apply Hfol; [|done|done|done].
      apply (known_id st); [by destruct Hinv|by rewrite E].
    + cbn [fold_left]. rewrite with_objects_same; [done|by destruct Hinv|done].
Qed.

Lemma build_inv kvs m : build kvs = Ok m -> m = kvs /\ Forall legal kvs.
Proof. unfold build. intros Hb. inv_bind Hb. injection Hb as <-. split; [done|by eapply set_values_legal]. Qed.

(** The agent after the message was routed. *)
Lemma read_inv handle und st agent msg : server_inv st -> request_replicable handle und st msg ->
  (forall objid obj obj' outs, 0 <= objid < 2^31 -> get_int msg "id" = Ok objid -> und obj msg -> handle objid obj msg = (obj', outs, None) -> followed objid obj obj' outs) ->
  server_inv (agent_read handle st agent msg).
Proof.
  intros Hinv Hrep Hfol. unfold agent_read, agent_on_message_received.
  pose proof (route_inv handle und st agent msg Hinv Hrep Hfol) as Hr.
  destruct (route_incomming_message handle st agent msg) as [st1 [e|]]; [|by destruct Hr].
  destruct Hr as [Hr Ht]. destruct e; try (by apply drop_inv). specialize (Ht response eq_refl).
  destruct (String.eqb response ""); [done|].
  destruct (build _) as [m|e] eqn:Eb; [|by apply drop_inv].
  apply build_inv in Eb as [-> Hall]. apply List.Forall_cons_iff in Hall as [_ Hall].
  apply List.Forall_cons_iff in Hall as [Hl _]. apply deliver_response_inv; [done|].
  split; [done|]. by destruct Hl as (_ & ? & ?).
Qed.

(** Actions send what they say, to everyone. *)
Lemma built_messages objid msgs : Forall (addressed objid) (told objid msgs) -> forall sent,
  rfold (fun sent msg => let! m := build (("id", to_string objid) :: msg) in Ok (sent ++ [m])) sent msgs = Ok (sent ++ map snd (told objid msgs)).
Proof.
  induction msgs as [|m msgs IH]; intros Hall sent; [by rewrite app_nil_r|].
  apply List.Forall_cons_iff in Hall as [[Hd _] Hall]. cbn [rfold]. cbn [snd] in Hd. rewrite build_deliverable by done. cbn [rbind].
  rewrite IH by done. by rewrite <- app_assoc.
Qed.

Lemma sent_to_all src objid msgs : forall st,
  fold_left distribute_message (map snd (told objid msgs)) st = fold_left (send_out src) (told objid msgs) st.
Proof. induction msgs as [|m msgs IH]; intros st; [done|]. cbn. apply IH. Qed.

Lemma act_inv st objid action st' : server_inv st -> replicable st (Act objid action) -> act_on_object st objid action = Ok st' -> server_inv st'.
Proof.
  intros Hinv Hrep. unfold act_on_object. destruct (mfind (all_objects st) objid) as [obj|] eqn:E; [|done].
  pose proof (Hrep obj E) as Hf. destruct (action obj) as [obj' msgs]. cbn [fst snd] in Hf.
  rewrite built_messages by apply Hf. cbn [rbind app]. intros [= <-]. rewrite (sent_to_all 0). by apply (request_inv st objid obj).
Qed.

Lemma step_inv st ev st' : server_inv st -> replicable st ev -> server_step st ev = Ok st' -> server_inv st'.
Proof.
  intros Hinv Hrep Hstep. destruct ev as [|create init|objid|agent msg|handle agent msg|objid action]; cbn [server_step] in Hstep.
  - by eapply accept_inv.
  - injection Hstep as <-. by apply create_inv.
  - injection Hstep as <-. unfold on_remove_object. destruct (mfind _ objid); [by apply delete_inv|done].
  - injection Hstep as <-. apply (read_inv _ understood); [done|exact Hrep|].
    intros objid obj obj' outs Hid _ Hu Hp. by apply (request_mirrors objid obj msg).
  - injection Hstep as <-. eapply read_inv; [done|exact Hrep|]. intros objid obj obj' outs _ Hid Hu. by apply Hu.
  - by apply (act_inv st objid action).
Qed.

(** Runs of the server in which every event is one the copies can follow. *)
Inductive server_run : remote_server Obj -> Prop :=
| run_start : server_run new_server
| run_step st ev st' : server_run st -> replicable st ev -> server_step st ev = Ok st' -> server_run st'.

Lemma run_inv st : server_run st -> server_inv st.
Proof.
  induction 1 as [|st ev st' _ IH Hrep Hstep]; [|by eapply step_inv].
  split; [split; cbn; try (apply smap_ok_nil || done || lia || by intros ? [? ?])|by intros k [? ?]].
Qed.

Lemma in_sync_run st agent : server_run st -> is_Some (mfind (client_agents st) agent) ->
  Forall deliverable (messages_to (written st) agent) /\
  exists c, run_client new_client (messages_to (written st) agent) = Ok c /\ objects_mirror (all_objects st) (cl_objects c).
Proof. intros Hrun Hk. destruct (run_inv st Hrun) as [_ Hsync]. exact (Hsync agent Hk). Qed.


(** An identifier is used once: an object that is created gets the successor of the
    last identifier, which no object has had, and creation fails with [ObjIdOverflow]
    (leaving the objects alone) exactly when the 32-bit counter would wrap. *)
Theorem object_ids_fresh st create init : server_run st ->
  let '(st', thrown) := create_object_from_factory st (Some create) init in
  if last_obj_id st =? 2^31 - 1 then thrown = Some ObjIdOverflow /\ all_objects st' = all_objects st
  else last_obj_id st' = last_obj_id st + 1 /\ mfind (all_objects st) (last_obj_id st') = None /\
       mfind (all_objects st') (last_obj_id st') = Some (fst (init (create (last_obj_id st')))).
Proof.
  intros Hrun. destruct (run_inv st Hrun) as [[O1 O2 O3 O4 O5 O6] _].
  unfold create_object_from_factory, reserve_new_obj_id.
  destruct (Z.eqb_spec (last_obj_id st) (2^31 - 1)) as [->|Hn]; [done|].
  rewrite i32_id by (unfold in_i32; lia). destruct (Z.ltb_spec (last_obj_id st + 1) 0); [lia|].
  assert (Hnone : mfind (all_objects st) (last_obj_id st + 1) = None).
  { destruct (mfind _ (last_obj_id st + 1)) eqn:E; [|done].
    assert (0 <= last_obj_id st + 1 <= last_obj_id st) by (apply O5; eauto). lia. }
  unfold remember_object. destruct (init _) as [obj [e|]] eqn:Ei; cbn;
    [|destruct (build _) as [m|e]]; cbn; (split; [done|]; split; [done|]);
    rewrite mfind_mset by done; by rewrite key_eqb_refl, Ei.
Qed.

(** A client the server has dropped goes on: a message whose handling throws (one for an
    object that is gone, say) removes its agent from [client_agents] but leaves the
    connection open. No later broadcast reaches it, and its next request is handled like
    anyone's: the object changes, and only the others are told. *)
Theorem dropped_agent_still_served st agent bad gone req objid obj obj' msg :
  server_run st -> get_int bad "id" = Ok gone -> gone <> MSG_DELETE_OBJECT ->
  mfind (all_objects st) gone = None -> get_int req "id" = Ok objid -> objid <> MSG_DELETE_OBJECT ->
  mfind (all_objects st) objid = Some obj ->
  process_message_server objid obj req = (obj', [(Everyone, msg)], None) ->
  let st1 := agent_read process_message_server st agent bad in
  let st2 := agent_read process_message_server st1 agent req in
  all_objects st1 = all_objects st /\ mfind (client_agents st1) agent = None /\
  mfind (all_objects st2) objid = Some obj' /\
  messages_to (written st2) agent = messages_to (written st) agent /\
  forall other, other <> agent -> is_Some (mfind (client_agents st) other) ->
    messages_to (written st2) other = messages_to (written st) other ++ [msg].
Proof.
  intros Hrun Hbad Hn1 Hgone Hreq Hn2 Hobj Hp st1 st2. destruct (run_inv st Hrun) as [Hok Hsync].
  assert (Hst1 : st1 = drop_client st agent).
  { unfold st1, agent_read, agent_on_message_received, route_incomming_message. rewrite Hbad.
    rewrite (proj2 (Z.eqb_neq _ _)) by done. by rewrite Hgone. }
  assert (Hst2 : st2 = distribute_message (with_objects st1 (mset (all_objects st1) objid obj')) msg).
  { unfold st2, agent_read, agent_on_message_received, route_incomming_message. rewrite Hreq.
    rewrite (proj2 (Z.eqb_neq _ _)) by done. rewrite Hst1. cbn [all_objects drop_client]. by rewrite Hobj, Hp. }
  pose proof Hok as [O1 O2 O3 O4 O5 O6].
  assert (Hok1 : server_ok st1) by (rewrite Hst1; split; cbn; try done; by apply merase_ok).
  assert (Hagents : forall k, mfind (client_agents st1) k = if key_eqb k agent then None else mfind (client_agents st) k)
    by (intros k; rewrite Hst1; cbn; by rewrite mfind_merase).
  assert (Hm : forall k, messages_to (written st2) k = match mfind (client_agents st1) k with
    | Some _ => messages_to (written st1) k ++ [msg] | None => messages_to (written st1) k end).
  { intros k. rewrite Hst2. destruct Hok1 as [P1 P2 P3 P4 P5 P6]. cbn. by apply fold_deliver. }
  split; [by rewrite Hst1|]. split; [by rewrite Hagents, key_eqb_refl|].
  split; [rewrite Hst2, Hst1; cbn; rewrite mfind_mset by done; by rewrite key_eqb_refl|].
  split; [rewrite Hm, Hagents, key_eqb_refl; by rewrite Hst1|].
  intros k Hk [u Hu]. rewrite Hm, Hagents, key_eqb_neq, Hu by done. by rewrite Hst1.
Qed.
(** *** What events do to the objects *)

Lemma sent_objects src outs st : all_objects (fold_left (send_out src) outs st) = all_objects st.
Proof. by rewrite sent_fields. Qed.

Lemma broadcast_objects msgs : forall st, all_objects (fold_left distribute_message msgs st) = all_objects st.
Proof. induction msgs as [|m msgs IH]; intros st; [done|]. cbn. by rewrite IH. Qed.

Lemma accept_objects st st' : do_accept st = Ok st' -> all_objects st' = all_objects st.
Proof.
  unfold do_accept, send_all_objects_to_new_client. intros Ha. inv_bind Ha. inv_bind Ha. cbn [all_objects deliver_to with_written] in Ha.
  set (st0 := deliver_to _ _ _) in Ha. change (all_objects st) with (all_objects st0). revert Ha. generalize (all_objects st) as l, st0 as s.
  clear. induction l as [|e l IH]; intros s; cbn [rfold]; [by intros [= <-]|]. intros Ha. inv_bind Ha. inv_bind Hx. injection Hx as <-.
  by apply IH in Ha.
Qed.

Lemma delete_objects st objid : all_objects (fst (delete_object st objid)) = merase (all_objects st) objid.
Proof.
  unfold delete_object. destruct (mfind (all_objects st) objid) eqn:E; [|symmetry; by apply merase_absent].
  by rewrite build_deliverable by apply destroy_deliverable.
Qed.

Lemma act_objects st objid action st' : act_on_object st objid action = Ok st' -> exists obj,
  mfind (all_objects st) objid = Some obj /\ all_objects st' = mset (all_objects st) objid (fst (action obj)).
Proof.
  unfold act_on_object. destruct (mfind (all_objects st) objid) as [obj|] eqn:E; [|done]. intros Ha.
  exists obj. split; [done|]. destruct (action obj) as [obj' msgs]. inv_bind Ha. injection Ha as <-. apply broadcast_objects.
Qed.

(** A request finds its object, or deletes one. *)
Lemma read_objects handle st agent msg : let st' := agent_read handle st agent msg in
  all_objects st' = all_objects st \/
  (exists objid, get_int msg "id" = Ok MSG_DELETE_OBJECT /\ get_int msg "objid" = Ok objid /\
     all_objects st' = merase (all_objects st) objid) \/
  exists objid obj, mfind (all_objects st) objid = Some obj /\
    all_objects st' = mset (all_objects st) objid (fst (fst (handle objid obj msg))).
Proof.
  cbv zeta. assert (all_objects (agent_read handle st agent msg) = all_objects (fst (route_incomming_message handle st agent msg))) as ->.
  { unfold agent_read, agent_on_message_received. destruct (route_incomming_message handle st agent msg) as [st1 [e|]]; [|done].
    destruct e; try done. cbn [fst]. destruct (String.eqb _ _); [done|]. by destruct (build _). }
  unfold route_incomming_message. destruct (get_int msg "id") as [objid|]; [|by left]. destruct (Z.eqb_spec objid MSG_DELETE_OBJECT) as [->|_].
  - destruct (get_int msg "objid") as [i|]; [|by left]. destruct (mfind (all_objects st) i); [|by left].
    right. left. exists i. split; [done|]. split; [done|]. apply delete_objects.
  - destruct (mfind (all_objects st) objid) as [obj|] eqn:E; [|by left]. right. right. exists objid, obj. split; [done|].
    destruct (handle objid obj msg) as [[obj' outs] thrown]. apply sent_objects.
Qed.
End replication.
