(* ===== verification/SequenceObject.v ===== *)
(** * A [Sequence] as an object of the remote interface

    [Sequence] (of [Sequence.v]) implements the interface the contexts of
    [RemoteContext.v] need, and obeys its replication laws: so the theorems of the contexts
    hold for a server and clients whose objects are sequences. *)

From Stdlib Require Import ZArith Lia Ascii String List Sorted Permutation.
From stdpp Require Import base list strings numbers option.
From S2P Require Import Prelude CxxString StdMap Common Serialize Message Sequence RemoteContext.
Local Open Scope string_scope.
Local Open Scope list_scope.
Local Open Scope Z_scope.
Local Open Scope vk_scope.

(* @src src_jni/engine_code/sequence.hh:132-132 Sequence::FACTORY_NAME *)
Definition FACTORY_NAME : string := "Sequence".

(** The handlers of a sequence send at most one message, to everyone. *)
Definition outcome (r : reply) : list (target * pairs) * option exn :=
  match r with
  | Ok None => ([], None)
  | Ok (Some kvs) => ([(Everyone, kvs)], None)
  | Err e => ([], Some e)
  end.

(* @src src_jni/engine_code/sequence.cc:805-814 Sequence::SequenceFactory::create *)
Definition create_sequence_copy (factory_type : string) (msg : view) : option (result sequence) :=
  if String.eqb factory_type FACTORY_NAME then Some (new_client_sequence msg) else None.

#[export] Instance sequence_object : RemoteObject server sequence := {
  type_name _ := FACTORY_NAME;
  serialize st := Sequence.serialize (seq st);
  process_message_server objid st msg :=
    let '(st', r) := Sequence.process_message_server objid st msg in
    let '(outs, thrown) := outcome r in (st', outs, thrown);
  create_and_register := create_sequence_copy;
  process_message_client := Sequence.process_message_client
}.

(** A serialisation is complete when there are no instances (see [late_client_sequence]). *)
Definition sequence_announceable (st : server) : Prop :=
  serialisable (seq st) /\ instance_list (seq st) = [].

Definition sequence_understood (st : server) (msg : view) : Prop :=
  clean_name msg /\ id_allocator_in_range (pattern_id_allocator st) /\ msg "commandid" <> Ok "req_del_note".

Lemma send_message_id obj_id c values kvs : in_i32 obj_id -> send_message obj_id c values = Ok kvs ->
  get_int (received kvs) "id" = Ok obj_id.
Proof.
  intros Hid H. apply send_message_inv in H as [-> _].
  unfold get_int, rmap, received. cbn. by rewrite stoi_wire.
Qed.

#[export] Program Instance sequence_replicated : ReplicatedObject server sequence := {
  obj_mirrors st c := mirrors (seq st) c;
  announceable := sequence_announceable;
  understood := sequence_understood
}.
Next Obligation. discriminate. Qed.
Next Obligation.
  intros objid st [Hs _]. destruct (serialized_sequence_read (seq st) [] Hs eq_refl) as [Hall _].
  split; [|cbn; nodup_keys].
  do 3 (apply List.Forall_cons; [first [by apply good_number; repeat split|by repeat split]|]). exact Hall.
Qed.
Next Obligation.
  intros objid st [Hs Hi]. exists (Sequence (patterns (seq st)) [] (sequence_name (seq st))). split; [|by split].
  cbn [create_and_register type_name sequence_object]. unfold create_sequence_copy.
  rewrite String.eqb_refl. f_equal.
  by apply (serialized_sequence_read (seq st) (add_create_object_header objid st)).
Qed.
Next Obligation.
  intros objid st msg st' outs Hid (Hname & Hids & Hcmd) Hp. cbn in Hp.
  destruct (Sequence.process_message_server objid st msg) as [st1 [[kvs|]|e]] eqn:E; try discriminate Hp; injection Hp as <- <-.
  - split.
    + constructor; [|constructor]. split.
      * by eapply (request_followed objid st st1 (seq st) msg (Some kvs)); try done; split.
      * apply broadcast_header in E as (c & values & ->). unfold get_int, rmap, received. cbn.
        rewrite stoi_wire; [done|]. unfold in_i32. lia.
    + intros c Hm. destruct (request_followed objid st st1 c msg (Some kvs)) as (_ & c' & Hc' & Hm'); try done.
      exists c'. cbn. by rewrite Hc'.
  - split; [constructor|]. intros c Hm. exists c. split; [done|].
    by apply (request_followed objid st st1 c msg None).
Qed.

(** ** The theorems of the contexts, for sequences *)

(** The constructor, and the callback of [create_sequence_for_machine]. *)
(* @src src_jni/engine_code/sequence.cc:816-825 Sequence::SequenceFactory::create *)
Definition create_sequence (new_obj_id : Z) : server := Server new_server_sequence (IDAllocator [] 0).

(* @src src_jni/engine_code/sequence.cc:280-298 Sequence::create_sequence_for_machine *)
Definition name_sequence (sibling_name : string) (st : server) : server * option exn :=
  (Server (Sequence (patterns (seq st)) (instance_list (seq st)) sibling_name) (pattern_id_allocator st), None).

(** A client, a sequence, a second client; the first adds a pattern, the second asks for an
    object that does not exist. *)
Definition ex_create : event (Obj := server) := Create create_sequence (name_sequence "synth").

Definition ex_add_pattern : view :=
  received [("id", "0"); ("commandid", "req_add_ptrn"); ("name", "drums")].

Definition ex_gone : view := received [("id", "7")].

Definition ex_events : list (event (Obj := server)) :=
  [Accept; ex_create; Accept; Receive 0 ex_add_pattern; Receive 1 ex_gone].

Definition ex_state (n : nat) : remote_server server :=
  match rfold (server_step (Copy := sequence)) new_server (take n ex_events) with
  | Ok st => st
  | Err _ => new_server
  end.

Lemma received_view kvs k e : received kvs k = Err e -> e = NoSuchKey k.
Proof. unfold received. destruct (lookup_kv kvs k); [done|]. by intros [= ->]. Qed.

Lemma new_sequence_announceable name : text_ok name ->
  sequence_announceable (fst (name_sequence name (create_sequence 0))).
Proof.
  intros Hn. split; [|done]. split; [done|]. split; [constructor|].
  intros k p Hin. by apply elem_of_nil in Hin.
Qed.

Lemma ex_run n : (n <= 5)%nat -> server_run (Copy := sequence) (ex_state n).
Proof.
  assert (Ha : sequence_announceable (fst (name_sequence "synth" (create_sequence 0))))
    by (apply new_sequence_announceable; by split).
  assert (H0 : server_run (Copy := sequence) (ex_state 0)) by constructor.
  assert (H1 : server_run (Copy := sequence) (ex_state 1)).
  { apply (run_step _ Accept (ex_state 1) H0); [|vm_compute; reflexivity]. constructor. }
  assert (H2 : server_run (Copy := sequence) (ex_state 2)).
  { apply (run_step _ ex_create (ex_state 2) H1); [|vm_compute; reflexivity].
    split; [vm_compute; reflexivity|]. split; [done|exact Ha]. }
  assert (H3 : server_run (Copy := sequence) (ex_state 3)).
  { apply (run_step _ Accept (ex_state 3) H2); [|vm_compute; reflexivity].
    constructor; [exact Ha|constructor]. }
  assert (H4 : server_run (Copy := sequence) (ex_state 4)).
  { apply (run_step _ (Receive 0 ex_add_pattern) (ex_state 4) H3); [|vm_compute; reflexivity].
    split; [apply received_view|]. intros objid obj [= <-] _ [= <-].
    destruct (process_message_server _ _ _) as [[obj' outs] thrown] eqn:E.
    left. split; [|vm_compute in E; by injection E].
    split; [intros m [= <-]; by split|]. split; [split; vm_compute; congruence|discriminate]. }
  assert (H5 : server_run (Copy := sequence) (ex_state 5)).
  { apply (run_step _ (Receive 1 ex_gone) (ex_state 5) H4); [|vm_compute; reflexivity].
    split; [apply received_view|]. intros objid obj [= <-] _ H. vm_compute in H. discriminate H. }
  intros Hn. destruct n as [|[|[|[|[|[|n]]]]]]; done.
Qed.


Lemma object_ids_fresh_witness :
  server_run (Copy := sequence) (ex_state 5) /\
  last_obj_id (fst (create_object_from_factory (ex_state 5) (Some create_sequence) (name_sequence "bass"))) = 1.
Proof.
  split; [apply ex_run; lia|].
  pose proof (object_ids_fresh (ex_state 5) create_sequence (name_sequence "bass") (ex_run 5 (ltac:(lia)))) as H.
  destruct (create_object_from_factory _ _ _) as [st' thrown].
  change (last_obj_id (ex_state 5) =? 2^31 - 1) with false in H. apply H.
Defined.

Lemma dropped_agent_still_served_witness :
  let st2 := agent_read process_message_server (agent_read process_message_server (ex_state 4) 1 ex_gone) 1 ex_add_pattern in
  (exists obj, mfind (all_objects st2) 0 = Some obj /\ List.length (patterns (seq obj)) = 2%nat) /\
  messages_to (written st2) 1 = messages_to (written (ex_state 4)) 1 /\
  List.length (messages_to (written st2) 0) = 5%nat.
Proof.
  intros st2.
  destruct (mfind (all_objects (ex_state 4)) 0) as [obj|] eqn:E; [|vm_compute in E; discriminate E].
  destruct (process_message_server 0 obj ex_add_pattern) as [[obj' outs] thrown] eqn:Ep.
  vm_compute in E. injection E as <-. vm_compute in Ep. injection Ep as <- <- <-.
  edestruct (dropped_agent_still_served (Copy := sequence) (ex_state 4) 1 ex_gone 7 ex_add_pattern 0)
    as (_ & _ & Ho & Ha & Hothers);
    [apply ex_run; lia|reflexivity|discriminate|vm_compute; reflexivity|reflexivity|discriminate
    |vm_compute; reflexivity|vm_compute; reflexivity|].
  split; [eexists; split; [exact Ho|reflexivity]|]. split; [exact Ha|].
  unfold st2. rewrite (Hothers 0); [vm_compute; reflexivity|discriminate|vm_compute; by eexists].
Defined.
