(* ===== verification/Arpeggiator.v ===== *)
(** * The arpeggiator of the pads ([Pad::Arpeggiator] of engine_code/pad.cc)

    The keys that are held, sorted and reference counted in an array of fingers; the
    built-in patterns; and [process_pattern], the state machine that steps through a pattern
    once per tick and queues note-on and note-off events. *)

From Stdlib Require Import ZArith Lia List Sorted Permutation.
From stdpp Require Import base list numbers option.
From S2P Require Import Prelude CxxString StdMap.
Local Open Scope list_scope.
Local Open Scope Z_scope.
Local Open Scope vk_scope.

(** A call of a [queue_*] member of [MidiEventBuilder], on channel 0. *)
Inductive meb_call : Type :=
| NoteOn (note velocity : Z)
| NoteOff (note velocity : Z)
| Controller (controller value : Z)
| PitchBend (value_lsb value_msb : Z).

Definition MACHINE_TICKS_PER_LINE : Z := 16.
Definition MAX_ARP_FINGERS : Z := 5.
Definition MAX_ARP_PATTERN_LENGTH : Z := 16.
Definition MAX_BUILTIN_ARP_PATTERNS : Z := 7.

(** [ArpeggioDirection] is cast from an [int] when a project is loaded: any value may occur. *)
(* @src src_jni/engine_code/pad.hh:48-53 PadConfiguration::ArpeggioDirection *)
Definition arp_off : Z := 0.
Definition arp_forward : Z := 1.
Definition arp_reverse : Z := 2.
Definition arp_pingpong : Z := 3.

(** ** Patterns *)

(* @src src_jni/engine_code/pad.hh:102-112 Arpeggiator::Note *)
Record arp_note : Type := ArpNote { on_length : Z; off_length : Z; octave_offset : Z; slide : bool }.

(* @src src_jni/engine_code/pad.hh:114-117 Arpeggiator::Pattern *)
Record arp_pattern : Type := ArpPattern { pattern_length : Z; notes : list arp_note }.

(** What [memset] leaves. *)
Definition zero_pattern : arp_pattern :=
  ArpPattern 0 (repeat (ArpNote 0 0 0 false) (Z.to_nat MAX_ARP_PATTERN_LENGTH)).

(* @src src_jni/engine_code/pad.hh:120-125 Arpeggiator::Pattern::append *)
Definition append (p : arp_pattern) (nn : arp_note) : result arp_pattern :=
  if MAX_ARP_PATTERN_LENGTH <=? pattern_length p then Ok p
  else let! notes := store (notes p) (pattern_length p) nn in
       Ok (ArpPattern (pattern_length p + 1) notes).

(** The [append] calls, with the pattern each is for. *)
(* @src src_jni/engine_code/pad.cc:49-128 Arpeggiator::Pattern::initiate_built_in *)
Definition built_in_notes : list (Z * arp_note) :=
  let half := Z.shiftr MACHINE_TICKS_PER_LINE 1 in
  let quarter := Z.shiftr MACHINE_TICKS_PER_LINE 2 in
  let eighth := Z.shiftr MACHINE_TICKS_PER_LINE 3 in
  [ (0, ArpNote (MACHINE_TICKS_PER_LINE - half) half 0 false);
    (1, ArpNote (half - quarter) quarter 0 false);
    (2, ArpNote (MACHINE_TICKS_PER_LINE - half) half 0 false);
    (2, ArpNote (MACHINE_TICKS_PER_LINE - half) half 1 false);
    (3, ArpNote (MACHINE_TICKS_PER_LINE - half) half 0 false);
    (3, ArpNote (MACHINE_TICKS_PER_LINE - half) half 1 false);
    (3, ArpNote (MACHINE_TICKS_PER_LINE - half) half (-1) false);
    (4, ArpNote (MACHINE_TICKS_PER_LINE - half) half 0 false);
    (4, ArpNote (MACHINE_TICKS_PER_LINE - half + 1) (half - 1) 0 false);
    (5, ArpNote (MACHINE_TICKS_PER_LINE - half) half 0 false);
    (5, ArpNote (MACHINE_TICKS_PER_LINE - half + 1) (half - 1) 1 false);
    (5, ArpNote (MACHINE_TICKS_PER_LINE - half) half 0 false);
    (5, ArpNote (MACHINE_TICKS_PER_LINE - half + 1) (half - 1) 1 false);
    (6, ArpNote (quarter - eighth) eighth 0 false) ].

Definition initiate_built_in : result (list arp_pattern) :=
  rfold (fun built_in call =>
           let! p := load built_in (fst call) in
           let! p := append p (snd call) in
           store built_in (fst call) p)
        (repeat zero_pattern (Z.to_nat MAX_BUILTIN_ARP_PATTERNS)) built_in_notes.

Definition built_in : list arp_pattern :=
  match initiate_built_in with Ok patterns => patterns | Err _ => [] end.

(** ** The state *)

(* @src src_jni/engine_code/pad.hh:143-146 Arpeggiator::ArpFinger *)
Record arp_finger : Type := ArpFinger { key : Z; finger_velocity : Z; counter : Z }.

(* @src src_jni/engine_code/pad.hh:132-149 Arpeggiator *)
Record arpeggiator : Type := Arpeggiator {
  phase : Z;
  ticks_left : Z;
  note : Z;
  velocity : Z;
  current_finger : Z;
  pattern_index : Z;
  pingpong_direction_forward : bool;
  arp_direction : Z;
  current_pattern : option arp_pattern;
  finger_count : Z;
  finger : list arp_finger
}.

(** The constructor; the keys and velocities of the fingers are indeterminate. *)
(* @src src_jni/engine_code/pad.cc:136-148 Arpeggiator::Arpeggiator *)
Definition new_arpeggiator (indeterminate : list (Z * Z)) : arpeggiator :=
  Arpeggiator 0 0 0 0 0 0 true arp_pingpong (built_in !! 0%nat) 0
    (map (fun kv => ArpFinger (fst kv) (snd kv) 0) indeterminate).

(* @src src_jni/engine_code/pad.cc:150-159 Arpeggiator::reset *)
Definition reset (a : arpeggiator) : arpeggiator :=
  Arpeggiator 0 0 (-1) (velocity a) 0 0 (pingpong_direction_forward a) (arp_direction a)
    (current_pattern a) 0 (repeat (ArpFinger (-1) 0 0) (Z.to_nat MAX_ARP_FINGERS)).

Definition with_fingers (a : arpeggiator) (count : Z) (fs : list arp_finger) : arpeggiator :=
  Arpeggiator (phase a) (ticks_left a) (note a) (velocity a) (current_finger a) (pattern_index a)
    (pingpong_direction_forward a) (arp_direction a) (current_pattern a) count fs.

Definition with_current_finger (a : arpeggiator) (cf : Z) (forward : bool) : arpeggiator :=
  Arpeggiator (phase a) (ticks_left a) (note a) (velocity a) cf (pattern_index a)
    forward (arp_direction a) (current_pattern a) (finger_count a) (finger a).

Definition with_note (a : arpeggiator) (n v : Z) : arpeggiator :=
  Arpeggiator (phase a) (ticks_left a) n v (current_finger a) (pattern_index a)
    (pingpong_direction_forward a) (arp_direction a) (current_pattern a) (finger_count a) (finger a).

Definition with_phase (a : arpeggiator) (ph ticks index : Z) : arpeggiator :=
  Arpeggiator ph ticks (note a) (velocity a) (current_finger a) index
    (pingpong_direction_forward a) (arp_direction a) (current_pattern a) (finger_count a) (finger a).

(** [set_pattern]: an identifier past the built-in patterns is out of bounds. *)
(* @src src_jni/engine_code/pad.cc:337-344 Arpeggiator::set_pattern *)
Definition set_pattern (a : arpeggiator) (id : Z) : result arpeggiator :=
  let set p := Arpeggiator (phase a) (ticks_left a) (note a) (velocity a) (current_finger a)
    (pattern_index a) (pingpong_direction_forward a) (arp_direction a) p (finger_count a) (finger a) in
  if id <? 0 then Ok (set None) else let! p := load built_in id in Ok (set (Some p)).

(* @src src_jni/engine_code/pad.cc:346-348 Arpeggiator::set_direction *)
Definition set_direction (a : arpeggiator) (dir : Z) : arpeggiator :=
  Arpeggiator (phase a) (ticks_left a) (note a) (velocity a) (current_finger a) (pattern_index a)
    (pingpong_direction_forward a) dir (current_pattern a) (finger_count a) (finger a).

(** ** The keys *)

(** [swap_keys(finger[l], finger[k])] *)
(* @src src_jni/engine_code/pad.cc:161-165 Arpeggiator::swap_keys *)
Definition swap_keys (fs : list arp_finger) (l k : Z) : result (list arp_finger) :=
  let! temp := load fs k in
  let! fl := load fs l in
  let! fs := store fs k fl in
  store fs l temp.

(** The inner loop, [n] rounds from [l] on. *)
(* @src src_jni/engine_code/pad.cc:173-177 Arpeggiator::sort_keys *)
Fixpoint sort_inner (n : nat) (k l : Z) (fs : list arp_finger) : result (list arp_finger) :=
  match n with
  | O => Ok fs
  | S n =>
      let! fl := load fs l in
      let! fk := load fs k in
      let! fs := if key fl <? key fk then swap_keys fs l k else Ok fs in
      sort_inner n k (l + 1) fs
  end.

(** The outer loop, [n] rounds from [k] on. *)
Fixpoint sort_outer (n : nat) (count k : Z) (fs : list arp_finger) : result (list arp_finger) :=
  match n with
  | O => Ok fs
  | S n =>
      let! fs := sort_inner (Z.to_nat (count - (k + 1))) k (k + 1) fs in
      sort_outer n count (k + 1) fs
  end.

(* @src src_jni/engine_code/pad.cc:167-179 Arpeggiator::sort_keys *)
Definition sort_keys (a : arpeggiator) : result arpeggiator :=
  if finger_count a <? 2 then Ok a
  else let! fs := sort_outer (Z.to_nat (finger_count a - 1)) (finger_count a) 0 (finger a) in
       Ok (with_fingers a (finger_count a) fs).

(** The search for a key: [n] rounds from [k] on. *)
(* @src src_jni/engine_code/pad.cc:182-183 Arpeggiator::enable_key *)
Fixpoint find_key (n : nat) (k : Z) (fs : list arp_finger) (wanted : Z) : result (option Z) :=
  match n with
  | O => Ok None
  | S n => let! f := load fs k in
           if key f =? wanted then Ok (Some k) else find_key n (k + 1) fs wanted
  end.

(* @src src_jni/engine_code/pad.cc:181-201 Arpeggiator::enable_key *)
Definition enable_key (a : arpeggiator) (new_key new_velocity : Z) : result (arpeggiator * Z) :=
  let! found := find_key (Z.to_nat (finger_count a)) 0 (finger a) new_key in
  match found with
  | Some k =>
      let! f := load (finger a) k in
      let! fs := store (finger a) k (ArpFinger (key f) new_velocity (i32 (counter f + 1))) in
      Ok (with_fingers a (finger_count a) fs, new_key)
  | None =>
      if finger_count a <? MAX_ARP_FINGERS then
        let! fs := store (finger a) (finger_count a) (ArpFinger new_key new_velocity 1) in
        let! a := sort_keys (with_fingers a (finger_count a + 1) fs) in
        Ok (a, new_key)
      else Ok (a, -1)
  end.

(* @src src_jni/engine_code/pad.cc:212-214 Arpeggiator::disable_key *)
Fixpoint shift_down (n : nat) (l : Z) (fs : list arp_finger) : result (list arp_finger) :=
  match n with
  | O => Ok fs
  | S n => let! f := load fs (l + 1) in
           let! fs := store fs l f in
           shift_down n (l + 1) fs
  end.

(* @src src_jni/engine_code/pad.cc:215-217 Arpeggiator::disable_key *)
Fixpoint clear_keys (n : nat) (l : Z) (fs : list arp_finger) : result (list arp_finger) :=
  match n with
  | O => Ok fs
  | S n => let! f := load fs l in
           let! fs := store fs l (ArpFinger (-1) (finger_velocity f) (counter f)) in
           clear_keys n (l + 1) fs
  end.

(* @src src_jni/engine_code/pad.cc:203-229 Arpeggiator::disable_key *)
Definition disable_key (a : arpeggiator) (old_key : Z) : result arpeggiator :=
  let! found := find_key (Z.to_nat (finger_count a)) 0 (finger a) old_key in
  let! a :=
    match found with
    | None => Ok a
    | Some k =>
        let! f := load (finger a) k in
        let c := i32 (counter f - 1) in
        let! fs := store (finger a) k (ArpFinger (key f) (finger_velocity f) c) in
        if c =? 0 then
          let count := finger_count a - 1 in
          let! fs := shift_down (Z.to_nat (count - k)) k fs in
          let! fs := clear_keys (Z.to_nat (MAX_ARP_FINGERS - Z.max k count)) (Z.max k count) fs in
          Ok (with_fingers a count fs)
        else Ok (with_fingers a (finger_count a) fs)
    end in
  let! a := sort_keys a in
  Ok (if finger_count a =? 0 then with_current_finger a 0 (pingpong_direction_forward a) else a).

(** ** Playing *)

(** The finger that plays next, with the direction of [arp_pingpong]. *)
(* @src src_jni/engine_code/pad.cc:254-285 Arpeggiator::process_pattern *)
Definition next_finger (a : arpeggiator) : Z * bool :=
  let cf := current_finger a in
  let n := finger_count a in
  let forward := pingpong_direction_forward a in
  if arp_direction a =? arp_off then (cf, forward)
  else if arp_direction a =? arp_reverse then
    (if cf - 1 <? 0 then (if 0 <? n then n - 1 else 0) else cf - 1, forward)
  else if arp_direction a =? arp_pingpong then
    if forward then
      if n <=? cf + 1 then (c_rem (cf - 1) n, false) else (c_rem (cf + 1) n, forward)
    else
      if cf - 1 <? 0 then (c_rem (cf + 1) n, true) else (c_rem (cf - 1) n, forward)
  else (c_rem (cf + 1) n, forward).

(** [case 0] *)
(* @src src_jni/engine_code/pad.cc:248-303 Arpeggiator::process_pattern *)
Definition go_to_on (mute : bool) (a : arpeggiator) (p : arp_pattern) : result (arpeggiator * list meb_call) :=
  let old_note := note a in
  let! (a, on) :=
    if 0 <? finger_count a then
      let '(cf, forward) := next_finger a in
      let! f := load (finger a) (c_rem cf (finger_count a)) in
      let! pn := load (notes p) (pattern_index a) in
      let n := Z.land (key f + octave_offset pn * 12) 0x7f in
      let a := with_note (with_current_finger a cf forward) n (finger_velocity f) in
      Ok (a, if mute then [] else [NoteOn n (velocity a)])
    else Ok (with_note a (-1) (velocity a), []) in
  let off := if old_note =? -1 then [] else [NoteOff old_note (velocity a)] in
  let! pn := load (notes p) (pattern_index a) in
  Ok (with_phase a 1 (on_length pn - 1) (pattern_index a), on ++ off).

(** The [switch] on the phase. *)
(* @src src_jni/engine_code/pad.cc:250-334 Arpeggiator::process_pattern *)
Definition step_phase (mute : bool) (a : arpeggiator) (p : arp_pattern) : result (arpeggiator * list meb_call) :=
  if phase a =? 0 then go_to_on mute a p
  else if phase a =? 1 then
    let ticks := ticks_left a - 1 in
    Ok (with_phase a (if ticks <=? 0 then 2 else 1) ticks (pattern_index a), [])
  else if phase a =? 2 then
    let! pn := load (notes p) (pattern_index a) in
    let stop := negb (note a =? -1) && negb (slide pn) in
    Ok (with_phase (if stop then with_note a (-1) (velocity a) else a) 3 (off_length pn - 1)
          (pattern_index a),
        if stop then [NoteOff (note a) (velocity a)] else [])
  else if phase a =? 3 then
    let ticks := ticks_left a - 1 in
    if ticks <=? 0 then Ok (with_phase a 0 ticks (pattern_index a + 1), [])
    else Ok (with_phase a 3 ticks (pattern_index a), [])
  else Ok (a, []).

(* @src src_jni/engine_code/pad.cc:231-335 Arpeggiator::process_pattern *)
Definition process_pattern (mute : bool) (a : arpeggiator) : result (arpeggiator * list meb_call) :=
  match current_pattern a with
  | None => Ok (a, [])
  | Some p =>
      if (pattern_length p <=? 0) || (arp_direction a =? arp_off) then Ok (a, []) else
      let silence := mute || ((finger_count a =? 0) && negb (note a =? -1)) in
      let out := if silence then [NoteOff (note a) (velocity a)] else [] in
      let a := if silence then with_note a (-1) (velocity a) else a in
      let a := if pattern_length p <=? pattern_index a then with_phase a 0 (ticks_left a) 0 else a in
      let! (a, more) := step_phase mute a p in
      Ok (a, out ++ more)
  end.

Example built_in_lengths : map pattern_length built_in = [1; 1; 2; 3; 2; 4; 1].
Proof. vm_compute. reflexivity. Qed.

(** ** Sorting *)

(** One pass of the inner loop, on lists: the smallest comes first. *)
Fixpoint min_first (x : arp_finger) (l : list arp_finger) : arp_finger * list arp_finger :=
  match l with
  | [] => (x, [])
  | y :: l => if key y <? key x then let '(m, l') := min_first y l in (m, x :: l')
              else let '(m, l') := min_first x l in (m, y :: l')
  end.

Fixpoint exchange_sort (n : nat) (l : list arp_finger) : list arp_finger :=
  match n, l with
  | S n, x :: l => let '(m, l') := min_first x l in m :: exchange_sort n l'
  | _, _ => l
  end.

Lemma min_first_spec l : forall x, let '(m, l') := min_first x l in
  Permutation (m :: l') (x :: l) /\ Forall (fun y => key m <= key y) l' /\ length l' = length l.
Proof.
  induction l as [|y l IH]; intros x; [done|]. cbn [min_first].
  destruct (Z.ltb_spec (key y) (key x)).
  - specialize (IH y). destruct (min_first y l) as [m l']. destruct IH as (Hp & Hall & Hlen).
    assert (Hm : key m <= key y).
    { assert (In y (m :: l')) as [->|Hin] by (apply (Permutation_in y (Permutation_sym Hp)); by left); [lia|].
      rewrite List.Forall_forall in Hall. by apply Hall. }
    split; [transitivity (x :: m :: l'); [apply perm_swap|by apply perm_skip]|]. split; [constructor; [lia|done]|cbn; by rewrite Hlen].
  - specialize (IH x). destruct (min_first x l) as [m l']. destruct IH as (Hp & Hall & Hlen).
    assert (Hm : key m <= key x).
    { assert (In x (m :: l')) as [->|Hin] by (apply (Permutation_in x (Permutation_sym Hp)); by left); [lia|].
      rewrite List.Forall_forall in Hall. by apply Hall. }
    split; [transitivity (y :: m :: l'); [apply perm_swap|]; rewrite Hp; apply perm_swap|]. split; [constructor; [lia|done]|cbn; by rewrite Hlen].
Qed.

Lemma exchange_sort_spec n : forall l, (length l <= S n)%nat ->
  Permutation (exchange_sort n l) l /\ sorted_by key (exchange_sort n l).
Proof.
  induction n as [|n IH]; intros l Hl.
  - destruct l as [|x [|y l]]; [| |cbn in Hl; lia]; split; try done; repeat constructor.
  - destruct l as [|x l]; [split; [done|constructor]|]. cbn [exchange_sort].
    pose proof (min_first_spec l x) as Hm. destruct (min_first x l) as [m l']. destruct Hm as (Hp & Hall & Hlen).
    destruct (IH l') as [Hp' Hs]; [cbn in Hl; lia|]. split; [by rewrite Hp'|].
    apply sorted_by_cons. split; [|done]. apply List.Forall_forall. intros y Hy.
    rewrite List.Forall_forall in Hall. apply Hall. by apply (Permutation_in y Hp').
Qed.

Lemma exchange_sort_length n l : (length l <= S n)%nat -> length (exchange_sort n l) = length l.
Proof. intros Hl. apply Permutation_length. by apply exchange_sort_spec. Qed.

Lemma sort_inner_min rest : forall pre x mid tail,
  sort_inner (length rest) (Z.of_nat (length pre)) (Z.of_nat (length pre) + 1 + Z.of_nat (length mid))
    (pre ++ x :: mid ++ rest ++ tail) =
  let '(m, rest') := min_first x rest in Ok (pre ++ m :: mid ++ rest' ++ tail).
Proof.
  induction rest as [|y rest IH]; intros pre x mid tail; [done|]. cbn [length sort_inner min_first].
  assert (Hl : forall z, pre ++ z :: mid ++ (y :: rest) ++ tail = (pre ++ z :: mid) ++ y :: rest ++ tail)
    by (intros z; by rewrite <- app_assoc).
  assert (Hi : Z.of_nat (length pre) + 1 + Z.of_nat (length mid) = Z.of_nat (length (pre ++ x :: mid)))
    by (rewrite length_app; cbn; lia).
  rewrite Hl at 1. rewrite Hi at 1. rewrite load_app_cons by done. cbn [rbind].
  rewrite (load_app_cons pre x) by done. cbn [rbind].
  assert (Hnext : forall z w, sort_inner (length rest) (Z.of_nat (length pre))
      (Z.of_nat (length pre) + 1 + Z.of_nat (length mid) + 1) (pre ++ z :: mid ++ (w :: rest) ++ tail) =
      let '(m, rest') := min_first z rest in Ok (pre ++ m :: mid ++ (w :: rest') ++ tail)).
  { intros z w. specialize (IH pre z (mid ++ [w]) tail). rewrite length_app in IH. cbn [length] in IH.
    replace (Z.of_nat (length pre) + 1 + Z.of_nat (length mid) + 1)
      with (Z.of_nat (length pre) + 1 + Z.of_nat (length mid + 1)) by lia.
    rewrite <- app_assoc in IH. cbn [app] in IH. cbn [app]. rewrite IH.
    destruct (min_first z rest) as [m rest']. by rewrite <- app_assoc. }
  destruct (Z.ltb_spec (key y) (key x)).
  - unfold swap_keys. rewrite (load_app_cons pre x) by done. cbn [rbind].
    rewrite Hl, Hi, load_app_cons by done. cbn [rbind]. rewrite <- Hl.
    rewrite (store_app_cons pre x) by done. cbn [rbind]. rewrite Hl.
    rewrite (store_app_cons (pre ++ y :: mid)) by (rewrite !length_app; cbn; lia). cbn [rbind].
    rewrite <- Hi, <- app_assoc. cbn [app] in Hnext |- *. rewrite (Hnext y x). by destruct (min_first y rest).
  - cbn [rbind]. rewrite Hl, <- app_assoc. cbn [app] in Hnext |- *. rewrite (Hnext x y). by destruct (min_first x rest).
Qed.

Lemma sort_outer_sorts n : forall pre l tail, length l = S n ->
  sort_outer n (Z.of_nat (length pre + length l)) (Z.of_nat (length pre)) (pre ++ l ++ tail) =
  Ok (pre ++ exchange_sort n l ++ tail).
Proof.
  induction n as [|n IH]; intros pre l tail Hl; [by destruct l|].
  destruct l as [|x l]; [done|]. injection Hl as Hl. cbn [sort_outer exchange_sort].
  replace (Z.to_nat _) with (length l) by (cbn [length]; lia).
  pose proof (sort_inner_min l pre x [] tail) as Hin. cbn [length app] in Hin. rewrite Z.add_0_r in Hin.
  cbn [app]. rewrite Hin. pose proof (min_first_spec l x) as Hm. destruct (min_first x l) as [m l'].
  destruct Hm as (_ & _ & Hlen). cbn [rbind].
  specialize (IH (pre ++ [m]) l' tail). rewrite length_app in IH. cbn [length] in IH.
  rewrite <- !app_assoc in IH. cbn [app] in IH.
  replace (Z.of_nat (length pre) + 1) with (Z.of_nat (length pre + 1)) by lia.
  replace (length pre + length (x :: l))%nat with (length pre + 1 + length l')%nat by (cbn [length]; lia).
  rewrite IH by lia. done.
Qed.

(** [sort_keys] on an array whose first [finger_count] entries are [l]. *)
Lemma sort_keys_sorts a l tail : finger a = l ++ tail -> finger_count a = Z.of_nat (length l) ->
  exists l', sort_keys a = Ok (with_fingers a (finger_count a) (l' ++ tail)) /\
    Permutation l' l /\ sorted_by key l'.
Proof.
  intros Hf Hc. unfold sort_keys. destruct (Z.ltb_spec (finger_count a) 2).
  - exists l. split; [by rewrite <- Hf; destruct a|]. split; [done|].
    destruct l as [|x [|y l]]; [| |cbn in Hc; lia]; repeat constructor.
  - destruct (exchange_sort_spec (Z.to_nat (finger_count a - 1)) l) as [Hp Hs]; [lia|].
    exists (exchange_sort (Z.to_nat (finger_count a - 1)) l). split; [|done].
    pose proof (sort_outer_sorts (Z.to_nat (finger_count a - 1)) [] l tail) as Ho. cbn [length app] in Ho.
    rewrite Nat.add_0_l in Ho. rewrite Hf. change (Z.of_nat 0) with 0 in Ho. rewrite Hc in *. by rewrite Ho by lia.
Qed.

(** ** The keys as a map *)

(** What the fingers hold: key to velocity and reference count, in key order. *)
Definition entry (f : arp_finger) : Z * (Z * Z) := (key f, (finger_velocity f, counter f)).
Definition held (a : arpeggiator) : smap Z (Z * Z) := map entry (take (Z.to_nat (finger_count a)) (finger a)).

(** The contract: a key held again counts once more, and takes the new velocity; a sixth key is
    refused; a key leaves when it was released as often as it was pressed. *)
Definition spec_enable (m : smap Z (Z * Z)) (k v : Z) : smap Z (Z * Z) * Z :=
  match mfind m k with
  | Some (_, c) => (mset m k (v, i32 (c + 1)), k)
  | None => if Z.of_nat (length m) <? MAX_ARP_FINGERS then (mset m k (v, 1), k) else (m, -1)
  end.

Definition spec_disable (m : smap Z (Z * Z)) (k : Z) : smap Z (Z * Z) :=
  match mfind m k with
  | Some (v, c) => if i32 (c - 1) =? 0 then merase m k else mset m k (v, i32 (c - 1))
  | None => m
  end.

Record fingers_ok (a : arpeggiator) : Prop := {
  ok_count : 0 <= finger_count a <= MAX_ARP_FINGERS;
  ok_array : Z.of_nat (length (finger a)) = MAX_ARP_FINGERS;
  ok_held : smap_ok (held a)
}.

Lemma held_split a : fingers_ok a -> exists l tail, finger a = l ++ tail /\
  finger_count a = Z.of_nat (length l) /\ held a = map entry l.
Proof.
  intros [H1 H2 _]. exists (take (Z.to_nat (finger_count a)) (finger a)), (drop (Z.to_nat (finger_count a)) (finger a)).
  split; [by rewrite take_drop|]. split; [|done]. rewrite length_take. unfold MAX_ARP_FINGERS in *. lia.
Qed.

Lemma held_app a l tail count : finger a = l ++ tail -> count = Z.of_nat (length l) -> finger_count a = count ->
  held a = map entry l.
Proof.
  intros Hf Hc Hn. unfold held. rewrite Hf, Hn, Hc, Nat2Z.id. by rewrite take_app_length.
Qed.

Lemma mfind_entry l k : smap_ok (map entry l) ->
  match mfind (map entry l) k with
  | Some (v, c) => exists l1 l2, l = l1 ++ ArpFinger k v c :: l2 /\ Forall (fun f => key f <> k) l1
  | None => Forall (fun f => key f <> k) l
  end.
Proof.
  induction l as [|f l IH]; intros Hok; [constructor|]. cbn [map mfind entry].
  destruct (key_eqb k (key f)) eqn:E.
  - apply key_eqb_spec in E as ->. exists [], l. split; [by destruct f|constructor].
  - assert (key f <> k) by (intros <-; by rewrite key_eqb_refl in E).
    cbn [map entry] in Hok. apply smap_ok_cons in Hok as [_ Hok]. specialize (IH Hok).
    destruct (mfind (map entry l) k) as [[v c]|]; [|by constructor].
    destruct IH as (l1 & l2 & -> & Hall). exists (f :: l1), l2. split; [done|by constructor].
Qed.

Lemma find_key_app l1 l2 tail wanted n pre : Forall (fun f => key f <> wanted) l1 ->
  (n >= length l1)%nat ->
  find_key n (Z.of_nat (length pre)) (pre ++ l1 ++ l2 ++ tail) wanted =
  find_key (n - length l1) (Z.of_nat (length (pre ++ l1))) ((pre ++ l1) ++ l2 ++ tail) wanted.
Proof.
  intros Hall. revert n pre. induction Hall as [|f l1 Hf Hall IH]; intros n pre Hn; cbn [length] in *.
  - rewrite Nat.sub_0_r, app_nil_r. done.
  - destruct n as [|n]; [lia|]. cbn [find_key app]. rewrite (load_app_cons pre) by done. cbn [rbind].
    rewrite (proj2 (Z.eqb_neq _ _) Hf). specialize (IH n (pre ++ [f])).
    rewrite <- !app_assoc in *. cbn [app] in *.
    replace (Z.of_nat (length pre) + 1) with (Z.of_nat (length (pre ++ [f]))) by (rewrite length_app; cbn; lia).
    rewrite IH by lia. f_equal.
Qed.

Lemma find_key_spec l tail k : smap_ok (map entry l) ->
  match mfind (map entry l) k with
  | Some (v, c) => exists l1 l2, l = l1 ++ ArpFinger k v c :: l2 /\
      find_key (length l) 0 (l ++ tail) k = Ok (Some (Z.of_nat (length l1)))
  | None => find_key (length l) 0 (l ++ tail) k = Ok None
  end.
Proof.
  intros Hok. pose proof (mfind_entry l k Hok) as Hm. destruct (mfind (map entry l) k) as [[v c]|].
  - destruct Hm as (l1 & l2 & -> & Hall). exists l1, l2. split; [done|].
    pose proof (find_key_app l1 (ArpFinger k v c :: l2) tail k (length (l1 ++ ArpFinger k v c :: l2)) [] Hall) as Hf.
    rewrite <- app_assoc. cbn [length app] in *. change (Z.of_nat 0) with 0 in Hf.
    rewrite Hf by (rewrite length_app; lia). rewrite length_app. cbn [length].
    replace (length l1 + S (length l2) - length l1)%nat with (S (length l2)) by lia. cbn [find_key].
    rewrite load_app_cons by done. cbn. by rewrite Z.eqb_refl.
  - pose proof (find_key_app l [] tail k (length l) [] Hm) as Hf. cbn [length app] in Hf.
    change (Z.of_nat 0) with 0 in Hf. rewrite Hf by lia. by rewrite Nat.sub_diag.
Qed.

Lemma entries_sorted l : sorted_by key l -> NoDup (map key l) -> smap_ok (map entry l).
Proof.
  induction l as [|f l IH]; intros Hs Hnd; [constructor|]. apply sorted_by_cons in Hs as [Hall Hs].
  cbn [map] in Hnd. apply list.NoDup_cons in Hnd as [Hnin Hnd]. cbn [map entry]. apply smap_ok_cons.
  split; [|by apply IH]. intros k' [v c] Hin. apply list_elem_of_In, in_map_iff in Hin as (f' & [= <- <- <-] & Hin).
  rewrite List.Forall_forall in Hall. specialize (Hall f' Hin). cbn. apply Z.ltb_lt.
  assert (key f <> key f'); [|lia]. intros He. apply Hnin. rewrite He. apply list_elem_of_In. by apply in_map.
Qed.

Lemma smap_ok_nodup l : smap_ok (map entry l) -> NoDup (map key l).
Proof.
  induction l as [|f l IH]; intros Hok; [constructor|]. cbn [map entry] in Hok. apply smap_ok_cons in Hok as [Hlt Hok].
  cbn [map]. apply list.NoDup_cons. split; [|by apply IH]. intros Hin.
  apply list_elem_of_In, in_map_iff in Hin as (f' & He & Hin).
  specialize (Hlt (key f') (finger_velocity f', counter f')). rewrite He in Hlt.
  assert (key_lt (key f) (key f) = true) as Hc; [|by rewrite key_lt_irrefl in Hc].
  apply Hlt. apply list_elem_of_In. change (In (key f, (finger_velocity f', counter f')) (map entry l)).
  rewrite <- He. by apply (in_map entry).
Qed.

(** Whatever order [sort_keys] started from, the array holds the map with these entries. *)
Lemma sort_keys_held a l tail m : finger a = l ++ tail -> finger_count a = Z.of_nat (length l) ->
  smap_ok m -> Permutation (map entry l) m -> exists l',
  sort_keys a = Ok (with_fingers a (finger_count a) (l' ++ tail)) /\ length l' = length l /\ map entry l' = m.
Proof.
  intros Hf Hc Hm Hp. destruct (sort_keys_sorts a l tail Hf Hc) as (l' & He & Hp' & Hs).
  exists l'. split; [done|]. split; [by apply Permutation_length|].
  apply smap_perm; [|done|by rewrite Hp'].
  apply entries_sorted; [done|]. rewrite Hp'.
  assert (map key l = map fst (map entry l)) as -> by (rewrite map_map; by apply map_ext).
  rewrite Hp. clear -Hm. induction m as [|[k v] m IH]; [constructor|]. apply smap_ok_cons in Hm as [Hlt Hm].
  cbn [map fst]. apply list.NoDup_cons. split; [|by apply IH]. intros Hin.
  apply list_elem_of_In, in_map_iff in Hin as ([k' v'] & He & Hin). cbn in He. subst k'.
  assert (key_lt k k = true) as Hc; [|by rewrite key_lt_irrefl in Hc].
  apply (Hlt k v'). by apply list_elem_of_In.
Qed.

Lemma mset_middle l1 k v c v' c' l2 : smap_ok (map entry (l1 ++ ArpFinger k v c :: l2)) ->
  mset (map entry (l1 ++ ArpFinger k v c :: l2)) k (v', c') = map entry (l1 ++ ArpFinger k v' c' :: l2).
Proof.
  intros Hok. apply smap_perm; [by apply mset_ok| |].
  - unfold smap_ok in *. rewrite !map_map, !map_app in *. exact Hok.
  - rewrite !map_app in *. cbn [map entry key finger_velocity counter] in *. clear -Hok.
    change (entry (ArpFinger k v c)) with (k, (v, c)) in *.
    change (entry (ArpFinger k v' c')) with (k, (v', c')) in *.
    induction l1 as [|f l1 IH]; cbn [map app mset entry].
    + rewrite !key_lt_irrefl. apply Permutation_refl.
    + cbn [map app entry] in Hok. apply smap_ok_cons in Hok as [Hlt Hok].
      assert (key_lt (key f) k = true) as E by (apply (Hlt k (v, c)), elem_of_app; right; by left).
      rewrite (key_lt_asym _ _ E), E. by rewrite IH.
Qed.

Lemma shift_down_shifts l2 : forall l1 f tail,
  exists z, shift_down (length l2) (Z.of_nat (length l1)) (l1 ++ f :: l2 ++ tail) = Ok (l1 ++ l2 ++ z :: tail).
Proof.
  induction l2 as [|g l2 IH]; intros l1 f tail; [by exists f|]. cbn [length shift_down app].
  assert (Hs : forall z, l1 ++ z :: g :: l2 ++ tail = (l1 ++ [z]) ++ g :: l2 ++ tail) by (intros z; by rewrite <- app_assoc).
  rewrite Hs, load_app_cons by (rewrite length_app; cbn; lia). cbn [rbind].
  rewrite <- Hs, store_app_cons by done. cbn [rbind]. rewrite Hs.
  destruct (IH (l1 ++ [g]) g tail) as [z Hz]. rewrite length_app in Hz. cbn [length] in Hz.
  replace (Z.of_nat (length l1 + 1)) with (Z.of_nat (length l1) + 1) in Hz by lia.
  exists z. rewrite Hz. by rewrite <- app_assoc.
Qed.

Lemma clear_keys_clears n : forall l tail, (n <= length tail)%nat -> exists tail',
  clear_keys n (Z.of_nat (length l)) (l ++ tail) = Ok (l ++ tail') /\ length tail' = length tail.
Proof.
  induction n as [|n IH]; intros l tail Hn; [by exists tail|].
  destruct tail as [|f tail]; [cbn in Hn; lia|]. cbn [clear_keys]. rewrite load_app_cons by done. cbn [rbind].
  rewrite store_app_cons by done. cbn [rbind].
  destruct (IH (l ++ [ArpFinger (-1) (finger_velocity f) (counter f)]) tail) as (tail' & Ht & Hl); [cbn in Hn; lia|].
  rewrite length_app in Ht. cbn [length] in Ht. rewrite <- !app_assoc in Ht.
  replace (Z.of_nat (length l + 1)) with (Z.of_nat (length l) + 1) in Ht by lia.
  eexists. split; [exact Ht|]. cbn. by rewrite Hl.
Qed.

Lemma fingers_ok_made a l tail : finger a = l ++ tail -> finger_count a = Z.of_nat (length l) ->
  Z.of_nat (length (l ++ tail)) = MAX_ARP_FINGERS -> smap_ok (map entry l) -> fingers_ok a.
Proof.
  intros Hf Hc Hlen Hok. rewrite length_app in Hlen.
  split; [lia|rewrite Hf, length_app; lia|]. by rewrite (held_app a l tail _ Hf Hc eq_refl).
Qed.

(** [enable_key] and [disable_key] do what the contract says, and touch nothing else. *)
Lemma enable_key_refines a k v : fingers_ok a -> exists count fs r,
  enable_key a k v = Ok (with_fingers a count fs, r) /\ fingers_ok (with_fingers a count fs) /\
  (held (with_fingers a count fs), r) = spec_enable (held a) k v.
Proof.
  intros Hok. destruct (held_split a Hok) as (l & tail & Hf & Hc & Hh). pose proof Hok as [H1 H2 H3].
  rewrite Hh in *. rewrite Hf in H2. pose proof (find_key_spec l tail k H3) as Hfind.
  unfold enable_key, spec_enable. rewrite Hc, Nat2Z.id, Hf, length_map.
  destruct (mfind (map entry l) k) as [[v0 c0]|] eqn:E.
  - destruct Hfind as (l1 & l2 & -> & ->). cbn [rbind]. rewrite <- app_assoc. cbn [app].
    rewrite load_app_cons by done. cbn [rbind counter key]. rewrite store_app_cons by done. cbn [rbind]. do 3 eexists. split; [reflexivity|].
    set (f' := ArpFinger k v (i32 (c0 + 1))).
    assert (Hm : mset (map entry (l1 ++ ArpFinger k v0 c0 :: l2)) k (v, i32 (c0 + 1)) = map entry (l1 ++ f' :: l2))
      by (by apply mset_middle).
    rewrite !length_app in *. cbn [length] in *.
    assert (Hf' : finger (with_fingers a (Z.of_nat (length l1 + S (length l2))) (l1 ++ f' :: l2 ++ tail)) =
                  (l1 ++ f' :: l2) ++ tail) by (cbn; by rewrite <- app_assoc).
    split.
    + apply (fingers_ok_made _ (l1 ++ f' :: l2) tail Hf'); [cbn; by rewrite length_app| |rewrite <- Hm; by apply mset_ok].
      rewrite !length_app. cbn. lia.
    + rewrite Hm. f_equal. apply (held_app _ _ tail (Z.of_nat (length l1 + S (length l2))) Hf'); [|done].
      by rewrite length_app.
  - rewrite Hfind. cbn [rbind]. destruct (Z.ltb_spec (Z.of_nat (length l)) MAX_ARP_FINGERS) as [Hlt|Hge].
    + destruct tail as [|g tail]; [rewrite app_nil_r in H2; lia|].
      rewrite store_app_cons by done. cbn [rbind]. set (f' := ArpFinger k v 1).
      set (a1 := with_fingers a (Z.of_nat (length l) + 1) (l ++ f' :: tail)).
      assert (Hlen1 : Z.of_nat (length l) + 1 = Z.of_nat (length (l ++ [f']))) by (rewrite length_app; cbn; lia).
      destruct (sort_keys_held a1 (l ++ [f']) tail (mset (map entry l) k (v, 1))) as (l' & He & Hl' & Hm).
      * cbn. by rewrite <- app_assoc.
      * done.
      * by apply mset_ok.
      * rewrite mset_fresh_entries by done. rewrite map_app. symmetry. apply Permutation_cons_append.
      * rewrite He. cbn [rbind]. exists (Z.of_nat (length l) + 1), (l' ++ tail), k. split; [done|].
        assert (Hcl : Z.of_nat (length l) + 1 = Z.of_nat (length l')) by lia.
        rewrite length_app in Hl'. cbn [length] in Hl'. rewrite length_app in H2. cbn [length] in H2. split.
        -- eapply (fingers_ok_made _ l' tail); [done|exact Hcl|rewrite length_app; lia|rewrite Hm; by apply mset_ok].
        -- f_equal. rewrite <- Hm. by eapply (held_app _ l' tail).
    + exists (finger_count a), (finger a), (-1). rewrite Hf, Hc.
      assert (Ha : with_fingers a (Z.of_nat (length l)) (l ++ tail) = a) by (rewrite <- Hf, <- Hc; by destruct a).
      rewrite Ha. split; [done|]. split; [done|]. by rewrite Hh.
Qed.

Lemma merase_middle l1 k v c l2 : smap_ok (map entry (l1 ++ ArpFinger k v c :: l2)) ->
  merase (map entry (l1 ++ ArpFinger k v c :: l2)) k = map entry (l1 ++ l2).
Proof.
  intros Hok. apply smap_ok_nodup in Hok as Hnd. rewrite map_app in Hnd. cbn [map key] in Hnd.
  apply list.NoDup_app in Hnd as (_ & Hnot & Hnd). apply list.NoDup_cons in Hnd as [Hnin _].
  rewrite !map_app. unfold merase. rewrite List.filter_app. cbn [map List.filter entry fst key].
  rewrite key_eqb_refl. cbn [negb]. f_equal.
  - clear -Hnot. induction l1 as [|f l1 IH]; [done|]. cbn [map List.filter entry fst].
    rewrite key_eqb_neq; [cbn [negb]; f_equal; apply IH; intros x Hx; apply Hnot; cbn; by right|].
    intros He. apply (Hnot (key f)); [cbn; by left|]. rewrite He. by left.
  - clear -Hnin. induction l2 as [|f l2 IH]; [done|]. cbn [map List.filter entry fst] in *.
    rewrite not_elem_of_cons in Hnin. destruct Hnin as [Hn Hnin].
    rewrite key_eqb_neq by done. cbn [negb]. f_equal. by apply IH.
Qed.

Lemma with_fingers_twice a c1 f1 c2 f2 : with_fingers (with_fingers a c1 f1) c2 f2 = with_fingers a c2 f2.
Proof. done. Qed.

(** The end of [disable_key]: fingers that hold a map are sorted again, to no effect. *)
Lemma sort_again a count l tail : count = Z.of_nat (length l) -> smap_ok (map entry l) ->
  Z.of_nat (length (l ++ tail)) = MAX_ARP_FINGERS ->
  exists fs, sort_keys (with_fingers a count (l ++ tail)) = Ok (with_fingers a count fs) /\
    fingers_ok (with_fingers a count fs) /\ held (with_fingers a count fs) = map entry l.
Proof.
  intros Hc Hok Hlen. destruct (sort_keys_held (with_fingers a count (l ++ tail)) l tail (map entry l))
    as (l' & He & Hl' & Hm); try done.
  exists (l' ++ tail). rewrite He. split; [done|]. rewrite length_app in Hlen. split.
  - eapply (fingers_ok_made _ l' tail); [done|cbn; lia|rewrite length_app; lia|by rewrite Hm].
  - rewrite <- Hm. eapply (held_app _ l' tail count); [done|lia|done].
Qed.

Lemma disable_key_refines a k : fingers_ok a -> exists count fs cf,
  let a' := with_current_finger (with_fingers a count fs) cf (pingpong_direction_forward a) in
  disable_key a k = Ok a' /\ fingers_ok a' /\ held a' = spec_disable (held a) k /\
  cf = (if count =? 0 then 0 else current_finger a).
Proof.
  intros Hok. destruct (held_split a Hok) as (l & tail & Hf & Hc & Hh). pose proof Hok as [H1 H2 H3].
  rewrite Hh in *. rewrite Hf in H2. pose proof (find_key_spec l tail k H3) as Hfind.
  assert (Hend : forall count l' tail', count = Z.of_nat (length l') -> smap_ok (map entry l') ->
    Z.of_nat (length (l' ++ tail')) = MAX_ARP_FINGERS -> map entry l' = spec_disable (map entry l) k ->
    exists n fs cf,
      let a' := with_current_finger (with_fingers a n fs) cf (pingpong_direction_forward a) in
      (let! a := sort_keys (with_fingers a count (l' ++ tail')) in
       Ok (if finger_count a =? 0 then with_current_finger a 0 (pingpong_direction_forward a) else a)) = Ok a' /\
      fingers_ok a' /\ held a' = spec_disable (map entry l) k /\ cf = (if n =? 0 then 0 else current_finger a)).
  { intros count l' tail' Hcount Hs Hlen Hspec. destruct (sort_again a count l' tail' Hcount Hs Hlen) as (fs & He & [P1 P2 P3] & Hm).
    exists count, fs, (if count =? 0 then 0 else current_finger a). cbv zeta.
    replace (sort_keys (with_fingers a count (l' ++ tail'))) with (Ok (with_fingers a count fs)) by done.
    cbn [rbind finger_count with_fingers]. split; [by destruct (count =? 0)|]. split; [by split|]. split; [|done].
    rewrite <- Hspec. exact Hm. }
  unfold disable_key. rewrite Hc, Nat2Z.id, Hf. unfold spec_disable in Hend |- *.
  destruct (mfind (map entry l) k) as [[v0 c0]|] eqn:E.
  - destruct Hfind as (l1 & l2 & -> & Hfk). rewrite Hfk. cbn [rbind]. rewrite <- app_assoc. cbn [app].
    rewrite load_app_cons by done. cbn [rbind counter key finger_velocity]. rewrite store_app_cons by done. cbn [rbind].
    set (f' := ArpFinger k v0 (i32 (c0 - 1))) in *. rewrite !length_app in *. cbn [length] in *.
    destruct (Z.eqb_spec (i32 (c0 - 1)) 0) as [Hz|Hz].
    + replace (Z.to_nat (Z.of_nat (length l1 + S (length l2)) - 1 - Z.of_nat (length l1))) with (length l2) by lia.
      destruct (shift_down_shifts l2 l1 f' tail) as [z ->]. cbn [rbind].
      rewrite Z.max_r by lia.
      destruct (clear_keys_clears (Z.to_nat (MAX_ARP_FINGERS - Z.of_nat (length (l1 ++ l2)))) (l1 ++ l2) (z :: tail))
        as (tail' & Ht & Hlt); [rewrite length_app; cbn; lia|].
      replace (Z.of_nat (length l1 + S (length l2)) - 1) with (Z.of_nat (length (l1 ++ l2))) by (rewrite length_app; lia).
      rewrite app_assoc, Ht. cbn [rbind]. rewrite merase_middle in Hend |- * by done. apply Hend.
      * done.
      * rewrite <- (merase_middle l1 k v0 c0 l2) by done. by apply merase_ok.
      * rewrite !length_app, Hlt. cbn. lia.
      * done.
    + replace (l1 ++ f' :: l2 ++ tail) with ((l1 ++ f' :: l2) ++ tail) by (by rewrite <- app_assoc).
      rewrite mset_middle in Hend |- * by done. apply Hend.
      * by rewrite length_app.
      * unfold f'. rewrite <- (mset_middle l1 k v0 c0 v0 (i32 (c0 - 1)) l2) by done. by apply mset_ok.
      * rewrite !length_app. cbn. lia.
      * done.
  - rewrite Hfind. cbn [rbind]. pose proof (Hend _ l tail eq_refl H3 H2 eq_refl) as He.
    replace (with_fingers a (Z.of_nat (length l)) (l ++ tail)) with a in He
      by (rewrite <- Hf, <- Hc; by destruct a). exact He.
Qed.

(** ** Runs: keys pressed and released between ticks *)

Inductive arp_step : Type := Press (k v : Z) | Release (k : Z) | Tick (mute : bool).

Definition do_step (a : arpeggiator) (s : arp_step) : result (arpeggiator * list meb_call) :=
  match s with
  | Press k v => let! (a, _) := enable_key a k v in Ok (a, [])
  | Release k => let! a := disable_key a k in Ok (a, [])
  | Tick mute => process_pattern mute a
  end.

Fixpoint do_steps (a : arpeggiator) (ss : list arp_step) : result (arpeggiator * list meb_call) :=
  match ss with
  | [] => Ok (a, [])
  | s :: ss => let! (a, out) := do_step a s in
               let! (a, more) := do_steps a ss in
               Ok (a, out ++ more)
  end.

(** The contract on the keys, step by step. *)
Definition spec_step (m : smap Z (Z * Z)) (s : arp_step) : smap Z (Z * Z) :=
  match s with
  | Press k v => fst (spec_enable m k v)
  | Release k => spec_disable m k
  | Tick _ => m
  end.

(** A pattern as [initiate_built_in] leaves them. *)
Definition pattern_ok (p : arp_pattern) : Prop :=
  0 < pattern_length p <= MAX_ARP_PATTERN_LENGTH /\ Z.of_nat (length (notes p)) = MAX_ARP_PATTERN_LENGTH /\
  Forall (fun n => slide n = false) (notes p).

Lemma built_in_ok id p : load built_in id = Ok p -> pattern_ok p.
Proof.
  intros Hp. apply load_ok_inv in Hp as [_ Hp].
  assert (Hall : Forall pattern_ok built_in).
  { vm_compute. repeat (constructor; [repeat (split || constructor); done|]). constructor. }
  rewrite Forall_forall in Hall. eapply Hall, list_elem_of_In, list_elem_of_lookup_2, Hp.
Qed.

(** The machine's invariant. A note sounds only in the phases 1 and 2. *)
Record arp_ok (a : arpeggiator) : Prop := {
  ok_fingers : fingers_ok a;
  ok_finger : 0 <= current_finger a;
  ok_phase : 0 <= phase a <= 3;
  ok_index : 0 <= pattern_index a;
  ok_silent : phase a = 0 \/ phase a = 3 -> note a = -1;
  ok_ended : forall p, current_pattern a = Some p -> pattern_length p <= pattern_index a -> phase a = 0;
  ok_note : note a = -1 \/ 0 <= note a < 128;
  ok_pattern : forall p, current_pattern a = Some p -> pattern_ok p;
  ok_off : arp_direction a = arp_off \/ current_pattern a = None -> note a = -1
}.

Lemma next_finger_nonneg a : 0 <= current_finger a -> 0 < finger_count a -> 0 <= fst (next_finger a).
Proof.
  intros Hc Hn. unfold next_finger, c_rem.
  assert (Hp : forall x, 0 <= x -> 0 <= Z.rem x (finger_count a)) by (intros x Hx; by apply Z.rem_nonneg; lia).
  repeat case_if; cbn [fst]; zbool; try lia; try (apply Hp; lia).
  assert (current_finger a = 0 \/ 0 <= current_finger a - 1) as [Hz|Hp'] by lia; [|by apply Hp].
  rewrite Hz in *. assert (finger_count a = 1) as -> by lia. done.
Qed.

(** The note-on and note-off calls, replayed: what sounds. *)
Definition sound (s : list Z) (c : meb_call) : list Z :=
  match c with
  | NoteOn n _ => n :: s
  | NoteOff n _ => List.remove Z.eq_dec n s
  | _ => s
  end.

Definition sounding (s : list Z) (out : list meb_call) : list Z := fold_left sound out s.

Definition audible (a : arpeggiator) : list Z := if note a =? -1 then [] else [note a].

(** What a tick promises, from the calls it made and the state it left. *)
Record tick_ok (a : arpeggiator) (s : list Z) (a' : arpeggiator) (out : list meb_call) : Prop := {
  tick_arp : arp_ok a';
  tick_fingers : finger_count a' = finger_count a /\ finger a' = finger a;
  tick_sound : sounding s out = [] \/ sounding s out = audible a';
  tick_silence : finger_count a = 0 -> sounding s out = [];
  tick_range : Forall (fun c => match c with NoteOn n _ => 0 <= n < 128 | _ => True end) out
}.

Lemma note_range z : 0 <= Z.land z 0x7f < 128.
Proof. change 0x7f with (Z.ones 7). rewrite Z.land_ones by lia. apply Z.mod_pos_bound. lia. Qed.

Lemma sound_off s n v : s = [] \/ s = [n] -> sounding s [NoteOff n v] = [].
Proof. intros [->| ->]; [done|]. cbn. by destruct (Z.eq_dec n n). Qed.

(** The fields of the invariant, of a state that is written out. *)
Ltac arp_fields :=
  split; cbn in *; try done; try lia; try (by match goal with F : fingers_ok _ |- _ => destruct F; split end);
  try (intros [|]; congruence || lia);
  try (let q := fresh in let E := fresh in intros q E ?;
       match goal with Hp : current_pattern _ = Some ?p |- _ =>
         assert (q = p) as -> by congruence; lia end);
  auto.

Lemma go_to_on_ok mute a p : arp_ok a -> note a = -1 -> phase a = 0 -> current_pattern a = Some p ->
  arp_direction a <> arp_off -> pattern_index a < pattern_length p ->
  exists a' out, go_to_on mute a p = Ok (a', out) /\ tick_ok a [] a' out.
Proof.
  intros [F1 F2 F3 F4 F5 F6 F7 F8 F9] Hn Hph Hp Hdir Hi. destruct (F8 p Hp) as (Hlen & Harr & Hslide).
  destruct (load_in (notes p) (pattern_index a)) as (pn & Hpn & _); [lia|].
  pose proof F1 as [[P1a P1b] P2 P3]. unfold go_to_on. rewrite Hn. cbn [Z.eqb].
  destruct (Z.ltb_spec 0 (finger_count a)) as [Hc|Hc].
  - pose proof (next_finger_nonneg a F2 Hc) as Hcf. destruct (next_finger a) as [cf fw]. cbn [fst] in Hcf.
    assert (Hrem : 0 <= c_rem cf (finger_count a) < finger_count a) by (unfold c_rem; apply Z.rem_bound_pos; lia).
    destruct (load_in (finger a) (c_rem cf (finger_count a))) as (f & Hf & _); [lia|].
    rewrite Hf. cbn [rbind]. rewrite Hpn. cbn [rbind pattern_index with_note with_current_finger].
    rewrite Hpn. cbn [rbind].
    pose proof (note_range (key f + octave_offset pn * 12)) as Hr. do 2 eexists. split; [reflexivity|].
    split; [arp_fields| done | | cbn; lia |].
    + unfold audible. cbn. destruct mute; [by left|right].
      destruct (Z.eqb_spec (Z.land (key f + octave_offset pn * 12) 127) (-1)); [lia|done].
    + destruct mute; repeat constructor; lia.
  - cbn [rbind pattern_index with_note]. rewrite Hpn. cbn [rbind]. do 2 eexists. split; [reflexivity|].
    split; [arp_fields| done | by left | done | constructor].
Qed.

Lemma step_phase_ok mute a p s : arp_ok a -> s = [] \/ s = audible a -> (finger_count a = 0 -> note a = -1) ->
  current_pattern a = Some p -> arp_direction a <> arp_off -> pattern_index a < pattern_length p ->
  exists a' out, step_phase mute a p = Ok (a', out) /\ tick_ok a s a' out.
Proof.
  intros Ha Hs Hq Hp Hd Hi. pose proof Ha as [F1 F2 F3 F4 F5 F6 F7 F8 F9]. unfold step_phase.
  assert (Hquiet : note a = -1 -> s = []) by (intros Hn; unfold audible in Hs; rewrite Hn in Hs; by destruct Hs).
  destruct (Z.eqb_spec (phase a) 0) as [H0|H0].
  { rewrite (Hquiet (F5 (or_introl H0))). apply go_to_on_ok; auto. }
  destruct (Z.eqb_spec (phase a) 1) as [H1|H1].
  { do 2 eexists. split; [reflexivity|]. split; [| done | | | constructor].
    - destruct (ticks_left a - 1 <=? 0); arp_fields.
    - exact Hs.
    - intros Hz. by apply Hquiet, Hq. }
  destruct (F8 p Hp) as (Hlen & Harr & Hslide).
  destruct (Z.eqb_spec (phase a) 2) as [H2|H2].
  { destruct (load_in (notes p) (pattern_index a)) as (pn & Hpn & Hin); [lia|]. rewrite Hpn. cbn [rbind].
    rewrite Forall_forall in Hslide. rewrite (Hslide pn) by (by eapply list_elem_of_In, list_elem_of_lookup_2).
    rewrite andb_true_r. do 2 eexists. split; [reflexivity|].
    destruct (Z.eqb_spec (note a) (-1)) as [Hn|Hn]; cbn [negb].
    - rewrite (Hquiet Hn). split; [arp_fields|done|by left|done|constructor].
    - assert (sounding s [NoteOff (note a) (velocity a)] = []) as Hoff.
      { apply sound_off. unfold audible in Hs. by rewrite (proj2 (Z.eqb_neq _ _) Hn) in Hs. }
      split; [arp_fields|done|by left|done|repeat constructor]. }
  destruct (Z.eqb_spec (phase a) 3) as [H3|H3]; [|lia].
  rewrite (Hquiet (F5 (or_intror H3))).
  destruct (ticks_left a - 1 <=? 0); (do 2 eexists; split; [reflexivity|]);
    (split; [arp_fields|done|by left|done|constructor]).
Qed.

Lemma process_pattern_ok mute a s : arp_ok a -> s = [] \/ s = audible a ->
  exists a' out, process_pattern mute a = Ok (a', out) /\ tick_ok a s a' out.
Proof.
  intros Ha Hs. pose proof Ha as [F1 F2 F3 F4 F5 F6 F7 F8 F9]. unfold process_pattern.
  assert (Hquiet : note a = -1 -> s = []) by (intros Hn; unfold audible in Hs; rewrite Hn in Hs; by destruct Hs).
  destruct (current_pattern a) as [p|] eqn:Ep.
  2:{ do 2 eexists. split; [reflexivity|]. specialize (Hquiet (F9 (or_intror eq_refl))). subst s.
      split; first [done|by left|constructor]. }
  destruct (F8 p eq_refl) as (Hlen & Harr & Hslide).
  destruct (Z.leb_spec (pattern_length p) 0); [lia|]. cbn [orb].
  destruct (Z.eqb_spec (arp_direction a) arp_off) as [Hoff|Hoff].
  { do 2 eexists. split; [reflexivity|]. specialize (Hquiet (F9 (or_introl Hoff))). subst s.
    split; first [done|by left|constructor]. }
  set (silence := mute || ((finger_count a =? 0) && negb (note a =? -1))).
  set (a1 := if silence then with_note a (-1) (velocity a) else a).
  set (out := if silence then [NoteOff (note a) (velocity a)] else []).
  assert (Ha1 : arp_ok a1) by (unfold a1; destruct silence; [|done]; arp_fields; by rewrite Ep).
  assert (Hs1 : sounding s out = [] \/ sounding s out = audible a1).
  { unfold out, a1. destruct silence; [|exact Hs]. left. apply sound_off.
    unfold audible in Hs. destruct (note a =? -1); [left; by destruct Hs|exact Hs]. }
  assert (Hq1 : finger_count a1 = 0 -> note a1 = -1).
  { unfold a1, silence. intros Hz. assert (finger_count a = 0) as -> by (revert Hz; by case_if).
    cbn [Z.eqb andb]. by destruct (Z.eqb_spec (note a) (-1)), mute. }
  assert (Hsame : current_pattern a1 = Some p /\ arp_direction a1 = arp_direction a /\
    finger_count a1 = finger_count a /\ finger a1 = finger a) by (unfold a1; by destruct silence).
  destruct Hsame as (Hp1 & Hd1 & Hfc & Hff).
  assert (Hr1 : Forall (fun c => match c with NoteOn n _ => 0 <= n < 128 | _ => True end) out)
    by (unfold out; destruct silence; repeat constructor).
  clearbody a1 out. pose proof Ha1 as [G1 G2 G3 G4 G5 G6 G7 G8 G9].
  assert (Hend : forall a2, arp_ok a2 -> audible a2 = audible a1 -> note a2 = note a1 ->
    finger_count a2 = finger_count a1 -> finger a2 = finger a1 -> current_pattern a2 = Some p ->
    arp_direction a2 = arp_direction a1 -> pattern_index a2 < pattern_length p ->
    exists a' o, (let! (a', more) := step_phase mute a2 p in Ok (a', out ++ more)) = Ok (a', o) /\ tick_ok a s a' o).
  { intros a2 Ha2 Haud Hn2 Hc2 Hf2 Hp2 Hd2 Hi2.
    destruct (step_phase_ok mute a2 p (sounding s out)) as (a' & more & He & [T1 T2 T3 T4 T5]);
      [done|by rewrite Haud|rewrite Hc2, Hn2; done|done|congruence|done|].
    rewrite He. cbn [rbind]. exists a', (out ++ more). split; [done|].
    split; unfold sounding in *; rewrite ?fold_left_app;
      [done|destruct T2; split; congruence|done|intros Hz; apply T4; congruence|by apply Forall_app]. }
  destruct (Z.leb_spec (pattern_length p) (pattern_index a1)); [|by apply Hend].
  apply Hend; try done; try (cbn; lia). arp_fields. intros _. by apply G5; left; apply (G6 p).
Qed.

(** Starting to play, as [PadMotion::start_motion] does. *)
Definition start (a : arpeggiator) (dir id : Z) : result arpeggiator :=
  set_pattern (set_direction (reset a) dir) id.

Lemma start_ok a dir id a0 : start a dir id = Ok a0 -> arp_ok a0 /\ held a0 = [].
Proof.
  unfold start, set_pattern. case_if; [intros [= <-]|intros H; inv_bind H; injection H as <-; apply built_in_ok in Hx];
    (split; [|done]); split; cbn; try done; try lia; try (by left); try (split; [done|done|constructor]);
    by intros q [= <-].
Qed.

Lemma step_ok a s ev : arp_ok a -> s = [] \/ s = audible a -> exists a' out,
  do_step a ev = Ok (a', out) /\ arp_ok a' /\ held a' = spec_step (held a) ev /\
  (sounding s out = [] \/ sounding s out = audible a') /\
  (ev = Tick false -> finger_count a = 0 -> sounding s out = []) /\
  Forall (fun c => match c with NoteOn n _ => 0 <= n < 128 | _ => True end) out.
Proof.
  intros Ha Hs. pose proof Ha as [F1 F2 F3 F4 F5 F6 F7 F8 F9]. destruct ev as [k v|k|mute]; cbn [do_step spec_step].
  - destruct (enable_key_refines a k v F1) as (count & fs & r & -> & Hok & Hm). cbn [rbind].
    do 2 eexists. split; [reflexivity|]. split; [arp_fields|]. split; [by rewrite <- Hm|]. done.
  - destruct (disable_key_refines a k F1) as (count & fs & cf & -> & Hok & Hm & Hcf). cbn [rbind].
    do 2 eexists. split; [reflexivity|]. split; [arp_fields; rewrite Hcf; by destruct (count =? 0)|]. done.
  - destruct (process_pattern_ok mute a s Ha Hs) as (a' & out & -> & [T1 [T2a T2b] T3 T4 T5]).
    do 2 eexists. split; [reflexivity|]. split; [done|]. split; [unfold held; by rewrite T2a, T2b|]. auto.
Qed.

Lemma steps_ok ss : forall a s, arp_ok a -> s = [] \/ s = audible a -> exists a' out,
  do_steps a ss = Ok (a', out) /\ arp_ok a' /\ held a' = fold_left spec_step ss (held a) /\
  (sounding s out = [] \/ sounding s out = audible a') /\
  Forall (fun c => match c with NoteOn n _ => 0 <= n < 128 | _ => True end) out.
Proof.
  induction ss as [|ev ss IH]; intros a s Ha Hs; [by exists a, []|]. cbn [do_steps fold_left].
  destruct (step_ok a s ev Ha Hs) as (a1 & out & -> & Ha1 & Hh1 & Hs1 & _ & Hr1). cbn [rbind].
  destruct (IH a1 (sounding s out) Ha1 Hs1) as (a2 & more & -> & Ha2 & Hh2 & Hs2 & Hr2). cbn [rbind].
  exists a2, (out ++ more). split; [done|]. split; [done|]. split; [by rewrite <- Hh1|].
  unfold sounding in *. rewrite fold_left_app. split; [done|by apply Forall_app].
Qed.

(** C27: The keys an arpeggiator holds: however keys are pressed and released between ticks, no
    array is accessed out of bounds, and the fingers hold, sorted by key, exactly the
    reference-counted map the contract computes: a key pressed again counts once more and
    takes the new velocity, a sixth distinct key is refused with -1, and a key leaves when
    its count returns to zero. *)
Theorem arp_keys_refine a dir id a0 ss k v : start a dir id = Ok a0 -> exists a1 out a2 r,
  do_steps a0 ss = Ok (a1, out) /\ held a1 = fold_left spec_step ss [] /\ smap_ok (held a1) /\
  enable_key a1 k v = Ok (a2, r) /\ (held a2, r) = spec_enable (held a1) k v.
Proof.
  intros [Ha0 Hh0]%start_ok. destruct (steps_ok ss a0 [] Ha0 (or_introl eq_refl)) as (a1 & out & He & Ha1 & Hh & _).
  destruct (enable_key_refines a1 k v) as (count & fs & r & Hk & _ & Hm); [by destruct Ha1|].
  do 4 eexists. split; [exact He|]. split; [by rewrite Hh, Hh0|]. split; [by destruct Ha1 as [[]]|].
  split; [exact Hk|done].
Qed.

(** C28: One note at a time, and none is left hanging: replaying the note-on and note-off calls
    of any run of presses, releases and ticks (muted or not), at most one note sounds, it is
    the one the arpeggiator remembers, it is a MIDI note (0 to 127), and one tick after all
    keys are released nothing sounds. *)
Theorem arp_single_note a dir id a0 ss : start a dir id = Ok a0 -> exists a1 out,
  do_steps a0 ss = Ok (a1, out) /\
  (sounding [] out = [] \/ sounding [] out = [note a1]) /\
  Forall (fun c => match c with NoteOn n _ => 0 <= n < 128 | _ => True end) out /\
  (held a1 = [] -> exists a2 more, process_pattern false a1 = Ok (a2, more) /\ sounding [] (out ++ more) = []).
Proof.
  intros [Ha0 Hh0]%start_ok. destruct (steps_ok ss a0 [] Ha0 (or_introl eq_refl)) as (a1 & out & He & Ha1 & Hh & Hs & Hr).
  exists a1, out. split; [done|]. split.
  { destruct Hs as [Hs|Hs]; [by left|]. unfold audible in Hs. destruct (note a1 =? -1); auto. }
  split; [done|]. intros Hnone.
  destruct (step_ok a1 (sounding [] out) (Tick false) Ha1 Hs) as (a2 & more & Hm & _ & _ & _ & Hz & _).
  exists a2, more. split; [done|]. unfold sounding in *. rewrite fold_left_app. apply Hz; [done|].
  destruct Ha1 as [[P1 P2 P3]]. unfold held in Hnone. apply map_eq_nil in Hnone.
  apply (f_equal length) in Hnone. rewrite length_take in Hnone. cbn in Hnone. unfold MAX_ARP_FINGERS in *. lia.
Qed.

(** ** Timing *)

Definition ticks (n : nat) : list arp_step := repeat (Tick false) n.

Lemma ticks_S n : ticks (S n) = Tick false :: ticks n.
Proof. done. Qed.

Lemma do_steps_app l1 l2 : forall a,
  do_steps a (l1 ++ l2) = let! (a1, out) := do_steps a l1 in
                          let! (a2, more) := do_steps a1 l2 in Ok (a2, out ++ more).
Proof.
  induction l1 as [|s l1 IH]; intros a; cbn [app do_steps rbind].
  - by destruct (do_steps a l2) as [[a2 more]|e].
  - destruct (do_step a s) as [[a1 o]|e]; [|done]. cbn [rbind]. rewrite IH.
    destruct (do_steps a1 l1) as [[a2 o2]|e]; [|done]. cbn [rbind].
    destruct (do_steps a2 l2) as [[a3 o3]|e]; [|done]. cbn [rbind]. by rewrite app_assoc.
Qed.

(** What makes a tick a step of the pattern. *)
Record playing (a : arpeggiator) (p : arp_pattern) : Prop := {
  play_pattern : current_pattern a = Some p;
  play_length : pattern_index a < pattern_length p;
  play_index : 0 <= pattern_index a;
  play_dir : arp_direction a <> arp_off;
  play_keys : 0 < finger_count a
}.

Lemma tick_playing a p : playing a p -> process_pattern false a = step_phase false a p.
Proof.
  intros [H1 H2 H3 H4 H5]. unfold process_pattern. rewrite H1.
  destruct (Z.leb_spec (pattern_length p) 0); [lia|]. rewrite (proj2 (Z.eqb_neq _ _) H4). cbn [orb].
  destruct (Z.eqb_spec (finger_count a) 0); [lia|]. cbn [andb].
  destruct (Z.leb_spec (pattern_length p) (pattern_index a)); [lia|].
  by destruct (step_phase false a p) as [[a' out]|e].
Qed.

Lemma playing_phase a p ph t : playing a p -> playing (with_phase a ph t (pattern_index a)) p.
Proof. by intros []. Qed.

Lemma phase_one_run m : forall a p, playing a p -> phase a = 1 -> ticks_left a = Z.of_nat (S m) ->
  do_steps a (ticks (S m)) = Ok (with_phase a 2 0 (pattern_index a), []).
Proof.
  induction m as [|m IH]; intros a p Hp Hph Ht; rewrite ticks_S; cbn [do_steps do_step];
    rewrite (tick_playing a p) by done; unfold step_phase; rewrite Hph, Ht; cbn [Z.eqb Pos.eqb].
  - done.
  - destruct (Z.leb_spec (Z.of_nat (S (S m)) - 1) 0); [lia|]. cbn [rbind].
    rewrite (IH (with_phase a 1 (Z.of_nat (S (S m)) - 1) (pattern_index a)) p)
      by first [by apply playing_phase|done|cbn [ticks_left with_phase]; lia]. done.
Qed.

Lemma phase_three_run m : forall a p, playing a p -> phase a = 3 -> ticks_left a = Z.of_nat (S m) ->
  do_steps a (ticks (S m)) = Ok (with_phase a 0 0 (pattern_index a + 1), []).
Proof.
  induction m as [|m IH]; intros a p Hp Hph Ht; rewrite ticks_S; cbn [do_steps do_step];
    rewrite (tick_playing a p) by done; unfold step_phase; rewrite Hph, Ht; cbn [Z.eqb Pos.eqb].
  - done.
  - destruct (Z.leb_spec (Z.of_nat (S (S m)) - 1) 0); [lia|]. cbn [rbind].
    rewrite (IH (with_phase a 3 (Z.of_nat (S (S m)) - 1) (pattern_index a)) p)
      by first [by apply playing_phase|done|cbn [ticks_left with_phase]; lia]. done.
Qed.

Lemma go_to_on_held a p pn : arp_ok a -> playing a p -> phase a = 0 -> load (notes p) (pattern_index a) = Ok pn ->
  exists a1 f, go_to_on false a p = Ok (a1, [NoteOn (note a1) (velocity a1)]) /\ In f (finger a) /\
    note a1 = Z.land (key f + octave_offset pn * 12) 0x7f /\ velocity a1 = finger_velocity f /\
    playing a1 p /\ phase a1 = 1 /\ ticks_left a1 = on_length pn - 1 /\ pattern_index a1 = pattern_index a /\
    arp_ok a1.
Proof.
  intros Ha [H1 H2 H3 H4 H5] Hph Hpn. pose proof Ha as [F1 F2 F3 F4 F5 F6 F7 F8 F9].
  pose proof F1 as [P1 P2 P3].
  destruct (go_to_on_ok false a p) as (a2 & out & He & [T1 _ _ _ _]); auto. revert He.
  unfold go_to_on. rewrite (F5 (or_introl Hph)). cbn [Z.eqb].
  destruct (Z.ltb_spec 0 (finger_count a)); [|lia].
  pose proof (next_finger_nonneg a F2 H5) as Hcf. destruct (next_finger a) as [cf fw]. cbn [fst] in Hcf.
  assert (Hrem : 0 <= c_rem cf (finger_count a) < finger_count a) by (unfold c_rem; apply Z.rem_bound_pos; lia).
  destruct (load_in (finger a) (c_rem cf (finger_count a))) as (f & Hf & Hfi); [lia|].
  rewrite Hf. cbn [rbind]. rewrite Hpn. cbn [rbind pattern_index with_note with_current_finger].
  rewrite Hpn. cbn [rbind]. intros [= <- <-].
  eexists (with_phase (with_note (with_current_finger a cf fw) (Z.land (key f + octave_offset pn * 12) 127)
    (finger_velocity f)) 1 (on_length pn - 1) (pattern_index a)), f.
  split; [reflexivity|]. split; [by eapply list_elem_of_In, list_elem_of_lookup_2|]. done.
Qed.

(** Timing of a pattern's step. While a key is held and nothing is pressed or released, a
    step of the pattern takes exactly [on_length + off_length] ticks: the first tick starts the
    note of a held key (shifted by the step's octave), the note is stopped at tick
    [on_length] and not before, and the last tick leaves the machine at the next step. *)
Theorem arp_step_timing a p pn : arp_ok a -> playing a p -> phase a = 0 ->
  load (notes p) (pattern_index a) = Ok pn -> 2 <= on_length pn -> 2 <= off_length pn ->
  exists a1 a2 a3 n v f,
    do_steps a (ticks 1) = Ok (a1, [NoteOn n v]) /\
    do_steps a (ticks (Z.to_nat (on_length pn))) = Ok (a2, [NoteOn n v]) /\
    do_steps a2 (ticks 1) = Ok (a3, [NoteOff n v]) /\
    In f (finger a) /\ n = Z.land (key f + octave_offset pn * 12) 0x7f /\ v = finger_velocity f /\
    exists a4, do_steps a (ticks (Z.to_nat (on_length pn + off_length pn))) = Ok (a4, [NoteOn n v; NoteOff n v]) /\
      phase a4 = 0 /\ pattern_index a4 = pattern_index a + 1 /\ note a4 = -1.
Proof.
  intros Ha Hp Hph Hpn Hon Hoff.
  destruct (go_to_on_held a p pn Ha Hp Hph Hpn) as (a1 & f & Hgo & Hf & Hn & Hv & Hp1 & Hph1 & Ht1 & Hi1 & Ha1).
  assert (H1 : do_steps a (ticks 1) = Ok (a1, [NoteOn (note a1) (velocity a1)])).
  { cbn [ticks repeat do_steps do_step]. rewrite (tick_playing a p) by done. unfold step_phase. rewrite Hph.
    cbn [Z.eqb]. by rewrite Hgo. }
  destruct (Z.to_nat (on_length pn - 1)) as [|m] eqn:Em; [lia|].
  assert (H2 : do_steps a (ticks (Z.to_nat (on_length pn))) =
    Ok (with_phase a1 2 0 (pattern_index a1), [NoteOn (note a1) (velocity a1)])).
  { replace (Z.to_nat (on_length pn)) with (1 + S m)%nat by lia. unfold ticks. rewrite repeat_app, do_steps_app.
    change (repeat (Tick false) 1) with (ticks 1). rewrite H1. cbn [rbind].
    change (repeat (Tick false) (S m)) with (ticks (S m)). rewrite (phase_one_run m a1 p) by (done || lia). done. }
  set (a2 := with_phase a1 2 0 (pattern_index a1)) in *.
  set (a3 := with_phase (with_note a2 (-1) (velocity a2)) 3 (off_length pn - 1) (pattern_index a2)).
  assert (Hp2 : playing a2 p) by by apply playing_phase.
  assert (Hslide : slide pn = false /\ note a1 <> -1).
  { destruct Ha as [_ _ _ _ _ _ _ F8 _]. destruct (F8 p (play_pattern _ _ Hp)) as (_ & _ & Hs).
    apply load_ok_inv in Hpn as [_ Hpn]. rewrite Forall_forall in Hs.
    split; [by eapply Hs, list_elem_of_In, list_elem_of_lookup_2|].
    pose proof (note_range (key f + octave_offset pn * 12)). lia. }
  destruct Hslide as [Hs Hne].
  assert (H3 : do_steps a2 (ticks 1) = Ok (a3, [NoteOff (note a1) (velocity a1)])).
  { cbn [ticks repeat do_steps do_step]. rewrite (tick_playing a2 p) by done. unfold step_phase. cbn [phase a2 with_phase Z.eqb Pos.eqb].
    cbn [pattern_index a2 with_phase]. rewrite Hi1, Hpn. cbn [rbind note with_phase a2].
    rewrite (proj2 (Z.eqb_neq _ _) Hne), Hs. cbn [negb andb rbind]. unfold a3, a2. by rewrite Hi1. }
  exists a1, a2, a3, (note a1), (velocity a1), f. do 6 (split; [done|]).
  destruct (Z.to_nat (off_length pn - 1)) as [|k] eqn:Ek; [lia|].
  exists (with_phase a3 0 0 (pattern_index a3 + 1)). split; [|cbn; by rewrite Hi1].
  replace (Z.to_nat (on_length pn + off_length pn)) with (Z.to_nat (on_length pn) + (1 + S k))%nat by lia.
  unfold ticks. rewrite !repeat_app, !do_steps_app. fold (ticks (Z.to_nat (on_length pn))). rewrite H2. cbn [rbind].
  rewrite do_steps_app. fold (ticks 1) (ticks (S k)). rewrite H3. cbn [rbind].
  rewrite (phase_three_run k a3 p); [done|by destruct Hp2; split|done|cbn; lia].
Qed.

(** Two keys held, pattern 2, forwards. *)
Definition ex_steps : list arp_step := [Press 64 100; Press 60 90; Tick false; Press 64 80; Release 60].

Definition ex_start : arpeggiator :=
  match start (new_arpeggiator []) arp_forward 2 with Ok a => a | Err _ => new_arpeggiator [] end.

Lemma arp_keys_refine_witness : exists a1 out a2 r,
  do_steps ex_start ex_steps = Ok (a1, out) /\ held a1 = [(64, (80, 2))] /\
  enable_key a1 67 99 = Ok (a2, r) /\ held a2 = [(64, (80, 2)); (67, (99, 1))].
Proof.
  destruct (arp_keys_refine (new_arpeggiator []) arp_forward 2 ex_start ex_steps 67 99)
    as (a1 & out & a2 & r & H1 & H2 & _ & H4 & H5); [vm_compute; reflexivity|].
  exists a1, out, a2, r. split; [exact H1|]. change (fold_left spec_step ex_steps []) with [(64, (80, 2))] in H2.
  split; [exact H2|]. split; [exact H4|]. rewrite H2 in H5. by injection H5.
Defined.

Lemma arp_single_note_witness : exists a1 out,
  do_steps ex_start (ex_steps ++ [Release 64; Release 64]) = Ok (a1, out) /\ out = [NoteOn 64 100] /\
  exists a2 more, process_pattern false a1 = Ok (a2, more) /\ sounding [] (out ++ more) = [].
Proof.
  destruct (arp_single_note (new_arpeggiator []) arp_forward 2 ex_start (ex_steps ++ [Release 64; Release 64]))
    as (a1 & out & H1 & _ & _ & H4); [vm_compute; reflexivity|].
  exists a1, out. split; [exact H1|]. vm_compute in H1. injection H1 as <- <-.
  split; [reflexivity|]. apply H4. reflexivity.
Defined.

Definition ex_playing : arpeggiator :=
  match do_steps ex_start [Press 64 100; Press 60 90] with Ok (a, _) => a | Err _ => ex_start end.

Lemma ex_playing_ok : arp_ok ex_playing /\ playing ex_playing (ArpPattern 2
  (ArpNote 8 8 0 false :: ArpNote 8 8 1 false :: repeat (ArpNote 0 0 0 false) 14)).
Proof.
  split; [|split; vm_compute; congruence || done].
  destruct (start_ok (new_arpeggiator []) arp_forward 2 ex_start) as [H _]; [vm_compute; reflexivity|].
  destruct (steps_ok [Press 64 100; Press 60 90] ex_start [] H (or_introl eq_refl)) as (a & out & He & Ha & _).
  unfold ex_playing. by rewrite He.
Qed.

Lemma arp_step_timing_witness : exists a4,
  do_steps ex_playing (ticks 16) = Ok (a4, [NoteOn 64 100; NoteOff 64 100]) /\
  phase a4 = 0 /\ pattern_index a4 = 1.
Proof.
  destruct ex_playing_ok as [H1 H2].
  destruct (arp_step_timing ex_playing _ (ArpNote 8 8 0 false) H1 H2) as (a1 & a2 & a3 & n & v & f & T1 & _ & _ & _ & _ & _ & a4 & T4 & T5 & T6 & _);
    [reflexivity|reflexivity|cbn; lia|cbn; lia|].
  vm_compute in T1. injection T1 as _ <- <-. exists a4. split; [exact T4|]. split; [exact T5|]. exact T6.
Defined.
