(* ===== verification/Scales.v ===== *)
(** * Scales ([scales.cc], [scales.hh])

    The table of scales, the custom scale, the requests the server answers about them, and
    what the client makes of the answers. A reply is the list of its [set_value] calls; the
    client sees it as [received]. *)

From Stdlib Require Import ZArith Lia Ascii String List.
From stdpp Require Import base list strings numbers option.
From S2P Require Import Prelude CxxString StdMap Serialize Message Sequence RemoteContext.
Local Open Scope string_scope.
Local Open Scope list_scope.
Local Open Scope Z_scope.
Local Open Scope vk_scope.

(** ** The library *)

(** [scales_library]: offset, name and keys, before [initialize_scales_library]. *)
(* @src src_jni/scales.cc:33-130 scales_library *)
Definition scales_library : list (Z * string * list Z) :=
  [
    (0, "C- ", [0; 2; 4; 5; 7; 9; 11; 0; 2; 4; 5; 7; 9; 11; 0; 2; 4; 5; 7; 9; 11]);
    (0, "C-m", [0; 2; 3; 5; 7; 8; 10; 0; 2; 3; 5; 7; 8; 10; 0; 2; 4; 5; 7; 9; 11]);
    (0, "C#m", [1; 3; 4; 6; 8; 9; 11; 1; 3; 4; 6; 8; 9; 11; 0; 2; 4; 5; 7; 9; 11]);
    (1, "D- ", [1; 2; 4; 6; 7; 9; 11; 1; 2; 4; 6; 7; 9; 11; 0; 2; 4; 5; 7; 9; 11]);
    (1, "D-m", [0; 2; 4; 5; 7; 9; 10; 0; 2; 4; 5; 7; 9; 10; 0; 2; 4; 5; 7; 9; 11]);
    (1, "Db ", [0; 1; 3; 5; 6; 8; 10; 0; 1; 3; 5; 6; 8; 10; 0; 2; 4; 5; 7; 9; 11]);
    (1, "D#m", [1; 3; 5; 6; 8; 10; 11; 1; 3; 5; 6; 8; 10; 11; 0; 2; 4; 5; 7; 9; 11]);
    (2, "E- ", [1; 3; 4; 6; 8; 9; 11; 1; 3; 4; 6; 8; 9; 11; 0; 2; 4; 5; 7; 9; 11]);
    (2, "E-m", [0; 2; 4; 6; 7; 9; 11; 0; 2; 4; 6; 7; 9; 11; 0; 2; 4; 5; 7; 9; 11]);
    (2, "Eb ", [0; 2; 3; 5; 7; 8; 10; 0; 2; 3; 5; 7; 8; 10; 0; 2; 4; 5; 7; 9; 11]);
    (3, "F- ", [0; 2; 4; 5; 7; 9; 10; 0; 2; 4; 5; 7; 9; 10; 0; 2; 4; 5; 7; 9; 11]);
    (3, "F-m", [0; 1; 3; 5; 7; 8; 10; 0; 1; 3; 5; 7; 8; 10; 0; 2; 4; 5; 7; 9; 11]);
    (3, "F# ", [1; 3; 5; 6; 8; 10; 11; 1; 3; 5; 6; 8; 10; 11; 0; 2; 4; 5; 7; 9; 11]);
    (3, "F#m", [1; 2; 4; 6; 8; 9; 11; 1; 2; 4; 6; 8; 9; 11; 0; 2; 4; 5; 7; 9; 11]);
    (4, "G- ", [0; 2; 4; 6; 7; 9; 11; 0; 2; 4; 6; 7; 9; 11; 0; 2; 4; 5; 7; 9; 11]);
    (4, "G-m", [0; 2; 3; 5; 7; 9; 10; 0; 2; 3; 5; 7; 9; 10; 0; 2; 4; 5; 7; 9; 11]);
    (4, "G#m", [1; 3; 4; 6; 8; 10; 11; 1; 3; 4; 6; 8; 10; 11; 0; 2; 4; 5; 7; 9; 11]);
    (5, "A- ", [1; 2; 4; 6; 8; 9; 11; 1; 2; 4; 6; 8; 9; 11; 0; 2; 4; 5; 7; 9; 11]);
    (5, "A-m", [0; 2; 4; 5; 7; 9; 11; 0; 2; 4; 5; 7; 9; 11; 0; 2; 4; 5; 7; 9; 11]);
    (5, "Ab ", [0; 1; 3; 5; 7; 8; 10; 0; 1; 3; 5; 7; 8; 10; 0; 2; 4; 5; 7; 9; 11]);
    (6, "B- ", [1; 3; 4; 6; 8; 10; 11; 1; 3; 4; 6; 8; 10; 11; 0; 2; 4; 5; 7; 9; 11]);
    (6, "B-m", [1; 2; 4; 6; 7; 9; 11; 1; 2; 4; 6; 7; 9; 11; 0; 2; 4; 5; 7; 9; 11]);
    (6, "Bb ", [0; 2; 3; 5; 7; 9; 10; 0; 2; 3; 5; 7; 9; 10; 0; 2; 4; 5; 7; 9; 11]);
    (6, "Bbm", [0; 1; 3; 5; 6; 8; 10; 0; 1; 3; 5; 6; 8; 10; 0; 2; 4; 5; 7; 9; 11])
  ].

(* @src src_jni/scales.cc:132-137 initialize_scale *)
Definition initialize_scale (keys : list Z) : result (list Z) :=
  rfold (fun keys x =>
           let! k := load keys x in
           let! keys := store keys (x + 7) (k + 12) in
           store keys (x + 14) (k + 24)) keys [0; 1; 2; 3; 4; 5; 6].

(* @src src_jni/scales.cc:141-153 initialize_scales_library *)
Definition initialize_scales_library : result (list (Z * string * list Z)) :=
  rfold (fun lib entry => let '(offset, name, keys) := entry in
                          let! keys := initialize_scale keys in
                          Ok (lib ++ [(offset, name, keys)])) [] scales_library.

(* @src src_jni/scales.cc:155-157 key_text *)
Definition key_text : list string :=
  ["C-"; "C#"; "D-"; "D#"; "E-"; "F-"; "F#"; "G-"; "G#"; "A-"; "A#"; "B-"].

(* @src src_jni/scales.cc:304-306 Scales::get_key_text *)
Definition get_key_text (key : Z) : result string := load key_text (c_rem key 12).

(** ** The object *)

(* @src src_jni/scales.hh:129-133 Scales::Scale *)
Record scale : Type := Scale { name : string; keys : list Z }.

(** [custom_scale] points at an element of [scales]: its index. *)
(* @src src_jni/scales.hh:142-145 Scales *)
Record scales_object : Type := Scales {
  scales : list scale;
  scales_initialized : bool;
  custom_scale : Z
}.

Definition default_keys : list Z := [0; 2; 4; 5; 7; 9; 11].

(* @src src_jni/scales.cc:159-193 Scales::initialize_scales *)
Definition initialize_scales (s : scales_object) : result scales_object :=
  if scales_initialized s then Ok s else
  let! lib := initialize_scales_library in
  let! standard := rfold (fun scls entry =>
    let '(offset, name, keys) := entry in
    let! ks := rfold (fun ks l => let! k := load keys (l + offset) in Ok (ks ++ [k])) [] [0; 1; 2; 3; 4; 5; 6] in
    Ok (scls ++ [Scale name ks])) [] lib in
  Ok (Scales (standard ++ [Scale "CS1" default_keys]) true (Z.of_nat (List.length standard))).

(* @src src_jni/scales.cc:199-202 Scales::Scales *)
Definition new_scales : result scales_object := initialize_scales (Scales [] false 0).

(** ** Serialisation *)

(** An array whose elements [old] are overwritten. *)
(* @src src_jni/serialize.hh:117-126 ItemSerializer::process(array) *)
Definition array_serializable {A} (S : Serializable A) (old : list A) : Serializable (list A).
Proof.
  refine (nested "array" (put_elements S) (get_array S old)
    (fun l => Forall ser_ok l /\ List.length old = List.length l) (conj eq_refl eq_refl) _ _ _).
  - intros l [Hok _]. by apply put_elements_nul_free.
  - intros l [Hok Hlen]. destruct (String.eqb_spec (put_elements S l) "") as [He|Hne].
    + pose proof (put_elements_length S l Hok) as Hl. rewrite He in Hl. cbn in Hl.
      destruct l; [|cbn in Hl; lia]. by destruct old.
    + by apply get_array_put.
  - intros st. revert st. induction old as [|x old IH]; intros st; [done|]. cbn [get_array].
    destruct (is_eof st); [done|]. pose proof (deser_fuel st) as Hf.
    destruct (deser st) as [[a|e] st']; cbn in *.
    + unfold dbind. specialize (IH st'). destruct (get_array S old st') as [[l|e] st2]; cbn in *; congruence.
    + unfold dbind, dret. specialize (IH st').
      destruct e; try congruence; destruct (get_array S old st') as [[l|e] st2]; cbn in *; congruence.
Defined.

(* @src src_jni/scales.hh:135-139 Scales::Scale::serderize *)
Definition scale_serderize : Serializable scale :=
  fields_struct (fields_pair string_serializable (array_serializable int_serializable (repeat 0 7)))
    (fun p => Scale (fst p) (snd p)) (fun s => (name s, keys s))
    (fun s => match s with Scale n k => eq_refl end).

(** [process(scales)]: a container of [shared_ptr<Scale>]. *)
Definition scales_container : Serializable (list scale) :=
  container_serializable (object_serializable "Scales::Scale" scale_serderize (conj eq_refl eq_refl)).

(** ** What the server answers *)

(* @src src_jni/remote_interface.cc:259-264 Context::acquire_reply *)
Definition reply_with (msg : view) (values : pairs) : result pairs :=
  let! repid := msg "repid" in
  build (("id", to_string MSG_REPLY) :: ("repid", repid) :: values).

(** A handler: the object, and the reply it sends if it sends one. *)
Definition handler : Type := scales_object -> view -> result (scales_object * option pairs).

(* @src src_jni/scales.cc:204-214 Scales::handle_get_nr_scales *)
Definition handle_get_nr_scales : handler := fun s msg =>
  let! s := initialize_scales s in
  let! r := reply_with msg [("nrscl", to_string (Z.of_nat (List.length (scales s))))] in
  Ok (s, Some r).

(* @src src_jni/scales.cc:216-229 Scales::handle_get_scale_names *)
Definition handle_get_scale_names : handler := fun s msg =>
  let! s := initialize_scales s in
  let! r := reply_with msg [("scales", write_one scales_container (scales s))] in
  Ok (s, Some r).

(** The loop goes on after a match: the last scale of that name counts. *)
(* @src src_jni/scales.cc:237-245 Scales::handle_get_scale_keys *)
Definition keys_by_name (scls : list scale) (scale_name : string) : list Z :=
  fold_left (fun ks scl => if String.eqb (name scl) scale_name then keys scl else ks) scls default_keys.

(** [process] of an [int[7]] is the overload for containers. *)
(* @src src_jni/scales.cc:231-254 Scales::handle_get_scale_keys *)
Definition handle_get_scale_keys : handler := fun s msg =>
  let! s := initialize_scales s in
  let! scale_name := msg "name" in
  let ks := keys_by_name (scales s) scale_name in
  let! r := reply_with msg [("keys", write_one (container_serializable int_serializable) ks)] in
  Ok (s, Some r).

(* @src src_jni/scales.cc:256-275 Scales::handle_get_scale_keysn *)
Definition handle_get_scale_keysn : handler := fun s msg =>
  let! s := initialize_scales s in
  let! scale_index := get_int msg "index" in
  let! scl := load (scales s) scale_index in
  let! r := reply_with msg [("keys", write_one (container_serializable int_serializable) (keys scl))] in
  Ok (s, Some r).

(* @src src_jni/scales.cc:277-289 Scales::handle_get_custom_scale_key *)
Definition handle_get_custom_scale_key : handler := fun s msg =>
  let! s := initialize_scales s in
  let! offset := get_int msg "offset" in
  let! scl := load (scales s) (custom_scale s) in
  let! key := load (keys scl) offset in
  let! r := reply_with msg [("key", to_string key)] in
  Ok (s, Some r).

(* @src src_jni/scales.cc:291-303 Scales::handle_set_custom_scale_key *)
Definition handle_set_custom_scale_key : handler := fun s msg =>
  let! s := initialize_scales s in
  let! offset := get_int msg "offset" in
  let! key := get_int msg "key" in
  let! scl := load (scales s) (custom_scale s) in
  let! ks := store (keys scl) offset key in
  let! scls := store (scales s) (custom_scale s) (Scale (name scl) ks) in
  Ok (Scales scls (scales_initialized s) (custom_scale s), None).

(* @src src_jni/scales.hh:107-126 Scales::register_handlers *)
Definition scales_handler (command_id : string) : option handler :=
  if String.eqb command_id "getnrs" then Some handle_get_nr_scales
  else if String.eqb command_id "getnames" then Some handle_get_scale_names
  else if String.eqb command_id "getskeys" then Some handle_get_scale_keys
  else if String.eqb command_id "getskeysn" then Some handle_get_scale_keysn
  else if String.eqb command_id "getcsk" then Some handle_get_custom_scale_key
  else if String.eqb command_id "setcsk" then Some handle_set_custom_scale_key
  else None.

Definition process_scales_message (s : scales_object) (msg : view) : result (scales_object * option pairs) :=
  let! command_id := msg "commandid" in
  match scales_handler command_id with
  | Some h => h s msg
  | None => Ok (s, None)
  end.

(** [get_scale_keys(index, result)], for the code on the server. *)
(* @src src_jni/scales.cc:396-405 Scales::get_scale_keys *)
Definition get_scale_keys_serverside (s : scales_object) (index : Z) : result (list Z) :=
  let! scl := load (scales s) index in Ok (keys scl).

(** ** What the client makes of a reply ([None]: the connection was lost) *)

(* @src src_jni/scales.cc:308-324 Scales::get_number_of_scales *)
Definition get_number_of_scales (reply_message : option view) : result Z :=
  match reply_message with
  | Some m => get_int m "nrscl"
  | None => Ok 0
  end.

(* @src src_jni/scales.cc:326-347 Scales::get_scale_names *)
Definition get_scale_names (reply_message : option view) : result (list string) :=
  match reply_message with
  | Some m => let! data := m "scales" in
              let! scls := read_one scales_container data in
              Ok (map name scls)
  | None => Ok []
  end.

(* @src src_jni/scales.cc:349-368 Scales::get_scale_keys *)
Definition get_scale_keys (reply_message : option view) : result (list Z) :=
  match reply_message with
  | Some m => let! data := m "keys" in read_one (container_serializable int_serializable) data
  | None => Ok default_keys
  end.

(** The array read into is not initialised: [garbage]. *)
(* @src src_jni/scales.cc:370-394 Scales::get_scale_keys *)
Definition get_scale_keys_by_index (garbage : list Z) (reply_message : option view) : result (list Z) :=
  match reply_message with
  | Some m => let! data := m "keys" in read_one (array_serializable int_serializable garbage) data
  | None => Ok default_keys
  end.

(* @src src_jni/scales.cc:407-425 Scales::get_custom_scale_key *)
Definition get_custom_scale_key (reply_message : option view) : result Z :=
  match reply_message with
  | Some m => get_int m "key"
  | None => Ok 0
  end.

(** ** Well-formed objects *)

Definition scale_ok (s : scale) : Prop :=
  text_ok (name s) /\ List.length (keys s) = 7%nat /\ Forall in_i32 (keys s).

Record scales_ok (s : scales_object) : Prop := {
  ok_init : scales_initialized s = true;
  ok_scales : Forall scale_ok (scales s);
  ok_custom : 0 <= custom_scale s < Z.of_nat (List.length (scales s));
  ok_size : Z.of_nat (List.length (scales s)) < 2^31
}.

Lemma initialize_ok s : scales_ok s -> initialize_scales s = Ok s.
Proof. intros [H _ _ _]. unfold initialize_scales. by rewrite H. Qed.

Lemma new_scales_ok : exists s, new_scales = Ok s /\ scales_ok s.
Proof.
  destruct new_scales as [s|e] eqn:E; [|vm_compute in E; discriminate E].
  exists s. split; [done|]. vm_compute in E. injection E as <-.
  split; [done| |cbn; lia|cbn; lia].
  cbn [scales]. repeat (constructor; [split; [by split|]; split; [done|]; repeat (constructor; [split; vm_compute; congruence|]); constructor|]).
  constructor.
Qed.

(** A reply with one value, and what the client sees of it. *)
Lemma reply_with_received msg rid k v : msg "repid" = Ok (to_string rid) ->
  good_key k -> k <> "id" -> k <> "repid" -> wire_text v -> v <> "" ->
  exists r, reply_with msg [(k, v)] = Ok r /\ deliverable r /\ received r k = Ok v.
Proof.
  intros Hr Hk H1 H2 Hv Hne. exists [("id", to_string MSG_REPLY); ("repid", to_string rid); (k, v)].
  assert (Hd : deliverable [("id", to_string MSG_REPLY); ("repid", to_string rid); (k, v)]).
  { split.
    - do 2 (constructor; [by apply good_number; repeat split|]). constructor; [by split|constructor].
    - cbn. apply list.NoDup_cons. split; [|apply list.NoDup_cons; split; [|apply NoDup_singleton]].
      + rewrite !elem_of_cons, elem_of_nil. intros [H|[H|[]]]; congruence.
      + rewrite !elem_of_cons, elem_of_nil. intros [H|[]]; congruence. }
  unfold reply_with. rewrite Hr. cbn [rbind]. split; [by apply build_deliverable|]. split; [done|].
  unfold received, lookup_kv. cbn [List.find fst]. rewrite !(proj2 (String.eqb_neq _ _)) by congruence.
  rewrite String.eqb_refl. cbn. unfold wire_value. by rewrite (proj2 (String.eqb_neq _ _)).
Qed.

Lemma write_one_reply {A} (S : Serializable A) msg rid k a : msg "repid" = Ok (to_string rid) ->
  good_key k -> k <> "id" -> k <> "repid" -> ser_ok a ->
  exists r, reply_with msg [(k, write_one S a)] = Ok r /\ deliverable r /\ received r k = Ok (write_one S a).
Proof. intros Hr Hk H1 H2 Ha. destruct (write_one_wire S a Ha). by eapply reply_with_received. Qed.

Ltac reply_key := first [by repeat split|discriminate].

Lemma scales_container_ok scls : Forall scale_ok scls -> ser_ok (Serializable := scales_container) scls.
Proof.
  intros Hall. eapply List.Forall_impl; [|exact Hall]. intros [n ks] (Hn & Hl & Hk).
  cbn in *. split; [exact Hn|]. split; [exact Hk|done].
Qed.

Lemma keys_by_name_range scls n : Forall scale_ok scls -> Forall in_i32 (keys_by_name scls n).
Proof.
  unfold keys_by_name. assert (Hd : Forall in_i32 default_keys) by (repeat (constructor; [split; vm_compute; congruence|]); constructor).
  revert Hd. generalize default_keys as ks. induction scls as [|scl scls IH]; intros ks Hks Hall; [done|].
  apply List.Forall_cons_iff in Hall as [(_ & _ & Hr) Hall]. cbn [fold_left].
  destruct (String.eqb (name scl) n); by apply IH.
Qed.

(** C33: Questions about scales are answered: on an initialised server the reply to each request
    is one the connection carries unchanged, the object does not change, and the client
    reads from it the number of scales, their names in order, the seven keys of the scale
    of a given name (C major if there is none), and a key of the custom scale. *)
Theorem scale_queries_answered s msg rid scale_name offset scl key : scales_ok s ->
  msg "repid" = Ok (to_string rid) -> msg "name" = Ok scale_name -> get_int msg "offset" = Ok offset ->
  load (scales s) (custom_scale s) = Ok scl -> load (keys scl) offset = Ok key ->
  exists r1 r2 r3 r4,
    handle_get_nr_scales s msg = Ok (s, Some r1) /\ handle_get_scale_names s msg = Ok (s, Some r2) /\
    handle_get_scale_keys s msg = Ok (s, Some r3) /\ handle_get_custom_scale_key s msg = Ok (s, Some r4) /\
    Forall deliverable [r1; r2; r3; r4] /\
    get_number_of_scales (Some (received r1)) = Ok (Z.of_nat (List.length (scales s))) /\
    get_scale_names (Some (received r2)) = Ok (map name (scales s)) /\
    get_scale_keys (Some (received r3)) = Ok (keys_by_name (scales s) scale_name) /\
    get_custom_scale_key (Some (received r4)) = Ok key.
Proof.
  intros Hs Hr Hn Ho Hscl Hkey. pose proof Hs as [H1 H2 H3 H4].
  assert (Hcust : scale_ok scl).
  { apply load_ok_inv in Hscl as [_ Hscl]. rewrite List.Forall_forall in H2. by eapply H2, list_elem_of_In, list_elem_of_lookup_2. }
  assert (Hkr : in_i32 key).
  { destruct Hcust as (_ & _ & Hk). apply load_ok_inv in Hkey as [_ Hkey]. rewrite List.Forall_forall in Hk.
    by eapply Hk, list_elem_of_In, list_elem_of_lookup_2. }
  destruct (reply_with_received msg rid "nrscl" (to_string (Z.of_nat (List.length (scales s))))) as (r1 & E1 & D1 & V1);
    [done|reply_key|reply_key|reply_key|apply to_string_wire|apply to_string_nonempty|].
  destruct (write_one_reply scales_container msg rid "scales" (scales s)) as (r2 & E2 & D2 & V2);
    [done|reply_key|reply_key|reply_key|by apply scales_container_ok|].
  destruct (write_one_reply (container_serializable int_serializable) msg rid "keys" (keys_by_name (scales s) scale_name))
    as (r3 & E3 & D3 & V3); [done|reply_key|reply_key|reply_key|by apply keys_by_name_range|].
  destruct (reply_with_received msg rid "key" (to_string key)) as (r4 & E4 & D4 & V4);
    [done|reply_key|reply_key|reply_key|apply to_string_wire|apply to_string_nonempty|].
  exists r1, r2, r3, r4.
  unfold handle_get_nr_scales, handle_get_scale_names, handle_get_scale_keys, handle_get_custom_scale_key.
  rewrite (initialize_ok s Hs). cbn [rbind]. rewrite E1, E2, Hn. cbn [rbind]. rewrite E3, Ho. cbn [rbind].
  rewrite Hscl. cbn [rbind]. rewrite Hkey. cbn [rbind]. rewrite E4. cbn [rbind]. do 4 (split; [done|]).
  split; [do 4 (apply List.Forall_cons; [done|]); constructor|].
  unfold get_number_of_scales, get_scale_names, get_scale_keys, get_custom_scale_key, get_int, rmap.
  rewrite V1, V2, V3, V4. cbn [rbind]. rewrite !stoi_to_string by (done || unfold in_i32; lia). split; [done|].
  rewrite read_write_one by (by apply scales_container_ok). split; [done|].
  rewrite read_write_one by (by apply keys_by_name_range). done.
Qed.

(** What follows [verify_type]: a container is not an array. *)
Lemma read_array_of_container garbage ks : Forall in_i32 ks ->
  read_one (array_serializable int_serializable garbage) (write_one (container_serializable int_serializable) ks) =
  Err UnexpectedTypeWhenDeserializing.
Proof.
  intros Hk. destruct (@ser_text _ (container_serializable int_serializable) ks Hk) as [H1 H2].
  unfold read_one, write_one, new_deserializer, serializer_result. rewrite decode_encode by done. cbn [rbind].
  reflexivity.
Qed.

(** Asking for a scale's keys by index fails: for every scale the server's reply can be
    delivered, but it holds the keys as a "container" where the client expects an "array", so
    the client's reply handler throws. *)
Theorem scale_keys_by_index_rejected s msg rid scale_index scl garbage : scales_ok s ->
  msg "repid" = Ok (to_string rid) -> get_int msg "index" = Ok scale_index ->
  load (scales s) scale_index = Ok scl -> exists r,
    handle_get_scale_keysn s msg = Ok (s, Some r) /\ deliverable r /\
    get_scale_keys (Some (received r)) = Ok (keys scl) /\
    get_scale_keys_by_index garbage (Some (received r)) = Err UnexpectedTypeWhenDeserializing.
Proof.
  intros Hs Hr Hi Hl. pose proof Hs as [H1 H2 H3 H4].
  assert (Hk : Forall in_i32 (keys scl)).
  { apply load_ok_inv in Hl as [_ Hl]. rewrite List.Forall_forall in H2.
    by eapply (H2 scl), list_elem_of_In, list_elem_of_lookup_2. }
  destruct (write_one_reply (container_serializable int_serializable) msg rid "keys" (keys scl))
    as (r & E & D & V); [done|reply_key|reply_key|reply_key|done|].
  exists r. unfold handle_get_scale_keysn, get_scale_keys, get_scale_keys_by_index.
  rewrite (initialize_ok s Hs), Hi. cbn [rbind]. rewrite Hl. cbn [rbind]. rewrite E, V. cbn [rbind].
  split; [done|]. split; [done|]. split; [by apply read_write_one|by apply read_array_of_container].
Qed.

(** Bounds of the custom scale: a client's request to set a key is carried out exactly when
    the offset it names is one of the seven keys; it then changes that key of the scale
    "CS1" and nothing else, and the object stays well formed. Any other offset is written
    outside the array. *)
Theorem custom_scale_bounds s msg offset key scl : scales_ok s ->
  get_int msg "offset" = Ok offset -> get_int msg "key" = Ok key ->
  load (scales s) (custom_scale s) = Ok scl ->
  if (0 <=? offset) && (offset <? 7)
  then exists s', handle_set_custom_scale_key s msg = Ok (s', None) /\ scales_ok s' /\
         custom_scale s' = custom_scale s /\
         scales s' = <[Z.to_nat (custom_scale s) := Scale (name scl) (<[Z.to_nat offset := key]> (keys scl))]> (scales s)
  else exists what, handle_set_custom_scale_key s msg = Err (UndefinedBehaviour what).
Proof.
  intros Hs Ho Hk Hl. pose proof Hs as [H1 H2 H3 H4]. unfold handle_set_custom_scale_key.
  rewrite (initialize_ok s Hs). cbn [rbind]. rewrite Ho. cbn [rbind]. rewrite Hk. cbn [rbind].
  rewrite Hl. cbn [rbind].
  assert (Hscl : scale_ok scl).
  { apply load_ok_inv in Hl as [_ Hl]. rewrite List.Forall_forall in H2.
    by eapply H2, list_elem_of_In, list_elem_of_lookup_2. }
  destruct Hscl as (Hn & Hlen & Hr). apply get_int_inv in Hk.
  destruct ((0 <=? offset) && (offset <? 7)) eqn:E.
  2:{ eexists. unfold store. rewrite Hlen. change (Z.of_nat 7) with 7. rewrite E. reflexivity. }
  zbool. rewrite store_in by lia. cbn [rbind].
  rewrite store_in by lia. cbn [rbind]. eexists. split; [reflexivity|]. split; [|done].
  split; cbn; [done| |by rewrite length_insert|by rewrite length_insert].
  apply Forall_insert; [done|]. split; [done|]. cbn. rewrite length_insert. split; [done|].
  by apply Forall_insert.
Qed.

(** ** The library against music theory *)

(** The note a name starts with: a letter, then an accidental ("-" is none). *)
Definition named_root (n : string) : option Z :=
  match n with
  | String l (String a _) =>
      let letter := match l with
        | "C" => Some 0 | "D" => Some 2 | "E" => Some 4 | "F" => Some 5
        | "G" => Some 7 | "A" => Some 9 | "B" => Some 11 | _ => None end%char in
      let accidental := match a with "#" => Some 1 | "b" => Some (-1) | "-" => Some 0 | _ => None end%char in
      match letter, accidental with Some x, Some y => Some (x + y) | _, _ => None end
  | _ => None
  end.

(** A major scale, or a natural minor one if the name ends in "m". *)
Definition named_intervals (n : string) : list Z :=
  match n with
  | String _ (String _ (String "m" EmptyString)) => [0; 2; 3; 5; 7; 8; 10]
  | _ => [0; 2; 4; 5; 7; 9; 11]
  end.

Definition as_named (scl : scale) : bool :=
  match named_root (name scl) with
  | Some r => bool_decide (keys scl = map (fun i => r + i) (named_intervals (name scl)))
  | None => false
  end.

(** The scale library: after initialisation there are 24 library scales and then the custom
    one, "CS1", in C major; every library scale is exactly the major scale, or the natural minor
    one, that its name says: from the note it names, in ascending order, within two octaves. *)
Theorem scale_library_correct : exists s, new_scales = Ok s /\
  List.length (scales s) = 25%nat /\ scales s !! 24%nat = Some (Scale "CS1" [0; 2; 4; 5; 7; 9; 11]) /\
  forall i scl, (i < 24)%nat -> scales s !! i = Some scl ->
    as_named scl = true /\ Forall (fun k => 0 <= k < 24) (keys scl).
Proof.
  destruct new_scales as [s|e] eqn:E; [|vm_compute in E; discriminate E].
  exists s. split; [done|]. vm_compute in E. injection E as <-. cbn [scales].
  split; [done|]. split; [done|]. intros i scl Hi Hl.
  do 24 (destruct i as [|i]; [injection Hl as <-; split; [by vm_compute|repeat (constructor; [lia|]); constructor]|]). lia.
Qed.

(** ** Witnesses *)

Definition ex_scales : scales_object := match new_scales with Ok s => s | Err _ => Scales [] true 0 end.

Lemma ex_scales_ok : scales_ok ex_scales.
Proof. destruct new_scales_ok as (s & E & Hs). unfold ex_scales. by rewrite E. Qed.

Definition ex_query : view :=
  received [("commandid", "any"); ("name", "Eb "); ("offset", "5"); ("key", "10"); ("index", "3"); ("repid", to_string 12)].

Lemma scale_queries_answered_witness : exists r,
  handle_get_scale_keys ex_scales ex_query = Ok (ex_scales, Some r) /\
  get_scale_keys (Some (received r)) = Ok [3; 5; 7; 8; 10; 12; 14].
Proof.
  destruct (scale_queries_answered ex_scales ex_query 12 "Eb " 5 (Scale "CS1" default_keys) 9 ex_scales_ok)
    as (r1 & r2 & r3 & r4 & _ & _ & E3 & _ & _ & _ & _ & V3 & _);
    [vm_compute; reflexivity|vm_compute; reflexivity|vm_compute; reflexivity|vm_compute; reflexivity|vm_compute; reflexivity|].
  exists r3. split; [exact E3|]. rewrite V3. vm_compute. reflexivity.
Defined.

Lemma scale_keys_by_index_rejected_witness : exists r,
  handle_get_scale_keysn ex_scales ex_query = Ok (ex_scales, Some r) /\
  get_scale_keys_by_index (repeat 0 7) (Some (received r)) = Err UnexpectedTypeWhenDeserializing.
Proof.
  destruct (scale_keys_by_index_rejected ex_scales ex_query 12 3 (Scale "D- " [2; 4; 6; 7; 9; 11; 13]) (repeat 0 7) ex_scales_ok)
    as (r & E & _ & _ & V); [vm_compute; reflexivity|vm_compute; reflexivity|vm_compute; reflexivity|].
  exists r. split; [exact E|exact V].
Defined.

Lemma custom_scale_bounds_witness : exists s',
  handle_set_custom_scale_key ex_scales ex_query = Ok (s', None) /\
  scales s' !! 24%nat = Some (Scale "CS1" [0; 2; 4; 5; 7; 10; 11]).
Proof.
  pose proof (custom_scale_bounds ex_scales ex_query 5 10 (Scale "CS1" default_keys) ex_scales_ok) as H.
  destruct H as (s' & E & _ & _ & Hs'); [vm_compute; reflexivity|vm_compute; reflexivity|vm_compute; reflexivity|].
  exists s'. split; [exact E|]. rewrite Hs'. vm_compute. reflexivity.
Defined.
