(* ===== verification/PadMotion.v ===== *)
(** * Pad motions ([Pad::PadConfiguration] and [Pad::PadMotion] of engine_code/pad.cc)

    A motion is what one finger did on the pad from press to release: positions with the tick
    they were reached at, counted from the start. Playing it queues controller, note and
    pitch bend events, directly or through the arpeggiator. The recorded motions of a finger
    form a doubly linked list on a heap, ordered by their start ticks. *)

From Stdlib Require Import String ZArith Lia List Sorted Permutation.
From stdpp Require Import base list numbers option.
From S2P Require Import Prelude CxxString StdMap PadTime Scales Arpeggiator.
Local Open Scope list_scope.
Local Open Scope Z_scope.
Local Open Scope vk_scope.

Definition MAX_PAD_CHORD : Z := 6.
Definition MACHINE_TICK_BITMASK : Z := 0xf.
Definition MACHINE_LINE_BITMASK : Z := 0xffffff0.

(* @src src_jni/machine.cc:58-76 quantize_tick *)
Definition quantize_tick (start_tick : Z) : Z :=
  let offset := Z.land start_tick MACHINE_TICK_BITMASK in
  let new_tick := Z.land start_tick MACHINE_LINE_BITMASK in
  if Z.shiftr (Z.shiftl 1 BITS_PER_LINE) 1 <? offset then i32 (new_tick + Z.shiftl 1 BITS_PER_LINE) else new_tick.

(* @src src_jni/machine.hh:152-156 Machine::Controller::SpecialController *)
Definition sc_special_first : Z := 1024.
Definition sc_pitch_bend : Z := 1024.

(** ** The configuration *)

(** [ChordMode]; loading a project casts any [int] to it. *)
(* @src src_jni/engine_code/pad.hh:55-59 PadConfiguration::ChordMode *)
Definition chord_off : Z := 0.
Definition chord_triad : Z := 1.
Definition chord_quad : Z := 2.

(* @src src_jni/engine_code/pad.hh:64-70 PadConfiguration *)
Record pad_config : Type := PadConfig {
  config_direction : Z;
  chord_mode : Z;
  scale_id : Z;
  last_scale : Z;
  octave : Z;
  arpeggio_pattern : Z;
  scale_data : list Z;
  pad_controller_coarse : list Z;
  pad_controller_fine : list Z
}.

(** Arrays that no constructor initialises start with indeterminate values. *)
(* @src src_jni/engine_code/pad.cc:360-367 PadConfiguration::PadConfiguration *)
Definition new_config (indeterminate : list Z) (arp_dir scale octave : Z) : pad_config :=
  PadConfig arp_dir chord_off scale (-1) octave 0 indeterminate [-1; -1] [-1; -1].

(* @src src_jni/engine_code/pad.cc:369-376 PadConfiguration::PadConfiguration *)
Definition copy_config (indeterminate : list Z) (parent : pad_config) : pad_config :=
  PadConfig (config_direction parent) (chord_mode parent) (scale_id parent) (-1) (octave parent)
    (arpeggio_pattern parent) indeterminate (pad_controller_coarse parent) (pad_controller_fine parent).

(** [id % 2] is negative for a negative odd [id]. *)
(* @src src_jni/engine_code/pad.cc:378-381 PadConfiguration::set_coarse_controller *)
Definition set_coarse_controller (c : pad_config) (id v : Z) : result pad_config :=
  let! cc := store (pad_controller_coarse c) (c_rem id 2) v in
  Ok (PadConfig (config_direction c) (chord_mode c) (scale_id c) (last_scale c) (octave c)
        (arpeggio_pattern c) (scale_data c) cc (pad_controller_fine c)).

(* @src src_jni/engine_code/pad.cc:383-386 PadConfiguration::set_fine_controller *)
Definition set_fine_controller (c : pad_config) (id v : Z) : result pad_config :=
  let! cf := store (pad_controller_fine c) (c_rem id 2) v in
  Ok (PadConfig (config_direction c) (chord_mode c) (scale_id c) (last_scale c) (octave c)
        (arpeggio_pattern c) (scale_data c) (pad_controller_coarse c) cf).

(* @src src_jni/engine_code/pad.cc:388-390 PadConfiguration::set_arpeggio_direction *)
Definition set_arpeggio_direction (c : pad_config) (dir : Z) : pad_config :=
  PadConfig dir (chord_mode c) (scale_id c) (last_scale c) (octave c)
    (arpeggio_pattern c) (scale_data c) (pad_controller_coarse c) (pad_controller_fine c).

(* @src src_jni/engine_code/pad.cc:392-394 PadConfiguration::set_arpeggio_pattern *)
Definition set_arpeggio_pattern (c : pad_config) (arp_pattern : Z) : pad_config :=
  PadConfig (config_direction c) (chord_mode c) (scale_id c) (last_scale c) (octave c)
    arp_pattern (scale_data c) (pad_controller_coarse c) (pad_controller_fine c).

(* @src src_jni/engine_code/pad.cc:396-398 PadConfiguration::set_chord_mode *)
Definition set_chord_mode (c : pad_config) (mode : Z) : pad_config :=
  PadConfig (config_direction c) mode (scale_id c) (last_scale c) (octave c)
    (arpeggio_pattern c) (scale_data c) (pad_controller_coarse c) (pad_controller_fine c).

(* @src src_jni/engine_code/pad.cc:400-402 PadConfiguration::set_scale *)
Definition set_scale (c : pad_config) (scale : Z) : pad_config :=
  PadConfig (config_direction c) (chord_mode c) scale (last_scale c) (octave c)
    (arpeggio_pattern c) (scale_data c) (pad_controller_coarse c) (pad_controller_fine c).

(* @src src_jni/engine_code/pad.cc:404-406 PadConfiguration::set_octave *)
Definition set_octave (c : pad_config) (oct : Z) : pad_config :=
  PadConfig (config_direction c) (chord_mode c) (scale_id c) (last_scale c) oct
    (arpeggio_pattern c) (scale_data c) (pad_controller_coarse c) (pad_controller_fine c).

(** The element [<c .../>], as its attributes; a missing one is [None]. *)
Record config_xml : Type := ConfigXml {
  xml_m : option Z; xml_c : option Z; xml_s : option Z; xml_o : option Z; xml_arp : option Z;
  xml_cc : option Z; xml_cf : option Z; xml_czc : option Z; xml_czf : option Z
}.

(* @src src_jni/engine_code/pad.cc:408-420 PadConfiguration::get_configuration_xml *)
Definition get_configuration_xml (c : pad_config) : result config_xml :=
  let! cc := load (pad_controller_coarse c) 0 in
  let! cf := load (pad_controller_fine c) 0 in
  let! czc := load (pad_controller_coarse c) 1 in
  let! czf := load (pad_controller_fine c) 1 in
  Ok (ConfigXml (Some (config_direction c)) (Some (chord_mode c)) (Some (scale_id c)) (Some (octave c))
        (Some (arpeggio_pattern c)) (Some cc) (Some cf) (Some czc) (Some czf)).

(* @src src_jni/engine_code/pad.cc:422-445 PadConfiguration::load_configuration_from_xml *)
Definition load_configuration_from_xml (c : pad_config) (x : config_xml) : pad_config :=
  PadConfig (default 0 (xml_m x)) (default 0 (xml_c x)) (default (scale_id c) (xml_s x)) (last_scale c)
    (default (octave c) (xml_o x)) (default (arpeggio_pattern c) (xml_arp x)) (scale_data c)
    [default (-1) (xml_cc x); default (-1) (xml_czc x)]
    [default (-1) (xml_cf x); default (-1) (xml_czf x)].

(** ** Motions *)

(** A pointer to a motion is its address on the heap of motions. *)
(* @src src_jni/engine_code/pad.hh:165-190 PadMotion *)
Record motion : Type := Motion {
  config : pad_config;
  index : Z;
  crnt_tick : Z;
  last_chord : list Z;
  last_x : Z;
  xs : list Z;
  ys : list Z;
  zs : list Z;
  ts : list Z;
  arperator : arpeggiator;
  start_tick : Z;
  terminated : bool;
  to_be_deleted : bool;
  prev : option Z;
  next : option Z
}.

Definition with_play (m : motion) (idx tick : Z) (chord : list Z) (lx : Z) (arp : arpeggiator) (c : pad_config) : motion :=
  Motion c idx tick chord lx (xs m) (ys m) (zs m) (ts m) arp (start_tick m) (terminated m)
    (to_be_deleted m) (prev m) (next m).

Definition with_points (m : motion) (x y z t : list Z) : motion :=
  Motion (config m) (index m) (crnt_tick m) (last_chord m) (last_x m) x y z t (arperator m)
    (start_tick m) (terminated m) (to_be_deleted m) (prev m) (next m).

Definition with_flags (m : motion) (start : Z) (term del : bool) : motion :=
  Motion (config m) (index m) (crnt_tick m) (last_chord m) (last_x m) (xs m) (ys m) (zs m) (ts m) (arperator m)
    start term del (prev m) (next m).

Definition with_links (m : motion) (p n : option Z) : motion :=
  Motion (config m) (index m) (crnt_tick m) (last_chord m) (last_x m) (xs m) (ys m) (zs m) (ts m) (arperator m)
    (start_tick m) (terminated m) (to_be_deleted m) p n.

(* @src src_jni/engine_code/pad.cc:576-590 PadMotion::quantize *)
Definition quantize (m : motion) : motion :=
  with_flags m (quantize_tick (start_tick m)) (terminated m) (to_be_deleted m).

(* @src src_jni/engine_code/pad.cc:592-599 PadMotion::add_position *)
Definition add_position (m : motion) (x y z : Z) : motion :=
  if terminated m then m
  else with_points m (xs m ++ [x]) (ys m ++ [y]) (zs m ++ [z]) (ts m ++ [i32 (crnt_tick m + 1)]).

(** The members the constructors leave uninitialised are parameters; the arpeggiator is a new one. *)
(* @src src_jni/engine_code/pad.cc:466-476 PadMotion::PadMotion *)
Definition new_motion (garbage_scale : list Z) (garbage_x : Z) (parent_config : pad_config)
    (session_position x y z : Z) : motion :=
  add_position
    (Motion (copy_config garbage_scale parent_config) (-1) (-1) (repeat (-1) (Z.to_nat MAX_PAD_CHORD)) garbage_x
       [] [] [] [] (new_arpeggiator (repeat (0, 0) (Z.to_nat MAX_ARP_FINGERS))) session_position false false None None)
    x y z.

(** The motion stops at least one tick after it starts. *)
(* @src src_jni/engine_code/pad.cc:601-609 PadMotion::terminate *)
Definition terminate (m : motion) : result motion :=
  let m := with_flags m (start_tick m) true (to_be_deleted m) in
  let last := Z.of_nat (length (ts m)) - 1 in
  if 0 <? last then
    let! t0 := load (ts m) 0 in
    let! tl := load (ts m) last in
    if t0 =? tl then
      let! ts := store (ts m) last (i32 (tl + 1)) in
      Ok (with_points m (xs m) (ys m) (zs m) ts)
    else Ok m
  else Ok m.

(* @src src_jni/engine_code/pad.cc:628-643 PadMotion::start_motion *)
Definition start_motion (m : motion) (session_position : Z) : result (motion * bool) :=
  if (index m =? -1) && (session_position =? start_tick m) then
    let c := config m in
    let! arp := start (arperator m) (config_direction c) (arpeggio_pattern c) in
    Ok (with_play m 0 (-1) (last_chord m) (-1) arp c, true)
  else Ok (m, false).

(** [last_chord] keeps its values. *)
(* @src src_jni/engine_code/pad.cc:645-649 PadMotion::reset *)
Definition reset_motion (m : motion) : motion :=
  with_play m (-1) (-1) (last_chord m) (-1) (arperator m) (config m).

(** ** Saving and loading a motion *)

(** [<d .../>] *)
Record point_xml : Type := PointXml { xml_x : option Z; xml_y : option Z; xml_z : option Z; xml_t : option Z }.

(** [<m ...>]: its own attributes read as a configuration, the element [<c .../>], the points. *)
Record motion_xml : Type := MotionXml {
  xml_f : option Z;
  xml_start : option Z;
  xml_own : config_xml;
  xml_config : option config_xml;
  xml_points : list point_xml
}.

Definition no_config_xml : config_xml := ConfigXml None None None None None None None None None.

Fixpoint points_xml (xs ys zs ts : list Z) : result (list point_xml) :=
  match xs, ys, zs, ts with
  | [], _, _, _ => Ok []
  | x :: xs, y :: ys, z :: zs, t :: ts =>
      let! rest := points_xml xs ys zs ts in
      Ok (PointXml (Some x) (Some y) (Some z) (Some t) :: rest)
  | _, _, _, _ => Err (UndefinedBehaviour "a coordinate without the others"%string)
  end.

(* @src src_jni/engine_code/pad.cc:453-464 PadMotion::get_padmotion_xml *)
Definition get_padmotion_xml (finger : Z) (m : motion) : result motion_xml :=
  let! c := get_configuration_xml (config m) in
  let! points := points_xml (xs m) (ys m) (zs m) (ts m) in
  Ok (MotionXml (Some finger) (Some (start_tick m)) no_config_xml (Some c) points).

(** 12 bit coordinates become 14 bit ones. *)
(* @src src_jni/engine_code/pad.cc:504-506 PadMotion::PadMotion *)
Definition convert_12_bit (v : Z) : Z := i32 (Z.lor (Z.shiftl (Z.land v 0xfe0) 2) (Z.land v 0x1f)).

(* @src src_jni/engine_code/pad.cc:496-528 PadMotion::PadMotion *)
Fixpoint load_old_points (first : option Z) (ps : list point_xml) : list (Z * Z * Z) :=
  match ps with
  | [] => []
  | p :: ps =>
      let x := convert_12_bit (default (-1) (xml_x p)) in
      let y := convert_12_bit (default (-1) (xml_y p)) in
      let abs_time := default (-1) (xml_t p) in
      let at_tick := i32 (PAD_TIME_LINE abs_time * MACHINE_TICKS_PER_LINE + PAD_TIME_TICK abs_time) in
      let first_tick := default at_tick first in
      let t := i32 (at_tick - first_tick) in
      (if 0 <=? t then [(x, y, t)] else []) ++ load_old_points (Some first_tick) ps
  end.

(** The motion of a project below level 5, and the [start_offset_return] it sets, if any. *)
(* @src src_jni/engine_code/pad.cc:478-529 PadMotion::PadMotion *)
Definition new_motion_old_xml (garbage_scale : list Z) (garbage_tick garbage_x : Z) (parent_config : pad_config)
    (x : motion_xml) : motion * option Z :=
  let c := load_configuration_from_xml (copy_config garbage_scale parent_config) (default (xml_own x) (xml_config x)) in
  let ps := load_old_points None (xml_points x) in
  (Motion c (-1) garbage_tick (repeat (-1) (Z.to_nat MAX_PAD_CHORD)) garbage_x
     (map (fun p => fst (fst p)) ps) (map (fun p => snd (fst p)) ps) (map (fun _ => 0) ps) (map snd ps)
     (new_arpeggiator (repeat (0, 0) (Z.to_nat MAX_ARP_FINGERS))) 0 true false None None,
   option_map (fun p => default (-1) (xml_t p)) (head (xml_points x))).

(* @src src_jni/engine_code/pad.cc:531-574 PadMotion::PadMotion *)
Definition new_motion_xml (garbage_scale : list Z) (garbage_tick garbage_x : Z) (project_interface_level : Z)
    (parent_config : pad_config) (x : motion_xml) : motion :=
  let c := load_configuration_from_xml (copy_config garbage_scale parent_config) (default (xml_own x) (xml_config x)) in
  let old := project_interface_level <? 8 in
  let coordinate v := if old then convert_12_bit (default (-1) v) else default (-1) v in
  let ps := xml_points x in
  Motion c (-1) garbage_tick (repeat (-1) (Z.to_nat MAX_PAD_CHORD)) garbage_x
    (map (fun p => coordinate (xml_x p)) ps) (map (fun p => coordinate (xml_y p)) ps)
    (map (fun p => if old then 0 else default 0 (xml_z p)) ps) (map (fun p => default (-1) (xml_t p)) ps)
    (new_arpeggiator (repeat (0, 0) (Z.to_nat MAX_ARP_FINGERS))) (default (-1) (xml_start x)) true false None None.

(** ** Playing a motion *)

(** A mode that is none of the three leaves [chord] as it was: indeterminate. *)
(* @src src_jni/engine_code/pad.cc:651-677 PadMotion::build_chord *)
Definition build_chord (c : pad_config) (scale_offset : Z) (chord : list Z) (pad_column : Z) : result (list Z) :=
  let key i := let! k := load (scale_data c) (pad_column + i + scale_offset) in Ok (octave c * 12 + k) in
  if chord_mode c =? chord_triad then
    let! k0 := key 0 in let! k2 := key 2 in let! k4 := key 4 in
    Ok [k0; k2; k4; -1; -1; -1]
  else if chord_mode c =? chord_quad then
    let! k0 := key 0 in let! k2 := key 2 in let! k4 := key 4 in let! k0' := key 0 in
    Ok [k0; k2; k4; k0' + 12; -1; -1]
  else Ok chord.

(* @src src_jni/engine_code/pad.cc:702-706 PadMotion::process_motion *)
Definition default_scale_data : list Z :=
  [0; 2; 4; 5; 7; 9; 11; 12; 14; 16; 17; 19; 21; 23; 24; 26; 28; 29; 31; 33; 35].

(** [scales_here] is the server's [Scales] object, if there is one. *)
(* @src src_jni/engine_code/pad.cc:690-710 PadMotion::process_motion *)
Definition refresh_scale (scales_here : option scales_object) (c : pad_config) : result pad_config :=
  if scale_id c =? last_scale c then Ok c else
  let! data := match scales_here with
    | Some s => let! ks := get_scale_keys_serverside s (scale_id c) in
                Ok (ks ++ map (fun k => k + 12) ks ++ map (fun k => k + 24) ks)
    | None => Ok default_scale_data
    end in
  Ok (PadConfig (config_direction c) (chord_mode c) (scale_id c) (scale_id c) (octave c)
        (arpeggio_pattern c) data (pad_controller_coarse c) (pad_controller_fine c)).

(** The controller or the pitch bend that axis [k] (0: y, 1: z) drives. *)
(* @src src_jni/engine_code/pad.cc:733-755 PadMotion::process_motion *)
Definition control_calls (c : pad_config) (c_c c_f : list Z) (k : Z) : result (list meb_call) :=
  let! pcc := load (pad_controller_coarse c) k in
  let! pcf := load (pad_controller_fine c) k in
  let! coarse := load c_c k in
  let! fine := load c_f k in
  if (0 <=? pcc) && (pcc <? 128) then
    Ok (Controller pcc coarse :: (if pcf =? -1 then [] else [Controller pcf fine]))
  else if sc_special_first <=? pcc then
    Ok (if pcc =? sc_pitch_bend then [PitchBend fine coarse] else [])
  else Ok [].

(** [arp_off] with a chord mode: the chord's notes replace the last chord's, one by one. *)
(* @src src_jni/engine_code/pad.cc:759-768 PadMotion::process_motion *)
Fixpoint chord_notes (mute : bool) (velocity : Z) (last chord : list Z) : list meb_call :=
  match last, chord with
  | l :: last, c :: chord =>
      (if l =? c then [] else
       (if l =? -1 then [] else [NoteOff l 0x7f]) ++
       (if (c =? -1) || mute then [] else [NoteOn c velocity])) ++
      chord_notes mute velocity last chord
  | _, _ => []
  end.

(** The same through the arpeggiator; a refused key becomes -1. *)
(* @src src_jni/engine_code/pad.cc:783-790 PadMotion::process_motion *)
Fixpoint chord_keys (velocity : Z) (a : arpeggiator) (last chord : list Z) : result (arpeggiator * list Z) :=
  match last, chord with
  | l :: last, c :: chord =>
      let! a := if l =? -1 then Ok a else disable_key a l in
      let! (a, c) := if c =? -1 then Ok (a, c) else enable_key a c velocity in
      let! (a, chord) := chord_keys velocity a last chord in
      Ok (a, c :: chord)
  | _, _ => Ok (a, chord)
  end.

(** One position: the body of the loop. *)
(* @src src_jni/engine_code/pad.cc:715-810 PadMotion::process_motion *)
Definition process_position (mute : bool) (garbage : list Z) (m : motion) : result (motion * list meb_call) :=
  let c := config m in
  let max := Z.of_nat (length (xs m)) in
  let! x := load (xs m) (index m) in
  let! y := load (ys m) (index m) in
  let! z := load (zs m) (index m) in
  let pad_column := Z.shiftr (Z.shiftr x 7) 4 in
  let! k := load (scale_data c) (pad_column + 0) in
  let note := octave c * 12 + k in
  let more := negb (terminated m) || (index m <? max - 1) in
  let! chord :=
    if negb (to_be_deleted m) && negb (chord_mode c =? chord_off) && more
    then build_chord c 0 garbage pad_column
    else Ok (repeat (-1) (Z.to_nat MAX_PAD_CHORD)) in
  let c_c := [Z.shiftr y 7; Z.shiftr z 7] in
  let c_f := [Z.land y 0x7f; Z.land z 0x7f] in
  let! coarse0 := load (pad_controller_coarse c) 0 in
  let velocity := if coarse0 =? -1 then Z.shiftr y 7 else 0x7f in
  let! ctl0 := control_calls c c_c c_f 0 in
  let! ctl1 := control_calls c c_c c_f 1 in
  let ending := to_be_deleted m || (terminated m && (index m =? max - 1)) in
  let! (arp, chord, note, out) :=
    if config_direction c =? arp_off then
      Ok (arperator m, chord, note,
          if negb (chord_mode c =? chord_off) then chord_notes mute velocity (last_chord m) chord
          else if negb (to_be_deleted m) && negb (last_x m =? note) then
            (if negb mute && more then [NoteOn note velocity] else []) ++
            (if last_x m =? -1 then [] else [NoteOff (last_x m) 0x7f])
          else if ending then [NoteOff (last_x m) 0x7f]
          else [])
    else if negb (chord_mode c =? chord_off) then
      let! (a, chord) := chord_keys velocity (arperator m) (last_chord m) chord in
      Ok (a, chord, note, [])
    else if negb (to_be_deleted m) then
      let! a := if last_x m =? -1 then Ok (arperator m) else disable_key (arperator m) (last_x m) in
      let! (a, note) := if more then enable_key a note velocity else Ok (a, note) in
      Ok (a, chord, note, [])
    else
      let! a := disable_key (arperator m) (last_x m) in
      Ok (a, chord, note, []) in
  Ok (with_play m (index m + 1) (crnt_tick m) chord note arp c, ctl0 ++ ctl1 ++ out).

(** The loop, at most [n] rounds: the positions that are left. *)
(* @src src_jni/engine_code/pad.cc:714-811 PadMotion::process_motion *)
Fixpoint process_positions (n : nat) (mute : bool) (garbage : list Z) (m : motion)
  : result (motion * list meb_call) :=
  if index m <? Z.of_nat (length (xs m)) then
    let! t := load (ts m) (index m) in
    if t <=? crnt_tick m then
      match n with
      | O => Err OutOfFuel
      | S n =>
          let! (m, out) := process_position mute garbage m in
          let! (m, more) := process_positions n mute garbage m in
          Ok (m, out ++ more)
      end
    else Ok (m, [])
  else Ok (m, []).

Definition positions_left (m : motion) : nat := Z.to_nat (Z.of_nat (length (xs m)) - index m).

(** Whether the motion is over, with the calls. *)
(* @src src_jni/engine_code/pad.cc:679-816 PadMotion::process_motion *)
Definition process_motion (scales_here : option scales_object) (mute : bool) (garbage : list Z) (m : motion)
  : result (motion * list meb_call * bool) :=
  if terminated m && (Z.of_nat (length (xs m)) <=? index m) then
    let! (arp, out) := process_pattern mute (arperator m) in
    Ok (with_play m (-1) (crnt_tick m) (last_chord m) (last_x m) arp (config m), out, true)
  else
    let! c := refresh_scale scales_here (config m) in
    let m := with_play m (index m) (i32 (crnt_tick m + 1)) (last_chord m) (last_x m) (arperator m) c in
    let! (m, out) := process_positions (positions_left m) mute garbage m in
    let! (arp, more) := process_pattern mute (arperator m) in
    Ok (with_play m (index m) (crnt_tick m) (last_chord m) (last_x m) arp (config m), out ++ more, false).

(** ** Quantising *)

Lemma land_tick t : Z.land t MACHINE_TICK_BITMASK = t mod 16.
Proof. unfold MACHINE_TICK_BITMASK. change 0xf with (Z.ones 4). by rewrite Z.land_ones by lia. Qed.

Lemma land_line t : 0 <= t < 2^28 -> Z.land t MACHINE_LINE_BITMASK = 16 * (t / 16).
Proof.
  intros Ht. unfold MACHINE_LINE_BITMASK. change 0xffffff0 with (Z.shiftl (Z.ones 24) 4).
  apply Z.bits_inj'. intros n Hn. rewrite Z.land_spec, Z.shiftl_spec by lia.
  replace (16 * (t / 16)) with (Z.shiftl (Z.shiftr t 4) 4)
    by (rewrite Z.shiftl_mul_pow2, Z.shiftr_div_pow2 by lia; change (2^4) with 16; lia).
  rewrite Z.shiftl_spec by lia. destruct (Z.ltb_spec n 4).
  { rewrite !(Z.testbit_neg_r _ (n - 4)) by lia. apply andb_false_r. }
  rewrite Z.shiftr_spec by lia. replace (n - 4 + 4) with n by lia.
  destruct (Z.ltb_spec n 28); [rewrite (Z.ones_spec_low 24) by lia; apply andb_true_r|].
  rewrite (Z.ones_spec_high 24) by lia. rewrite andb_false_r. symmetry.
  destruct (Z.eq_dec t 0) as [->|]; [apply Z.testbit_0_l|].
  apply Z.bits_above_log2; [lia|]. apply Z.log2_lt_pow2; [lia|].
  apply Z.lt_le_trans with (2^28); [lia|]. apply Z.pow_le_mono_r; lia.
Qed.

(** For a tick of 28 bits [quantize_tick] is the nearest line, a tick in the middle of a
    line going to the line before it: the mask arithmetic agrees with a rounded division. So
    the result is the start of a line at most 8 ticks away, quantising keeps the order of
    ticks and quantising twice changes nothing. *)
Theorem quantize_tick_nearest t : 0 <= t < 2^28 - 8 ->
  quantize_tick t = 16 * ((t + 7) / 16) /\ - 8 <= quantize_tick t - t <= 7 /\
  quantize_tick (quantize_tick t) = quantize_tick t.
Proof.
  assert (forall t, 0 <= t < 2^28 - 8 -> quantize_tick t = 16 * ((t + 7) / 16)) as Hq.
  { clear t. intros t Ht. unfold quantize_tick, BITS_PER_LINE. rewrite land_tick, land_line by lia.
    change (Z.shiftr (Z.shiftl 1 4) 1) with 8. change (Z.shiftl 1 4) with 16.
    case_if; zbool; [rewrite i32_id by (unfold in_i32; Z.to_euclidean_division_equations; lia)|];
      Z.to_euclidean_division_equations; lia. }
  intros Ht. rewrite (Hq t Ht). split; [done|]. split; [Z.to_euclidean_division_equations; lia|].
  rewrite Hq; Z.to_euclidean_division_equations; lia.
Qed.

(** ** What a played motion sounds like *)

Definition weight (n : Z) (c : meb_call) : Z :=
  match c with
  | NoteOn k _ => if k =? n then 1 else 0
  | NoteOff k _ => if k =? n then -1 else 0
  | _ => 0
  end.

(** Note-ons minus note-offs of the note [n]. *)
Fixpoint balance (n : Z) (out : list meb_call) : Z :=
  match out with [] => 0 | c :: out => weight n c + balance n out end.

Fixpoint occurrences (n : Z) (l : list Z) : Z :=
  match l with [] => 0 | k :: l => (if k =? n then 1 else 0) + occurrences n l end.

Lemma balance_app n l1 l2 : balance n (l1 ++ l2) = balance n l1 + balance n l2.
Proof. induction l1 as [|c l1 IH]; cbn; [done|]. rewrite IH. lia. Qed.

Lemma occurrences_none n k : n <> -1 -> occurrences n (repeat (-1) k) = 0.
Proof. intros Hn. induction k as [|k IH]; cbn [repeat occurrences]; [done|]. rewrite IH. case_if; zbool; lia. Qed.

(** Replacing a chord by another plays exactly the difference. *)
Lemma chord_notes_balance n v last : forall chord, 0 <= n -> List.length last = List.length chord ->
  balance n (chord_notes false v last chord) = occurrences n chord - occurrences n last.
Proof.
  induction last as [|l last IH]; intros [|c chord] Hn Hl; try done.
  cbn [chord_notes occurrences]. rewrite balance_app, IH by (cbn in Hl; lia).
  rewrite orb_false_r. repeat case_if; zbool; subst; cbn [balance weight app]; repeat case_if; zbool; lia.
Qed.

Lemma control_calls_ok c y z k : length (pad_controller_coarse c) = 2%nat -> length (pad_controller_fine c) = 2%nat ->
  0 <= k < 2 -> exists out, control_calls c [Z.shiftr y 7; Z.shiftr z 7] [Z.land y 0x7f; Z.land z 0x7f] k = Ok out /\
  forall n, balance n out = 0.
Proof.
  intros Hc Hf Hk. unfold control_calls.
  destruct (load_in (pad_controller_coarse c) k) as (pcc & -> & _); [lia|].
  destruct (load_in (pad_controller_fine c) k) as (pcf & -> & _); [lia|].
  destruct (load_in [Z.shiftr y 7; Z.shiftr z 7] k) as (yc & -> & _); [done|].
  destruct (load_in [Z.land y 0x7f; Z.land z 0x7f] k) as (yf & -> & _); [done|]. cbn [rbind].
  repeat case_if; eexists; (split; [reflexivity|done]).
Qed.

(** A recorded motion, ready to be played without the arpeggiator: the positions of a pad (14
    bit coordinates) at ticks that do not decrease, a configuration whose notes are notes. *)
Record playable (m : motion) : Prop := {
  play_ys : length (ys m) = length (xs m);
  play_zs : length (zs m) = length (xs m);
  play_ts : length (ts m) = length (xs m);
  play_some : (0 < length (xs m))%nat;
  play_range : Forall (fun x => 0 <= x < 2^14) (xs m);
  play_ticks : Forall (fun t => 0 <= t < 2^31 - 2) (ts m);
  play_sorted : StronglySorted Z.le (ts m);
  play_over : terminated m = true;
  play_kept : to_be_deleted m = false;
  play_direct : config_direction (config m) = arp_off;
  play_octave : 0 <= octave (config m);
  play_coarse : length (pad_controller_coarse (config m)) = 2%nat;
  play_fine : length (pad_controller_fine (config m)) = 2%nat;
  play_chord : List.length (last_chord m) = Z.to_nat MAX_PAD_CHORD
}.

(** The scale has been looked up. *)
Record scale_ready (c : pad_config) : Prop := {
  ready_last : last_scale c = scale_id c;
  ready_length : length (scale_data c) = 21%nat;
  ready_keys : Forall (fun k => 0 <= k) (scale_data c)
}.

(** The notes the motion has sounding: the last note or chord, until the last position. *)
Definition held_notes (m : motion) : list Z :=
  if index m <? Z.of_nat (length (xs m))
  then if chord_mode (config m) =? chord_off then [last_x m] else last_chord m
  else [].

(** What playing changes: only these. *)
Definition same_motion (m m' : motion) : Prop :=
  exists idx tick chord lx, m' = with_play m idx tick chord lx (arperator m) (config m).

Lemma pad_column_range x : 0 <= x < 2^14 -> 0 <= Z.shiftr (Z.shiftr x 7) 4 < 8.
Proof. intros H. rewrite !Z.shiftr_div_pow2 by lia. Z.to_euclidean_division_equations. lia. Qed.

Lemma scale_key c i : scale_ready c -> 0 <= i < 21 -> exists k, load (scale_data c) i = Ok k /\ 0 <= k.
Proof.
  intros [_ Hl Hk] Hi. destruct (load_in (scale_data c) i) as (k & Hload & Hin); [lia|].
  exists k. split; [done|]. exact (Forall_lookup_1 _ _ _ _ Hk Hin).
Qed.

Lemma build_chord_ok c garbage col : scale_ready c -> 0 <= col < 8 ->
  length garbage = Z.to_nat MAX_PAD_CHORD ->
  exists chord, build_chord c 0 garbage col = Ok chord /\ length chord = Z.to_nat MAX_PAD_CHORD.
Proof.
  intros Hc Hcol Hg. unfold build_chord.
  destruct (scale_key c (col + 0 + 0) Hc) as (k0 & H0 & _); [lia|].
  destruct (scale_key c (col + 2 + 0) Hc) as (k2 & H2 & _); [lia|].
  destruct (scale_key c (col + 4 + 0) Hc) as (k4 & H4 & _); [lia|].
  rewrite H0, H2, H4. cbn [rbind]. repeat case_if; eexists; (split; [reflexivity|done]).
Qed.

(** "Not at the last position", as the code asks it and as [held_notes] does. *)
Lemma more_positions i n : (i + 1 <? n) = (i <? n - 1) /\ (i < n -> (i =? n - 1) = negb (i <? n - 1)).
Proof.
  split; [|intros H]; destruct (Z.ltb_spec i (n - 1)); [apply Z.ltb_lt|apply Z.ltb_ge|apply Z.eqb_neq|apply Z.eqb_eq]; lia.
Qed.

(** One position of a playable motion. *)
Lemma process_position_ok m garbage : playable m -> scale_ready (config m) ->
  length garbage = Z.to_nat MAX_PAD_CHORD -> 0 <= index m < Z.of_nat (length (xs m)) ->
  exists m' out, process_position false garbage m = Ok (m', out) /\ same_motion m m' /\
    index m' = index m + 1 /\ crnt_tick m' = crnt_tick m /\ List.length (last_chord m') = Z.to_nat MAX_PAD_CHORD /\
    forall n, 0 <= n -> balance n out = occurrences n (held_notes m') - occurrences n (held_notes m).
Proof.
  intros Hm Hc Hg Hi. pose proof Hm as [Py Pz Pt P0 Px Pk Ps Po Pd Pa Poc Pcc Pcf Pch].
  unfold process_position. rewrite Po, Pd, Pa. cbn [negb orb andb].
  destruct (load_in (xs m) (index m)) as (x & -> & Hx); [lia|].
  destruct (load_in (ys m) (index m)) as (y & -> & _); [lia|].
  destruct (load_in (zs m) (index m)) as (z & -> & _); [lia|]. cbn [rbind].
  assert (0 <= x < 2^14) as Hrange by exact (Forall_lookup_1 _ _ _ _ Px Hx).
  apply pad_column_range in Hrange. set (col := Z.shiftr (Z.shiftr x 7) 4) in *.
  destruct (scale_key _ (col + 0) Hc) as (k & -> & Hk); [lia|]. cbn [rbind].
  set (note := octave (config m) * 12 + k).
  assert (0 <= note) as Hnote by (unfold note; lia).
  set (more := index m <? Z.of_nat (length (xs m)) - 1).
  destruct (load_in (pad_controller_coarse (config m)) 0) as (coarse0 & Hcoarse & _); [lia|].
  destruct (control_calls_ok (config m) y z 0 Pcc Pcf) as (ctl0 & Hctl0 & B0); [lia|].
  destruct (control_calls_ok (config m) y z 1 Pcc Pcf) as (ctl1 & Hctl1 & B1); [lia|].
  destruct (chord_mode (config m) =? chord_off) eqn:Emode; cbn [negb andb rbind].
  - rewrite Hcoarse. cbn [rbind]. rewrite Hctl0. cbn [rbind]. rewrite Hctl1. cbn [rbind].
    change (arp_off =? arp_off) with true. cbn [rbind].
    do 2 eexists. split; [reflexivity|]. split; [by do 4 eexists|]. split; [done|]. split; [done|].
    split; [done|]. intros n Hn. rewrite !balance_app, B0, B1. unfold held_notes. cbn [config with_play index xs last_x].
    rewrite Emode. rewrite (proj2 (Z.ltb_lt (index m) _)) by lia.
    rewrite (proj1 (more_positions _ _)), (proj2 (more_positions _ _)) by lia. fold more.
    destruct more; cbn [negb occurrences]; repeat case_if; zbool; cbn [app balance weight]; repeat case_if; zbool; try lia.
  - assert (exists chord, (if more then build_chord (config m) 0 garbage col
      else Ok (repeat (-1) (Z.to_nat MAX_PAD_CHORD))) = Ok chord /\ length chord = Z.to_nat MAX_PAD_CHORD /\
      (more = false -> chord = repeat (-1) (Z.to_nat MAX_PAD_CHORD))) as (chord & -> & Hlen & Hend).
    { destruct more; [|by eexists]. destruct (build_chord_ok _ garbage col Hc) as (chord & -> & Hl); [done..|].
      by exists chord. }
    cbn [rbind]. rewrite Hcoarse. cbn [rbind]. rewrite Hctl0. cbn [rbind]. rewrite Hctl1. cbn [rbind].
    change (arp_off =? arp_off) with true. cbn [rbind].
    do 2 eexists. split; [reflexivity|]. split; [by do 4 eexists|]. split; [done|]. split; [done|].
    split; [done|]. intros n Hn. rewrite !balance_app, B0, B1, chord_notes_balance by (done || congruence).
    unfold held_notes. cbn [config with_play index xs last_chord].
    rewrite Emode. rewrite (proj2 (Z.ltb_lt (index m) _)) by lia.
    rewrite (proj1 (more_positions _ _)). fold more.
    destruct more; [lia|]. rewrite Hend, occurrences_none by (done || lia). cbn [occurrences]. lia.
Qed.

(** The positions that are due at the tick [k]. *)
Definition reached (k : Z) (l : list Z) : Z := Z.of_nat (length (List.filter (fun t => t <=? k) l)).

Lemma reached_bounds k l : 0 <= reached k l <= Z.of_nat (length l).
Proof. unfold reached. pose proof (List.filter_length_le (fun t => t <=? k) l). lia. Qed.

Lemma reached_mono k l : reached k l <= reached (k + 1) l.
Proof.
  unfold reached. induction l as [|t l IH]; cbn [List.filter]; [lia|].
  destruct (Z.leb_spec t k), (Z.leb_spec t (k + 1)); cbn [length]; lia.
Qed.

(** In a list that does not decrease they come first. *)
Lemma reached_iff k l : StronglySorted Z.le l -> forall i t, l !! i = Some t -> t <= k <-> Z.of_nat i < reached k l.
Proof.
  unfold reached. induction 1 as [|t0 l Hs IH Hl]; intros i t Hi; [done|].
  assert (t0 <= t) as Hle by (destruct i; [injection Hi as ->; lia|exact (Forall_lookup_1 _ _ _ _ Hl Hi)]).
  cbn [List.filter]. destruct (Z.leb_spec t0 k) as [Hk|Hk].
  - destruct i as [|i]; [injection Hi as ->; cbn [length]; lia|]. specialize (IH i t Hi). cbn [length]. lia.
  - assert (List.filter (fun t => t <=? k) l = []) as ->; [|cbn; lia].
    clear Hs IH Hi. induction Hl as [|u l Hu Hl IH]; [done|]. cbn [List.filter].
    destruct (Z.leb_spec u k); [lia|done].
Qed.

Lemma same_playable m m' : same_motion m m' -> List.length (last_chord m') = Z.to_nat MAX_PAD_CHORD ->
  playable m -> playable m'.
Proof. intros (i & k & ch & lx & ->) Hl []. by split. Qed.

Lemma same_trans m1 m2 m3 : same_motion m1 m2 -> same_motion m2 m3 -> same_motion m1 m3.
Proof. intros (i & k & ch & lx & ->) (i' & k' & ch' & lx' & ->). by do 4 eexists. Qed.

Lemma process_positions_ok n garbage : length garbage = Z.to_nat MAX_PAD_CHORD -> forall m,
  playable m -> scale_ready (config m) -> 0 <= index m <= reached (crnt_tick m) (ts m) -> (positions_left m <= n)%nat ->
  exists m' out, process_positions n false garbage m = Ok (m', out) /\ same_motion m m' /\
    index m' = reached (crnt_tick m) (ts m) /\ crnt_tick m' = crnt_tick m /\
    List.length (last_chord m') = Z.to_nat MAX_PAD_CHORD /\
    forall k, 0 <= k -> balance k out = occurrences k (held_notes m') - occurrences k (held_notes m).
Proof.
  intros Hg. induction n as [|n IH]; intros m Hm Hc Hi Hn; unfold process_positions; fold process_positions;
    pose proof (reached_bounds (crnt_tick m) (ts m)) as Hb; rewrite (play_ts m Hm) in Hb.
  - unfold positions_left in Hn. destruct (Z.ltb_spec (index m) (Z.of_nat (length (xs m)))); [lia|].
    exists m, []. split; [done|]. split; [destruct m; by do 4 eexists|]. split; [lia|].
    split; [done|]. split; [apply Hm|]. intros k _. cbn. lia.
  - assert (exists m' out, Ok (m, @nil meb_call) = Ok (m', out) /\ same_motion m m' /\ index m' = index m /\
      crnt_tick m' = crnt_tick m /\ List.length (last_chord m') = Z.to_nat MAX_PAD_CHORD /\
      forall k, 0 <= k -> balance k out = occurrences k (held_notes m') - occurrences k (held_notes m)) as Hstop.
    { exists m, []. split; [done|]. split; [destruct m; by do 4 eexists|]. split; [done|].
      split; [done|]. split; [apply Hm|]. intros k _. cbn. lia. }
    destruct (Z.ltb_spec (index m) (Z.of_nat (length (xs m)))) as [Hlt|Hge]; [|by replace (reached _ _) with (index m) by lia].
    destruct (load_in (ts m) (index m)) as (t & -> & Ht); [rewrite (play_ts m Hm); lia|]. cbn [rbind].
    pose proof (reached_iff (crnt_tick m) _ (play_sorted m Hm) _ _ Ht) as Hiff. rewrite Z2Nat.id in Hiff by lia.
    destruct (Z.leb_spec t (crnt_tick m)); [|by replace (reached _ _) with (index m) by lia].
    destruct (process_position_ok m garbage Hm Hc Hg) as (m1 & out & -> & Hs & Hi1 & Hk1 & Hl1 & Hb1); [lia|]. cbn [rbind].
    assert (config m1 = config m /\ xs m1 = xs m /\ ts m1 = ts m) as (Ec & Ex & Et)
      by (destruct Hs as (? & ? & ? & ? & ->); done).
    destruct (IH m1) as (m2 & more & -> & Hs2 & Hi2 & Hk2 & Hl2 & Hb2).
    + by eapply same_playable.
    + by rewrite Ec.
    + rewrite Hi1, Hk1, Et. lia.
    + unfold positions_left in *. rewrite Hi1, Ex. lia.
    + cbn [rbind]. exists m2, (out ++ more). split; [done|]. split; [by eapply same_trans|].
      split; [congruence|]. split; [congruence|]. split; [done|]. intros k Hk.
      rewrite balance_app, Hb1, Hb2 by done. lia.
Qed.

Lemma refresh_again scales_here c : last_scale c = scale_id c -> refresh_scale scales_here c = Ok c.
Proof. intros H. unfold refresh_scale. by rewrite H, Z.eqb_refl. Qed.

(** Looking the scale up changes nothing else. *)
Lemma refresh_keeps scales_here c0 c : refresh_scale scales_here c0 = Ok c ->
  exists data, c = PadConfig (config_direction c0) (chord_mode c0) (scale_id c0) (last_scale c) (octave c0)
    (arpeggio_pattern c0) data (pad_controller_coarse c0) (pad_controller_fine c0).
Proof.
  unfold refresh_scale. case_if; [intros [= <-]; destruct c0; by eexists|].
  intros H. inv_bind H. injection H as <-. by eexists.
Qed.

Lemma silent_arp mute a : arp_direction a = arp_off -> process_pattern mute a = Ok (a, []).
Proof.
  intros H. unfold process_pattern. destruct (current_pattern a); [|done]. by rewrite H, Z.eqb_refl, orb_true_r.
Qed.

(** One tick of a playable motion that has positions left. *)
Lemma process_motion_ok scales_here garbage m c : playable m -> arp_direction (arperator m) = arp_off ->
  length garbage = Z.to_nat MAX_PAD_CHORD -> refresh_scale scales_here (config m) = Ok c -> scale_ready c ->
  0 <= index m <= reached (crnt_tick m + 1) (ts m) -> index m < Z.of_nat (length (xs m)) ->
  in_i32 (crnt_tick m + 1) ->
  exists m' out, process_motion scales_here false garbage m = Ok (m', out, false) /\
    same_motion (with_play m (index m) (crnt_tick m) (last_chord m) (last_x m) (arperator m) c) m' /\
    playable m' /\ index m' = reached (crnt_tick m + 1) (ts m) /\ crnt_tick m' = crnt_tick m + 1 /\
    forall n, 0 <= n -> balance n out = occurrences n (held_notes m') - occurrences n (held_notes m).
Proof.
  intros Hm Ha Hg Hr Hc Hi Hlt H32. unfold process_motion. rewrite (play_over m Hm), Hr.
  rewrite (proj2 (Z.leb_gt _ _) Hlt). cbn [andb rbind]. rewrite i32_id by done.
  destruct (refresh_keeps _ _ _ Hr) as (data & Ec).
  set (m1 := with_play m (index m) (crnt_tick m + 1) (last_chord m) (last_x m) (arperator m) c).
  assert (playable m1) as Hm1 by (destruct Hm; subst m1; rewrite Ec; by split).
  destruct (process_positions_ok (positions_left m1) garbage Hg m1 Hm1 Hc) as (m2 & out & -> & Hs & Hi2 & Hk2 & Hl2 & Hb);
    [done|done|]. cbn [rbind].
  assert (arperator m2 = arperator m) as -> by (destruct Hs as (? & ? & ? & ? & ->); done).
  rewrite silent_arp by done. cbn [rbind]. do 2 eexists. split; [reflexivity|].
  rewrite app_nil_r. destruct Hs as (i & k & ch & lx & ->). cbn in *. split; [by do 4 eexists|].
  split; [eapply (same_playable m1); [by do 4 eexists|done|done]|]. split; [done|]. split; [done|].
  intros n Hn. rewrite Hb by done. unfold held_notes. cbn. by rewrite Ec.
Qed.

(** [n] calls of [process_motion], none after the one that says the motion is over. *)
Fixpoint play_motion (n : nat) (scales_here : option scales_object) (mute : bool) (garbage : list Z) (m : motion)
  : result (motion * list meb_call * bool) :=
  match n with
  | O => Ok (m, [], false)
  | S n =>
      let! (m, out, over) := play_motion n scales_here mute garbage m in
      if over then Ok (m, out, true) else
      let! (m, more, over) := process_motion scales_here mute garbage m in
      Ok (m, out ++ more, over)
  end.

(** The motion after [k] calls, before it is over. *)
Record played (scales_here : option scales_object) (c : pad_config) (m0 : motion) (k : Z) (m : motion) (out : list meb_call) : Prop := {
  played_playable : playable m;
  played_arp : arp_direction (arperator m) = arp_off;
  played_scale : refresh_scale scales_here (config m) = Ok c;
  played_points : xs m = xs m0 /\ ts m = ts m0;
  played_tick : crnt_tick m = k - 1;
  played_index : index m = reached (k - 1) (ts m0);
  played_sound : forall n, 0 <= n -> balance n out = occurrences n (held_notes m)
}.

Lemma play_motion_runs scales_here (garbage : list Z) m c tmax : length garbage = Z.to_nat MAX_PAD_CHORD -> scale_ready c ->
  ts m !! pred (length (ts m)) = Some tmax -> tmax < 2^31 - 2 -> played scales_here c m 0 m [] ->
  forall k, Z.of_nat k <= tmax + 1 -> exists m' out,
    play_motion k scales_here false garbage m = Ok (m', out, false) /\ played scales_here c m (Z.of_nat k) m' out.
Proof.
  intros Hg Hc Hlast Hmax H0. induction k as [|k IH]; intros Hk; [by exists m, []|].
  destruct IH as (m1 & out & He & [P1 P2 P3 [P4 P4'] P5 P6 P7]); [lia|].
  cbn [play_motion]. rewrite He. cbn [rbind].
  pose proof (lookup_lt_Some _ _ _ Hlast) as Hlt.
  pose proof (play_sorted m1 P1) as Hsort. rewrite P4' in Hsort.
  pose proof (reached_iff (Z.of_nat k - 1) _ Hsort _ _ Hlast) as Hiff.
  pose proof (reached_bounds (Z.of_nat k - 1) (ts m)) as Hb.
  pose proof (reached_mono (Z.of_nat k - 1) (ts m)) as Hmono.
  pose proof (play_ts m1 P1) as Hlen. rewrite P4, P4' in Hlen.
  destruct (process_motion_ok scales_here garbage m1 c P1 P2 Hg P3 Hc) as (m2 & more & -> & Hs & Hp & Hi & Hk2 & Hbal).
  - rewrite P4', P5, P6. lia.
  - rewrite P4, P6. lia.
  - unfold in_i32. lia.
  - cbn [rbind]. do 2 eexists. split; [reflexivity|]. destruct Hs as (i & t & ch & lx & ->). cbn in *.
    split; cbn; try done.
    + apply refresh_again, Hc.
    + lia.
    + rewrite Hi, P4', P5. f_equal. lia.
    + intros n Hn. rewrite balance_app, Hbal, P7 by done. lia.
Qed.

(** Started, it has played nothing. *)
Lemma started_played scales_here c m0 m : playable m0 -> index m0 = -1 ->
  last_chord m0 = repeat (-1) (Z.to_nat MAX_PAD_CHORD) -> start_motion m0 (start_tick m0) = Ok (m, true) ->
  refresh_scale scales_here (config m) = Ok c -> played scales_here c m 0 m [] /\ ts m = ts m0.
Proof.
  intros Hm Hidx Hch Hstart Hr. unfold start_motion in Hstart. rewrite Hidx, !Z.eqb_refl in Hstart. cbn in Hstart.
  inv_bind Hstart. injection Hstart as <-. cbn in *. split; [|done].
  assert (arp_direction x = arp_off) as Ha.
  { revert Hx. unfold start, set_pattern. rewrite (play_direct m0 Hm).
    case_if; [by intros [= <-]|]. intros H. inv_bind H. by injection H as <-. }
  split; cbn; try done.
  - destruct Hm. by split.
  - assert (reached (0 - 1) (ts m0) = 0) as ->; [|done]. pose proof (reached_bounds (0 - 1) (ts m0)) as Hb.
    destruct (Z.eq_dec (reached (0 - 1) (ts m0)) 0) as [|Hne]; [done|].
    destruct (lookup_lt_is_Some_2 (ts m0) 0) as [t Ht]; [lia|].
    pose proof (proj2 (reached_iff (0 - 1) _ (play_sorted m0 Hm) _ _ Ht)).
    pose proof (Forall_lookup_1 _ _ _ _ (play_ticks m0 Hm) Ht). cbn in *. lia.
  - intros n Hn. unfold held_notes. cbn. rewrite Hch. repeat case_if; zbool; cbn [occurrences]; rewrite ?occurrences_none by lia;
      repeat case_if; zbool; lia.
Qed.


(** ** A concrete motion: three positions, two of them in the same column *)

Definition ex_config : pad_config := new_config (repeat 0 21) arp_off 0 4.

Definition ex_motion : motion :=
  Motion (copy_config (repeat 0 21) ex_config) (-1) (-1) (repeat (-1) (Z.to_nat MAX_PAD_CHORD)) 7
    [100; 5000; 5100] [8000; 8000; 0] [0; 0; 0] [0; 4; 9]
    (new_arpeggiator (repeat (0, 0) (Z.to_nat MAX_ARP_FINGERS))) 32 true false None None.

Definition ex_started : motion :=
  match start_motion ex_motion 32 with Ok (m, _) => m | Err _ => ex_motion end.

Definition ex_ready_config : pad_config :=
  match refresh_scale None (config ex_motion) with Ok c => c | Err _ => config ex_motion end.

Lemma ex_motion_playable : playable ex_motion.
Proof. split; cbn; try reflexivity; try lia; repeat constructor; lia. Qed.

Lemma ex_config_ready : scale_ready ex_ready_config.
Proof. split; [reflexivity..|]. cbn. repeat constructor; lia. Qed.


Lemma quantize_tick_nearest_witness : 0 <= 41 < 2^28 - 8 /\ quantize_tick 41 = 16 * ((41 + 7) / 16).
Proof. split; [lia|]. apply (quantize_tick_nearest 41). lia. Defined.
