(* ===== verification/MotionList.v ===== *)
(** * The recorded motions of a finger ([Pad::PadMotion::record_motion] of engine_code/pad.cc)

    Motions live on a heap; the ones a finger recorded are linked in both directions, and
    [record_motion] inserts a new one before the first that starts later. The representation
    predicate [chain] relates the pointers to a list of addresses, on which the insertion is
    the stable ordered insertion of the prelude. *)

From Stdlib Require Import String ZArith Lia List Sorted Permutation.
From stdpp Require Import base list numbers option gmap.
From S2P Require Import Prelude PadMotion.
Local Open Scope list_scope.
Local Open Scope Z_scope.
Local Open Scope vk_scope.

Abbreviation motion_heap := (gmap Z motion).

Definition at_motion (h : motion_heap) (p : Z) : result motion :=
  match h !! p with
  | Some m => Ok m
  | None => Err (UndefinedBehaviour "no motion at this address"%string)
  end.

(** [p->next = n] and [p->prev = n] *)
Definition put_next (h : motion_heap) (p : Z) (n : option Z) : result motion_heap :=
  let! m := at_motion h p in Ok (<[p := with_links m (prev m) n]> h).

Definition put_prev (h : motion_heap) (p : Z) (n : option Z) : result motion_heap :=
  let! m := at_motion h p in Ok (<[p := with_links m n (next m)]> h).

(** The loop of [record_motion], from [top] on. *)
(* @src src_jni/engine_code/pad.cc:828-861 PadMotion::record_motion *)
Fixpoint record_from (fuel : nat) (h : motion_heap) (head : option Z) (target top : Z)
  : result (motion_heap * option Z) :=
  match fuel with
  | O => Err OutOfFuel
  | S fuel =>
      let! tg := at_motion h target in
      let! tp := at_motion h top in
      if start_tick tg <? start_tick tp then
        let! h := put_next h target (Some top) in
        let! tp := at_motion h top in
        let! h := put_prev h target (prev tp) in
        let! tg := at_motion h target in
        let! (h, head) :=
          match prev tg with
          | None => Ok (h, Some target)
          | Some _ =>
              let! tp := at_motion h top in
              match prev tp with
              | None => Err (UndefinedBehaviour "top->prev is NULL"%string)
              | Some before => let! h := put_next h before (Some target) in Ok (h, head)
              end
          end in
        let! h := put_prev h top (Some target) in
        Ok (h, head)
      else
        match next tp with
        | None =>
            let! h := put_next h top (Some target) in
            let! h := put_prev h target (Some top) in
            let! h := put_next h target None in
            Ok (h, head)
        | Some following => record_from fuel h head target following
        end
  end.

(** The heap and the new [*head]. *)
(* @src src_jni/engine_code/pad.cc:818-864 PadMotion::record_motion *)
Definition record_motion (h : motion_heap) (head : option Z) (target : Z) : result (motion_heap * option Z) :=
  match head with
  | None =>
      let! h := put_next h target None in
      let! h := put_prev h target None in
      Ok (h, Some target)
  | Some top => record_from (size h) h head target top
  end.

(** ** The list the pointers stand for *)

(** The motions [l], linked between [p] and [n]. *)
Fixpoint segment (h : motion_heap) (p : option Z) (l : list Z) (n : option Z) : Prop :=
  match l with
  | [] => True
  | a :: l =>
      exists m, h !! a = Some m /\ prev m = p /\
        next m = match l with [] => n | b :: _ => Some b end /\ segment h (Some a) l n
  end.

Definition first (l : list Z) (n : option Z) : option Z := match l with [] => n | a :: _ => Some a end.

(** The last of [l], after [p]. *)
Fixpoint final (p : option Z) (l : list Z) : option Z :=
  match l with [] => p | a :: l => final (Some a) l end.

Definition chain (h : motion_heap) (head : option Z) (l : list Z) : Prop :=
  head = first l None /\ NoDup l /\ segment h None l None.

Definition start_of (h : motion_heap) (a : Z) : Z :=
  match h !! a with Some m => start_tick m | None => 0 end.

(** Only links change. *)
Definition links_only (h h' : motion_heap) : Prop :=
  forall a, match h !! a with
            | Some m => exists p n, h' !! a = Some (with_links m p n)
            | None => h' !! a = None
            end.

Lemma links_only_refl h : links_only h h.
Proof. intros a. destruct (h !! a) as [m|] eqn:E; [|done]. exists (prev m), (next m). by destruct m. Qed.

Lemma links_only_trans h1 h2 h3 : links_only h1 h2 -> links_only h2 h3 -> links_only h1 h3.
Proof.
  intros H1 H2 a. specialize (H1 a). specialize (H2 a). destruct (h1 !! a) as [m|].
  - destruct H1 as (p & n & E). rewrite E in H2. destruct H2 as (p' & n' & E'). exists p', n'. exact E'.
  - rewrite H1 in H2. exact H2.
Qed.

Lemma links_only_insert h a m p n : h !! a = Some m -> links_only h (<[a := with_links m p n]> h).
Proof.
  intros E b. destruct (Z.eq_dec a b) as [->|Hne].
  - rewrite E. exists p, n. apply lookup_insert_eq.
  - pose proof (links_only_refl h b) as H. rewrite (lookup_insert_ne h a b) by done. exact H.
Qed.

(** Nothing outside [l] changed. *)
Definition untouched (l : list Z) (h h' : motion_heap) : Prop := forall a, a ∉ l -> h' !! a = h !! a.

Lemma untouched_refl l h : untouched l h h.
Proof. by intros a. Qed.

Lemma untouched_trans l h1 h2 h3 : untouched l h1 h2 -> untouched l h2 h3 -> untouched l h1 h3.
Proof. intros H1 H2 a Ha. by rewrite H2, H1. Qed.

Lemma untouched_insert l h1 h2 a m : a ∈ l -> untouched l h1 h2 -> untouched l h1 (<[a := m]> h2).
Proof. intros Ha H b Hb. rewrite lookup_insert_ne by (by intros ->). by apply H. Qed.

Lemma untouched_weaken l l' h h' : (forall a, a ∈ l -> a ∈ l') -> untouched l h h' -> untouched l' h h'.
Proof. intros Hl H a Ha. apply H. auto. Qed.

Lemma links_only_start h h' a : links_only h h' -> start_of h' a = start_of h a.
Proof.
  intros H. specialize (H a). unfold start_of. destruct (h !! a); [destruct H as (p & n & ->)|rewrite H]; done.
Qed.

Lemma segment_app h l1 l2 : forall p n,
  segment h p (l1 ++ l2) n <-> segment h p l1 (first l2 n) /\ segment h (final p l1) l2 n.
Proof.
  induction l1 as [|a l1 IH]; intros p n; cbn [app segment final]; [tauto|].
  setoid_rewrite IH. destruct l1; [destruct l2|]; cbn [app first]; firstorder eauto.
Qed.

(** A write elsewhere does not matter. *)
Lemma segment_frame h a m l : forall p n, a ∉ l -> segment h p l n -> segment (<[a := m]> h) p l n.
Proof.
  induction l as [|b l IH]; intros p n Ha; [done|]. apply not_elem_of_cons in Ha as [Hb Hl]. cbn [segment].
  intros (mb & Eb & Hp & Hn & Hs). exists mb. rewrite lookup_insert_ne by done. auto.
Qed.

Lemma at_motion_some h a m : h !! a = Some m -> at_motion h a = Ok m.
Proof. unfold at_motion. by intros ->. Qed.

Lemma put_next_some h a m n : h !! a = Some m -> put_next h a n = Ok (<[a := with_links m (prev m) n]> h).
Proof. intros H. unfold put_next. by rewrite (at_motion_some _ _ _ H). Qed.

Lemma put_prev_some h a m p : h !! a = Some m -> put_prev h a p = Ok (<[a := with_links m p (next m)]> h).
Proof. intros H. unfold put_prev. by rewrite (at_motion_some _ _ _ H). Qed.

(** ** Linking *)

Lemma final_app p l1 l2 : final p (l1 ++ l2) = final (final p l1) l2.
Proof. revert p. induction l1 as [|a l1 IH]; intros p; cbn; auto. Qed.

(** The element in the middle of a segment. *)
Lemma segment_middle h p l1 a l2 n : segment h p (l1 ++ a :: l2) n ->
  segment h p l1 (Some a) /\ segment h (Some a) l2 n /\
  exists m, h !! a = Some m /\ prev m = final p l1 /\ next m = first l2 n.
Proof. intros [H1 (m & E & Hp & Hn & H2)]%segment_app. split; [done|]. split; [done|]. by exists m. Qed.

Lemma segment_put_middle h p l1 a l2 n m : segment h p l1 (Some a) -> segment h (Some a) l2 n ->
  a ∉ l1 -> a ∉ l2 -> prev m = final p l1 -> next m = first l2 n ->
  segment (<[a := m]> h) p (l1 ++ a :: l2) n.
Proof.
  intros H1 H2 Ha1 Ha2 Hp Hn. apply segment_app. split; [by apply segment_frame|].
  exists m. rewrite lookup_insert_eq. split; [done|]. split; [done|]. split; [done|]. by apply segment_frame.
Qed.

(** Pointing the end of a segment somewhere else. *)
Lemma segment_put_last h p l a n n' m : segment h p (l ++ [a]) n -> a ∉ l -> h !! a = Some m ->
  segment (<[a := with_links m (prev m) n']> h) p (l ++ [a]) n'.
Proof.
  intros (H1 & _ & m' & E & Hp & _)%segment_middle Ha E'. assert (m' = m) as -> by congruence.
  apply segment_put_middle; try done. apply not_elem_of_nil.
Qed.

(** The first element gets another predecessor. *)
Lemma segment_put_first h p p' a l n m : segment h p (a :: l) n -> a ∉ l -> h !! a = Some m ->
  segment (<[a := with_links m p' (next m)]> h) p' (a :: l) n.
Proof.
  intros (m' & E & _ & Hn & Hs) Ha E'. assert (m' = m) as -> by congruence. exists (with_links m p' (next m)).
  rewrite lookup_insert_eq. split; [done|]. split; [done|]. split; [done|]. by apply segment_frame.
Qed.

(** Who differs from whom. *)
Lemma distinct_middle (a b : Z) l1 l2 : NoDup (a :: l1 ++ b :: l2) ->
  a <> b /\ a ∉ l1 /\ a ∉ l2 /\ b ∉ l1 /\ b ∉ l2 /\ NoDup l1 /\ (forall c, c ∈ l1 -> c <> b /\ c <> a /\ c ∉ l2).
Proof.
  rewrite list.NoDup_cons, list.NoDup_app, list.NoDup_cons, not_elem_of_app, not_elem_of_cons.
  intros ((Ha1 & Hab & Ha2) & H1 & H12 & Hb2 & H2). repeat split; try done.
  - intros Hb. apply (H12 b Hb). by left.
  - intros ->. apply (H12 b H). by left.
  - intros ->. done.
  - intros Hc. apply (H12 c H). by right.
Qed.

(** The insertion before [top], its links written one by one. *)
Lemma link_before fuel h l1 top l2 target tg : NoDup (target :: l1 ++ top :: l2) -> h !! target = Some tg ->
  segment h None (l1 ++ top :: l2) None -> start_of h target <? start_of h top = true ->
  exists h' head', record_from (S fuel) h (first (l1 ++ top :: l2) None) target top = Ok (h', head') /\
    head' = first (l1 ++ target :: top :: l2) None /\
    segment h' None (l1 ++ target :: top :: l2) None /\ links_only h h' /\
    untouched (target :: l1 ++ top :: l2) h h'.
Proof.
  intros Hnd Et Hs Hlt. pose proof (segment_middle _ _ _ _ _ _ Hs) as (S1 & S2 & tp & Ep & Hprev & Hnext).
  pose proof (distinct_middle _ _ _ _ Hnd) as (Hne & T1 & T2 & P1 & P2 & N & Hbefore).
  cbn [record_from]. unfold start_of in Hlt. rewrite Et, Ep in Hlt.
  rewrite (at_motion_some _ _ _ Et), (at_motion_some _ _ _ Ep). cbn [rbind]. rewrite Hlt.
  rewrite (put_next_some _ _ _ _ Et). cbn [rbind].
  set (h1 := <[target := with_links tg (prev tg) (Some top)]> h).
  assert (h1 !! top = Some tp) as Ep1 by (unfold h1; by rewrite lookup_insert_ne).
  assert (h1 !! target = Some (with_links tg (prev tg) (Some top))) as Et1 by apply lookup_insert_eq.
  rewrite (at_motion_some _ _ _ Ep1). cbn [rbind]. rewrite (put_prev_some _ _ _ _ Et1). cbn [rbind with_links next].
  rewrite Hprev. set (t2 := with_links _ _ _). set (h2 := <[target := t2]> h1).
  assert (links_only h h2) as R2.
  { exact (links_only_trans _ h1 _ (links_only_insert _ _ _ _ _ Et) (links_only_insert _ _ _ _ _ Et1)). }
  assert (forall h3, untouched (target :: l1 ++ top :: l2) h2 h3 -> untouched (target :: l1 ++ top :: l2) h h3) as U2.
  { intros h3 H. refine (untouched_trans _ _ _ _ _ H). unfold h2, h1.
    repeat (apply untouched_insert; [by left|]). apply untouched_refl. }
  assert (forall m h3 h4, untouched (target :: l1 ++ top :: l2) h3 h4 ->
    untouched (target :: l1 ++ top :: l2) h3 (<[top := m]> h4)) as Utop.
  { intros m h3 h4. apply untouched_insert. right. apply elem_of_app. right. by left. }
  assert (h2 !! top = Some tp) as Ep2 by (unfold h2; by rewrite lookup_insert_ne).
  assert (h2 !! target = Some t2) as Et2 by apply lookup_insert_eq.
  rewrite (at_motion_some _ _ _ Et2). cbn [rbind].
  assert (segment h2 (Some top) l2 None) as S2' by (unfold h2, h1; rewrite insert_insert_eq; apply segment_frame; [done|done]).
  assert (segment h2 None l1 (Some top)) as S1' by (unfold h2, h1; rewrite insert_insert_eq; apply segment_frame; [done|done]).
  assert (forall h3, segment h3 None l1 (Some target) -> h3 !! target = Some t2 -> h3 !! top = Some tp ->
    segment h3 (Some top) l2 None ->
    segment (<[top := with_links tp (Some target) (next tp)]> h3) None (l1 ++ target :: top :: l2) None) as Hdone.
  { intros h3 A1 A2 A3 A4. apply segment_app. split; [apply segment_frame; [done|done]|].
    exists t2. rewrite lookup_insert_ne by done. split; [done|]. split; [done|]. split; [done|].
    exists (with_links tp (Some target) (next tp)). rewrite lookup_insert_eq. split; [done|]. split; [done|].
    split; [done|]. apply segment_frame; [done|done]. }
  change (prev t2) with (final None l1).
  destruct l1 as [|b0 l1] using rev_ind; [|clear IHl1].
  - cbn [final rbind]. rewrite (put_prev_some _ _ _ _ Ep2). cbn [rbind].
    do 2 eexists. split; [reflexivity|]. split; [done|].
    split; [by apply Hdone|]. split; [eapply links_only_trans; [exact R2|]; by apply links_only_insert|].
    apply U2, Utop, untouched_refl.
  - rewrite final_app. cbn [final].
    pose proof (segment_middle _ _ _ _ _ _ S1') as (_ & _ & mb & Eb & _).
    rewrite (at_motion_some _ _ _ Ep2). cbn [rbind]. rewrite Hprev, final_app. cbn [final].
    rewrite (put_next_some _ _ _ _ Eb). cbn [rbind].
    destruct (Hbefore b0) as (N1 & N2 & N3); [apply elem_of_app; right; by left|].
    apply list.NoDup_app in N as (_ & N & _).
    erewrite (put_prev_some _ top tp) by (by rewrite lookup_insert_ne). cbn [rbind].
    do 2 eexists. split; [reflexivity|]. split; [by destruct l1|]. split.
    + apply Hdone; [eapply segment_put_last; [exact S1'| |done]; intros Hb; apply (N b0 Hb); by left|by rewrite lookup_insert_ne|by rewrite lookup_insert_ne|].
      apply segment_frame; [done|done].
    + split; [eapply links_only_trans; [exact R2|]; eapply links_only_trans; [by apply links_only_insert|];
        apply links_only_insert; by rewrite lookup_insert_ne|].
      apply U2, Utop, untouched_insert, untouched_refl. right. rewrite <- app_assoc. apply elem_of_app. right. by left.
Qed.

(** The insertion behind the last motion. *)
Lemma link_behind h l1 top target tg : NoDup (target :: l1 ++ [top]) -> h !! target = Some tg ->
  segment h None (l1 ++ [top]) None ->
  exists h', (let! h := put_next h top (Some target) in
              let! h := put_prev h target (Some top) in
              put_next h target None) = Ok h' /\
    segment h' None (l1 ++ [top; target]) None /\ links_only h h' /\ untouched (target :: l1 ++ [top]) h h'.
Proof.
  intros Hnd Et Hs. pose proof (segment_middle _ _ _ _ _ _ Hs) as (S1 & _ & tp & Ep & Hprev & _).
  pose proof (distinct_middle _ _ _ _ Hnd) as (Hne & T1 & _ & P1 & _ & N & Hbefore).
  rewrite (put_next_some _ _ _ _ Ep). cbn [rbind].
  set (h1 := <[top := with_links tp (prev tp) (Some target)]> h).
  assert (h1 !! target = Some tg) as Et1 by (unfold h1; by rewrite lookup_insert_ne).
  rewrite (put_prev_some _ _ _ _ Et1). cbn [rbind].
  erewrite put_next_some by apply lookup_insert_eq. rewrite insert_insert_eq. cbn.
  eexists. split; [reflexivity|]. split.
  - replace (l1 ++ [top; target]) with ((l1 ++ [top]) ++ [target]) by (by rewrite <- app_assoc).
    apply segment_put_middle; try done.
    + by eapply segment_put_last.
    + apply not_elem_of_app. split; [done|]. by intros ?%list_elem_of_singleton.
    + apply not_elem_of_nil.
    + by rewrite final_app.
  - split; [eapply links_only_trans; [by apply (links_only_insert h top)|];
      exact (links_only_insert h1 target tg (Some top) None Et1)|].
    apply untouched_insert; [by left|]. apply untouched_insert; [right; apply elem_of_app; right; by left|].
    apply untouched_refl.
Qed.

Lemma record_from_spec target tg : forall l2 l1 top h fuel, (length l2 < fuel)%nat -> h !! target = Some tg ->
  NoDup (target :: l1 ++ top :: l2) -> segment h None (l1 ++ top :: l2) None ->
  exists h' head', record_from fuel h (first (l1 ++ top :: l2) None) target top = Ok (h', head') /\
    let l := l1 ++ ordered_insert (start_of h) target (top :: l2) in
    head' = first l None /\ segment h' None l None /\ links_only h h' /\ untouched (target :: l1 ++ top :: l2) h h'.
Proof.
  induction l2 as [|following l2 IH]; intros l1 top h [|fuel] Hf Et Hnd Hs; try (cbn in Hf; lia);
    cbn [ordered_insert]; destruct (start_of h target <? start_of h top) eqn:Elt;
    try (by destruct (link_before fuel h l1 top _ target tg Hnd Et Hs Elt) as (h' & head' & He & Hh & Hs' & Hr); exists h', head');
    pose proof (segment_middle _ _ _ _ _ _ Hs) as (_ & _ & tp & Ep & _ & Hnext); cbn [first] in Hnext;
    cbn [record_from]; rewrite (at_motion_some _ _ _ Et), (at_motion_some _ _ _ Ep); cbn [rbind];
    unfold start_of in Elt at 1 2; rewrite Et, Ep in Elt; rewrite Elt, Hnext.
  - destruct (link_behind h l1 top target tg Hnd Et Hs) as (h' & He & Hs' & Hr & Hu).
    exists h', (first (l1 ++ [top]) None). split; [|split; [by destruct l1|done]].
    inv_bind He. inv_bind He. rewrite Hx. cbn [rbind]. rewrite Hx0. cbn [rbind]. by rewrite He.
  - destruct (IH (l1 ++ [top]) following h fuel) as (h' & head' & He & Hh); [cbn in Hf; lia|done|by rewrite <- app_assoc|by rewrite <- app_assoc|].
    rewrite <- app_assoc in He. cbv zeta in Hh. rewrite <- !app_assoc in Hh. by exists h', head'.
Qed.

Lemma segment_elem h a l : forall p n, segment h p l n -> a ∈ l -> is_Some (h !! a).
Proof.
  induction l as [|b l IH]; intros p n Hs Ha; [by apply not_elem_of_nil in Ha|].
  destruct Hs as (m & E & _ & _ & Hs). apply elem_of_cons in Ha as [->|Ha]; [by exists m|]. by eapply IH.
Qed.

Lemma chain_size h head l : chain h head l -> (length l <= size h)%nat.
Proof.
  intros (_ & Hnd & Hs). rewrite <- (size_list_to_set (C:=gset Z) l Hnd), <- (size_dom h).
  apply subseteq_size. intros a Ha%elem_of_list_to_set. apply elem_of_dom.
  by eapply segment_elem.
Qed.

Lemma record_motion_spec h head l target tg :
  chain h head l -> target ∉ l -> h !! target = Some tg ->
  exists h' head', record_motion h head target = Ok (h', head') /\
    chain h' head' (ordered_insert (start_of h) target l) /\ links_only h h' /\ untouched (target :: l) h h'.
Proof.
  intros Hc Hnotin Et. pose proof (chain_size _ _ _ Hc) as Hsize. destruct Hc as (-> & Hnd & Hs).
  assert (exists h' head', record_motion h (first l None) target = Ok (h', head') /\
    head' = first (ordered_insert (start_of h) target l) None /\
    segment h' None (ordered_insert (start_of h) target l) None /\ links_only h h' /\
    untouched (target :: l) h h') as (h' & head' & He & Hh & Hs' & Hr & Hu).
  { destruct l as [|top l]; cbn [first record_motion].
    - rewrite (put_next_some _ _ _ _ Et). cbn [rbind]. erewrite put_prev_some by apply lookup_insert_eq.
      rewrite insert_insert_eq. cbn. do 2 eexists. split; [reflexivity|]. split; [done|]. split.
      + by eexists; rewrite lookup_insert_eq.
      + split; [exact (links_only_insert h target tg None None Et)|].
        apply untouched_insert, untouched_refl. by left.
    - destruct (record_from_spec target tg l [] top h (size h)) as (h' & head' & He & Hrest); try done.
      + cbn [app]. by apply list.NoDup_cons.
      + by exists h', head'. }
  exists h', head'. split; [done|]. split.
  - split; [done|]. split; [|done]. rewrite ordered_insert_perm. by apply list.NoDup_cons.
  - by split.
Qed.

(** C30: Recording a motion is a stable ordered insertion. Where the pointers of the recorded
    motions form a list linked in both directions and [target] is a motion that is not in it,
    [record_motion] comes to an end and leaves such a list again: the old one with [target]
    before the first motion that starts later. No other field of any motion changes, and a
    list ordered by start ticks stays ordered. *)
Theorem record_motion_refines h head l target tg :
  chain h head l -> target ∉ l -> h !! target = Some tg ->
  exists h' head', record_motion h head target = Ok (h', head') /\
    chain h' head' (ordered_insert (start_of h) target l) /\ links_only h h' /\ untouched (target :: l) h h' /\
    (sorted_by (start_of h) l -> sorted_by (start_of h') (ordered_insert (start_of h) target l)).
Proof.
  intros Hc Hnotin Et. destruct (record_motion_spec h head l target tg Hc Hnotin Et) as (h' & head' & He & Hc' & Hr & Hu).
  exists h', head'. do 4 (split; [done|]). intros Hsorted. apply (ordered_insert_sorted _ target) in Hsorted.
  revert Hsorted. apply sorted_by_same. intros a. by apply links_only_start.
Qed.

(** ** A concrete list: motions that start at 16 and 48, and one in between *)

Definition ex_at (start : Z) (p n : option Z) : motion := with_links (with_flags ex_motion start true false) p n.
Definition ex_heap : motion_heap := <[1 := ex_at 16 None (Some 2)]> (<[2 := ex_at 48 (Some 1) None]> (<[3 := ex_at 32 None None]> ∅)).

Lemma record_motion_refines_witness : chain ex_heap (Some 1) [1; 2] /\
  exists h' head', record_motion ex_heap (Some 1) 3 = Ok (h', head') /\ chain h' head' [1; 3; 2].
Proof.
  assert (chain ex_heap (Some 1) [1; 2]) as Hc.
  { split; [done|]. split; [by apply (bool_decide_unpack _); vm_compute|].
    exists (ex_at 16 None (Some 2)). split; [done|]. split; [done|]. split; [done|].
    by exists (ex_at 48 (Some 1) None). }
  split; [done|].
  destruct (record_motion_refines ex_heap (Some 1) [1; 2] 3 (ex_at 32 None None) Hc) as (h' & head' & He & Hc' & _).
  - by apply (bool_decide_unpack _); vm_compute.
  - done.
  - by exists h', head'.
Defined.
