(* ===== verification/PadSession.v ===== *)
(** * Fingers and sessions of a pad ([Pad::PadFinger], [Pad::PadSession] of engine_code/pad.cc)

    A session is one take: for each finger the motions it recorded, the motion it makes now,
    and the motions that are playing. Motions are shared by address between these, so they
    live on a heap: deleting one that something still points to shows as an error. *)

From Stdlib Require Import String ZArith Lia List Sorted Permutation.
From stdpp Require Import base list numbers option gmap.
From S2P Require Import Prelude Arpeggiator Scales PadMotion MotionList.
Local Open Scope list_scope.
Local Open Scope Z_scope.
Local Open Scope vk_scope.

Definition MAX_PAD_FINGERS : Z := 5.

(** ** Events *)

(* @src src_jni/engine_code/pad.hh:88-90 PadEvent::PadEvent_t *)
Inductive pad_event_t : Type := ms_pad_press | ms_pad_slide | ms_pad_release | ms_pad_no_event.

(* @src src_jni/engine_code/pad.cc:33-40 PadEvent::PadEvent *)
Record pad_event : Type := PadEvent { event_t : pad_event_t; event_finger : Z; event_x : Z; event_y : Z; event_z : Z }.

(** ** Memory *)

(** [new] gives out addresses one after the other; an address is not used again. *)
Record pad_memory : Type := PadMemory { motions : motion_heap; next_address : Z }.

Definition allocate_motion (mem : pad_memory) (m : motion) : pad_memory * Z :=
  (PadMemory (<[next_address mem := m]> (motions mem)) (next_address mem + 1), next_address mem).

Definition set_motion (mem : pad_memory) (p : Z) (m : motion) : pad_memory :=
  PadMemory (<[p := m]> (motions mem)) (next_address mem).

(** [delete p]: the motion must be there. *)
Definition free_motion (mem : pad_memory) (p : Z) : result pad_memory :=
  let! _ := at_motion (motions mem) p in
  Ok (PadMemory (base.delete p (motions mem)) (next_address mem)).

Definition change_motion (mem : pad_memory) (p : Z) (f : motion -> motion) : result pad_memory :=
  let! m := at_motion (motions mem) p in Ok (set_motion mem p (f m)).

(* @src src_jni/engine_code/pad.cc:611-615 PadMotion::can_be_deleted_now *)
Definition can_be_deleted_now (mem : pad_memory) (p : Z) : result pad_memory :=
  let! m := at_motion (motions mem) p in
  if to_be_deleted m then free_motion mem p else Ok mem.

(* @src src_jni/engine_code/pad.cc:617-626 PadMotion::delete_motion *)
Definition delete_motion (mem : pad_memory) (p : Z) : result pad_memory :=
  let! m := at_motion (motions mem) p in
  if negb (index m =? -1) then Ok (set_motion mem p (with_flags m (start_tick m) (terminated m) true))
  else free_motion mem p.

Definition record_in (mem : pad_memory) (head : option Z) (p : Z) : result (pad_memory * option Z) :=
  let! (h, head) := record_motion (motions mem) head p in Ok (PadMemory h (next_address mem), head).

(** ** Fingers *)

(* @src src_jni/engine_code/pad.hh:226-237 PadFinger *)
Record pad_finger : Type := PadFinger {
  finger_deleted : bool;
  recorded : option Z;
  next_motion_to_play : option Z;
  playing_motions : list Z;
  current : option Z
}.

(* @src src_jni/engine_code/pad.cc:874-875 PadFinger::PadFinger *)
Definition new_finger : pad_finger := PadFinger false None None [] None.

(** The loop over the recorded motions: [f] is done to each after its [next] was read. *)
Fixpoint over_recorded (fuel : nat) (f : pad_memory -> Z -> result pad_memory) (mem : pad_memory) (t : option Z)
  : result pad_memory :=
  match t with
  | None => Ok mem
  | Some p =>
      match fuel with
      | O => Err OutOfFuel
      | S fuel =>
          let! m := at_motion (motions mem) p in
          let! mem := f mem p in
          over_recorded fuel f mem (next m)
      end
  end.

Definition recorded_fuel (mem : pad_memory) : nat := S (size (motions mem)).

(* @src src_jni/engine_code/pad.cc:877-886 PadFinger::~PadFinger *)
Definition destroy_finger (mem : pad_memory) (f : pad_finger) : result pad_memory :=
  let! mem := over_recorded (recorded_fuel mem) free_motion mem (recorded f) in
  match current f with
  | Some p => free_motion mem p
  | None => Ok mem
  end.

(* @src src_jni/engine_code/pad.cc:888-891 PadFinger::start_from_the_top *)
Definition start_from_the_top (f : pad_finger) : pad_finger :=
  PadFinger (finger_deleted f) (recorded f) (recorded f) [] (current f).

Definition with_current (f : pad_finger) (playing : list Z) (c : option Z) : pad_finger :=
  PadFinger (finger_deleted f) (recorded f) (next_motion_to_play f) playing c.

(** The members [new PadMotion] leaves uninitialised have the values [garbage] gives. *)
Record indeterminate : Type := Indeterminate { in_scale : list Z; in_x : Z; in_tick : Z; in_chord : list Z }.

Section finger.
Context (scales_here : option scales_object) (garbage : indeterminate).

(* @src src_jni/engine_code/pad.cc:893-929 PadFinger::process_finger_events *)
Definition process_finger_events (config : pad_config) (pe : pad_event) (session_position : Z)
    (mem : pad_memory) (f : pad_finger) : result (pad_memory * pad_finger) :=
  if finger_deleted f then Ok (mem, f) else
  let session_position := i32 (session_position + 1) in
  match event_t pe with
  | ms_pad_press =>
      let m := new_motion (in_scale garbage) (in_x garbage) config session_position (event_x pe) (event_y pe) (event_z pe) in
      let! (m, started) := start_motion m session_position in
      if started then
        let '(mem, p) := allocate_motion mem m in
        Ok (mem, with_current f (playing_motions f ++ [p]) (Some p))
      else Ok (mem, with_current f (playing_motions f) None)
  | ms_pad_release =>
      match current f with
      | Some p =>
          let! m := at_motion (motions mem) p in
          let! m := terminate (add_position m (event_x pe) (event_y pe) (event_z pe)) in
          Ok (set_motion mem p m, f)
      | None => Ok (mem, f)
      end
  | ms_pad_slide =>
      match current f with
      | Some p =>
          let! mem := change_motion mem p (fun m => add_position m (event_x pe) (event_y pe) (event_z pe)) in
          Ok (mem, f)
      | None => Ok (mem, f)
      end
  | ms_pad_no_event => Ok (mem, f)
  end.

(** The recorded motions that start now, from [top] on. *)
(* @src src_jni/engine_code/pad.cc:937-943 PadFinger::process_finger_motions *)
Fixpoint start_due (fuel : nat) (session_position : Z) (mem : pad_memory) (top : option Z) (playing : list Z)
  : result (pad_memory * option Z * list Z) :=
  match top with
  | None => Ok (mem, None, playing)
  | Some p =>
      let! m := at_motion (motions mem) p in
      let! (m, started) := start_motion m session_position in
      if started then
        match fuel with
        | O => Err OutOfFuel
        | S fuel => start_due fuel session_position (set_motion mem p m) (next m) (playing ++ [p])
        end
      else Ok (mem, top, playing)
  end.

(** The loop over the playing motions: [playing_motions] keeps the ones that are not over. *)
(* @src src_jni/engine_code/pad.cc:946-966 PadFinger::process_finger_motions *)
Fixpoint process_playing (do_record mute do_quantize : bool) (mem : pad_memory) (f : pad_finger) (ks : list Z)
  : result (pad_memory * pad_finger * list meb_call) :=
  match ks with
  | [] => Ok (mem, f, [])
  | k :: ks =>
      let! m := at_motion (motions mem) k in
      let! (m, out, over) := process_motion scales_here mute (in_chord garbage) m in
      let mem := set_motion mem k m in
      let! (mem, f) :=
        if (over : bool) then
          if bool_decide (current f = Some k) then
            if do_record then
              let! (mem, head) := record_in mem (recorded f) k in
              let! mem := if do_quantize then change_motion mem k quantize else Ok mem in
              Ok (mem, PadFinger (finger_deleted f) head (next_motion_to_play f) (playing_motions f) None)
            else
              let! mem := free_motion mem k in
              Ok (mem, with_current f (playing_motions f) None)
          else let! mem := can_be_deleted_now mem k in Ok (mem, f)
        else Ok (mem, with_current f (playing_motions f ++ [k]) (current f)) in
      let! (mem, f, more) := process_playing do_record mute do_quantize mem f ks in
      Ok (mem, f, out ++ more)
  end.

(** Whether the finger is done, with the calls. *)
(* @src src_jni/engine_code/pad.cc:931-972 PadFinger::process_finger_motions *)
Definition process_finger_motions (do_record mute : bool) (session_position : Z) (do_quantize : bool)
    (mem : pad_memory) (f : pad_finger) : result (pad_memory * pad_finger * list meb_call * bool) :=
  let! (mem, top, playing) :=
    if negb (finger_deleted f) && negb mute && bool_decide (is_Some (next_motion_to_play f)) then
      start_due (recorded_fuel mem) session_position mem (next_motion_to_play f) (playing_motions f)
    else Ok (mem, if mute then None else next_motion_to_play f, playing_motions f) in
  let! (mem, f, out) :=
    process_playing do_record mute do_quantize mem (PadFinger (finger_deleted f) (recorded f) top [] (current f)) playing in
  Ok (mem, f, out, bool_decide (playing_motions f = []) && bool_decide (next_motion_to_play f = None)).

(* @src src_jni/engine_code/pad.cc:974-981 PadFinger::reset *)
Definition reset_finger (mem : pad_memory) (f : pad_finger) : result (pad_memory * pad_finger) :=
  let! mem := rfold (fun mem p => change_motion mem p reset_motion) mem (playing_motions f) in
  Ok (mem, PadFinger (finger_deleted f) (recorded f) (recorded f) [] (current f)).

(* @src src_jni/engine_code/pad.cc:983-993 PadFinger::delete_pad_finger *)
Definition delete_pad_finger (mem : pad_memory) (f : pad_finger) : result (pad_memory * pad_finger) :=
  let! mem := over_recorded (recorded_fuel mem) delete_motion mem (recorded f) in
  Ok (mem, PadFinger true None None (playing_motions f) (current f)).

(* @src src_jni/engine_code/pad.cc:995-999 PadFinger::terminate *)
Definition terminate_finger (mem : pad_memory) (f : pad_finger) : result (pad_memory * pad_finger) :=
  match current f with
  | Some p =>
      let! m := at_motion (motions mem) p in
      let! m := terminate m in
      Ok (set_motion mem p m, f)
  | None => Ok (mem, f)
  end.

(** ** Sessions *)

(** The loop over the fingers of a session, in order. *)
Fixpoint over_fingers (g : pad_memory -> pad_finger -> result (pad_memory * pad_finger)) (mem : pad_memory)
    (fs : list pad_finger) : result (pad_memory * list pad_finger) :=
  match fs with
  | [] => Ok (mem, [])
  | f :: fs =>
      let! (mem, f) := g mem f in
      let! (mem, fs) := over_fingers g mem fs in
      Ok (mem, f :: fs)
  end.

(* @src src_jni/engine_code/pad.hh:261-274 PadSession *)
Record pad_session : Type := PadSession {
  session_deleted : bool;
  session_terminated : bool;
  fingers : list pad_finger;
  start_at_tick : Z;
  playback_position : Z;
  in_play : bool
}.

Definition with_fingers (s : pad_session) (fs : list pad_finger) : pad_session :=
  PadSession (session_deleted s) (session_terminated s) fs (start_at_tick s) (playback_position s) (in_play s).

Definition with_play_state (s : pad_session) (fs : list pad_finger) (position : Z) (playing : bool) : pad_session :=
  PadSession (session_deleted s) (session_terminated s) fs (start_at_tick s) position playing.

Definition new_fingers : list pad_finger := repeat new_finger (Z.to_nat MAX_PAD_FINGERS).

(* @src src_jni/engine_code/pad.cc:1007-1010 PadSession::PadSession *)
Definition new_session (start : Z) (terminated : bool) : pad_session :=
  PadSession false terminated new_fingers start (-1) false.

(** [PadMotion::record_motion(&(finger[id].recorded), m)] *)
Definition record_for_finger (mem : pad_memory) (fs : list pad_finger) (id p : Z) : result (pad_memory * list pad_finger) :=
  let! f := load fs id in
  let! (mem, head) := record_in mem (recorded f) p in
  let! fs := store fs id (PadFinger (finger_deleted f) head (next_motion_to_play f) (playing_motions f) (current f)) in
  Ok (mem, fs).

(* @src src_jni/engine_code/pad.cc:1012-1017 PadSession::PadSession *)
Definition new_session_with (start padmot finger_id : Z) (mem : pad_memory) : result (pad_memory * pad_session) :=
  let! (mem, fs) := record_for_finger mem new_fingers finger_id padmot in
  Ok (mem, PadSession false true fs start (-1) false).

(** The element [<s ...>]. *)
Record session_xml : Type := SessionXml { xml_session_start : option Z; xml_motions : list motion_xml }.

(** Reading [ps_xml["m"]] throws where there is none. *)
(* @src src_jni/engine_code/pad.cc:1019-1044 PadSession::PadSession *)
Definition new_session_xml (project_interface_level : Z) (config : pad_config) (x : session_xml) (mem : pad_memory)
  : result (pad_memory * pad_session) :=
  match xml_motions x with
  | [] => Err (JException "no such element"%string)
  | ms =>
      let! (mem, fs) :=
        rfold (fun '(mem, fs) mxml =>
          let '(mem, p) := allocate_motion mem
            (new_motion_xml (in_scale garbage) (in_tick garbage) (in_x garbage) project_interface_level config mxml) in
          record_for_finger mem fs (default 0 (xml_f mxml)) p) (mem, new_fingers) ms in
      Ok (mem, PadSession false true fs (default 0 (xml_session_start x)) (-1) false)
  end.

(* @src src_jni/engine_code/pad.cc:1047-1064 PadSession::start_play *)
Definition start_play (s : pad_session) (crnt_tick : Z) : pad_session * bool :=
  if in_play s then (s, true)
  else if start_at_tick s =? crnt_tick then (with_play_state s (map start_from_the_top (fingers s)) (-1) true, true)
  else (s, false).

(** Every finger, and whether all are done. *)
(* @src src_jni/engine_code/pad.cc:1071-1079 PadSession::process_session *)
Fixpoint process_fingers (do_record mute : bool) (position : Z) (do_quantize : bool) (mem : pad_memory)
    (fs : list pad_finger) : result (pad_memory * list pad_finger * list meb_call * bool) :=
  match fs with
  | [] => Ok (mem, [], [], true)
  | f :: fs =>
      let! (mem, f, out, finger_completed) := process_finger_motions do_record mute position do_quantize mem f in
      let! (mem, fs, more, session_completed) := process_fingers do_record mute position do_quantize mem fs in
      Ok (mem, f :: fs, out ++ more, finger_completed && session_completed)
  end.

(** Whether the session can be deleted, with the calls. *)
(* @src src_jni/engine_code/pad.cc:1066-1088 PadSession::process_session *)
Definition process_session (do_record mute do_quantize : bool) (mem : pad_memory) (s : pad_session)
  : result (pad_memory * pad_session * list meb_call * bool) :=
  let position := i32 (playback_position s + 1) in
  let! (mem, fs, out, session_completed) := process_fingers do_record mute position do_quantize mem (fingers s) in
  Ok (mem, with_play_state s fs position (negb (session_completed && session_terminated s)), out,
      session_completed && session_deleted s).

(* @src src_jni/engine_code/pad.cc:1090-1096 PadSession::reset *)
Definition reset_session (mem : pad_memory) (s : pad_session) : result (pad_memory * pad_session) :=
  let! (mem, fs) := over_fingers reset_finger mem (fingers s) in
  Ok (mem, with_play_state s fs (playback_position s) false).

(* @src src_jni/engine_code/pad.cc:1098-1104 PadSession::delete_session *)
Definition delete_session (mem : pad_memory) (s : pad_session) : result (pad_memory * pad_session) :=
  let! (mem, fs) := over_fingers delete_pad_finger mem (fingers s) in
  Ok (mem, PadSession true (session_terminated s) fs (start_at_tick s) (playback_position s) (in_play s)).

(* @src src_jni/engine_code/pad.cc:1106-1111 PadSession::terminate *)
Definition terminate_session (mem : pad_memory) (s : pad_session) : result (pad_memory * pad_session) :=
  let! (mem, fs) := over_fingers terminate_finger mem (fingers s) in
  Ok (mem, PadSession (session_deleted s) true fs (start_at_tick s) (playback_position s) (in_play s)).

(** [delete session]: the fingers are destroyed from the last to the first. *)
Definition destroy_session (mem : pad_memory) (s : pad_session) : result pad_memory :=
  rfold destroy_finger mem (rev (fingers s)).

(** The recorded motions of a finger, in their order. *)
(* @src src_jni/engine_code/pad.cc:1116-1121 PadSession::get_session_xml *)
Fixpoint recorded_xml (fuel : nat) (finger_id : Z) (mem : pad_memory) (k : option Z) : result (list motion_xml) :=
  match k with
  | None => Ok []
  | Some p =>
      match fuel with
      | O => Err OutOfFuel
      | S fuel =>
          let! m := at_motion (motions mem) p in
          let! x := get_padmotion_xml finger_id m in
          let! xs := recorded_xml fuel finger_id mem (next m) in
          Ok (x :: xs)
      end
  end.

Fixpoint fingers_xml (finger_id : Z) (mem : pad_memory) (fs : list pad_finger) : result (list motion_xml) :=
  match fs with
  | [] => Ok []
  | f :: fs =>
      let! xs := recorded_xml (recorded_fuel mem) finger_id mem (recorded f) in
      let! ys := fingers_xml (finger_id + 1) mem fs in
      Ok (xs ++ ys)
  end.

(* @src src_jni/engine_code/pad.cc:1113-1124 PadSession::get_session_xml *)
Definition get_session_xml (mem : pad_memory) (s : pad_session) : result session_xml :=
  let! xs := fingers_xml 0 mem (fingers s) in
  Ok (SessionXml (Some (start_at_tick s)) xs).
End finger.
