(* ===== verification/Pad.v ===== *)
(** * The pad ([Pad] of engine_code/pad.cc and pad.hh)

    Events that the user interface queued are played and, with recording on, kept: the pad's
    sessions, its handlers on the audio thread, the operations that run between two ticks,
    saving and loading, and the export of the sessions to the notes of a loop. *)

From Stdlib Require Import String ZArith Lia List Sorted Permutation.
From stdpp Require Import base list numbers option gmap.
From S2P Require Import Prelude CxxString StdMap PadTime Arpeggiator Scales PadMotion MotionList PadSession.
Local Open Scope list_scope.
Local Open Scope Z_scope.
Local Open Scope vk_scope.

(** Sessions are shared by address as well. [event_queue] is what the lock-free queue holds. *)
(* @src src_jni/engine_code/pad.hh:298-315 Pad *)
Record pad : Type := Pad {
  event_queue : list pad_event;
  current_session : option Z;
  recorded_sessions : list Z;
  do_record : bool;
  do_quantize : bool;
  pad_configuration : pad_config;
  sessions : gmap Z pad_session;
  memory : pad_memory
}.

Definition at_session (p : pad) (a : Z) : result pad_session :=
  match sessions p !! a with
  | Some s => Ok s
  | None => Err (UndefinedBehaviour "no session at this address"%string)
  end.

Definition with_sessions (p : pad) (cur : option Z) (recorded : list Z) (ss : gmap Z pad_session) (mem : pad_memory) : pad :=
  Pad (event_queue p) cur recorded (do_record p) (do_quantize p) (pad_configuration p) ss mem.

Definition put_session (p : pad) (a : Z) (s : pad_session) (mem : pad_memory) : pad :=
  with_sessions p (current_session p) (recorded_sessions p) (<[a := s]> (sessions p)) mem.

Definition with_queue (p : pad) (q : list pad_event) : pad :=
  Pad q (current_session p) (recorded_sessions p) (do_record p) (do_quantize p) (pad_configuration p) (sessions p) (memory p).

(** [new PadSession]: addresses come from the same allocator as the motions'. *)
Definition allocate_session (p : pad) (s : pad_session) (mem : pad_memory) : pad * Z :=
  let a := next_address mem in
  (with_sessions p (current_session p) (recorded_sessions p) (<[a := s]> (sessions p))
     (PadMemory (motions mem) (a + 1)), a).

(** [delete session] *)
Definition delete_at (p : pad) (a : Z) : result pad :=
  let! s := at_session p a in
  let! mem := destroy_session (memory p) s in
  Ok (with_sessions p (current_session p) (recorded_sessions p) (base.delete a (sessions p)) mem).

(* @src src_jni/engine_code/pad.cc:1132-1139 Pad::Pad *)
Definition new_pad (garbage_scale : list Z) : pad :=
  Pad [] None [] false false (new_config garbage_scale arp_off 0 4) gmap_empty (PadMemory gmap_empty 0).

(** ** Recording and playing *)

(** What [process_events] asks the machine: whether it loops, the loop's start and length. *)
Record machine_loop : Type := MachineLoop { get_loop_state : bool; get_loop_start : Z; get_loop_length : Z }.

Section pad.
Context (scales_here : option scales_object) (garbage : indeterminate) (loop : machine_loop).

(** The start tick of the session that the first event opens. *)
(* @src src_jni/engine_code/pad.cc:1164-1177 Pad::process_events *)
Definition session_start (quantized : bool) (tick : Z) : Z :=
  let start_tick := if quantized then quantize_tick tick else tick in
  if get_loop_state loop then
    let loop_start := get_loop_start loop in
    let loop_end := i32 (get_loop_length loop + loop_start) in
    if i32 (Z.shiftl loop_end BITS_PER_LINE) <=? start_tick
    then i32 (start_tick - i32 (Z.shiftl loop_start BITS_PER_LINE)) else start_tick
  else start_tick.

(* @src src_jni/engine_code/pad.cc:1163-1183 Pad::process_events *)
Definition open_session (p : pad) (tick : Z) : pad * Z :=
  match current_session p with
  | Some a => (p, a)
  | None =>
      let s := with_play_state (new_session (session_start (do_quantize p) tick) false) new_fingers (-1) true in
      let '(p, a) := allocate_session p s (memory p) in
      (with_sessions p (Some a) (recorded_sessions p ++ [a]) (sessions p) (memory p), a)
  end.

(** One event. *)
(* @src src_jni/engine_code/pad.cc:1162-1188 Pad::process_events *)
Definition process_event (tick : Z) (p : pad) (pe : pad_event) : result pad :=
  if (0 <=? event_finger pe) && (event_finger pe <? MAX_PAD_FINGERS) then
    let '(p, a) := open_session p tick in
    let! s := at_session p a in
    let! f := load (fingers s) (event_finger pe) in
    let! (mem, f) := process_finger_events garbage (pad_configuration p) pe (playback_position s) (memory p) f in
    let! fs := store (fingers s) (event_finger pe) f in
    Ok (put_session p a (with_fingers s fs) mem)
  else Ok p.

(* @src src_jni/engine_code/pad.cc:1159-1190 Pad::process_events *)
Definition process_events (tick : Z) (p : pad) : result pad :=
  rfold (process_event tick) (with_queue p []) (event_queue p).

(** The loop over the recorded sessions; it keeps [kept ++ the rest]. *)
(* @src src_jni/engine_code/pad.cc:1195-1211 Pad::process_sessions *)
Fixpoint process_session_list (mute : bool) (tick : Z) (p : pad) (kept ts : list Z) : result (pad * list meb_call) :=
  match ts with
  | [] => Ok (p, [])
  | t :: ts =>
      let no_sound := if bool_decide (current_session p = Some t) then false else mute in
      let! s := at_session p t in
      let '(s, playing) := start_play s tick in
      if playing then
        let! (mem, s, out, over) := process_session scales_here garbage (do_record p) no_sound (do_quantize p) (memory p) s in
        let p := put_session p t s mem in
        if over then
          let! p := delete_at p t in
          let p := with_sessions p (current_session p) (kept ++ ts) (sessions p) (memory p) in
          let! (p, more) := process_session_list mute tick p kept ts in
          Ok (p, out ++ more)
        else
          let! (p, more) := process_session_list mute tick p (kept ++ [t]) ts in
          Ok (p, out ++ more)
      else process_session_list mute tick (put_session p t s (memory p)) (kept ++ [t]) ts
  end.

(* @src src_jni/engine_code/pad.cc:1192-1212 Pad::process_sessions *)
Definition process_sessions (mute : bool) (tick : Z) (p : pad) : result (pad * list meb_call) :=
  process_session_list mute tick p [] (recorded_sessions p).

(* @src src_jni/engine_code/pad.cc:1214-1217 Pad::process *)
Definition process (mute : bool) (tick : Z) (p : pad) : result (pad * list meb_call) :=
  let! p := process_events tick p in
  process_sessions mute tick p.

(** ** Operations between ticks *)

(** The loop of [reset]; deleting the current session forgets it. *)
(* @src src_jni/engine_code/pad.cc:1145-1157 Pad::reset *)
Fixpoint reset_session_list (p : pad) (kept ts : list Z) : result pad :=
  match ts with
  | [] => Ok p
  | t :: ts =>
      if bool_decide (current_session p = Some t) then
        let! p := delete_at p t in
        reset_session_list (with_sessions p None (kept ++ ts) (sessions p) (memory p)) kept ts
      else
        let! s := at_session p t in
        let! (mem, s) := reset_session (memory p) s in
        reset_session_list (put_session p t s mem) (kept ++ [t]) ts
  end.

Definition reset_pad (p : pad) : result pad := reset_session_list p [] (recorded_sessions p).

(* @src src_jni/engine_code/pad.cc:1299-1304 Pad::enqueue_event *)
Definition enqueue_event (p : pad) (finger_id : Z) (t : pad_event_t) (x y z : Z) : pad :=
  with_queue p (event_queue p ++
    [PadEvent t finger_id (Z.land x 0x3fff) (Z.land y 0x3fff) (Z.land z 0x3fff)]).

Definition change_session (p : pad) (a : Z)
    (f : pad_memory -> pad_session -> result (pad_memory * pad_session)) : result pad :=
  let! s := at_session p a in
  let! (mem, s) := f (memory p) s in
  Ok (put_session p a s mem).

(* @src src_jni/engine_code/pad.cc:1306-1321 Pad::internal_set_record *)
Definition internal_set_record (p : pad) (record : bool) : result pad :=
  if Bool.eqb (do_record p) record then Ok p else
  let! p :=
    match current_session p with
    | Some a =>
        let! p := change_session p a (if negb (do_record p) then delete_session else terminate_session) in
        Ok (with_sessions p None (recorded_sessions p) (sessions p) (memory p))
    | None => Ok p
    end in
  Ok (Pad (event_queue p) (current_session p) (recorded_sessions p) record (do_quantize p) (pad_configuration p)
        (sessions p) (memory p)).

(* @src src_jni/engine_code/pad.cc:1330-1335 Pad::set_quantize *)
Definition set_quantize (p : pad) (quantized : bool) : pad :=
  Pad (event_queue p) (current_session p) (recorded_sessions p) (do_record p) quantized (pad_configuration p)
    (sessions p) (memory p).

(* @src src_jni/engine_code/pad.cc:1337-1346 Pad::internal_clear_pad *)
Definition internal_clear_pad (p : pad) : result pad :=
  let! p := rfold (fun p a => change_session p a delete_session) p (recorded_sessions p) in
  Ok (with_sessions p None (recorded_sessions p) (sessions p) (memory p)).

(** ** Saving and loading *)

(** The element [<pad>]: its configuration (its own attributes, the element [<c .../>]), its
    sessions, and the motions that projects below level 5 have in their place. *)
Record pad_xml : Type := PadXml {
  xml_pad_own : config_xml;
  xml_pad_config : option config_xml;
  xml_sessions : list session_xml;
  xml_pad_motions : list motion_xml
}.

(* @src src_jni/engine_code/pad.cc:1219-1231 Pad::get_pad_xml *)
Definition get_pad_xml (p : pad) : result pad_xml :=
  let! c := get_configuration_xml (pad_configuration p) in
  let! ss :=
    rfold (fun ss a =>
      if bool_decide (current_session p = Some a) then Ok ss
      else let! s := at_session p a in
           let! x := get_session_xml (memory p) s in
           Ok (ss ++ [x])) [] (recorded_sessions p) in
  Ok (PadXml no_config_xml (Some c) ss []).

Definition push_session (p : pad) (s : pad_session) (mem : pad_memory) : pad :=
  let '(p, a) := allocate_session p s mem in
  with_sessions p (current_session p) (recorded_sessions p ++ [a]) (sessions p) (memory p).

(** A session that cannot be read is left out. *)
(* @src src_jni/engine_code/pad.cc:1274-1288 Pad::load_pad_from_xml *)
Definition load_session (project_interface_level : Z) (p : pad) (x : session_xml) : result pad :=
  match new_session_xml garbage project_interface_level (pad_configuration p) x (memory p) with
  | Ok (mem, s) => Ok (push_session p s mem)
  | Err (JException _) => Ok p
  | Err e => Err e
  end.

(** Below level 5 each motion is a session; [start_offset] is indeterminate for a motion
    without points. *)
(* @src src_jni/engine_code/pad.cc:1252-1263 Pad::load_pad_from_xml *)
Definition load_old_motion (start_offset : Z) (p : pad) (x : motion_xml) : result pad :=
  let '(m, offset) := new_motion_old_xml (in_scale garbage) (in_tick garbage) (in_x garbage) (pad_configuration p) x in
  let '(mem, a) := allocate_motion (memory p) m in
  let! (mem, s) := new_session_with (default start_offset offset) a (default 0 (xml_f x)) mem in
  Ok (push_session p s mem).

(** Reading [pad_xml["s"]] (or ["m"]) throws where there is none; the handler at the end of the
    function keeps what was loaded. *)
(* @src src_jni/engine_code/pad.cc:1233-1297 Pad::load_pad_from_xml *)
Definition load_pad_from_xml (start_offset project_interface_level : Z) (p : pad) (x : option pad_xml) : result pad :=
  match x with
  | None => Ok p
  | Some x =>
      let c := load_configuration_from_xml (pad_configuration p) (default (xml_pad_own x) (xml_pad_config x)) in
      let p := Pad (event_queue p) (current_session p) (recorded_sessions p) (do_record p) (do_quantize p) c
                 (sessions p) (memory p) in
      if project_interface_level <? 5 then rfold (load_old_motion start_offset) p (xml_pad_motions x)
      else rfold (load_session project_interface_level) p (xml_sessions x)
  end.
End pad.

(** ** Exporting the sessions to a loop *)

(** What the export sets in a note it got from [new_note]. *)
(* @src src_jni/midi_generation.hh:144-150 PadMidiExportBuilder::queue_note_on *)
Record export_note : Type := ExportNote {
  note_channel : Z; note_program : Z; note_velocity : Z; note_key : Z; note_on_at : Z; note_length : Z
}.

(** [finalized] is what [finalize_note] was called with, in that order. *)
(* @src src_jni/midi_generation.hh:100-122 PadMidiExportBuilder *)
Record export_builder : Type := ExportBuilder {
  active_notes : smap Z export_note;
  finalized : list export_note;
  export_tick : Z;
  current_tick : Z
}.

(* @src src_jni/midi_generation.hh:130-138 PadMidiExportBuilder::PadMidiExportBuilder *)
Definition new_export_builder (start_tick : Z) : export_builder := ExportBuilder [] [] 0 start_tick.

(* @src src_jni/midi_generation.hh:140-153 PadMidiExportBuilder::queue_note_on *)
Definition export_note_on (b : export_builder) (note velocity channel : Z) : export_builder :=
  match mfind (active_notes b) note with
  | Some _ => b
  | None =>
      ExportBuilder (mset (active_notes b) note (ExportNote channel 0 velocity note (export_tick b) 0))
        (finalized b) (export_tick b) (current_tick b)
  end.

(* @src src_jni/midi_generation.hh:155-166 PadMidiExportBuilder::queue_note_off *)
Definition export_note_off (b : export_builder) (note velocity channel : Z) : export_builder :=
  match mfind (active_notes b) note with
  | Some n =>
      let n := ExportNote (note_channel n) (note_program n) (note_velocity n) (note_key n) (note_on_at n)
                 (i32 (export_tick b - note_on_at n)) in
      ExportBuilder (merase (active_notes b) note) (finalized b ++ [n]) (export_tick b) (current_tick b)
  | None => b
  end.

(** The virtual members; controllers and pitch bend are ignored. *)
(* @src src_jni/midi_generation.hh:168-178 PadMidiExportBuilder::queue_controller *)
Definition export_call (b : export_builder) (c : meb_call) : export_builder :=
  match c with
  | NoteOn n v => export_note_on b n v 0
  | NoteOff n v => export_note_off b n v 0
  | Controller _ _ | PitchBend _ _ => b
  end.

(* @src src_jni/midi_generation.hh:180-184 PadMidiExportBuilder::step_tick *)
Definition step_tick (b : export_builder) : export_builder :=
  ExportBuilder (active_notes b) (finalized b) (i32 (export_tick b + 1)) (i32 (current_tick b + 1)).

Section export.
Context (scales_here : option scales_object) (garbage : indeterminate).

(** The remaining sessions that start at the tick become active: [(pad, remaining, active)]. *)
(* @src src_jni/engine_code/pad.hh:363-374 Pad::export_to_loop *)
Fixpoint start_remaining (tick : Z) (p : pad) (remaining active : list Z) : result (pad * list Z * list Z) :=
  match remaining with
  | [] => Ok (p, [], active)
  | t :: remaining =>
      let! s := at_session p t in
      let '(s, started) := start_play s tick in
      let p := put_session p t s (memory p) in
      if started then start_remaining tick p remaining (active ++ [t])
      else let! (p, remaining, active) := start_remaining tick p remaining active in
           Ok (p, t :: remaining, active)
  end.

(** [start_play(-1)] asks whether a session still plays (and starts one that starts at -1). *)
(* @src src_jni/engine_code/pad.hh:376-387 Pad::export_to_loop *)
Fixpoint process_active (p : pad) (b : export_builder) (active : list Z) : result (pad * export_builder * list Z) :=
  match active with
  | [] => Ok (p, b, [])
  | t :: active =>
      let! s := at_session p t in
      let! (mem, s, out, _) := process_session scales_here garbage false false false (memory p) s in
      let b := fold_left export_call out b in
      let '(s, playing) := start_play s (-1) in
      let p := put_session p t s mem in
      let! (p, b, active) := process_active p b active in
      Ok (p, b, if playing then t :: active else active)
  end.

(* @src src_jni/engine_code/pad.hh:362-391 Pad::export_to_loop *)
Fixpoint export_ticks (fuel : nat) (stop_tick : Z) (p : pad) (b : export_builder) (remaining active : list Z)
  : result (pad * export_builder) :=
  if (current_tick b <? stop_tick) || bool_decide (active <> []) then
    match fuel with
    | O => Err OutOfFuel
    | S fuel =>
        let! (p, remaining, active) := start_remaining (current_tick b) p remaining active in
        let! (p, b, active) := process_active p b active in
        export_ticks fuel stop_tick p (step_tick b) remaining active
    end
  else Ok (p, b).

(* @src src_jni/engine_code/pad.hh:338-395 Pad::export_to_loop *)
Definition export_to_loop (fuel : nat) (start_tick stop_tick : Z) (p : pad) (b : export_builder)
  : result (pad * export_builder) :=
  let stop_tick := if stop_tick <? start_tick then 0x7fffffff else stop_tick in
  let! p := reset_pad p in
  let! remaining :=
    rfold (fun remaining a =>
      let! s := at_session p a in
      Ok (if negb (bool_decide (current_session p = Some a)) && (start_tick <=? start_at_tick s) &&
             (start_at_tick s <? stop_tick)
          then remaining ++ [a] else remaining)) [] (recorded_sessions p) in
  let! (p, b) := export_ticks fuel stop_tick p b remaining [] in
  let! p := reset_pad p in
  Ok (p, b).
End export.
