(* ===== verification/PadSafe.v ===== *)
(** * The pad is safe

    A pad that the user interface feeds never does anything undefined: no motion or session
    that was deleted is used or deleted again, and no array is read or written out of
    bounds. Each finger owns the motions it points to; every operation on a finger keeps what
    the others own as it is, so the invariant of a finger is the invariant of the pad. *)

From Stdlib Require Import ZArith Lia List Sorted Permutation.
From stdpp Require Import base list numbers option gmap.
From S2P Require Import Prelude Arpeggiator Scales PadTime PadMotion MotionList PadSession Pad.
Local Open Scope list_scope.
Local Open Scope Z_scope.
Local Open Scope vk_scope.

Section safe.
Context (scales_here : option scales_object) (garbage : indeterminate).

(** What the members of a new motion hold before they are set does not matter, but the arrays
    have their sizes. *)
Record garbage_sized : Prop := {
  sized_scale : length (in_scale garbage) = 21%nat;
  sized_chord : length (in_chord garbage) = Z.to_nat MAX_PAD_CHORD
}.
Context (Hgarbage : garbage_sized).

(** ** Configurations and motions *)

Record config_fine (c : pad_config) : Prop := {
  fine_scale : exists c', refresh_scale scales_here c = Ok c' /\ length (scale_data c') = 21%nat;
  fine_pattern : arpeggio_pattern c < Z.of_nat (length built_in);
  fine_coarse : length (pad_controller_coarse c) = 2%nat;
  fine_fine : length (pad_controller_fine c) = 2%nat
}.

Record motion_fine (m : motion) : Prop := {
  fine_config : config_fine (config m);
  fine_ys : length (ys m) = length (xs m);
  fine_zs : length (zs m) = length (xs m);
  fine_ts : length (ts m) = length (xs m);
  fine_range : Forall (fun x => 0 <= x < 2^14) (xs m);
  fine_chord : List.length (last_chord m) = Z.to_nat MAX_PAD_CHORD;
  fine_arp : index m = -1 \/ arp_ok (arperator m)
}.

Lemma enable_ok a k v : arp_ok a -> exists a' r, enable_key a k v = Ok (a', r) /\ arp_ok a'.
Proof.
  intros Ha. destruct (step_ok a [] (Press k v) Ha) as (a' & out & He & Ha' & _); [by left|].
  cbn [do_step] in He. destruct (enable_key a k v) as [[a1 r]|e]; [|done]. cbn in He. injection He as <- <-.
  by exists a1, r.
Qed.

Lemma disable_ok a k : arp_ok a -> exists a', disable_key a k = Ok a' /\ arp_ok a'.
Proof.
  intros Ha. destruct (step_ok a [] (Release k) Ha) as (a' & out & He & Ha' & _); [by left|].
  cbn [do_step] in He. destruct (disable_key a k) as [a1|e]; [|done]. cbn in He. injection He as <- <-. by exists a1.
Qed.

Lemma pattern_ok_step mute a : arp_ok a -> exists a' out, process_pattern mute a = Ok (a', out) /\ arp_ok a'.
Proof.
  intros Ha. destruct (process_pattern_ok mute a (audible a) Ha (or_intror eq_refl)) as (a' & out & He & [Ha' _ _ _ _]).
  by exists a', out.
Qed.

Lemma chord_keys_ok v last : forall a chord, arp_ok a -> List.length last = List.length chord ->
  exists a' chord', chord_keys v a last chord = Ok (a', chord') /\ arp_ok a' /\ length chord' = length chord.
Proof.
  induction last as [|l last IH]; intros a [|c chord] Ha Hl; try done; [by exists a, []|]. cbn [chord_keys].
  assert (exists a1, (if l =? -1 then Ok a else disable_key a l) = Ok a1 /\ arp_ok a1) as (a1 & -> & Ha1)
    by (case_if; [by exists a|by apply disable_ok]). cbn [rbind].
  assert (exists a2 c2, (if c =? -1 then Ok (a1, c) else enable_key a1 c v) = Ok (a2, c2) /\ arp_ok a2) as (a2 & c2 & -> & Ha2)
    by (case_if; [by exists a1, c|by apply enable_ok]). cbn [rbind].
  destruct (IH a2 chord Ha2) as (a3 & chord' & -> & Ha3 & Hc3); [cbn in Hl; lia|]. cbn [rbind].
  exists a3, (c2 :: chord'). split; [done|]. split; [done|]. cbn. lia.
Qed.

(** The fields playing does not change. *)
Definition same_points (m m' : motion) : Prop :=
  exists idx tick chord lx arp, m' = with_play m idx tick chord lx arp (config m).

Lemma build_chord_sized c col chord : length (scale_data c) = 21%nat -> 0 <= col < 8 -> length chord = Z.to_nat MAX_PAD_CHORD ->
  exists chord', build_chord c 0 chord col = Ok chord' /\ length chord' = Z.to_nat MAX_PAD_CHORD.
Proof.
  intros Hc Hcol Hg. unfold build_chord.
  destruct (load_in (scale_data c) (col + 0 + 0)) as (k0 & -> & _); [lia|].
  destruct (load_in (scale_data c) (col + 2 + 0)) as (k2 & -> & _); [lia|].
  destruct (load_in (scale_data c) (col + 4 + 0)) as (k4 & -> & _); [lia|].
  cbn [rbind]. repeat case_if; eexists; (split; [reflexivity|done]).
Qed.

Lemma process_position_total mute m : motion_fine m -> length (scale_data (config m)) = 21%nat ->
  arp_ok (arperator m) -> 0 <= index m < Z.of_nat (length (xs m)) ->
  exists m' out, process_position mute (in_chord garbage) m = Ok (m', out) /\ same_points m m' /\
    index m' = index m + 1 /\ arp_ok (arperator m') /\ List.length (last_chord m') = Z.to_nat MAX_PAD_CHORD.
Proof.
  intros Hm Hc Ha Hi. pose proof Hm as [[_ _ Fc Ff] Fy Fz Ft Fx Fch _]. unfold process_position.
  destruct (load_in (xs m) (index m)) as (x & -> & Hx); [lia|].
  destruct (load_in (ys m) (index m)) as (y & -> & _); [lia|].
  destruct (load_in (zs m) (index m)) as (z & -> & _); [lia|]. cbn [rbind].
  pose proof (pad_column_range _ (Forall_lookup_1 _ _ _ _ Fx Hx)) as Hcol.
  set (col := Z.shiftr (Z.shiftr x 7) 4) in *.
  destruct (load_in (scale_data (config m)) (col + 0)) as (k & -> & _); [lia|]. cbn [rbind].
  set (more := (negb (terminated m) || (index m <? Z.of_nat (length (xs m)) - 1))%bool).
  assert (exists chord, (if (negb (to_be_deleted m) && negb (chord_mode (config m) =? chord_off) && more)%bool
    then build_chord (config m) 0 (in_chord garbage) col else Ok (repeat (-1) (Z.to_nat MAX_PAD_CHORD))) = Ok chord /\
    length chord = Z.to_nat MAX_PAD_CHORD) as (chord & -> & Hchord).
  { case_if; [apply build_chord_sized; [done|done|apply Hgarbage]|by eexists]. }
  destruct (load_in (pad_controller_coarse (config m)) 0) as (coarse0 & Hcoarse & _); [lia|].
  destruct (control_calls_ok (config m) y z 0 Fc Ff) as (ctl0 & Hctl0 & _); [lia|].
  destruct (control_calls_ok (config m) y z 1 Fc Ff) as (ctl1 & Hctl1 & _); [lia|].
  cbn [rbind]. rewrite Hcoarse. cbn [rbind]. rewrite Hctl0. cbn [rbind]. rewrite Hctl1. cbn [rbind].
  match goal with |- context [rbind ?e _] => assert (exists a ch n out, e = Ok (a, ch, n, out) /\
    arp_ok a /\ length ch = Z.to_nat MAX_PAD_CHORD) as (a & ch & n & out & -> & Ha' & Hch') end.
  { case_if; [by do 4 eexists|]. case_if.
    { destruct (chord_keys_ok (if coarse0 =? -1 then Z.shiftr y 7 else 0x7f) (last_chord m) (arperator m) chord Ha)
        as (a & ch & -> & Ha' & Hl); [congruence|]. cbn [rbind]. do 4 eexists. split; [reflexivity|]. split; [done|congruence]. }
    case_if.
    - assert (exists a1, (if last_x m =? -1 then Ok (arperator m) else disable_key (arperator m) (last_x m)) = Ok a1 /\
        arp_ok a1) as (a1 & -> & Ha1) by (case_if; [by eexists|by apply disable_ok]). cbn [rbind].
      case_if; [|by do 4 eexists].
      destruct (enable_ok a1 (octave (config m) * 12 + k) (if coarse0 =? -1 then Z.shiftr y 7 else 0x7f) Ha1) as (a2 & r & -> & Ha2).
      cbn [rbind]. by do 4 eexists.
    - destruct (disable_ok (arperator m) (last_x m) Ha) as (a1 & -> & Ha1). cbn [rbind]. by do 4 eexists. }
  cbn [rbind]. do 2 eexists. split; [reflexivity|]. split; [by do 5 eexists|]. done.
Qed.

Lemma process_positions_total mute n : forall m, motion_fine m -> length (scale_data (config m)) = 21%nat ->
  arp_ok (arperator m) -> 0 <= index m -> (positions_left m <= n)%nat ->
  exists m' out, process_positions n mute (in_chord garbage) m = Ok (m', out) /\ same_points m m' /\
    0 <= index m' /\ arp_ok (arperator m') /\ List.length (last_chord m') = Z.to_nat MAX_PAD_CHORD.
Proof.
  induction n as [|n IH]; intros m Hm Hc Ha Hi Hn; unfold process_positions; fold process_positions.
  all: assert (exists m' out, Ok (m, @nil meb_call) = Ok (m', out) /\ same_points m m' /\
    0 <= index m' /\ arp_ok (arperator m') /\ List.length (last_chord m') = Z.to_nat MAX_PAD_CHORD) as Hstop
    by (exists m, []; split; [done|]; split; [destruct m; by do 5 eexists|]; split; [done|]; split; [done|apply Hm]).
  all: destruct (Z.ltb_spec (index m) (Z.of_nat (length (xs m)))) as [Hlt|Hge]; [|exact Hstop].
  { unfold positions_left in Hn. lia. }
  destruct (load_in (ts m) (index m)) as (t & -> & _); [rewrite (fine_ts m Hm); lia|]. cbn [rbind].
  case_if; [|exact Hstop].
  destruct (process_position_total mute m Hm Hc Ha) as (m1 & out & -> & Hs & Hi1 & Ha1 & Hl1); [lia|]. cbn [rbind].
  destruct Hs as (i & t1 & ch & lx & arp & ->). cbn in *.
  destruct (IH (with_play m i t1 ch lx arp (config m))) as (m2 & more & -> & Hs2 & Hi2 & Ha2 & Hl2); cbn; try done; try lia.
  - destruct Hm. split; try done. by right.
  - unfold positions_left in *. cbn. lia.
  - cbn [rbind]. do 2 eexists. split; [reflexivity|]. destruct Hs2 as (i' & t' & ch' & lx' & arp' & ->). by split; [do 5 eexists|].
Qed.

(** Only what is needed to play changes. *)
Definition played_on (m m' : motion) : Prop :=
  exists idx tick chord lx arp c, m' = with_play m idx tick chord lx arp c.

Lemma process_motion_total mute m : motion_fine m -> 0 <= index m ->
  exists m' out over, process_motion scales_here mute (in_chord garbage) m = Ok (m', out, over) /\
    motion_fine m' /\ played_on m m' /\ (if (over : bool) then index m' = -1 else 0 <= index m').
Proof.
  intros Hm Hi. pose proof Hm as [[(c & Hr & Hlen) Fp Fc Ff] Fy Fz Ft Fx Fch Fa].
  assert (arp_ok (arperator m)) as Ha by (destruct Fa; [lia|done]). unfold process_motion.
  destruct (terminated m && (Z.of_nat (length (xs m)) <=? index m)) eqn:Eend.
  - destruct (pattern_ok_step mute (arperator m) Ha) as (a & out & -> & Ha'). cbn [rbind].
    do 3 eexists. split; [reflexivity|]. split; [|split; [by do 6 eexists|done]].
    split; try done; cbn; [by split; [exists c|..]|by left].
  - rewrite Hr. cbn [rbind]. destruct (refresh_keeps _ _ _ Hr) as (data & Ec).
    set (m1 := with_play m (index m) (i32 (crnt_tick m + 1)) (last_chord m) (last_x m) (arperator m) c).
    assert (refresh_scale scales_here c = Ok c) as Hr2.
    { apply refresh_again. revert Hr. unfold refresh_scale. case_if; [intros [= <-]; zbool; congruence|].
      intros H. inv_bind H. by injection H as <-. }
    assert (config_fine c) as Hc by (split; [by exists c|rewrite Ec; done..]).
    assert (motion_fine m1) as Hm1 by (split; try done; by right).
    destruct (process_positions_total mute (positions_left m1) m1 Hm1 Hlen Ha Hi) as (m2 & out & -> & Hs & Hi2 & Ha2 & Hl2); [done|].
    cbn [rbind]. destruct (pattern_ok_step mute (arperator m2) Ha2) as (a & more & -> & Ha'). cbn [rbind].
    destruct Hs as (i & t & ch & lx & arp & ->). do 3 eexists. split; [reflexivity|]. cbn in *.
    split; [|split; [by do 6 eexists|done]]. split; cbn; try done. by right.
Qed.

(** ** Starting, adding positions, ending *)

Lemma set_pattern_ok a id : id < Z.of_nat (length built_in) -> exists a', set_pattern a id = Ok a'.
Proof.
  intros H. unfold set_pattern. case_if; [by eexists|]. zbool.
  destruct (load_in built_in id) as (p & -> & _); [lia|]. by eexists.
Qed.

Lemma start_motion_total m pos : motion_fine m -> exists m' started, start_motion m pos = Ok (m', started) /\
  motion_fine m' /\ played_on m m' /\ (if (started : bool) then index m = -1 /\ index m' = 0 else m' = m).
Proof.
  intros Hm. unfold start_motion. destruct ((index m =? -1) && (pos =? start_tick m)) eqn:E.
  - zbool. destruct (set_pattern_ok (set_direction (reset (arperator m)) (config_direction (config m)))
      (arpeggio_pattern (config m))) as [a Ha]; [apply Hm|].
    unfold start. rewrite Ha. cbn [rbind]. do 2 eexists. split; [reflexivity|].
    split; [|split; [by do 6 eexists|done]]. destruct Hm. split; try done. right. cbn.
    by eapply start_ok.
  - do 2 eexists. split; [reflexivity|]. split; [done|]. split; [destruct m; by do 6 eexists|done].
Qed.

Lemma add_position_fine m x y z : motion_fine m -> 0 <= x < 2^14 -> motion_fine (add_position m x y z).
Proof.
  intros Hm Hx. unfold add_position. case_if; [done|]. destruct Hm.
  split; cbn; rewrite ?length_app; cbn; try done; try lia. apply Forall_app. split; [done|]. by apply list.Forall_singleton.
Qed.

Lemma terminate_fine m : motion_fine m -> exists m', terminate m = Ok m' /\ motion_fine m' /\
  index m' = index m /\ to_be_deleted m' = to_be_deleted m /\ prev m' = prev m /\ next m' = next m.
Proof.
  intros Hm. unfold terminate. cbn [ts with_flags]. set (last := Z.of_nat (length (ts m)) - 1).
  destruct (Z.ltb_spec 0 last).
  - destruct (load_in (ts m) 0) as (t0 & -> & _); [lia|]. destruct (load_in (ts m) last) as (tl & -> & _); [lia|].
    cbn [rbind]. case_if.
    + rewrite store_in by lia. cbn [rbind]. eexists. split; [reflexivity|]. split; [|done].
      destruct Hm. split; cbn; rewrite ?length_insert; done.
    + eexists. split; [reflexivity|]. split; [|done]. by destruct Hm; split.
  - eexists. split; [reflexivity|]. split; [|done]. by destruct Hm; split.
Qed.

Lemma links_fine m p n : motion_fine m -> motion_fine (with_links m p n).
Proof. by intros []; split. Qed.

(** ** Fingers *)

(** A motion the finger may use: there, fine, and not to be deleted. *)
Definition live (h : motion_heap) (a : Z) : Prop :=
  exists m, h !! a = Some m /\ motion_fine m /\ to_be_deleted m = false.

Definition running (h : motion_heap) (a : Z) : Prop :=
  exists m, h !! a = Some m /\ motion_fine m /\ 0 <= index m.

(** [l] is what the finger recorded. *)
Record finger_ok (h : motion_heap) (f : pad_finger) (l : list Z) : Prop := {
  ok_chain : chain h (recorded f) l;
  ok_recorded : forall a, a ∈ l -> live h a;
  ok_current : forall a, current f = Some a -> a ∉ l /\ live h a;
  ok_next : forall a, next_motion_to_play f = Some a -> a ∈ l;
  ok_nodup : NoDup (playing_motions f);
  ok_playing : forall a, a ∈ playing_motions f -> running h a
}.

Definition owned (f : pad_finger) (l : list Z) (a : Z) : Prop :=
  a ∈ l \/ a ∈ playing_motions f \/ current f = Some a.

Lemma segment_same h h' l : (forall a, a ∈ l -> h' !! a = h !! a) -> forall p n, segment h p l n -> segment h' p l n.
Proof.
  induction l as [|a l IH]; intros H p n; [done|]. intros (m & E & Hp & Hn & Hs).
  exists m. rewrite H by left. do 3 (split; [done|]). apply IH; [|done]. intros b Hb. apply H. by right.
Qed.

(** The invariant looks at what the finger owns and at nothing else. *)
Lemma finger_frame h h' f l : (forall a, owned f l a -> h' !! a = h !! a) -> finger_ok h f l -> finger_ok h' f l.
Proof.
  intros H [(C1 & C2 & C3) R C N D P]. split.
  - split; [done|]. split; [done|]. eapply segment_same; [|exact C3]. intros a Ha. apply H. by left.
  - intros a Ha. unfold live. rewrite H by (by left). by apply R.
  - intros a Ha. unfold live. rewrite H by (by right; right). by apply C.
  - done.
  - done.
  - intros a Ha. unfold running. rewrite H by (by right; left). by apply P.
Qed.

Lemma segment_update h a m m' l : h !! a = Some m -> prev m' = prev m -> next m' = next m ->
  forall p n, segment h p l n -> segment (<[a := m']> h) p l n.
Proof.
  intros E Hp Hn. induction l as [|b l IH]; intros p n; [done|]. intros (mb & Eb & Hbp & Hbn & Hs).
  destruct (Z.eq_dec a b) as [->|Hne].
  - exists m'. rewrite lookup_insert_eq. replace mb with m in * by congruence.
    split; [done|]. split; [congruence|]. split; [congruence|]. by apply IH.
  - exists mb. rewrite lookup_insert_ne by done. do 3 (split; [done|]). by apply IH.
Qed.

(** A motion changes, but not its links. *)
Lemma finger_update h f l a m m' : h !! a = Some m -> prev m' = prev m -> next m' = next m ->
  motion_fine m' -> to_be_deleted m' = to_be_deleted m -> (a ∈ playing_motions f -> 0 <= index m') ->
  finger_ok h f l -> finger_ok (<[a := m']> h) f l.
Proof.
  intros E Hp Hn Hf Hd Hi [(C1 & C2 & C3) R C N D P].
  assert (forall b, live h b -> live (<[a := m']> h) b) as Hlive.
  { intros b (mb & Eb & Hb1 & Hb2). destruct (Z.eq_dec a b) as [->|Hne].
    - exists m'. rewrite lookup_insert_eq. split; [done|]. split; [done|]. congruence.
    - exists mb. by rewrite lookup_insert_ne. }
  split; [split; [done|]; split; [done|]; by eapply segment_update| | |done|done|].
  - auto.
  - intros b Hb. destruct (C b Hb). auto.
  - intros b Hb. destruct (P b Hb) as (mb & Eb & Hb1 & Hb2). destruct (Z.eq_dec a b) as [->|Hne].
    + exists m'. rewrite lookup_insert_eq. auto.
    + exists mb. by rewrite lookup_insert_ne.
Qed.

(** What an operation on a finger may do to the rest of memory. *)
Record finger_safe (mem : pad_memory) (f : pad_finger) (l : list Z) : Prop := {
  safe_ok : finger_ok (motions mem) f l;
  safe_old : forall a, owned f l a -> a < next_address mem
}.

Record kept (own : Z -> Prop) (mem mem' : pad_memory) : Prop := {
  kept_next : next_address mem <= next_address mem';
  kept_heap : forall a, a < next_address mem -> ~ own a -> motions mem' !! a = motions mem !! a
}.

Definition finger_to (mem : pad_memory) (f : pad_finger) (l : list Z) (mem' : pad_memory) (f' : pad_finger) (l' : list Z)
  : Prop :=
  finger_safe mem' f' l' /\ kept (owned f l) mem mem' /\
  forall a, owned f' l' a -> owned f l a \/ next_address mem <= a.

Definition finger_step (mem : pad_memory) (f : pad_finger) (l : list Z) (mem' : pad_memory) (f' : pad_finger) : Prop :=
  exists l', finger_to mem f l mem' f' l'.

Lemma kept_refl own mem : kept own mem mem.
Proof. by split. Qed.

Lemma kept_update own mem a m : own a -> kept own mem (set_motion mem a m).
Proof. intros Ha. split; cbn; [lia|]. intros b _ Hb. rewrite lookup_insert_ne by (by intros ->). done. Qed.

(** Steps compose. *)
Lemma finger_to_trans mem f l mem1 f1 l1 mem2 f2 l2 : finger_to mem f l mem1 f1 l1 ->
  finger_to mem1 f1 l1 mem2 f2 l2 -> finger_to mem f l mem2 f2 l2.
Proof.
  intros (S1 & [K1 K1'] & O1) (S2 & [K2 K2'] & O2). split; [done|]. split.
  - split; [lia|]. intros a Ha Hn. rewrite K2'; [by apply K1'|lia|]. intros [Ho|Ho]%O1; [done|lia].
  - intros a [Ho|Ho]%O2; [by apply O1|right; lia].
Qed.

Lemma finger_step_trans mem f l mem1 f1 mem2 f2 : finger_step mem f l mem1 f1 ->
  (forall l1, finger_safe mem1 f1 l1 -> finger_step mem1 f1 l1 mem2 f2) -> finger_step mem f l mem2 f2.
Proof.
  intros (l1 & H1) H. destruct (H l1 (proj1 H1)) as (l2 & H2). exists l2. by eapply finger_to_trans.
Qed.

(** An operation that only writes motions of the finger. *)
Lemma finger_step_write mem f l a m : finger_safe mem f l -> owned f l a ->
  finger_ok (<[a := m]> (motions mem)) f l -> finger_step mem f l (set_motion mem a m) f.
Proof.
  intros [_ Hold] Ha Hok. exists l. split; [by split|]. split; [by apply kept_update|]. by left.
Qed.

(** An operation that only changes the finger, and points to nothing new. *)
Lemma finger_step_finger mem f l f' : finger_safe mem f l -> finger_ok (motions mem) f' l ->
  (forall a, owned f' l a -> owned f l a) -> finger_step mem f l mem f'.
Proof.
  intros [_ Hold] Hok Ho. exists l. split; [split; [done|]; auto|]. split; [apply kept_refl|]. auto.
Qed.

Lemma finger_step_refl mem f l : finger_safe mem f l -> finger_step mem f l mem f.
Proof. intros H. apply finger_step_finger; [done|apply H|done]. Qed.

(** ** Events *)

(** A configuration of the pad: its scale and its pattern exist. *)
Record pad_config_ok (c : pad_config) : Prop := {
  ok_scale : match scales_here with
             | Some s => exists ks, get_scale_keys_serverside s (scale_id c) = Ok ks /\ length ks = 7%nat
             | None => True
             end;
  ok_pattern : arpeggio_pattern c < Z.of_nat (length built_in);
  ok_coarse : length (pad_controller_coarse c) = 2%nat;
  ok_fine : length (pad_controller_fine c) = 2%nat
}.

Lemma copy_config_fine c : pad_config_ok c -> config_fine (copy_config (in_scale garbage) c).
Proof.
  intros [Hs Hp Hc Hf]. split; try done. unfold refresh_scale. cbn [scale_id last_scale copy_config].
  case_if; [eexists; split; [reflexivity|apply Hgarbage]|].
  destruct scales_here as [s|]; [|by eexists].
  destruct Hs as (ks & -> & Hl). cbn [rbind]. eexists. split; [reflexivity|].
  cbn. rewrite !length_app, !length_map. lia.
Qed.

Lemma new_motion_fine c pos x y z : pad_config_ok c -> 0 <= x < 2^14 ->
  motion_fine (new_motion (in_scale garbage) (in_x garbage) c pos x y z).
Proof.
  intros Hc Hx. apply add_position_fine; [|done]. split; cbn; try done; [by apply copy_config_fine|by left].
Qed.

(** An event as [enqueue_event] makes them. *)
Definition event_ok (pe : pad_event) : Prop := 0 <= event_x pe < 2^14.

Lemma press_step mem f l m : finger_safe mem f l -> motion_fine m -> to_be_deleted m = false -> 0 <= index m ->
  finger_step mem f l (fst (allocate_motion mem m))
    (with_current f (playing_motions f ++ [next_address mem]) (Some (next_address mem))).
Proof.
  intros [Hok Hold] Hm Hd Hi. set (a := next_address mem).
  assert (forall b, owned f l b -> b <> a) as Hfresh by (intros b Hb%Hold; unfold a; lia).
  assert (finger_ok (<[a := m]> (motions mem)) f l) as [C R Cu N D P]
    by (eapply finger_frame; [|exact Hok]; intros b Hb; rewrite lookup_insert_ne by (by apply not_eq_sym, Hfresh); done).
  exists l. split.
  - split.
    + split; cbn; try done.
      * intros b [= <-]. split; [intros Ha; by apply (Hfresh a); [left|]|]. exists m. by rewrite lookup_insert_eq.
      * apply list.NoDup_app. split; [done|]. split; [|by apply list.NoDup_singleton].
        intros b Hb ->%list_elem_of_singleton. by apply (Hfresh a); [right; left|].
      * intros b [Hb| ->%list_elem_of_singleton]%elem_of_app; [by apply P|]. exists m. by rewrite lookup_insert_eq.
    + intros b [Hb|[[Hb|Hb%list_elem_of_singleton]%elem_of_app|Hb]]; cbn in *.
      * enough (b < a) by (unfold a in *; lia). apply Hold. by left.
      * enough (b < a) by (unfold a in *; lia). apply Hold. by right; left.
      * subst b. unfold a. lia.
      * injection Hb as <-. unfold a. lia.
  - split; [split; cbn; [lia|]; intros b Hb _; rewrite lookup_insert_ne by (unfold a; lia); done|].
    intros b [Hb|[[Hb|Hb%list_elem_of_singleton]%elem_of_app|Hb]]; cbn in *.
    + left. by left.
    + left. by right; left.
    + right. subst b. unfold a. lia.
    + right. injection Hb as <-. unfold a. lia.
Qed.

(** Changing the current motion, but not how it is linked or played. *)
Lemma current_step mem f l a m m' : finger_safe mem f l -> current f = Some a -> motions mem !! a = Some m ->
  motion_fine m' -> index m' = index m -> to_be_deleted m' = to_be_deleted m -> prev m' = prev m -> next m' = next m ->
  finger_step mem f l (set_motion mem a m') f.
Proof.
  intros Hsafe Ha Em Hm Hi Hd Hp Hn. apply finger_step_write; [done|by right; right|].
  apply (finger_update _ _ _ _ m); try done; [|apply Hsafe]. intros Hpl. rewrite Hi.
  destruct (ok_playing _ _ _ (safe_ok _ _ _ Hsafe) a Hpl) as (m0 & E0 & _ & H0). by simplify_eq.
Qed.

Lemma process_finger_events_ok c pe pos mem f l : pad_config_ok c -> event_ok pe -> finger_safe mem f l ->
  exists mem' f', process_finger_events garbage c pe pos mem f = Ok (mem', f') /\ finger_step mem f l mem' f'.
Proof.
  intros Hc Hpe Hsafe. pose proof Hsafe as [Hok Hold]. unfold process_finger_events.
  destruct (finger_deleted f); [do 2 eexists; split; [reflexivity|by apply finger_step_refl]|].
  destruct (event_t pe).
  - set (m0 := new_motion _ _ _ _ _ _ _).
    destruct (start_motion_total m0 (i32 (pos + 1))) as (m & started & -> & Hm & (i & t & ch & lx & arp & c' & ->) & Hs);
      [by apply new_motion_fine|]. cbn [rbind]. destruct started.
    + destruct Hs as [_ Hi]. do 2 eexists. split; [reflexivity|]. apply press_step; try done. cbn in *. lia.
    + do 2 eexists. split; [reflexivity|]. eapply finger_step_finger; [done| |].
      * destruct Hok as [C R Cu N D P]. by split.
      * intros a [Ha|[Ha|Ha]]; [by left|by right; left|done].
  - destruct (current f) as [a|] eqn:Ea; [|do 2 eexists; split; [reflexivity|by apply finger_step_refl]].
    destruct (ok_current _ _ _ Hok a Ea) as (_ & m & Em & Hm & Hd). unfold change_motion.
    rewrite (at_motion_some _ _ _ Em). cbn [rbind]. do 2 eexists. split; [reflexivity|].
    apply (current_step _ _ _ _ m); try done; [by apply add_position_fine| | | |];
      unfold add_position; by case_if.
  - destruct (current f) as [a|] eqn:Ea; [|do 2 eexists; split; [reflexivity|by apply finger_step_refl]].
    destruct (ok_current _ _ _ Hok a Ea) as (_ & m & Em & Hm & Hd).
    rewrite (at_motion_some _ _ _ Em). cbn [rbind].
    destruct (terminate_fine (add_position m (event_x pe) (event_y pe) (event_z pe))) as (m' & -> & Hm' & E1 & E2 & E3 & E4);
      [by apply add_position_fine|].
    cbn [rbind]. do 2 eexists. split; [reflexivity|].
    apply (current_step _ _ _ _ m); try done; [rewrite E1|rewrite E2|rewrite E3|rewrite E4]; unfold add_position; by case_if.
  - do 2 eexists. split; [reflexivity|by apply finger_step_refl].
Qed.

Lemma terminate_finger_ok mem f l : finger_safe mem f l ->
  exists mem' f', terminate_finger mem f = Ok (mem', f') /\ finger_step mem f l mem' f'.
Proof.
  intros Hsafe. unfold terminate_finger.
  destruct (current f) as [a|] eqn:Ea; [|do 2 eexists; split; [reflexivity|by apply finger_step_refl]].
  destruct (ok_current _ _ _ (safe_ok _ _ _ Hsafe) a Ea) as (_ & m & Em & Hm & Hd).
  rewrite (at_motion_some _ _ _ Em). cbn [rbind].
  destruct (terminate_fine m Hm) as (m' & -> & Hm' & E1 & E2 & E3 & E4).
  cbn [rbind]. do 2 eexists. split; [reflexivity|]. by apply (current_step _ _ _ _ m).
Qed.

(** ** Playing *)

Lemma finger_to_finger mem f l f' : finger_safe mem f l -> finger_ok (motions mem) f' l ->
  (forall a, owned f' l a -> owned f l a) -> finger_to mem f l mem f' l.
Proof. intros [_ Hold] Hok Ho. split; [split; [done|]; auto|]. split; [apply kept_refl|]. auto. Qed.

(** Starting the motion [a] that the finger recorded. *)
Lemma start_one mem f l a m m' nxt : finger_safe mem f l -> a ∈ l -> motions mem !! a = Some m ->
  motion_fine m' -> played_on m m' -> index m = -1 -> index m' = 0 -> (forall b, nxt = Some b -> b ∈ l) ->
  finger_to mem f l (set_motion mem a m')
    (PadFinger (finger_deleted f) (recorded f) nxt (playing_motions f ++ [a]) (current f)) l.
Proof.
  intros Hsafe Ha Em Hm (i & t & ch & lx & arp & c & ->) Hi Hi' Hn. cbn in Hi'. subst i. pose proof Hsafe as [Hok Hold].
  assert (a ∉ playing_motions f) as Hnot.
  { intros Hpl. destruct (ok_playing _ _ _ Hok a Hpl) as (m0 & E0 & _ & H0). assert (m0 = m) by congruence. subst. lia. }
  assert (finger_ok (<[a := with_play m 0 t ch lx arp c]> (motions mem)) f l) as [C R Cu N D P]
    by (by apply (finger_update _ _ _ _ m)).
  assert (forall b, owned (PadFinger (finger_deleted f) (recorded f) nxt (playing_motions f ++ [a]) (current f)) l b ->
    owned f l b) as Hown.
  { intros b [Hb|[[Hb| ->%list_elem_of_singleton]%elem_of_app|Hb]]; [by left|by right; left|by left|by right; right]. }
  split; [split|].
  - split; try done; cbn.
    + apply list.NoDup_app. split; [done|]. split; [|by apply list.NoDup_singleton].
      by intros b Hb ->%list_elem_of_singleton.
    + intros b [Hb| ->%list_elem_of_singleton]%elem_of_app; [by apply P|].
      exists (with_play m 0 t ch lx arp c). by rewrite lookup_insert_eq.
  - intros b Hb%Hown. by apply Hold.
  - split; [apply kept_update; by left|]. auto.
Qed.

Lemma chain_next h head l1 a l2 m : chain h head (l1 ++ a :: l2) -> h !! a = Some m -> next m = first l2 None.
Proof. intros (_ & _ & (_ & _ & m' & E & _ & Hn)%segment_middle) E'. congruence. Qed.

Lemma start_due_ok pos f0 l : forall l2 l1 fuel mem playing, l = l1 ++ l2 -> (length l2 <= fuel)%nat ->
  let F playing nxt := PadFinger (finger_deleted f0) (recorded f0) nxt playing (current f0) in
  finger_safe mem (F playing (first l2 None)) l -> exists mem' top' playing',
    start_due fuel pos mem (first l2 None) playing = Ok (mem', top', playing') /\
    finger_to mem (F playing (first l2 None)) l mem' (F playing' top') l.
Proof.
  induction l2 as [|a l2 IH]; intros l1 fuel mem playing El Hf F Hsafe; cbn [first].
  - exists mem, None, playing. split; [by destruct fuel|]. by apply finger_to_finger; [|apply Hsafe|].
  - assert (a ∈ l) as Ha by (rewrite El; apply elem_of_app; right; by left).
    destruct (ok_recorded _ _ _ (safe_ok _ _ _ Hsafe) a Ha) as (m & Em & Hm & Hd).
    destruct (start_motion_total m pos Hm) as (m' & started & Hstart & Hm' & Hp & Hs).
    assert (next m = first l2 None) as Hnext by (eapply chain_next; [rewrite <- El; apply Hsafe|done]).
    destruct started.
    + destruct fuel as [|fuel]; [cbn in Hf; lia|]. destruct Hs as [Hi Hi'].
      pose proof Hp as (i & t & ch & lx & arp & c & Em').
      assert (finger_to mem (F playing (Some a)) l (set_motion mem a m') (F (playing ++ [a]) (first l2 None)) l) as Hone.
      { apply (start_one mem (F playing (Some a)) l a m); try done. intros b Hb. rewrite El.
        apply elem_of_app. right. right. destruct l2; [done|]. injection Hb as <-. by left. }
      destruct (IH (l1 ++ [a]) fuel (set_motion mem a m') (playing ++ [a])) as (mem' & top' & playing' & He & Hto).
      * by rewrite <- app_assoc.
      * cbn in Hf. lia.
      * apply Hone.
      * exists mem', top', playing'. split; [|by eapply finger_to_trans].
        cbn [start_due]. rewrite (at_motion_some _ _ _ Em). cbn [rbind]. rewrite Hstart. cbn [rbind].
        replace (next m') with (first l2 None) by (by rewrite Em'). done.
    + exists mem, (Some a), playing. split; [|by apply finger_to_finger; [|apply Hsafe|]].
      destruct fuel; cbn [start_due]; rewrite (at_motion_some _ _ _ Em); cbn [rbind]; rewrite Hstart; done.
Qed.

(** A motion that stops playing, with what is left in [playing]. *)
Lemma stop_one mem f l k m m' playing : finger_safe mem f l -> motions mem !! k = Some m ->
  motion_fine m' -> played_on m m' -> owned f l k -> NoDup playing -> k ∉ playing ->
  (forall a, a ∈ playing -> a ∈ playing_motions f) ->
  finger_to mem f l (set_motion mem k m') (with_current f playing (current f)) l.
Proof.
  intros [[C R Cu N D P] Hold] Em Hm (i & t & ch & lx & arp & c & ->) Hk Hnd Hnot Hsub.
  assert (forall b, owned (with_current f playing (current f)) l b -> owned f l b) as Hown
    by (intros b [Hb|[Hb|Hb]]; [by left|right; left; by apply Hsub|by right; right]).
  split; [split|].
  - apply (finger_update _ _ _ _ m); try done. split; try done. auto.
  - intros b Hb%Hown. by apply Hold.
  - split; [by apply kept_update|]. auto.
Qed.

(** Deleting a motion that the finger pointed to and points to no longer. *)
Lemma free_one mem f l mem1 f1 a : finger_to mem f l mem1 f1 l -> owned f l a -> ~ owned f1 l a ->
  is_Some (motions mem1 !! a) -> exists mem', free_motion mem1 a = Ok mem' /\ finger_to mem f l mem' f1 l.
Proof.
  intros ([Hok Hold] & [K K'] & Hown) Ha Hnot [m Em]. unfold free_motion. rewrite (at_motion_some _ _ _ Em). cbn [rbind].
  eexists. split; [reflexivity|].
  assert (forall b, b <> a -> base.delete a (motions mem1) !! b = motions mem1 !! b) as Hne
    by (intros b Hb; by apply lookup_delete_ne).
  split; [split|].
  - eapply finger_frame; [|exact Hok]. intros b Hb. apply Hne. by intros ->.
  - exact Hold.
  - split; [split; [exact K|]|done]. intros b Hb Hb'. cbn. rewrite Hne by (by intros ->). by apply K'.
Qed.

Lemma links_only_live h h' a : links_only h h' -> live h a -> live h' a.
Proof.
  intros Hr (m & E & Hm & Hd). specialize (Hr a). rewrite E in Hr. destruct Hr as (p & n & E').
  exists (with_links m p n). split; [done|]. split; [by apply links_fine|done].
Qed.

Lemma links_only_running h h' a : links_only h h' -> running h a -> running h' a.
Proof.
  intros Hr (m & E & Hm & Hi). specialize (Hr a). rewrite E in Hr. destruct Hr as (p & n & E').
  exists (with_links m p n). split; [done|]. split; [by apply links_fine|done].
Qed.

(** The current motion [k] moves to the recorded ones. *)
Lemma record_one mem f l k : finger_safe mem f l -> current f = Some k -> exists mem' head l',
  record_in mem (recorded f) k = Ok (mem', head) /\ k ∈ l' /\ live (motions mem') k /\
  finger_to mem f l mem' (PadFinger (finger_deleted f) head (next_motion_to_play f) (playing_motions f) None) l'.
Proof.
  intros [[C R Cu N D P] Hold] Hk. destruct (Cu k Hk) as (Hnot & m & Em & Hm & Hd). unfold record_in.
  destruct (record_motion_spec _ _ _ _ _ C Hnot Em) as (h' & head & -> & Hc & Hr & Hu). cbn [rbind].
  assert (forall b, b ∈ ordered_insert (start_of (motions mem)) k l <-> b = k \/ b ∈ l) as Hin
    by (intros b; by rewrite ordered_insert_elem).
  assert (live h' k) as Hlive by (apply (links_only_live _ _ _ Hr); by exists m).
  do 3 eexists. split; [reflexivity|]. split; [apply Hin; by left|]. split; [done|].
  assert (forall b, owned (PadFinger (finger_deleted f) head (next_motion_to_play f) (playing_motions f) None)
    (ordered_insert (start_of (motions mem)) k l) b -> owned f l b) as Hown.
  { intros b [[->|Hb]%Hin|[Hb|Hb]]; [by right; right|by left|by right; left|done]. }
  split; [split|].
  - split; cbn; try done.
    + intros b [->|Hb]%Hin; [done|]. apply (links_only_live _ _ _ Hr). by apply R.
    + intros b Hb. apply Hin. right. by apply N.
    + intros b Hb. apply (links_only_running _ _ _ Hr). by apply P.
  - intros b Hb%Hown. by apply Hold.
  - split; [split; cbn; [lia|]|auto]. intros b _ Hb. apply Hu. intros [->|Hb']%elem_of_cons; [|by apply Hb; left].
    by apply Hb; right; right.
Qed.

Lemma quantize_one mem f l k : finger_safe mem f l -> k ∈ l -> exists mem',
  change_motion mem k quantize = Ok mem' /\ finger_step mem f l mem' f.
Proof.
  intros Hsafe Hk. pose proof Hsafe as [Hok Hold]. destruct (ok_recorded _ _ _ Hok k Hk) as (m & Em & Hm & Hd).
  unfold change_motion. rewrite (at_motion_some _ _ _ Em). cbn [rbind]. eexists. split; [reflexivity|].
  apply finger_step_write; [done|by left|]. apply (finger_update _ _ _ _ m); try done; [by destruct Hm; split|].
  intros Hpl. destruct (ok_playing _ _ _ Hok k Hpl) as (m0 & E0 & _ & H0). assert (m0 = m) by congruence. by subst.
Qed.


(** A motion that is over: it is recorded, deleted or left alone. *)
Lemma over_one rec q mem f k ks l m m' : let F := with_current f (playing_motions f ++ k :: ks) (current f) in
  finger_safe mem F l -> motions mem !! k = Some m -> motion_fine m' -> played_on m m' ->
  exists mem' f', (if bool_decide (current f = Some k) then
            if (rec : bool) then
              let! (mem, head) := record_in (set_motion mem k m') (recorded f) k in
              let! mem := if (q : bool) then change_motion mem k quantize else Ok mem in
              Ok (mem, PadFinger (finger_deleted f) head (next_motion_to_play f) (playing_motions f) None)
            else
              let! mem := free_motion (set_motion mem k m') k in
              Ok (mem, with_current f (playing_motions f) None)
          else let! mem := can_be_deleted_now (set_motion mem k m') k in Ok (mem, f)) = Ok (mem', f') /\
    finger_step mem F l mem' (with_current f' (playing_motions f' ++ ks) (current f')).
Proof.
  intros F Hsafe Em Hm Hp. set (mem1 := set_motion mem k m'). set (F1 := with_current f (playing_motions f ++ ks) (current f)).
  pose proof (ok_nodup _ _ _ (safe_ok _ _ _ Hsafe)) as Hnd. cbn in Hnd.
  assert (k ∉ playing_motions f ++ ks /\ NoDup (playing_motions f ++ ks)) as [Hk Hnd1]
    by (apply list.NoDup_cons; by rewrite Permutation_middle).
  assert (owned F l k) as Hown by (right; left; cbn; apply elem_of_app; right; by left).
  assert (finger_to mem F l mem1 F1 l) as Hstop.
  { apply (stop_one mem F l k m m'); try done. intros a Ha. cbn. apply elem_of_app in Ha as [Ha|Ha]; apply elem_of_app;
      [by left|by right; right]. }
  assert (motions mem1 !! k = Some m') as Ek by apply lookup_insert_eq.
  pose proof (safe_ok _ _ _ (proj1 Hstop)) as [C1 R1 Cu1 N1 D1 P1].
  case_bool_decide as Hcur.
  - destruct rec.
    + destruct (record_one mem1 F1 l k (proj1 Hstop) Hcur) as (mem2 & head & l' & He & Hin & _ & Hto).
      cbn [recorded F1 with_current] in He. rewrite He. cbn [rbind]. destruct q.
      * destruct (quantize_one mem2 _ l' k (proj1 Hto) Hin) as (mem3 & -> & l3 & H3). cbn [rbind].
        do 2 eexists. split; [reflexivity|]. exists l3. eapply finger_to_trans; [exact Hstop|].
        by eapply finger_to_trans; [exact Hto|].
      * cbn [rbind]. do 2 eexists. split; [reflexivity|]. exists l'. by eapply finger_to_trans; [exact Hstop|].
    + assert (finger_to mem F l mem1 (with_current f (playing_motions f ++ ks) None) l) as Hto.
      { eapply finger_to_trans; [exact Hstop|]. apply finger_to_finger; [apply Hstop|by split|].
        intros a [Ha|[Ha|Ha]]; [by left|by right; left|done]. }
      destruct (free_one mem F l mem1 _ k Hto) as (mem2 & -> & Hfree); [done| |by exists m'|].
      { intros [Ha|[Ha|Ha]]; [by apply (proj1 (Cu1 k Hcur))|done|done]. }
      cbn [rbind]. do 2 eexists. split; [reflexivity|]. by exists l.
  - unfold can_be_deleted_now. rewrite (at_motion_some _ _ _ Ek). cbn [rbind].
    destruct (to_be_deleted m') eqn:Ed.
    + destruct (free_one mem F l mem1 F1 k Hstop) as (mem2 & -> & Hfree); [done| |by exists m'|].
      { intros [Ha|[Ha|Ha]]; [|done|done]. destruct (R1 k Ha) as (m0 & E0 & _ & H0). assert (m0 = m') by congruence. congruence. }
      cbn [rbind]. do 2 eexists. split; [reflexivity|]. by exists l.
    + cbn [rbind]. do 2 eexists. split; [reflexivity|]. by exists l.
Qed.

Lemma process_playing_ok rec mute q ks : forall mem f l,
  let F := with_current f (playing_motions f ++ ks) (current f) in finger_safe mem F l ->
  exists mem' f' out, process_playing scales_here garbage rec mute q mem f ks = Ok (mem', f', out) /\
    finger_step mem F l mem' f'.
Proof.
  induction ks as [|k ks IH]; intros mem f l F Hsafe; cbn [process_playing].
  - exists mem, f, []. split; [done|]. unfold F in *. rewrite app_nil_r in *.
    assert (with_current f (playing_motions f) (current f) = f) as E by (by destruct f). rewrite E in *. by apply finger_step_refl.
  - assert (k ∈ playing_motions F) as Hk by (cbn; apply elem_of_app; right; by left).
    destruct (ok_playing _ _ _ (safe_ok _ _ _ Hsafe) k Hk) as (m & Em & Hm & Hi).
    rewrite (at_motion_some _ _ _ Em). cbn [rbind].
    destruct (process_motion_total mute m Hm Hi) as (m' & out & over & -> & Hm' & Hp & Hover). cbn [rbind].
    match goal with |- context [rbind (if over then ?A else ?B) _] =>
      assert (exists mem1 f1, (if over then A else B) = Ok (mem1, f1) /\
        finger_step mem F l mem1 (with_current f1 (playing_motions f1 ++ ks) (current f1))) as (mem1 & f1 & -> & Hstep) end.
    { destruct over; [by apply (over_one rec q mem f k ks l m m')|].
      exists (set_motion mem k m'), (with_current f (playing_motions f ++ [k]) (current f)). split; [done|].
      cbn [with_current playing_motions current]. rewrite <- app_assoc.
        apply finger_step_write; [done|by right; left|]. destruct Hp as (i & t & ch & lx & arp & c & ->).
        apply (finger_update _ _ _ _ m); try done. apply Hsafe. }
    cbn [rbind]. destruct Hstep as (l1 & Hto).
    destruct (IH mem1 f1 l1 (proj1 Hto)) as (mem2 & f2 & more & -> & l2 & Hto2). cbn [rbind].
    do 3 eexists. split; [reflexivity|]. exists l2. by eapply finger_to_trans.
Qed.

Lemma recorded_suffix mem f l a : finger_safe mem f l -> next_motion_to_play f = Some a ->
  exists l1 l2, l = l1 ++ a :: l2 /\ (length (a :: l2) <= recorded_fuel mem)%nat.
Proof.
  intros [Hok _] Ha. apply (ok_next _ _ _ Hok) in Ha. apply list_elem_of_split in Ha as (l1 & l2 & ->).
  exists l1, l2. split; [done|]. pose proof (chain_size _ _ _ (ok_chain _ _ _ Hok)) as Hs.
  rewrite length_app in Hs. unfold recorded_fuel. lia.
Qed.

Lemma process_finger_motions_ok rec mute pos q mem f l : finger_safe mem f l ->
  exists mem' f' out done, process_finger_motions scales_here garbage rec mute pos q mem f = Ok (mem', f', out, done) /\
    finger_step mem f l mem' f'.
Proof.
  intros Hsafe. unfold process_finger_motions.
  match goal with |- context [rbind (if ?b then ?A else ?B) _] =>
    assert (exists mem1 top playing, (if b then A else B) = Ok (mem1, top, playing) /\
      finger_to mem f l mem1 (PadFinger (finger_deleted f) (recorded f) top playing (current f)) l)
      as (mem1 & top & playing & -> & Hto) end.
  { case_if.
    - zbool. match goal with H : bool_decide _ = true |- _ => apply bool_decide_eq_true in H as [a Ha] end.
      destruct (recorded_suffix mem f l a Hsafe Ha) as (l1 & l2 & El & Hf). rewrite Ha.
      destruct (start_due_ok pos f l (a :: l2) l1 (recorded_fuel mem) mem (playing_motions f) El Hf) as (mem1 & top & playing & He & Hto).
      + cbn [first]. rewrite <- Ha. by destruct f.
      + exists mem1, top, playing. split; [done|]. cbn [first] in Hto. rewrite <- Ha in Hto. by destruct f.
    - do 3 eexists. split; [reflexivity|]. apply finger_to_finger; [done| |done].
      destruct Hsafe as [[C R Cu N D P] _]. split; try done. cbn. destruct mute; [done|exact N]. }
  cbn [rbind].
  destruct (process_playing_ok rec mute q playing mem1
    (PadFinger (finger_deleted f) (recorded f) top [] (current f)) l) as (mem2 & f2 & out & -> & l2 & H2); [apply Hto|].
  cbn [rbind]. do 4 eexists. split; [reflexivity|]. exists l2. by eapply finger_to_trans.
Qed.

(** ** Resetting and deleting *)

Lemma reset_running mem f l : finger_safe mem f l -> forall ps, (forall a, a ∈ ps -> owned f l a) ->
  (forall a, a ∈ ps -> exists m, motions mem !! a = Some m /\ motion_fine m) ->
  exists mem', rfold (fun mem p => change_motion mem p reset_motion) mem ps = Ok mem' /\
    finger_to mem f l mem' (PadFinger (finger_deleted f) (recorded f) (recorded f) [] (current f)) l.
Proof.
  intros Hsafe ps. revert mem Hsafe. assert (forall mem, finger_safe mem f l ->
    finger_safe mem (PadFinger (finger_deleted f) (recorded f) (recorded f) [] (current f)) l) as Hweak.
  { intros mem [[C R Cu N D P] Hold]. split; [split; try done; cbn|].
    - intros a Ha. destruct C as (Hh & _). rewrite Ha in Hh. destruct l; [done|]. injection Hh as ->. by left.
    - constructor.
    - by intros a Ha%not_elem_of_nil.
    - intros a [Ha|[Ha|Ha]]; apply Hold; [by left|by apply not_elem_of_nil in Ha|by right; right]. }
  set (F := PadFinger _ _ _ _ _) in *.
  enough (forall ps mem, finger_safe mem F l -> (forall a, a ∈ ps -> owned f l a) ->
    (forall a, a ∈ ps -> exists m, motions mem !! a = Some m /\ motion_fine m) ->
    exists mem', rfold (fun mem p => change_motion mem p reset_motion) mem ps = Ok mem' /\
      finger_safe mem' F l /\ kept (owned f l) mem mem') as H.
  { intros mem Hsafe Hown Hps. destruct (H ps mem (Hweak _ Hsafe) Hown Hps) as (mem' & He & Hs & Hk).
    exists mem'. split; [done|]. split; [done|]. split; [done|]. intros a [Ha|[Ha|Ha]]; left;
      [by left|by apply not_elem_of_nil in Ha|by right; right]. }
  clear ps. induction ps as [|p ps IH]; intros mem Hsafe Hown Hps; [by exists mem; split; [|split; [|apply kept_refl]]|].
  destruct (Hps p) as (m & Em & Hm); [by left|]. cbn [rfold]. unfold change_motion at 1.
  rewrite (at_motion_some _ _ _ Em). cbn [rbind].
  assert (motion_fine (reset_motion m)) as Hm' by (destruct Hm; split; try done; by left).
  destruct (IH (set_motion mem p (reset_motion m))) as (mem' & He & Hs & [Hk Hk']).
  - destruct Hsafe as [Hok Hold]. split; [|done]. apply (finger_update _ _ _ _ m); try done. by intros Ha%not_elem_of_nil.
  - intros a Ha. apply Hown. by right.
  - intros a Ha. cbn. destruct (Z.eq_dec p a) as [->|Hne]; [rewrite lookup_insert_eq; eauto|].
    rewrite lookup_insert_ne by done. apply Hps. by right.
  - exists mem'. split; [done|]. split; [done|]. split; [done|]. intros a Ha Hn. rewrite Hk' by done.
    cbn. rewrite lookup_insert_ne; [done|]. intros ->. apply Hn, Hown. by left.
Qed.

Lemma reset_finger_ok mem f l : finger_safe mem f l ->
  exists mem' f', reset_finger mem f = Ok (mem', f') /\ finger_step mem f l mem' f'.
Proof.
  intros Hsafe. unfold reset_finger.
  destruct (reset_running mem f l Hsafe (playing_motions f)) as (mem' & -> & Hto).
  - intros a Ha. by right; left.
  - intros a Ha. destruct (ok_playing _ _ _ (safe_ok _ _ _ Hsafe) a Ha) as (m & E & Hm & _). by exists m.
  - cbn [rbind]. do 2 eexists. split; [reflexivity|]. by exists l.
Qed.

(** The loop over the recorded motions, with what it does to one of them. *)
Lemma over_recorded_ok (g : pad_memory -> Z -> result pad_memory) (P : motion_heap -> Prop) :
  (forall mem p, is_Some (motions mem !! p) -> P (motions mem) -> exists mem', g mem p = Ok mem' /\
     next_address mem' = next_address mem /\ P (motions mem') /\
     forall b, b <> p -> motions mem' !! b = motions mem !! b) ->
  forall l fuel mem pp, NoDup l -> segment (motions mem) pp l None -> (length l <= fuel)%nat -> P (motions mem) ->
  exists mem', over_recorded fuel g mem (first l None) = Ok mem' /\ next_address mem' = next_address mem /\
    P (motions mem') /\ forall b, b ∉ l -> motions mem' !! b = motions mem !! b.
Proof.
  intros Hg. induction l as [|a l IH]; intros fuel mem pp Hnd Hs Hf HP.
  - exists mem. split; [by destruct fuel|done].
  - destruct fuel as [|fuel]; [cbn in Hf; lia|]. destruct Hs as (m & Em & _ & Hn & Hs).
    apply list.NoDup_cons in Hnd as [Ha Hnd]. cbn [first over_recorded]. rewrite (at_motion_some _ _ _ Em). cbn [rbind].
    destruct (Hg mem a) as (mem1 & -> & Hn1 & HP1 & H1); [by exists m|done|]. cbn [rbind].
    destruct (IH fuel mem1 (Some a)) as (mem2 & He & Hn2 & HP2 & H2); [done| |cbn in Hf; lia|done|].
    + eapply segment_same; [|exact Hs]. intros b Hb. apply H1. by intros ->.
    + exists mem2. replace (next m) with (first l None) by (by rewrite Hn). split; [done|]. split; [congruence|].
      split; [done|]. intros b [Hne Hb]%not_elem_of_cons. by rewrite H2, H1.
Qed.

Lemma free_motion_ok mem p : is_Some (motions mem !! p) -> exists mem', free_motion mem p = Ok mem' /\
  next_address mem' = next_address mem /\ forall b, b <> p -> motions mem' !! b = motions mem !! b.
Proof.
  intros [m Em]. unfold free_motion. rewrite (at_motion_some _ _ _ Em). cbn [rbind].
  eexists. split; [reflexivity|]. split; [done|]. intros b Hb. by apply lookup_delete_ne.
Qed.

(** A motion that plays is only marked. *)
Lemma delete_motion_ok (playing : list Z) mem p : is_Some (motions mem !! p) -> (forall a, a ∈ playing -> running (motions mem) a) ->
  exists mem', delete_motion mem p = Ok mem' /\ next_address mem' = next_address mem /\
    (forall a, a ∈ playing -> running (motions mem') a) /\ forall b, b <> p -> motions mem' !! b = motions mem !! b.
Proof.
  intros [m Em] HP. unfold delete_motion. rewrite (at_motion_some _ _ _ Em). cbn [rbind]. case_if; zbool.
  - eexists. split; [reflexivity|]. split; [done|]. split.
    + intros a Ha. destruct (HP a Ha) as (m0 & E0 & Hm0 & Hi0). destruct (Z.eq_dec p a) as [->|Hne].
      * assert (m0 = m) as -> by congruence. exists (with_flags m (start_tick m) (terminated m) true).
        cbn. rewrite lookup_insert_eq. split; [done|]. split; [by destruct Hm0; split|done].
      * exists m0. cbn. by rewrite lookup_insert_ne.
    + intros b Hb. cbn. by rewrite lookup_insert_ne.
  - destruct (free_motion_ok mem p) as (mem' & -> & Hn & Hb); [by exists m|].
    eexists. split; [reflexivity|]. split; [done|]. split; [|done]. intros a Ha.
    destruct (HP a Ha) as (m0 & E0 & Hm0 & Hi0). exists m0. rewrite Hb; [done|]. intros ->.
    assert (m0 = m) as -> by congruence. lia.
Qed.

Lemma chain_fuel mem f l : finger_safe mem f l -> (length l <= recorded_fuel mem)%nat.
Proof. intros Hsafe. pose proof (chain_size _ _ _ (ok_chain _ _ _ (safe_ok _ _ _ Hsafe))). unfold recorded_fuel. lia. Qed.

Lemma delete_pad_finger_ok mem f l : finger_safe mem f l ->
  exists mem' f', delete_pad_finger mem f = Ok (mem', f') /\ finger_step mem f l mem' f'.
Proof.
  intros Hsafe. pose proof (chain_fuel _ _ _ Hsafe) as Hfuel. pose proof Hsafe as [[(Hh & Hnd & Hs) R Cu N D P] Hold].
  unfold delete_pad_finger. rewrite Hh.
  destruct (over_recorded_ok delete_motion (fun h => forall a, a ∈ playing_motions f -> running h a)
    (delete_motion_ok (playing_motions f)) l _ mem None Hnd Hs Hfuel P) as (mem' & -> & Hn & HP & Hsame).
  cbn [rbind]. do 2 eexists. split; [reflexivity|]. exists []. split; [split; [split|]|split].
  - split; [done|]. split; [constructor|done].
  - by intros a Ha%not_elem_of_nil.
  - intros a Ha. cbn in Ha. destruct (Cu a Ha) as [Hnot Hlive]. split; [apply not_elem_of_nil|]. unfold live. by rewrite Hsame.
  - done.
  - exact D.
  - exact HP.
  - rewrite Hn. intros a [Ha|[Ha|Ha]]; [by apply not_elem_of_nil in Ha|apply Hold; by right; left|apply Hold; by right; right].
  - split; [lia|]. intros a _ Ha. apply Hsame. intros Hl. by apply Ha; left.
  - intros a [Ha|[Ha|Ha]]; left; [by apply not_elem_of_nil in Ha|by right; left|by right; right].
Qed.

Lemma destroy_finger_ok mem f l : finger_safe mem f l -> exists mem', destroy_finger mem f = Ok mem' /\
  kept (owned f l) mem mem'.
Proof.
  intros Hsafe. pose proof (chain_fuel _ _ _ Hsafe) as Hfuel. pose proof Hsafe as [[(Hh & Hnd & Hs) R Cu N D P] Hold].
  unfold destroy_finger. rewrite Hh.
  destruct (over_recorded_ok free_motion (fun _ => True)) with (l := l) (fuel := recorded_fuel mem) (mem := mem) (pp := @None Z)
    as (mem1 & -> & Hn & _ & Hsame); try done.
  { intros mem0 p Hp _. destruct (free_motion_ok mem0 p Hp) as (mem' & ? & ? & ?). by exists mem'. }
  cbn [rbind]. assert (kept (owned f l) mem mem1) as [K K'].
  { split; [lia|]. intros a _ Ha. apply Hsame. intros Hl. by apply Ha; left. }
  destruct (current f) as [c|] eqn:Ec; [|by exists mem1].
  destruct (Cu c eq_refl) as (Hnot & m & Em & _).
  destruct (free_motion_ok mem1 c) as (mem2 & -> & Hn2 & Hb2); [rewrite Hsame by done; by exists m|].
  exists mem2. split; [done|]. split; [lia|]. intros a Ha Hno. rewrite Hb2; [by apply K'|].
  intros ->. apply Hno. by right; right.
Qed.

(** ** All fingers at once *)

(** The fingers of the pad, by session and index. Each motion belongs to one of them, so what
    one finger does leaves the invariant of the others as it is. *)
Definition finger_map : Type := Z * nat -> option pad_finger.

Definition fingers_ok (mem : pad_memory) (F : finger_map) : Prop :=
  exists owner : Z -> option (Z * nat), forall k f, F k = Some f ->
    exists l, finger_safe mem f l /\ forall a, owned f l a -> owner a = Some k.

Definition put_finger (F : finger_map) (k : Z * nat) (f : option pad_finger) : finger_map :=
  fun k' => if decide (k' = k) then f else F k'.

Lemma fingers_weaken mem F F' : (forall k f, F' k = Some f -> F k = Some f) -> fingers_ok mem F -> fingers_ok mem F'.
Proof. intros H [owner Hown]. exists owner. auto. Qed.

Lemma fingers_update mem mem' F k f (f' : option pad_finger) : F k = Some f ->
  (forall l, finger_safe mem f l -> kept (owned f l) mem mem' /\
     match f' with
     | Some f' => exists l', finger_safe mem' f' l' /\ forall a, owned f' l' a -> owned f l a \/ next_address mem <= a
     | None => True
     end) ->
  fingers_ok mem F -> fingers_ok mem' (put_finger F k f').
Proof.
  intros Hk Hstep [owner Hown]. destruct (Hown k f Hk) as (l & Hsafe & Hl). destruct (Hstep l Hsafe) as [[K K'] Hf].
  exists (fun a => if decide (next_address mem <= a) then Some k else owner a).
  intros k' g. unfold put_finger. destruct (decide (k' = k)) as [->|Hne].
  - intros ->. destruct Hf as (l' & Hsafe' & Ho). exists l'. split; [done|]. intros a Ha.
    destruct (decide (next_address mem <= a)); [done|]. destruct (Ho a Ha); [auto|lia].
  - intros Hg. destruct (Hown k' g Hg) as (lg & [Hgok Hgold] & Hlg). exists lg. split; [split|].
    + eapply finger_frame; [|exact Hgok]. intros a Ha. apply K'; [auto|].
      intros Ho%Hl. specialize (Hlg a Ha). congruence.
    + intros a Ha%Hgold. lia.
    + intros a Ha. specialize (Hgold a Ha). destruct (decide (next_address mem <= a)); [lia|auto].
Qed.

Lemma fingers_step mem F k f mem' f' : fingers_ok mem F -> F k = Some f ->
  (forall l, finger_safe mem f l -> finger_step mem f l mem' f') -> fingers_ok mem' (put_finger F k (Some f')).
Proof.
  intros HF Hk H. apply (fingers_update mem mem' F k f); [done| |done]. intros l Hl.
  destruct (H l Hl) as (l' & Hs & Hkept & Ho). split; [done|]. by exists l'.
Qed.

(** An operation that is safe on any finger runs on the finger [k]. *)
Lemma fingers_run {A} (g : pad_memory -> pad_finger -> result (pad_memory * pad_finger * A)) mem F k f :
  (forall mem f l, finger_safe mem f l -> exists mem' f' x, g mem f = Ok (mem', f', x) /\ finger_step mem f l mem' f') ->
  fingers_ok mem F -> F k = Some f -> exists mem' f' x, g mem f = Ok (mem', f', x) /\
    next_address mem <= next_address mem' /\ fingers_ok mem' (put_finger F k (Some f')).
Proof.
  intros Hg HF Hk. pose proof HF as (owner & Hown). destruct (Hown k f Hk) as (l & Hl & _).
  destruct (Hg mem f l Hl) as (mem' & f' & x & He & l' & Hs & [Kn _] & _).
  exists mem', f', x. split; [done|]. split; [done|]. apply (fingers_step mem F k f); [done..|].
  intros l2 Hl2. destruct (Hg mem f l2 Hl2) as (m2 & f2 & x2 & He2 & Hs2). by rewrite He in He2; injection He2 as <- <- _.
Qed.

(** The fingers [fs] of the session [a], from the index [n] on. *)
Definition put_fingers (F : finger_map) (a : Z) (n : nat) (fs : list pad_finger) : finger_map :=
  fun k => if decide (fst k = a /\ (n <= snd k)%nat) then fs !! (snd k - n)%nat else F k.

Lemma put_fingers_cons F a n f fs : forall k, put_fingers F a n (f :: fs) k = put_fingers (put_finger F (a, n) (Some f)) a (S n) fs k.
Proof.
  intros [b i]. unfold put_fingers, put_finger. cbn [fst snd]. repeat case_decide; simplify_eq; try lia; try done.
  - by replace (i - n)%nat with (S (i - S n)) by lia.
  - by rewrite Nat.sub_diag.
  - assert (i = n) as -> by lia. naive_solver.
Qed.

Lemma over_fingers_ok (g : pad_memory -> pad_finger -> result (pad_memory * pad_finger)) a :
  (forall mem f l, finger_safe mem f l -> exists mem' f', g mem f = Ok (mem', f') /\ finger_step mem f l mem' f') ->
  forall fs n mem F, fingers_ok mem F -> (forall i, fs !! i = F (a, (n + i)%nat)) ->
  exists mem' fs', over_fingers g mem fs = Ok (mem', fs') /\ length fs' = length fs /\
    next_address mem <= next_address mem' /\ fingers_ok mem' (put_fingers F a n fs').
Proof.
  intros Hg. induction fs as [|f fs IH]; intros n mem F HF Hfs; cbn [over_fingers].
  - exists mem, []. split; [done|]. split; [done|]. split; [lia|]. eapply fingers_weaken; [|exact HF].
    intros [b i] f. unfold put_fingers. case_decide; [by rewrite lookup_nil|done].
  - destruct (fingers_run (fun mem f => let! (mem, f) := g mem f in Ok (mem, f, tt)) mem F (a, n) f)
      as (mem1 & f1 & x & He & Hn1 & HF1); [|done|by rewrite <- (Nat.add_0_r n), <- Hfs|].
    { intros mem0 f0 l0 H0. destruct (Hg mem0 f0 l0 H0) as (m' & f' & -> & Hs). by exists m', f', tt. }
    inv_bind He. destruct x0 as [m' f']. injection He as -> -> _. rewrite Hx. cbn [rbind].
    destruct (IH (S n) mem1 (put_finger F (a, n) (Some f1))) as (mem2 & fs2 & -> & Hl & Hn2 & HF2); [done| |].
    { intros i. unfold put_finger. case_decide; [simplify_eq; lia|].
      rewrite Nat.add_succ_l, <- Nat.add_succ_r. exact (Hfs (S i)). }
    cbn [rbind]. do 2 eexists. split; [reflexivity|]. split; [cbn; lia|]. split; [lia|].
    eapply fingers_weaken; [|exact HF2]. intros k f0. by rewrite put_fingers_cons.
Qed.

Lemma process_fingers_ok rec mute pos q a : forall fs n mem F, fingers_ok mem F -> (forall i, fs !! i = F (a, (n + i)%nat)) ->
  exists mem' fs' out d, process_fingers scales_here garbage rec mute pos q mem fs = Ok (mem', fs', out, d) /\
    length fs' = length fs /\ next_address mem <= next_address mem' /\ fingers_ok mem' (put_fingers F a n fs').
Proof.
  induction fs as [|f fs IH]; intros n mem F HF Hfs; cbn [process_fingers].
  - exists mem, [], [], true. split; [done|]. split; [done|]. split; [lia|]. eapply fingers_weaken; [|exact HF].
    intros [b i] f. unfold put_fingers. case_decide; [by rewrite lookup_nil|done].
  - destruct (fingers_run (fun mem f => let! (mem, f, out, d) := process_finger_motions scales_here garbage rec mute pos q mem f
        in Ok (mem, f, (out, d))) mem F (a, n) f)
      as (mem1 & f1 & x & He & Hn1 & HF1); [|done|by rewrite <- (Nat.add_0_r n), <- Hfs|].
    { intros mem0 f0 l0 H0. destruct (process_finger_motions_ok rec mute pos q mem0 f0 l0 H0) as (m' & f' & out & d & -> & Hs).
      by exists m', f', (out, d). }
    inv_bind He. destruct x0 as [[[m' f'] out] d]. injection He as -> -> _. rewrite Hx. cbn [rbind].
    destruct (IH (S n) mem1 (put_finger F (a, n) (Some f1))) as (mem2 & fs2 & more & d2 & -> & Hl & Hn2 & HF2); [done| |].
    { intros i. unfold put_finger. case_decide; [simplify_eq; lia|].
      rewrite Nat.add_succ_l, <- Nat.add_succ_r. exact (Hfs (S i)). }
    cbn [rbind]. do 4 eexists. split; [reflexivity|]. split; [cbn; lia|]. split; [lia|].
    eapply fingers_weaken; [|exact HF2]. intros k f0. by rewrite put_fingers_cons.
Qed.

(** ** Sessions *)

Lemma top_step mem f l : finger_safe mem f l -> finger_step mem f l mem (start_from_the_top f).
Proof.
  intros Hsafe. pose proof Hsafe as [[C R Cu N D P] Hold]. apply finger_step_finger; [done| |].
  - split; try done; cbn.
    + intros a Ha. destruct C as (Hh & _). rewrite Ha in Hh. destruct l; [done|]. injection Hh as ->. by left.
    + constructor.
    + by intros a Ha%not_elem_of_nil.
  - intros a [Ha|[Ha|Ha]]; [by left|by apply not_elem_of_nil in Ha|by right; right].
Qed.

Lemma over_fingers_map (g : pad_finger -> pad_finger) mem fs :
  over_fingers (fun mem f => Ok (mem, g f)) mem fs = Ok (mem, map g fs).
Proof. induction fs as [|f fs IH]; cbn; [done|]. by rewrite IH. Qed.

(** What an operation on the session [a] must keep. *)
Record session_step (mem : pad_memory) (F : finger_map) (a : Z) (s : pad_session) (mem' : pad_memory) (s' : pad_session) : Prop := {
  step_fingers : length (fingers s') = length (fingers s);
  step_next : next_address mem <= next_address mem';
  step_ok : fingers_ok mem' (put_fingers F a 0 (fingers s'))
}.

Definition session_in (F : finger_map) (a : Z) (s : pad_session) : Prop := forall i, fingers s !! i = F (a, i).

Lemma over_session_ok g mem F a s : fingers_ok mem F -> session_in F a s ->
  (forall mem f l, finger_safe mem f l -> exists mem' f', g mem f = Ok (mem', f') /\ finger_step mem f l mem' f') ->
  exists mem' fs', over_fingers g mem (fingers s) = Ok (mem', fs') /\
    forall s', fingers s' = fs' -> session_step mem F a s mem' s'.
Proof.
  intros HF Hs Hg. destruct (over_fingers_ok g a Hg (fingers s) 0 mem F HF Hs) as (mem' & fs' & He & Hl & Hn & HF').
  exists mem', fs'. split; [done|]. intros s' <-. by split.
Qed.

Lemma reset_session_ok mem F a s : fingers_ok mem F -> session_in F a s ->
  exists mem' s', reset_session mem s = Ok (mem', s') /\ session_step mem F a s mem' s' /\ session_deleted s' = session_deleted s.
Proof.
  intros HF Hs. destruct (over_session_ok reset_finger mem F a s HF Hs reset_finger_ok) as (mem' & fs' & He & H).
  unfold reset_session. rewrite He. cbn [rbind]. do 2 eexists. split; [reflexivity|]. split; [by apply H|done].
Qed.

Lemma delete_session_ok mem F a s : fingers_ok mem F -> session_in F a s ->
  exists mem' s', delete_session mem s = Ok (mem', s') /\ session_step mem F a s mem' s'.
Proof.
  intros HF Hs. destruct (over_session_ok delete_pad_finger mem F a s HF Hs delete_pad_finger_ok) as (mem' & fs' & He & H).
  unfold delete_session. rewrite He. cbn [rbind]. do 2 eexists. split; [reflexivity|]. by apply H.
Qed.

Lemma terminate_session_ok mem F a s : fingers_ok mem F -> session_in F a s ->
  exists mem' s', terminate_session mem s = Ok (mem', s') /\ session_step mem F a s mem' s'.
Proof.
  intros HF Hs. destruct (over_session_ok terminate_finger mem F a s HF Hs terminate_finger_ok) as (mem' & fs' & He & H).
  unfold terminate_session. rewrite He. cbn [rbind]. do 2 eexists. split; [reflexivity|]. by apply H.
Qed.

Lemma start_play_ok mem F a s tick : fingers_ok mem F -> session_in F a s ->
  exists s' b, start_play s tick = (s', b) /\ session_step mem F a s mem s' /\ session_deleted s' = session_deleted s.
Proof.
  intros HF Hs.
  destruct (over_session_ok (fun mem f => Ok (mem, start_from_the_top f)) mem F a s HF Hs) as (mem' & fs' & He & H).
  { intros mem0 f l Hl. do 2 eexists. split; [reflexivity|]. by apply top_step. }
  rewrite over_fingers_map in He. injection He as <- <-.
  assert (session_step mem F a s mem s) as Hself.
  { split; [done|lia|]. eapply fingers_weaken; [|exact HF]. intros [b i] f. unfold put_fingers. cbn.
    case_decide; [|done]. destruct H0 as [-> _]. by rewrite Nat.sub_0_r, Hs. }
  unfold start_play. destruct (in_play s); [by do 2 eexists|]. case_if; [|by do 2 eexists].
  do 2 eexists. split; [reflexivity|]. split; [by apply H|done].
Qed.

Lemma process_session_ok rec mute q mem F a s : fingers_ok mem F -> session_in F a s ->
  exists mem' s' out over, process_session scales_here garbage rec mute q mem s = Ok (mem', s', out, over) /\
    session_step mem F a s mem' s' /\ session_deleted s' = session_deleted s /\ (over = true -> session_deleted s = true).
Proof.
  intros HF Hs. unfold process_session.
  destruct (process_fingers_ok rec mute (i32 (playback_position s + 1)) q a (fingers s) 0 mem F HF Hs)
    as (mem' & fs' & out & d & -> & Hl & Hn & HF'). cbn [rbind].
  do 4 eexists. split; [reflexivity|]. split; [by split|]. split; [done|]. by intros [_ ?]%andb_prop.
Qed.

(** Destroying the fingers of a session. *)
Definition drop_session (F : finger_map) (a : Z) : finger_map := fun k => if decide (fst k = a) then None else F k.

Lemma destroy_fingers_ok a : forall (ps : list (nat * pad_finger)) mem F, NoDup (map fst ps) ->
  (forall i f, (i, f) ∈ ps -> F (a, i) = Some f) -> fingers_ok mem F ->
  exists mem', rfold destroy_finger mem (map snd ps) = Ok mem' /\ next_address mem <= next_address mem' /\
    fingers_ok mem' (drop_session F a).
Proof.
  induction ps as [|[i f] ps IH]; intros mem F Hnd Hin HF; cbn [map rfold snd].
  - exists mem. split; [done|]. split; [lia|]. eapply fingers_weaken; [|exact HF]. intros k f. unfold drop_session. by case_decide.
  - cbn in Hnd. apply list.NoDup_cons in Hnd as [Hi Hnd]. pose proof (Hin i f ltac:(by left)) as Hf.
    pose proof HF as (owner & Hown). destruct (Hown _ _ Hf) as (l & Hl & _).
    destruct (destroy_finger_ok mem f l Hl) as (mem1 & He & [Hn1 _]). cbn [fst snd]. rewrite He. cbn [rbind].
    destruct (IH mem1 (put_finger F (a, i) None)) as (mem2 & -> & Hn2 & HF2); [done| | |].
    + intros j g Hj. unfold put_finger. case_decide; [|apply Hin; by right]. simplify_eq. exfalso. apply Hi.
      apply list_elem_of_fmap. by exists (i, g).
    + apply (fingers_update mem mem1 F (a, i) f None); [done| |done]. intros l2 Hl2. split; [|done].
      destruct (destroy_finger_ok mem f l2 Hl2) as (m2 & He2 & Hk). by rewrite He in He2; injection He2 as <-.
    + exists mem2. split; [done|]. split; [lia|]. eapply fingers_weaken; [|exact HF2].
      intros k g. unfold drop_session, put_finger. repeat case_decide; simplify_eq; done.
Qed.

Lemma destroy_session_ok mem F a s : fingers_ok mem F -> session_in F a s ->
  exists mem', destroy_session mem s = Ok mem' /\ next_address mem <= next_address mem' /\ fingers_ok mem' (drop_session F a).
Proof.
  intros HF Hs. set (ps := zip (seq 0 (length (fingers s))) (fingers s)).
  destruct (destroy_fingers_ok a (rev ps) mem F) as (mem' & He & H).
  - rewrite map_rev, <- Permutation_rev. unfold ps. change (map fst) with (fmap (M:=list) (@fst nat pad_finger)).
    rewrite fst_zip by (rewrite length_seq; lia). apply NoDup_seq.
  - intros i f Hin. rewrite <- Hs. rewrite <- Permutation_rev in Hin. apply list_elem_of_lookup in Hin as [j Hj].
    unfold ps in Hj. apply lookup_zip_with_Some in Hj as (x & y & [= <- <-] & Hx & Hy).
    apply lookup_seq in Hx as [-> _]. done.
  - done.
  - exists mem'. split; [|done]. unfold destroy_session. rewrite map_rev in He. unfold ps in He.
    change (map snd) with (fmap (M:=list) (@snd nat pad_finger)) in He. by rewrite snd_zip in He by (rewrite length_seq; lia).
Qed.

(** ** The pad *)

Definition finger_at (p : pad) : finger_map := fun k =>
  if decide (fst k ∈ recorded_sessions p) then s ← sessions p !! fst k; fingers s !! snd k else None.

Definition all_fingers : nat := Z.to_nat MAX_PAD_FINGERS.

Record pad_core (p : pad) : Prop := {
  core_fingers : fingers_ok (memory p) (finger_at p);
  core_sessions : forall a, a ∈ recorded_sessions p ->
    a < next_address (memory p) /\ exists s, sessions p !! a = Some s /\ length (fingers s) = all_fingers;
  core_nodup : NoDup (recorded_sessions p);
  core_current : forall a, current_session p = Some a -> a ∈ recorded_sessions p;
  core_config : pad_config_ok (pad_configuration p);
  core_queue : Forall event_ok (event_queue p)
}.

(** The current session is not one that waits to be deleted. *)
Definition pad_live (p : pad) : Prop :=
  forall a s, current_session p = Some a -> sessions p !! a = Some s -> session_deleted s = false.

Definition pad_inv (p : pad) : Prop := pad_core p /\ pad_live p.

Lemma core_at p a : pad_core p -> a ∈ recorded_sessions p ->
  exists s, at_session p a = Ok s /\ sessions p !! a = Some s /\ session_in (finger_at p) a s /\ length (fingers s) = all_fingers.
Proof.
  intros Hp Ha. destruct (core_sessions p Hp a Ha) as (_ & s & Es & Hl). exists s. unfold at_session. rewrite Es.
  split; [done|]. split; [done|]. split; [|done]. intros i. unfold finger_at. cbn. case_decide; [|done]. by rewrite Es.
Qed.

(** Writing back a session after a step on it. *)
Lemma put_session_core p a s mem s' : pad_core p -> a ∈ recorded_sessions p -> sessions p !! a = Some s ->
  session_step (memory p) (finger_at p) a s mem s' -> pad_core (put_session p a s' mem).
Proof.
  intros Hp Ha Es [Hl Hn Hok]. pose proof Hp as [Cf Cs Cn Cc Cg Cq].
  destruct (Cs a Ha) as (_ & s0 & Es0 & Hl0). assert (s0 = s) as -> by congruence. split; cbn; try done.
  - eapply fingers_weaken; [|exact Hok]. intros [b i] f. unfold finger_at, put_fingers, put_session. cbn.
    case_decide as Hb; [|done]. case_decide as Hab.
    + destruct Hab as [-> _]. rewrite lookup_insert_eq. cbn. by rewrite Nat.sub_0_r.
    + assert (b <> a) by (intros ->; apply Hab; split; [done|lia]). rewrite lookup_insert_ne by done. done.
  - intros b Hb. destruct (Cs b Hb) as (Hlt & sb & Eb & Hlb). split; [lia|].
    destruct (Z.eq_dec a b) as [->|Hne]; [exists s'; rewrite lookup_insert_eq; split; [done|congruence]|].
    exists sb. by rewrite lookup_insert_ne.
Qed.

Lemma put_session_live p a s mem s' : pad_live p -> sessions p !! a = Some s -> session_deleted s' = session_deleted s ->
  pad_live (put_session p a s' mem).
Proof.
  intros Hlive Es Hd b sb Hb. cbn in *. destruct (Z.eq_dec a b) as [->|Hne].
  - rewrite lookup_insert_eq. intros [= <-]. rewrite Hd. by eapply Hlive.
  - rewrite lookup_insert_ne by done. by apply Hlive.
Qed.

(** Forgetting the current session. *)
Lemma no_current p : pad_core p -> pad_inv (with_sessions p None (recorded_sessions p) (sessions p) (memory p)).
Proof. intros []. by split. Qed.

Lemma change_session_core p a f : pad_core p -> a ∈ recorded_sessions p ->
  (forall mem F s, fingers_ok mem F -> session_in F a s -> exists mem' s', f mem s = Ok (mem', s') /\ session_step mem F a s mem' s') ->
  exists p', change_session p a f = Ok p' /\ pad_core p' /\ recorded_sessions p' = recorded_sessions p.
Proof.
  intros Hp Ha Hf. destruct (core_at p a Hp Ha) as (s & E & Es & Hs & _). unfold change_session. rewrite E. cbn [rbind].
  destruct (Hf (memory p) (finger_at p) s (core_fingers p Hp) Hs) as (mem' & s' & -> & Hstep). cbn [rbind].
  eexists. split; [reflexivity|]. split; [by eapply put_session_core|done].
Qed.

(** Deleting a session that is not the current one, which leaves the list. *)
Lemma delete_at_ok p a kept ts : pad_core p -> recorded_sessions p = kept ++ a :: ts ->
  exists p', delete_at p a = Ok p' /\ current_session p' = current_session p /\ do_record p' = do_record p /\ do_quantize p' = do_quantize p /\
    forall cur, (forall b, cur = Some b -> current_session p = Some b /\ b <> a) ->
    pad_core (with_sessions p' cur (kept ++ ts) (sessions p') (memory p')) /\
    (pad_live p -> pad_live (with_sessions p' cur (kept ++ ts) (sessions p') (memory p'))).
Proof.
  intros Hp Er. pose proof Hp as [Cf Cs Cn Cc Cg Cq].
  assert (a ∈ recorded_sessions p) as Ha by (rewrite Er; apply elem_of_app; right; by left).
  destruct (core_at p a Hp Ha) as (s & E & Es & Hs & _). unfold delete_at. rewrite E. cbn [rbind].
  destruct (destroy_session_ok (memory p) (finger_at p) a s Cf Hs) as (mem' & -> & Hn & HF). cbn [rbind].
  eexists. split; [reflexivity|]. do 3 (split; [done|]). intros cur Hcur.
  assert (NoDup (a :: kept ++ ts)) as Hnd by (by rewrite Permutation_middle, <- Er).
  apply list.NoDup_cons in Hnd as [Hna Hnd].
  assert (forall b, b ∈ kept ++ ts -> b ∈ recorded_sessions p /\ b <> a) as Hin.
  { intros b Hb. split; [rewrite Er|by intros ->]. apply elem_of_app in Hb as [Hb|Hb]; apply elem_of_app; [by left|by right; right]. }
  split.
  - split; cbn; try done.
    + eapply fingers_weaken; [|exact HF]. intros [b i] f. unfold finger_at, drop_session. cbn.
      case_decide as Hb; [|done]. destruct (Hin b Hb) as [Hb' Hne]. rewrite lookup_delete_ne by done.
      rewrite (decide_False (P := b = a)), (decide_True (P := b ∈ recorded_sessions p)) by done. done.
    + intros b Hb. destruct (Hin b Hb) as [Hb' Hne]. destruct (Cs b Hb') as (Hlt & sb & Eb & Hlb). split; [lia|].
      exists sb. by rewrite lookup_delete_ne.
    + intros b Hb. destruct (Hcur b Hb) as [Hb' Hne]. apply Cc in Hb'. rewrite Er in Hb'.
      apply elem_of_app in Hb' as [Hb'|[Hb'|Hb']%elem_of_cons]; apply elem_of_app; [by left|done|by right].
  - intros Hlive b sb Hb. cbn in *. destruct (Hcur b Hb) as [Hb' Hne]. rewrite lookup_delete_ne by done. by apply Hlive.
Qed.

(** ** Events, ticks and operations *)

Lemma new_finger_safe mem : finger_safe mem new_finger [].
Proof.
  split; [split|]; cbn; try done; try (by intros a Ha%not_elem_of_nil).
  - split; [done|]. split; [constructor|done].
  - constructor.
  - intros a [Ha|[Ha|Ha]]; [by apply not_elem_of_nil in Ha|by apply not_elem_of_nil in Ha|done].
Qed.

(** New fingers own nothing. *)
Lemma fingers_new mem mem' F F' : motions mem' = motions mem -> next_address mem <= next_address mem' ->
  (forall k f, F' k = Some f -> F k = Some f \/ f = new_finger) -> fingers_ok mem F -> fingers_ok mem' F'.
Proof.
  intros Hm Hn HF [owner Hown]. exists owner. intros k f Hk. destruct (HF k f Hk) as [Hk'| ->].
  - destruct (Hown k f Hk') as (l & [Hok Hold] & Ho). exists l. split; [split; [by rewrite Hm|]|done].
    intros a Ha%Hold. lia.
  - exists []. split; [apply new_finger_safe|]. intros a [Ha|[Ha|Ha]]; [by apply not_elem_of_nil in Ha..|done].
Qed.

Lemma open_session_ok loop tick p : pad_inv p -> exists p' a, open_session loop p tick = (p', a) /\ pad_inv p' /\
  a ∈ recorded_sessions p' /\ pad_configuration p' = pad_configuration p.
Proof.
  intros [Hp Hlive]. unfold open_session. destruct (current_session p) as [c|] eqn:Ec.
  { exists p, c. split; [done|]. split; [done|]. split; [by apply Hp|done]. }
  unfold allocate_session. do 2 eexists. split; [reflexivity|]. set (a := next_address (memory p)).
  pose proof Hp as [Cf Cs Cn Cc Cg Cq]. cbn.
  assert (a ∉ recorded_sessions p) as Hnew by (intros (Hlt & _)%Cs; unfold a in Hlt; lia).
  split; [split; [split; cbn; try done|]|split; [apply elem_of_app; right; by left|done]].
  - apply (fingers_new (memory p) _ (finger_at p)); try done; cbn; [lia|].
    intros [b i] f. unfold finger_at. cbn. case_decide as Hb; [|done]. destruct (Z.eq_dec a b) as [<-|Hne].
    + rewrite lookup_insert_eq. cbn. intros Hf. right. unfold new_fingers in Hf.
      apply list_elem_of_lookup_2, list_elem_of_In, repeat_spec in Hf. done.
    + rewrite lookup_insert_ne by done. rewrite decide_True; [by left|].
      apply elem_of_app in Hb as [Hb|Hb%list_elem_of_singleton]; congruence.
  - intros b [Hb|Hb%list_elem_of_singleton]%elem_of_app.
    + destruct (Cs b Hb) as (Hlt & sb & Eb & Hlb). split; [lia|]. exists sb. rewrite lookup_insert_ne; [done|].
      intros ->. by apply Hnew.
    + subst b. split; [lia|]. eexists. by rewrite lookup_insert_eq.
  - apply list.NoDup_app. split; [done|]. split; [|by apply list.NoDup_singleton].
    by intros b Hb ->%list_elem_of_singleton.
  - intros b [= <-]. apply elem_of_app. right. by left.
  - intros b sb. cbn. intros [= <-]. rewrite lookup_insert_eq. by intros [= <-].
Qed.

Lemma process_event_ok loop tick p pe : pad_inv p -> event_ok pe -> exists p', process_event garbage loop tick p pe = Ok p' /\ pad_inv p'.
Proof.
  intros Hp Hpe. unfold process_event. destruct ((0 <=? event_finger pe) && (event_finger pe <? MAX_PAD_FINGERS)) eqn:Eb; [|by exists p].
  zbool. destruct (open_session_ok loop tick p Hp) as (p1 & a & -> & [Hp1 Hlive] & Ha & Ecfg).
  destruct (core_at p1 a Hp1 Ha) as (s & -> & Es & Hs & Hl). cbn [rbind].
  destruct (load_in (fingers s) (event_finger pe)) as (f & -> & Hf); [unfold all_fingers in Hl; lia|]. cbn [rbind].
  destruct (fingers_run (fun mem f => let! (mem, f) := process_finger_events garbage (pad_configuration p1) pe (playback_position s) mem f
      in Ok (mem, f, tt)) (memory p1) (finger_at p1) (a, Z.to_nat (event_finger pe)) f) as (mem' & f' & x & He & Hn & HF).
  { intros mem0 f0 l0 Hl0.
    destruct (process_finger_events_ok (pad_configuration p1) pe (playback_position s) mem0 f0 l0) as (m' & f' & -> & Hs');
      [apply Hp1|done|done|]. by exists m', f', tt. }
  { apply Hp1. }
  { by rewrite <- Hs. }
  inv_bind He. destruct x0 as [m2 f2]. injection He as -> -> _. rewrite Hx. cbn [rbind].
  rewrite store_in by (unfold all_fingers in Hl; lia). cbn [rbind]. eexists. split; [reflexivity|].
  assert (session_step (memory p1) (finger_at p1) a s mem' (with_fingers s (<[Z.to_nat (event_finger pe) := f']> (fingers s)))) as Hstep.
  { split; cbn; [by rewrite length_insert|done|]. eapply fingers_weaken; [|exact HF].
    intros [b i] g. unfold put_fingers, put_finger. cbn [fst snd]. case_decide as Hb.
    - destruct Hb as [-> _]. rewrite Nat.sub_0_r. destruct (decide (i = Z.to_nat (event_finger pe))) as [->|Hne].
      + rewrite list_lookup_insert_eq by (eapply lookup_lt_Some; exact Hf). by rewrite decide_True.
      + rewrite list_lookup_insert_ne by congruence. rewrite decide_False by congruence. by rewrite Hs.
    - rewrite decide_False; [done|]. intros [= -> ->]. apply Hb. split; [done|lia]. }
  split; [by eapply put_session_core|by apply (put_session_live p1 a s)].
Qed.

Lemma process_events_ok loop tick p : pad_inv p -> exists p', process_events garbage loop tick p = Ok p' /\ pad_inv p'.
Proof.
  intros [Hp Hlive]. unfold process_events. pose proof (core_queue p Hp) as Hq.
  assert (pad_inv (with_queue p [])) as H0 by (split; [destruct Hp; split; try done; constructor|done]).
  revert H0. generalize (with_queue p []). induction Hq as [|pe q Hpe Hq IH]; intros p0 H0; cbn [rfold]; [by exists p0|].
  destruct (process_event_ok loop tick p0 pe H0 Hpe) as (p1 & -> & H1). cbn [rbind]. by apply IH.
Qed.

Lemma process_session_list_ok mute tick ts : forall kept p, pad_inv p -> recorded_sessions p = kept ++ ts ->
  exists p' out, process_session_list scales_here garbage mute tick p kept ts = Ok (p', out) /\ pad_inv p'.
Proof.
  induction ts as [|t ts IH]; intros kept p Hp Er; cbn [process_session_list]; [by exists p, []|].
  pose proof Hp as [Hc Hlive]. assert (t ∈ recorded_sessions p) as Ht by (rewrite Er; apply elem_of_app; right; by left).
  destruct (core_at p t Hc Ht) as (s & -> & Es & Hs & Hl). cbn [rbind].
  destruct (start_play_ok (memory p) (finger_at p) t s tick (core_fingers p Hc) Hs) as (s1 & b & -> & Hstep1 & Hd1).
  assert (pad_inv (put_session p t s1 (memory p))) as Hp1
    by (split; [by apply (put_session_core p t s)|by apply (put_session_live p t s)]).
  assert (kept ++ t :: ts = (kept ++ [t]) ++ ts) as Eapp by (by rewrite <- app_assoc).
  destruct b; [|apply IH; [done|by rewrite <- Eapp]].
  set (p1 := put_session p t s1 (memory p)) in *. destruct Hp1 as [Hc1 Hlive1].
  destruct (core_at p1 t Hc1 Ht) as (s1' & _ & Es1 & Hs1 & _).
  assert (s1' = s1) as -> by (unfold p1, put_session in Es1; cbn in Es1; rewrite lookup_insert_eq in Es1; congruence).
  destruct (process_session_ok (do_record p) (if bool_decide (current_session p = Some t) then false else mute) (do_quantize p)
    (memory p) (finger_at p1) t s1 (core_fingers p1 Hc1) Hs1) as (mem2 & s2 & out & over & -> & Hstep2 & Hd2 & Hover).
  cbn [rbind]. set (p2 := put_session p t s2 mem2).
  assert (p2 = put_session p1 t s2 mem2) as Ep2 by (unfold p2, p1, put_session; cbn; by rewrite insert_insert_eq).
  assert (pad_inv p2) as [Hc2 Hlive2]
    by (rewrite Ep2; split; [by apply (put_session_core p1 t s1)|by apply (put_session_live p1 t s1)]).
  destruct over.
  - destruct (delete_at_ok p2 t kept ts Hc2 Er) as (p3 & -> & Ecur & _ & _ & H3). cbn [rbind].
    destruct (H3 (current_session p3)) as [Hc3 Hlive3].
    { intros b Hb. rewrite Ecur in Hb. split; [done|]. intros ->.
      assert (session_deleted s2 = false); [|rewrite Hd2 in *; by rewrite Hover in *].
      apply (Hlive2 t); [done|]. unfold p2. cbn. by rewrite lookup_insert_eq. }
    destruct (IH kept (with_sessions p3 (current_session p3) (kept ++ ts) (sessions p3) (memory p3)))
      as (p4 & more & -> & Hp4); [split; [done|by apply Hlive3]|done|].
    cbn [rbind]. by exists p4, (out ++ more).
  - destruct (IH (kept ++ [t]) p2) as (p4 & more & -> & Hp4); [done|by rewrite <- Eapp|].
    cbn [rbind]. by exists p4, (out ++ more).
Qed.

Lemma reset_session_list_ok ts : forall kept p, pad_inv p -> recorded_sessions p = kept ++ ts ->
  exists p', reset_session_list p kept ts = Ok p' /\ pad_inv p'.
Proof.
  induction ts as [|t ts IH]; intros kept p Hp Er; cbn [reset_session_list]; [by exists p|].
  pose proof Hp as [Hc Hlive]. assert (t ∈ recorded_sessions p) as Ht by (rewrite Er; apply elem_of_app; right; by left).
  case_bool_decide as Hcur.
  - destruct (delete_at_ok p t kept ts Hc Er) as (p1 & -> & _ & _ & _ & H1). cbn [rbind].
    apply IH; [|done]. destruct (H1 None) as [Hc1 Hlive1]; [done|]. split; [done|by apply Hlive1].
  - destruct (core_at p t Hc Ht) as (s & -> & Es & Hs & Hl). cbn [rbind].
    destruct (reset_session_ok (memory p) (finger_at p) t s (core_fingers p Hc) Hs) as (mem' & s' & -> & Hstep & Hd). cbn [rbind].
    apply IH; [|cbn; by rewrite <- app_assoc].
    split; [by apply (put_session_core p t s)|by apply (put_session_live p t s)].
Qed.

Lemma internal_set_record_ok p b : pad_inv p -> exists p', internal_set_record p b = Ok p' /\ pad_inv p'.
Proof.
  intros Hp. unfold internal_set_record. case_if; [by exists p|].
  assert (forall p, pad_inv p -> pad_inv (Pad (event_queue p) (current_session p) (recorded_sessions p) b (do_quantize p)
    (pad_configuration p) (sessions p) (memory p))) as Hrec by (intros p0 [[] H0]; by split).
  pose proof Hp as [Hc Hlive]. destruct (current_session p) as [a|] eqn:Ea; [|cbn [rbind]; eexists; split; [reflexivity|]].
  2:{ apply Hrec in Hp. cbn in Hp. by rewrite Ea in *. }
  destruct (change_session_core p a (if negb (do_record p) then delete_session else terminate_session) Hc) as (p1 & -> & Hp1 & Er1).
  - by apply Hc.
  - intros mem F s HF Hs. destruct (do_record p); [by apply terminate_session_ok|by apply delete_session_ok].
  - cbn [rbind]. eexists. split; [reflexivity|].
    apply (Hrec (with_sessions p1 None (recorded_sessions p1) (sessions p1) (memory p1))). by apply no_current.
Qed.

Lemma internal_clear_pad_ok p : pad_inv p -> exists p', internal_clear_pad p = Ok p' /\ pad_inv p'.
Proof.
  intros [Hp _]. unfold internal_clear_pad.
  assert (forall ts p0, pad_core p0 -> (forall a, a ∈ ts -> a ∈ recorded_sessions p0) ->
    exists p1, rfold (fun p a => change_session p a delete_session) p0 ts = Ok p1 /\ pad_core p1) as H.
  { induction ts as [|t ts IH]; intros p0 Hp0 Hts; cbn [rfold]; [by exists p0|].
    destruct (change_session_core p0 t delete_session Hp0) as (p1 & -> & Hp1 & Er1);
      [apply Hts; by left|intros mem F s HF Hs; by apply delete_session_ok|]. cbn [rbind].
    apply IH; [done|]. intros a Ha. rewrite Er1. apply Hts. by right. }
  destruct (H (recorded_sessions p) p Hp) as (p1 & -> & Hp1); [done|]. cbn [rbind].
  eexists. split; [reflexivity|]. by apply no_current.
Qed.

(** What can happen to a pad: a finger moves, a tick is played, an operation runs between two
    ticks, the machine stops. *)
Inductive pad_op : Type :=
| Enqueue (finger_id : Z) (t : pad_event_t) (x y z : Z)
| Process (loop : machine_loop) (mute : bool) (tick : Z)
| SetRecord (record : bool)
| SetQuantize (quantized : bool)
| ClearPad
| ResetPad
| Configure (c : pad_config).

Definition configure (p : pad) (c : pad_config) : pad :=
  Pad (event_queue p) (current_session p) (recorded_sessions p) (do_record p) (do_quantize p) c (sessions p) (memory p).

Definition do_op (p : pad) (op : pad_op) : result pad :=
  match op with
  | Enqueue f t x y z => Ok (enqueue_event p f t x y z)
  | Process loop mute tick => let! (p, _) := process scales_here garbage loop mute tick p in Ok p
  | SetRecord b => internal_set_record p b
  | SetQuantize b => Ok (set_quantize p b)
  | ClearPad => internal_clear_pad p
  | ResetPad => reset_pad p
  | Configure c => Ok (configure p c)
  end.

Definition op_ok (op : pad_op) : Prop := match op with Configure c => pad_config_ok c | _ => True end.

Lemma do_op_ok p op : pad_inv p -> op_ok op -> exists p', do_op p op = Ok p' /\ pad_inv p'.
Proof.
  intros Hp Hop. destruct op as [f t x y z|loop mute tick|b|b| | |c]; cbn [do_op].
  - eexists. split; [reflexivity|]. destruct Hp as [[Cf Cs Cn Cc Cg Cq] Hlive]. split; [split; try done; cbn|done].
    apply Forall_app. split; [done|]. apply list.Forall_singleton. unfold event_ok. cbn.
    change 0x3fff with (Z.ones 14). rewrite Z.land_ones by lia. by apply Z.mod_pos_bound.
  - unfold process. destruct (process_events_ok loop tick p Hp) as (p1 & -> & Hp1). cbn [rbind].
    unfold process_sessions. destruct (process_session_list_ok mute tick (recorded_sessions p1) [] p1 Hp1 eq_refl) as (p2 & out & -> & Hp2).
    by exists p2.
  - by apply internal_set_record_ok.
  - eexists. split; [reflexivity|]. by destruct Hp as [[] Hlive].
  - by apply internal_clear_pad_ok.
  - by apply (reset_session_list_ok (recorded_sessions p) [] p).
  - eexists. split; [reflexivity|]. by destruct Hp as [[] Hlive].
Qed.

Lemma new_pad_inv garbage_scale : pad_config_ok (pad_configuration (new_pad garbage_scale)) -> pad_inv (new_pad garbage_scale).
Proof.
  intros Hc. split; [split|by intros a s]; [|by intros a Ha%not_elem_of_nil|constructor|done|done|constructor].
  exists (fun _ => None). intros [a i] f. unfold finger_at. cbn. case_decide as Ha; [by apply not_elem_of_nil in Ha|done].
Qed.

(** C18: The pad never does anything undefined. Whatever the fingers do and however ticks,
    recording, quantising, clearing, stopping and configurations (whose scale and pattern
    exist) follow each other, every call completes: no motion or session is used after it was
    deleted, or deleted twice, no array is read or written out of bounds, no loop over the
    linked motions runs forever. Each finger's recorded motions form a list linked in both
    directions after every step, and no motion belongs to two fingers. *)
Theorem pad_safe garbage_scale ops : pad_config_ok (pad_configuration (new_pad garbage_scale)) -> Forall op_ok ops ->
  exists p', rfold do_op (new_pad garbage_scale) ops = Ok p' /\ pad_inv p'.
Proof.
  intros Hc Hops. pose proof (new_pad_inv garbage_scale Hc) as Hp.
  revert Hp. generalize (new_pad garbage_scale). clear Hc. induction Hops as [|op ops Hop Hops IH]; intros p Hp; cbn [rfold]; [by exists p|].
  destruct (do_op_ok p op Hp Hop) as (p1 & -> & Hp1). cbn [rbind]. by apply IH.
Qed.
End safe.

(** ** A concrete run: two takes, one of them cleared while its motion still plays *)

Definition ex_garbage : indeterminate := Indeterminate (repeat 7 21) 5 9 (repeat 60 (Z.to_nat MAX_PAD_CHORD)).

Definition ex_loop : machine_loop := MachineLoop true 0 4.

Definition ex_ops : list pad_op :=
  [SetQuantize true; SetRecord true; Enqueue 0 ms_pad_press 100 8000 0; Process ex_loop false 20;
   Enqueue 0 ms_pad_slide 9000 8000 0; Process ex_loop false 21; Enqueue 0 ms_pad_release 9000 20000 0;
   Process ex_loop false 22; Process ex_loop false 23; SetRecord false; Process ex_loop false 24; Process ex_loop false 16;
   Process ex_loop false 17; ClearPad; Process ex_loop false 18; Process ex_loop false 19; ResetPad].

Lemma pad_safe_witness :
  rmap (fun p => (recorded_sessions p, bool_decide (motions (memory p) = ∅))) (rfold (do_op None ex_garbage) (new_pad (repeat 0 21)) ex_ops)
    = Ok ([], true) /\
  exists p', rfold (do_op None ex_garbage) (new_pad (repeat 0 21)) ex_ops = Ok p' /\ pad_inv None p'.
Proof.
  split; [vm_compute; reflexivity|]. apply pad_safe; [by split| |repeat constructor].
  by split.
Defined.
