(* ===== verification/PadExport.v ===== *)
(** * The notes an export writes ([PadMidiExportBuilder] of midi_generation.hh)

    [Pad::export_to_loop] plays the sessions into a builder that turns note-on and note-off
    events into notes with a start and a length. For each key the notes are the spans of a
    reference definition that looks at this key's events only. *)

From Stdlib Require Import ZArith Lia List Sorted Permutation.
From stdpp Require Import base list numbers option gmap.
From S2P Require Import Prelude StdMap Arpeggiator Pad.
Local Open Scope list_scope.
Local Open Scope Z_scope.
Local Open Scope vk_scope.

(** The builder over a list of ticks, each with the calls made in it. *)
Fixpoint export_run (b : export_builder) (ticks : list (list meb_call)) : export_builder :=
  match ticks with
  | [] => b
  | out :: ticks => export_run (step_tick (fold_left export_call out b)) ticks
  end.

(** ** The reference: one key *)

(** [open] is the start and velocity of the note that is on. *)
Fixpoint spans_in_tick (k t : Z) (open : option (Z * Z)) (out : list meb_call) : option (Z * Z) * list export_note :=
  match out with
  | [] => (open, [])
  | c :: out =>
      let '(open, closed) :=
        match c, open with
        | NoteOn n v, None => (if n =? k then Some (t, v) else None, [])
        | NoteOff n _, Some (t0, v0) =>
            if n =? k then (None, [ExportNote 0 0 v0 k t0 (t - t0)]) else (open, [])
        | _, _ => (open, [])
        end in
      let '(open, more) := spans_in_tick k t open out in
      (open, closed ++ more)
  end.

Fixpoint spans (k t : Z) (open : option (Z * Z)) (ticks : list (list meb_call)) : option (Z * Z) * list export_note :=
  match ticks with
  | [] => (open, [])
  | out :: ticks =>
      let '(open, closed) := spans_in_tick k t open out in
      let '(open, more) := spans k (t + 1) open ticks in
      (open, closed ++ more)
  end.

Definition of_key (k : Z) (n : export_note) : bool := note_key n =? k.

(** The builder agrees with the reference on the key [k]. *)
Record agrees (k : Z) (b : export_builder) (t : Z) (open : option (Z * Z)) : Prop := {
  agrees_ok : smap_ok (active_notes b);
  agrees_open : mfind (active_notes b) k = option_map (fun o => ExportNote 0 0 (snd o) k (fst o) 0) open;
  agrees_tick : export_tick b = t;
  agrees_keys : forall k' n, mfind (active_notes b) k' = Some n -> note_key n = k';
  agrees_past : forall t0 v0, open = Some (t0, v0) -> 0 <= t0 <= t
}.

Lemma key_eqb_Z (a b : Z) : key_eqb a b = (a =? b).
Proof.
  destruct (Z.eqb_spec a b) as [->|Hne]; [apply key_eqb_refl|by apply key_eqb_neq].
Qed.

Lemma filter_one_other k e l : note_key e <> k -> List.filter (of_key k) (l ++ [e]) = List.filter (of_key k) l.
Proof.
  intros H. rewrite List.filter_app. cbn. unfold of_key at 2. rewrite (proj2 (Z.eqb_neq _ _) H). apply app_nil_r.
Qed.

Lemma filter_one_same k e l : note_key e = k -> List.filter (of_key k) (l ++ [e]) = List.filter (of_key k) l ++ [e].
Proof. intros H. rewrite List.filter_app. cbn. unfold of_key at 2. by rewrite H, Z.eqb_refl. Qed.

(** The map after a call, at any key. *)
Lemma export_on_find b n v c k : smap_ok (active_notes b) -> mfind (active_notes (export_note_on b n v c)) k =
  match mfind (active_notes b) k with
  | Some e => Some e
  | None => if k =? n then Some (ExportNote c 0 v n (export_tick b) 0) else None
  end.
Proof.
  intros Hok. unfold export_note_on. destruct (mfind (active_notes b) n) eqn:En.
  - destruct (Z.eqb_spec k n) as [->|]; [by rewrite En|by destruct (mfind _ k)].
  - cbn. rewrite mfind_mset, key_eqb_Z by done. destruct (Z.eqb_spec k n) as [->|]; [by rewrite En|by destruct (mfind _ k)].
Qed.

Lemma export_off_find b n v c k : smap_ok (active_notes b) ->
  mfind (active_notes (export_note_off b n v c)) k = if k =? n then None else mfind (active_notes b) k.
Proof.
  intros Hok. unfold export_note_off. destruct (mfind (active_notes b) n) eqn:En.
  - cbn. by rewrite mfind_merase, key_eqb_Z by done.
  - destruct (Z.eqb_spec k n) as [->|]; done.
Qed.

Lemma export_on_agrees k b t open n v : agrees k b t open -> 0 <= t ->
  agrees k (export_note_on b n v 0) t (if n =? k then Some (default (t, v) open) else open).
Proof.
  intros [A1 A2 A3 A4 A5] Ht. split.
  - unfold export_note_on. case_match; [done|]. by apply mset_ok.
  - rewrite export_on_find, A2 by done. rewrite (Z.eqb_sym k n).
    destruct (Z.eqb_spec n k) as [->|]; destruct open as [[t0 v0]|]; cbn; by rewrite ?A3.
  - unfold export_note_on. by destruct (mfind (active_notes b) n).
  - intros k' e. rewrite export_on_find by done. destruct (mfind (active_notes b) k') eqn:E; [intros [= <-]; by apply A4|].
    destruct (Z.eqb_spec k' n) as [->|]; [by intros [= <-]|done].
  - intros t0 v0. destruct (n =? k); [|apply A5]. destruct open as [[t1 v1]|]; cbn; [apply A5|]. intros [= <- <-]. lia.
Qed.

Lemma export_off_agrees k b t open n v : agrees k b t open -> t < 2^31 ->
  agrees k (export_note_off b n v 0) t (if n =? k then None else open) /\
  List.filter (of_key k) (finalized (export_note_off b n v 0)) = List.filter (of_key k) (finalized b) ++
    match open with Some (t0, v0) => if n =? k then [ExportNote 0 0 v0 k t0 (t - t0)] else [] | None => [] end.
Proof.
  intros [A1 A2 A3 A4 A5] Ht. split; [split|].
  - unfold export_note_off. case_match; [by apply merase_ok|done].
  - rewrite export_off_find, A2 by done. rewrite (Z.eqb_sym k n). by destruct (n =? k).
  - unfold export_note_off. by destruct (mfind (active_notes b) n).
  - intros k' e. rewrite export_off_find by done. destruct (k' =? n); [done|apply A4].
  - intros t0 v0. destruct (n =? k); [done|apply A5].
  - unfold export_note_off. destruct (Z.eqb_spec n k) as [->|Hne].
    + rewrite A2. destruct open as [[t0 v0]|]; cbn [option_map]; [|by rewrite app_nil_r].
      destruct (A5 t0 v0 eq_refl). cbn [finalized]. rewrite filter_one_same by done.
      cbn. by rewrite A3, i32_id by (unfold in_i32; lia).
    + destruct (mfind (active_notes b) n) as [e|] eqn:En; cbn [finalized].
      * rewrite filter_one_other by (cbn; by rewrite (A4 n e En)). destruct open as [[]|]; by rewrite app_nil_r.
      * destruct open as [[]|]; by rewrite app_nil_r.
Qed.

Lemma export_tick_agrees k t out : 0 <= t < 2^31 -> forall b open, agrees k b t open ->
  let '(open', closed) := spans_in_tick k t open out in
  let b' := fold_left export_call out b in
  agrees k b' t open' /\ List.filter (of_key k) (finalized b') = List.filter (of_key k) (finalized b) ++ closed.
Proof.
  intros Ht. induction out as [|c out IH]; intros b open Hb; cbn [spans_in_tick fold_left]; [by rewrite app_nil_r|].
  assert (exists open1 closed, match c, open with
        | NoteOn n v, None => (if n =? k then Some (t, v) else None, [])
        | NoteOff n _, Some (t0, v0) => if n =? k then (None, [ExportNote 0 0 v0 k t0 (t - t0)]) else (open, [])
        | _, _ => (open, [])
        end = (open1, closed) /\ agrees k (export_call b c) t open1 /\
      List.filter (of_key k) (finalized (export_call b c)) = List.filter (of_key k) (finalized b) ++ closed)
    as (open1 & closed & -> & H1 & Hf1).
  { destruct c as [n v|n v|n v|n v]; cbn [export_call].
    - pose proof (export_on_agrees k b t open n v Hb (proj1 Ht)) as H1.
      assert (finalized (export_note_on b n v 0) = finalized b) as Ef by (unfold export_note_on; by destruct (mfind (active_notes b) n)).
      destruct open as [[t0 v0]|]; do 2 eexists; (split; [reflexivity|]); rewrite Ef, app_nil_r; (split; [|done]);
        by destruct (n =? k).
    - destruct (export_off_agrees k b t open n v Hb (proj2 Ht)) as [H1 Hf]. rewrite Hf.
      destruct open as [[t0 v0]|]; [destruct (n =? k)|]; do 2 eexists; (split; [reflexivity|]); (split; [|done]);
        by destruct (n =? k).
    - destruct open as [[]|]; do 2 eexists; (split; [reflexivity|]); by rewrite app_nil_r.
    - destruct open as [[]|]; do 2 eexists; (split; [reflexivity|]); by rewrite app_nil_r. }
  specialize (IH (export_call b c) open1 H1). destruct (spans_in_tick k t open1 out) as [open' more].
  destruct IH as [H2 Hf2]. split; [done|]. by rewrite Hf2, Hf1, app_assoc.
Qed.


