(* ===== verification/DoubleList.v ===== *)
(** * Doubly linked lists

    A list that lives in two partial functions, [next] and [previous], as the lists of signals
    and of notes do. The operations that link and unlink an element are described by what they
    change of the two functions. *)

From Stdlib Require Import ZArith Lia List.
From stdpp Require Import base list numbers option.
From S2P Require Import Prelude.
Local Open Scope list_scope.
Local Open Scope Z_scope.

(** The elements [l] linked by [nx] and [pv], coming from [p] and going on to [n]. *)
Fixpoint linked (nx pv : Z -> option Z) (p : option Z) (l : list Z) (n : option Z) : Prop :=
  match l with
  | [] => True
  | a :: l => pv a = p /\ nx a = match l with [] => n | b :: _ => Some b end /\ linked nx pv (Some a) l n
  end.

Definition first_of (l : list Z) (n : option Z) : option Z := match l with [] => n | a :: _ => Some a end.
Fixpoint last_of (p : option Z) (l : list Z) : option Z := match l with [] => p | a :: l => last_of (Some a) l end.

Lemma linked_ext nx pv nx' pv' l : (forall a, a ∈ l -> nx' a = nx a /\ pv' a = pv a) ->
  forall p n, linked nx pv p l n -> linked nx' pv' p l n.
Proof.
  induction l as [|a l IH]; intros H p n; [done|]. cbn. intros (H1 & H2 & H3).
  destruct (H a ltac:(left)) as [-> ->]. split; [done|]. split; [done|]. apply IH; [|done]. intros b Hb. apply H. by right.
Qed.

Lemma linked_app nx pv l1 l2 : forall p n, linked nx pv p (l1 ++ l2) n <->
  linked nx pv p l1 (first_of l2 n) /\ linked nx pv (last_of p l1) l2 n.
Proof.
  induction l1 as [|a l1 IH]; intros p n; cbn; [tauto|]. rewrite IH.
  assert (match l1 ++ l2 with [] => n | b :: _ => Some b end = match l1 with [] => first_of l2 n | b :: _ => Some b end) as ->
    by (by destruct l1, l2). tauto.
Qed.

Lemma last_of_snoc p l a : last_of p (l ++ [a]) = Some a.
Proof. revert p. induction l as [|b l IH]; intros p; cbn; auto. Qed.

Lemma last_of_in p l a : last_of p l = Some a -> p = Some a \/ a ∈ l.
Proof.
  revert p. induction l as [|b l IH]; intros p; cbn; [auto|]. intros [[= ->]|H]%IH; right; [by left|by right].
Qed.

(** The last element points somewhere else. *)
Lemma linked_set_last nx nx' pv l n n' : forall p, NoDup l -> linked nx pv p l n ->
  (forall a, a ∈ l -> nx' a = if bool_decide (last_of None l = Some a) then n' else nx a) ->
  linked nx' pv p l n'.
Proof.
  induction l as [|a l IH] using rev_ind; intros p Hnd Hl Hnx; [done|]. clear IH.
  apply linked_app in Hl as [H1 (H2 & H3 & _)]. apply list.NoDup_app in Hnd as (N1 & N2 & _).
  apply linked_app. split.
  - apply (linked_ext nx pv); [|exact H1]. intros b Hb. split; [|done]. rewrite Hnx by (apply elem_of_app; by left).
    rewrite last_of_snoc, bool_decide_false; [done|]. intros [= ->]. apply (N2 b Hb). by left.
  - cbn. split; [done|]. split; [|done]. rewrite Hnx by (apply elem_of_app; right; by left).
    by rewrite last_of_snoc, bool_decide_true.
Qed.

Lemma linked_set_first nx pv pv' l n p p' : NoDup l -> linked nx pv p l n ->
  (forall a, a ∈ l -> pv' a = if bool_decide (first_of l None = Some a) then p' else pv a) -> linked nx pv' p' l n.
Proof.
  destruct l as [|a l]; [done|]. intros [Ha Hnd]%list.NoDup_cons (H1 & H2 & H3) Hpv. cbn. split_and!; [|done|].
  - rewrite Hpv by left. by rewrite bool_decide_true.
  - apply (linked_ext nx pv); [|done]. intros b Hb. split; [done|]. rewrite Hpv by (by right).
    rewrite bool_decide_false; [done|]. cbn. intros [= ->]. done.
Qed.

(** What remains of a list after taking one element out, pointers and all. *)
Lemma linked_without nx pv nx' pv' l1 a l2 : NoDup (l1 ++ a :: l2) -> linked nx pv None (l1 ++ a :: l2) None ->
  (forall b, b <> a -> nx' b = if bool_decide (last_of None l1 = Some b) then first_of l2 None else nx b) ->
  (forall b, b <> a -> pv' b = if bool_decide (first_of l2 None = Some b) then last_of None l1 else pv b) ->
  linked nx' pv' None (l1 ++ l2) None.
Proof.
  intros Hnd Hl Hnx Hpv. apply linked_app in Hl as [H1 (H2 & H3 & H4)].
  apply list.NoDup_app in Hnd as (N1 & N2 & N3). apply list.NoDup_cons in N3 as [N3 N4].
  apply linked_app. split.
  - eapply (linked_ext nx' pv); [|eapply linked_set_last; [exact N1|exact H1|]].
    + intros b Hb. split; [done|]. rewrite Hpv by (intros ->; apply (N2 a Hb); by left).
      rewrite bool_decide_false; [done|]. destruct l2 as [|c l2]; [done|]. cbn. intros [= ->].
      apply (N2 b Hb). right. by left.
    + intros b Hb. apply Hnx. intros ->. apply (N2 a Hb). by left.
  - eapply (linked_ext nx pv'); [|eapply linked_set_first; [exact N4|exact H4|]].
    + intros b Hb. split; [|done]. rewrite Hnx by (by intros ->).
      rewrite bool_decide_false; [done|]. intros [?|Hb1]%last_of_in; [done|]. apply (N2 b Hb1). by right.
    + intros b Hb. apply Hpv. by intros ->.
Qed.

(** What a list becomes when an element is put in. *)
Lemma linked_with nx pv nx' pv' l1 a l2 : NoDup (l1 ++ a :: l2) -> linked nx pv None (l1 ++ l2) None ->
  (forall b, b ∈ l1 ++ l2 -> nx' b = if bool_decide (last_of None l1 = Some b) then Some a else nx b) ->
  (forall b, b ∈ l1 ++ l2 -> pv' b = if bool_decide (first_of l2 None = Some b) then Some a else pv b) ->
  nx' a = first_of l2 None -> pv' a = last_of None l1 ->
  linked nx' pv' None (l1 ++ a :: l2) None.
Proof.
  intros Hnd Hl Hnx Hpv Ea Eb. apply linked_app in Hl as [H1 H2].
  apply list.NoDup_app in Hnd as (N1 & N2 & N3). apply list.NoDup_cons in N3 as [N3 N4].
  apply linked_app. split.
  - eapply (linked_ext nx' pv); [|eapply linked_set_last; [exact N1|exact H1|]].
    + intros b Hb. split; [done|]. rewrite Hpv by (apply elem_of_app; by left).
      rewrite bool_decide_false; [done|]. destruct l2 as [|c l2]; [done|]. cbn. intros [= ->].
      apply (N2 b Hb). right. by left.
    + intros b Hb. apply Hnx. apply elem_of_app. by left.
  - cbn [linked]. split; [done|]. split; [by rewrite Ea; destruct l2|].
    eapply (linked_ext nx pv'); [|eapply linked_set_first; [exact N4|exact H2|]].
    + intros b Hb. split; [|done]. rewrite Hnx by (apply elem_of_app; by right).
      rewrite bool_decide_false; [done|]. intros [?|Hb1]%last_of_in; [done|]. apply (N2 b Hb1). by right.
    + intros b Hb. apply Hpv. apply elem_of_app. by right.
Qed.
