(* ===== verification/MachineClock.v ===== *)
(** * The transport (static members of [Machine], machine.cc)

    Playback position, loop, tempo and shuffle of the machine network: the operations that
    change them and [calculate_next_tick_at_and_sequence_position], which counts the ticks
    that fall into each buffer. *)

From Stdlib Require Import String ZArith Lia List.
From stdpp Require Import base list numbers option.
From S2P Require Import Prelude PadTime Arpeggiator.
Local Open Scope list_scope.
Local Open Scope Z_scope.
Local Open Scope vk_scope.

(* @src src_jni/dynlib/dynlib.h:112-118 Dimension *)
Definition D_0D : Z := 0.
(* @src src_jni/dynlib/dynlib.h:112-118 Dimension *)
Definition D_MIDI : Z := 3.
(* @src src_jni/dynlib/dynlib.h:112-118 Dimension *)
Definition MAX_D : Z := 4.

(* @src src_jni/machine.hh:729-729 SHUFFLE_FACTOR_DIVISOR *)
Definition SHUFFLE_FACTOR_DIVISOR : Z := 100.

(** [was_playing] is the static variable of [internal_fill_sink]. *)
(* @src src_jni/machine.hh:730-747 Machine *)
Record transport : Type := Transport {
  shuffle_factor : Z;
  loop_start : Z;
  loop_stop : Z;
  do_loop : bool;
  current_tick : Z;
  next_sequence_position : Z;
  resume_sequence_position : Z;
  next_tick_at : list Z;
  samples_per_tick : list Z;
  samples_per_tick_shuffle : list Z;
  bpm : Z;
  lpb : Z;
  is_playing : bool;
  is_recording : bool;
  was_playing : bool
}.

(* @src src_jni/machine.cc:1608-1623 Machine *)
Definition initial_transport : transport :=
  Transport 0 0 64 true 0 0 0 [0; 0; 0; 0] [0; 0; 0; 0] [0; 0; 0; 0] 120 4 false false true.

Definition with_position (t : transport) (tick position : Z) : transport :=
  Transport (shuffle_factor t) (loop_start t) (loop_stop t) (do_loop t) tick position (resume_sequence_position t)
    (next_tick_at t) (samples_per_tick t) (samples_per_tick_shuffle t) (bpm t) (lpb t) (is_playing t) (is_recording t) (was_playing t).

Definition with_ticks (t : transport) (nta spt sptf : list Z) : transport :=
  Transport (shuffle_factor t) (loop_start t) (loop_stop t) (do_loop t) (current_tick t) (next_sequence_position t)
    (resume_sequence_position t) nta spt sptf (bpm t) (lpb t) (is_playing t) (is_recording t) (was_playing t).

Definition with_loop (t : transport) (start stop : Z) (on : bool) : transport :=
  Transport (shuffle_factor t) start stop on (current_tick t) (next_sequence_position t)
    (resume_sequence_position t) (next_tick_at t) (samples_per_tick t) (samples_per_tick_shuffle t) (bpm t) (lpb t)
    (is_playing t) (is_recording t) (was_playing t).

Definition with_tempo (t : transport) (shuffle b l : Z) : transport :=
  Transport shuffle (loop_start t) (loop_stop t) (do_loop t) (current_tick t) (next_sequence_position t)
    (resume_sequence_position t) (next_tick_at t) (samples_per_tick t) (samples_per_tick_shuffle t) b l
    (is_playing t) (is_recording t) (was_playing t).

Definition with_status (t : transport) (resume : Z) (playing recording was : bool) : transport :=
  Transport (shuffle_factor t) (loop_start t) (loop_stop t) (do_loop t) (current_tick t) (next_sequence_position t)
    resume (next_tick_at t) (samples_per_tick t) (samples_per_tick_shuffle t) (bpm t) (lpb t) playing recording was.

(** ** Operations

    A call that refuses its argument throws at once; the others enqueue an operation on the
    transport, which is what the definitions return. *)

Definition transport_op : Type := transport -> transport.

(* @src src_jni/machine.cc:2062-2068 Machine::set_shuffle_factor *)
Definition set_shuffle_factor (nf : Z) : transport_op := fun t => with_tempo t nf (bpm t) (lpb t).

(* @src src_jni/machine.cc:2070-2072 Machine::get_loop_state *)
Definition get_loop_state (t : transport) : bool := do_loop t.

(* @src src_jni/machine.cc:2074-2076 Machine::get_loop_start *)
Definition get_loop_start (t : transport) : Z := loop_start t.

(* @src src_jni/machine.cc:2078-2080 Machine::get_loop_length *)
Definition get_loop_length (t : transport) : Z := i32 (loop_stop t - loop_start t).

(* @src src_jni/machine.cc:2090-2096 Machine::set_loop_state *)
Definition set_loop_state (on : bool) : transport_op := fun t => with_loop t (loop_start t) (loop_stop t) on.

(** The end of the loop stays where it is. *)
(* @src src_jni/machine.cc:2098-2105 Machine::set_loop_start *)
Definition set_loop_start (line : Z) : result transport_op :=
  if line <? 0 then Err ParameterOutOfSpec
  else Ok (fun t => with_loop t line (loop_stop t) (do_loop t)).

(* @src src_jni/machine.cc:2107-2114 Machine::set_loop_length *)
Definition set_loop_length (loop_length : Z) : result transport_op :=
  if loop_length <? 4 then Err ParameterOutOfSpec
  else Ok (fun t => with_loop t (loop_start t) (i32 (loop_start t + loop_length)) (do_loop t)).

(* @src src_jni/machine.cc:2116-2123 Machine::set_bpm *)
Definition set_bpm (b : Z) : result transport_op :=
  if (b <? 20) || (200 <? b) then Err ParameterOutOfSpec
  else Ok (fun t => with_tempo t (shuffle_factor t) b (lpb t)).

(* @src src_jni/machine.cc:2125-2132 Machine::set_lpb *)
Definition set_lpb (l : Z) : result transport_op :=
  if (l <? 2) || (24 <? l) then Err ParameterOutOfSpec
  else Ok (fun t => with_tempo t (shuffle_factor t) (bpm t) l).

(* @src src_jni/machine.cc:2142-2148 Machine::set_record_state *)
Definition set_record_state (dorec : bool) : transport_op :=
  fun t => with_status t (resume_sequence_position t) (is_playing t) dorec (was_playing t).

(* @src src_jni/machine.cc:1797-1804 Machine::reset_global_playback_parameters *)
Definition reset_global_playback_parameters (playback_position : Z) : transport_op :=
  fun t => with_ticks (with_position t 0 playback_position) (repeat 0 (Z.to_nat MAX_D)) (samples_per_tick t)
             (samples_per_tick_shuffle t).

(** These also reset every machine. *)
(* @src src_jni/machine.cc:2025-2042 Machine::jump_to *)
Definition jump_to (position : Z) : transport_op := fun t =>
  let position :=
    if do_loop t then
      if position <? loop_start t then loop_start t
      else if loop_stop t <? position then loop_start t
      else position
    else position in
  with_position t 0 position.

(* @src src_jni/machine.cc:2044-2052 Machine::rewind *)
Definition rewind : transport_op := fun t =>
  let t := reset_global_playback_parameters (if do_loop t then loop_start t else 0) t in
  with_status t (next_sequence_position t) (is_playing t) (is_recording t) (was_playing t).

(* @src src_jni/machine.cc:2195-2203 Machine::play *)
Definition play : transport_op := fun t =>
  reset_global_playback_parameters (resume_sequence_position t)
    (with_status t (resume_sequence_position t) true (is_recording t) (was_playing t)).

(* @src src_jni/machine.cc:2205-2216 Machine::stop *)
Definition stop : transport_op := fun t =>
  with_status t (next_sequence_position t) false (is_recording t) (was_playing t).

(** ** Counting ticks *)

(** The default size of a buffer and its frequency, per dimension ([Signal::get_defaults]). *)
Record signal_defaults : Type := SignalDefaults { def_samples : list Z; def_frequency : list Z }.

(** One dimension: the samples per tick and the shuffle offset. *)
(* @src src_jni/machine.cc:1783-1792 Machine::calculate_samples_per_tick *)
Definition samples_of (t : transport) (frequency : Z) : result (Z * Z) :=
  let d := i32 (i32 (bpm t * lpb t) * MACHINE_TICKS_PER_LINE) in
  if d =? 0 then Err (UndefinedBehaviour "division by zero"%string) else
  let spt := c_div (i32 (frequency * 60)) d in
  Ok (spt, c_div (i32 (i32 (shuffle_factor t * 3) * Z.shiftr spt 3)) SHUFFLE_FACTOR_DIVISOR).

Fixpoint over_frequencies (t : transport) (fs : list Z) : result (list Z * list Z) :=
  match fs with
  | [] => Ok ([], [])
  | f :: fs =>
      let! (spt, sptf) := samples_of t f in
      let! (spts, sptfs) := over_frequencies t fs in
      Ok (spt :: spts, sptf :: sptfs)
  end.

(* @src src_jni/machine.cc:1777-1795 Machine::calculate_samples_per_tick *)
Definition calculate_samples_per_tick (defaults : signal_defaults) (t : transport) : result transport :=
  let! (spts, sptfs) := over_frequencies t (def_frequency defaults) in
  Ok (with_ticks t (next_tick_at t) spts sptfs).

(** What a tick of the MIDI dimension does, with the positions the periodic callbacks get. *)
(* @src src_jni/machine.cc:1825-1838 Machine::calculate_next_tick_at_and_sequence_position *)
Definition midi_tick (t : transport) : transport * list Z :=
  let triggered := if is_playing t && (current_tick t =? 0) then [next_sequence_position t] else [] in
  let tick := c_rem (current_tick t + 1) MACHINE_TICKS_PER_LINE in
  if tick =? 0 then
    let position := i32 (next_sequence_position t + 1) in
    (with_position t tick (if do_loop t && (loop_stop t <=? position) then loop_start t else position), triggered)
  else (with_position t tick (next_sequence_position t), triggered).

Definition is_even (position : Z) : bool := c_rem position 2 =? 0.

(** The inner loop, for the dimension [d]: the transport, [nta] and the callbacks. *)
(* @src src_jni/machine.cc:1818-1844 Machine::calculate_next_tick_at_and_sequence_position *)
Fixpoint tick_loop (fuel : nat) (d samples spt sptf : Z) (even_line : bool) (nta : Z) (t : transport)
  : result (transport * Z * list Z) :=
  if nta <? samples then
    match fuel with
    | O => Err OutOfFuel
    | S fuel =>
        let '(t, triggered) := if d =? D_MIDI then midi_tick t else (t, []) in
        let even_line := if (d =? D_MIDI) && (current_tick t =? 0) then is_even (next_sequence_position t) else even_line in
        let! (t, nta, more) :=
          tick_loop fuel d samples spt sptf even_line (i32 (nta + (if even_line then spt - sptf else spt + sptf))) t in
        Ok (t, nta, triggered ++ more)
    end
  else Ok (t, nta, []).

(** One dimension; the loop runs at most once per sample. *)
(* @src src_jni/machine.cc:1811-1846 Machine::calculate_next_tick_at_and_sequence_position *)
Definition tick_dimension (defaults : signal_defaults) (t : transport) (d : Z) : result (transport * list Z) :=
  let! samples := load (def_samples defaults) d in
  let! nta := load (next_tick_at t) d in
  let! spt := load (samples_per_tick t) d in
  let! sptf := load (samples_per_tick_shuffle t) d in
  let! (t, nta, triggered) :=
    tick_loop (Z.to_nat (samples - nta)) d samples spt sptf (is_even (next_sequence_position t)) nta t in
  let! ntas := store (next_tick_at t) d (i32 (nta - samples)) in
  Ok (with_ticks t ntas (samples_per_tick t) (samples_per_tick_shuffle t), triggered).

(* @src src_jni/machine.cc:1806-1848 Machine::calculate_next_tick_at_and_sequence_position *)
Definition calculate_next_tick_at_and_sequence_position (defaults : signal_defaults) (t : transport)
  : result (transport * list Z) :=
  let! (t, c0) := tick_dimension defaults t 0 in
  let! (t, c1) := tick_dimension defaults t 1 in
  let! (t, c2) := tick_dimension defaults t 2 in
  let! (t, c3) := tick_dimension defaults t 3 in
  Ok (t, c0 ++ c1 ++ c2 ++ c3).

(** ** Filling the sink *)

(* @src src_jni/dynlib/dynlib.h:129-142 SinkStatus *)
Definition sink_resumed : Z := -4.
Definition sink_paused : Z := -2.
Definition sink_just_play : Z := 0.
Definition sink_record : Z := 1.
Definition sink_callback_ok : Z := 2.

(** What [internal_fill_sink] does besides changing the transport: calls of the callback, the
    rendering of the chain (with the transport the machines see), periodic callbacks. *)
Inductive sink_event : Type :=
| SinkCallback (status : Z)
| Rendered (seen : transport)
| Periodic (position : Z).

(* @src src_jni/machine.cc:1864-1910 Machine::internal_fill_sink *)
Definition internal_fill_sink (defaults : signal_defaults) (fill_sink_callback : Z -> Z) (has_sink : bool) (t : transport)
  : result (transport * Z * list sink_event) :=
  let '(t, retval, out) :=
    if negb (is_playing t) then
      if was_playing t then
        (with_status t (resume_sequence_position t) (is_playing t) (is_recording t) false,
         fill_sink_callback sink_paused, [SinkCallback sink_paused])
      else (t, sink_callback_ok, [])
    else if negb (was_playing t) then
      (with_status t (resume_sequence_position t) (is_playing t) (is_recording t) true,
       fill_sink_callback sink_resumed, [SinkCallback sink_resumed])
    else (t, sink_callback_ok, []) in
  let! (t, more) :=
    if (retval =? sink_callback_ok) && has_sink then
      let! t := calculate_samples_per_tick defaults t in
      let seen := t in
      let! (t, positions) := calculate_next_tick_at_and_sequence_position defaults t in
      Ok (t, Rendered seen :: map Periodic positions)
    else Ok (t, []) in
  let status := if is_playing t && is_recording t then sink_record else sink_just_play in
  Ok (t, fill_sink_callback status, out ++ more ++ [SinkCallback status]).

(** ** Tempo *)

(** Settings the setters accept, with a shuffle factor as machine.hh documents it. *)
Record tempo_ok (t : transport) : Prop := {
  tempo_bpm : 20 <= bpm t <= 200;
  tempo_lpb : 2 <= lpb t <= 24;
  tempo_shuffle : 0 <= shuffle_factor t <= SHUFFLE_FACTOR_DIVISOR
}.

(** A step of the tick counter is positive and small. *)
Definition steps_ok (spt sptf : Z) : Prop := 0 < spt - sptf /\ 0 <= sptf /\ spt + sptf < 2^30.

Lemma samples_of_spec t frequency : tempo_ok t -> 1280 <= frequency <= 35000000 ->
  exists sptf, samples_of t frequency = Ok (frequency * 60 / (bpm t * lpb t * 16), sptf) /\
    8 * sptf <= 3 * (frequency * 60 / (bpm t * lpb t * 16)) /\ steps_ok (frequency * 60 / (bpm t * lpb t * 16)) sptf.
Proof.
  intros [Hb Hl Hs] Hf. unfold SHUFFLE_FACTOR_DIVISOR in Hs. unfold samples_of, MACHINE_TICKS_PER_LINE.
  assert (40 <= bpm t * lpb t <= 4800) as Hp by nia.
  rewrite !(i32_id (bpm t * lpb t)), (i32_id (bpm t * lpb t * 16)), (i32_id (frequency * 60)) by (unfold in_i32; lia).
  rewrite (proj2 (Z.eqb_neq _ _)) by lia. unfold c_div. rewrite !Z.quot_div_nonneg by lia.
  set (spt := frequency * 60 / (bpm t * lpb t * 16)).
  assert (1 <= spt) as H1 by (apply Z.div_le_lower_bound; lia).
  assert (spt <= 3300000) as H2 by (unfold spt; apply Z.div_le_upper_bound; lia).
  rewrite Z.shiftr_div_pow2 by lia. change (2^3) with 8.
  assert (0 <= spt / 8 /\ 8 * (spt / 8) <= spt) as [H3 H4] by (Z.to_euclidean_division_equations; lia).
  rewrite (i32_id (shuffle_factor t * 3)), (i32_id (shuffle_factor t * 3 * (spt / 8))) by (unfold in_i32; nia).
  unfold SHUFFLE_FACTOR_DIVISOR. rewrite Z.quot_div_nonneg by nia.
  exists (shuffle_factor t * 3 * (spt / 8) / 100). split; [done|].
  assert (0 <= shuffle_factor t * 3 * (spt / 8) / 100) by (apply Z.div_pos; nia).
  assert (100 * (shuffle_factor t * 3 * (spt / 8) / 100) <= shuffle_factor t * 3 * (spt / 8)) by (apply Z.mul_div_le; lia).
  unfold steps_ok. nia.
Qed.

(** With a tempo that the setters accept and a shuffle factor in its range, the samples
    per tick of a dimension are the frequency times 60 divided by ticks per minute, rounded
    down, the shuffle moves a tick by less than three eighths of that, and a tick takes at
    least one sample from 1280 Hz on: no 32 bit intermediate overflows up to 35 MHz. *)
Theorem samples_per_tick_bounds t frequency : tempo_ok t -> 1280 <= frequency <= 35000000 ->
  exists sptf, samples_of t frequency = Ok (frequency * 60 / (bpm t * lpb t * 16), sptf) /\
    8 * sptf <= 3 * (frequency * 60 / (bpm t * lpb t * 16)) /\ steps_ok (frequency * 60 / (bpm t * lpb t * 16)) sptf.
Proof. apply samples_of_spec. Qed.

Lemma samples_per_tick_bounds_witness : exists sptf, samples_of initial_transport 44100 = Ok (344, sptf) /\
  8 * sptf <= 3 * 344 /\ steps_ok 344 sptf.
Proof. apply (samples_per_tick_bounds initial_transport 44100); [split; cbn; unfold SHUFFLE_FACTOR_DIVISOR; lia|lia]. Defined.

(** ** Ticks *)

Definition step_of (spt sptf : Z) (t : transport) : Z :=
  if is_even (next_sequence_position t) then spt - sptf else spt + sptf.

(** The ticks of the MIDI dimension before the sample [n]. *)
Inductive midi_run (n spt sptf : Z) : Z -> transport -> transport -> Z -> list Z -> Prop :=
| run_stop nta t : n <= nta -> midi_run n spt sptf nta t t nta []
| run_tick nta t t1 c t2 nta2 out : nta < n -> midi_tick t = (t1, c) ->
    midi_run n spt sptf (nta + step_of spt sptf t1) t1 t2 nta2 out -> midi_run n spt sptf nta t t2 nta2 (c ++ out).

Lemma step_of_bounds spt sptf t : steps_ok spt sptf -> 1 <= step_of spt sptf t < 2^30.
Proof. unfold steps_ok, step_of. intros H. case_if; lia. Qed.

Lemma midi_tick_even t t1 c : midi_tick t = (t1, c) ->
  (if (current_tick t1 =? 0) then is_even (next_sequence_position t1) else is_even (next_sequence_position t)) =
  is_even (next_sequence_position t1).
Proof.
  unfold midi_tick. destruct (c_rem (current_tick t + 1) MACHINE_TICKS_PER_LINE =? 0) eqn:E; intros [= <- <-]; cbn;
    rewrite ?E; [case_if; congruence|done].
Qed.

Lemma tick_loop_run n spt sptf : steps_ok spt sptf -> n < 2^30 -> forall fuel nta t, - 2^30 <= nta -> (Z.to_nat (n - nta) <= fuel)%nat ->
  exists t' nta' out, tick_loop fuel D_MIDI n spt sptf (is_even (next_sequence_position t)) nta t = Ok (t', nta', out) /\
    midi_run n spt sptf nta t t' nta' out.
Proof.
  intros Hst Hn. induction fuel as [|fuel IH]; intros nta t Hnta Hf; cbn [tick_loop].
  - destruct (Z.ltb_spec nta n); [lia|]. do 3 eexists. split; [reflexivity|]. by constructor.
  - destruct (Z.ltb_spec nta n); [|do 3 eexists; split; [reflexivity|by constructor]].
    change (D_MIDI =? D_MIDI) with true. cbn [andb]. destruct (midi_tick t) as [t1 c] eqn:Et.
    rewrite (midi_tick_even t t1 c Et). fold (step_of spt sptf t1). pose proof (step_of_bounds spt sptf t1 Hst).
    rewrite i32_id by (unfold in_i32; lia).
    destruct (IH (nta + step_of spt sptf t1) t1) as (t2 & nta2 & out & -> & Hrun); [lia|lia|]. cbn [rbind].
    do 3 eexists. split; [reflexivity|]. by econstructor.
Qed.

Lemma midi_run_det n spt sptf nta t t1 nta1 out1 : midi_run n spt sptf nta t t1 nta1 out1 ->
  forall t2 nta2 out2, midi_run n spt sptf nta t t2 nta2 out2 -> t1 = t2 /\ nta1 = nta2 /\ out1 = out2.
Proof.
  induction 1 as [nta t H|nta t t1 c t2 nta2 out H Et Hrun IH]; intros t' nta' out' H'; inversion H'; subst; try lia; [done|].
  rewrite Et in *. match goal with E : (_, _) = (_, _) |- _ => injection E as <- <- end.
  by destruct (IH _ _ _ ltac:(eassumption)) as (-> & -> & ->).
Qed.

(** Running to [n1] and then on to [n1 + n2] is running to [n1 + n2]. *)
Lemma midi_run_app n1 n2 spt sptf nta t t1 nta1 out1 : 0 <= n2 -> midi_run n1 spt sptf nta t t1 nta1 out1 ->
  forall t2 nta2 out2, midi_run (n1 + n2) spt sptf nta1 t1 t2 nta2 out2 ->
  midi_run (n1 + n2) spt sptf nta t t2 nta2 (out1 ++ out2).
Proof.
  intros Hn. induction 1 as [nta t H|nta t t1 c t2 nta2 out H Et Hrun IH]; intros t' nta' out' H'; [done|].
  rewrite <- app_assoc. econstructor; [lia|exact Et|]. by apply IH.
Qed.

(** The sample the count starts from does not matter. *)
Lemma midi_run_shift k n spt sptf nta t t' nta' out : midi_run n spt sptf nta t t' nta' out ->
  midi_run (n + k) spt sptf (nta + k) t t' (nta' + k) out.
Proof.
  induction 1 as [nta t H|nta t t1 c t2 nta2 out H Et Hrun IH]; [constructor; lia|].
  econstructor; [lia|exact Et|]. replace (nta + k + step_of spt sptf t1) with (nta + step_of spt sptf t1 + k) by lia. done.
Qed.

Lemma midi_tick_keeps t t1 c : midi_tick t = (t1, c) -> next_tick_at t1 = next_tick_at t /\
  samples_per_tick t1 = samples_per_tick t /\ samples_per_tick_shuffle t1 = samples_per_tick_shuffle t.
Proof. unfold midi_tick. repeat case_match; by intros [= <- _]. Qed.

Lemma midi_run_end n spt sptf nta t t' nta' out : steps_ok spt sptf -> midi_run n spt sptf nta t t' nta' out ->
  n <= nta' /\ (nta < n + 2^30 -> nta' < n + 2^30) /\
  next_tick_at t' = next_tick_at t /\ samples_per_tick t' = samples_per_tick t /\
  samples_per_tick_shuffle t' = samples_per_tick_shuffle t.
Proof.
  intros Hst. induction 1 as [nta t H|nta t t1 c t2 nta2 out H Et Hrun IH]; [repeat split; (lia || done)|].
  pose proof (step_of_bounds spt sptf t1 Hst). destruct IH as (I1 & I2 & I3 & I4 & I5).
  destruct (midi_tick_keeps t t1 c Et) as (E1 & E2 & E3). rewrite I3, I4, I5, E1, E2, E3. repeat split; (lia || done).
Qed.

(** Only the position and the tick of the transport move. *)
Lemma midi_tick_with_ticks t a b c t1 out : midi_tick t = (t1, out) ->
  midi_tick (with_ticks t a b c) = (with_ticks t1 a b c, out).
Proof. unfold midi_tick. cbn. repeat case_match; by intros [= <- <-]. Qed.

Lemma midi_run_with_ticks a b c n spt sptf nta t t' nta' out : midi_run n spt sptf nta t t' nta' out ->
  midi_run n spt sptf nta (with_ticks t a b c) (with_ticks t' a b c) nta' out.
Proof.
  induction 1 as [nta t H|nta t t1 c1 t2 nta2 out H Et Hrun IH]; [by constructor|].
  econstructor; [done|by apply midi_tick_with_ticks|]. exact IH.
Qed.

Lemma with_ticks_same t : with_ticks t (next_tick_at t) (samples_per_tick t) (samples_per_tick_shuffle t) = t.
Proof. by destruct t. Qed.

(** The settings of the MIDI dimension: the next tick, the samples of a tick, the shuffle. *)
Record midi_clock (t : transport) (nta spt sptf : Z) : Prop := {
  clock_next : load (next_tick_at t) D_MIDI = Ok nta;
  clock_spt : load (samples_per_tick t) D_MIDI = Ok spt;
  clock_sptf : load (samples_per_tick_shuffle t) D_MIDI = Ok sptf
}.

Lemma tick_dimension_run defaults n t nta spt sptf : load (def_samples defaults) D_MIDI = Ok n -> n < 2^30 ->
  midi_clock t nta spt sptf -> steps_ok spt sptf -> 0 <= nta < 2^30 -> 0 <= n ->
  exists t' nta' out ntas, midi_run n spt sptf nta t t' nta' out /\ n <= nta' < n + 2^30 /\
    store (next_tick_at t) D_MIDI (nta' - n) = Ok ntas /\
    tick_dimension defaults t D_MIDI = Ok (with_ticks t' ntas (samples_per_tick t) (samples_per_tick_shuffle t), out).
Proof.
  intros Hn Hn2 [Hnta Hspt Hsptf] Hst Hb Hn0.
  destruct (tick_loop_run n spt sptf Hst Hn2 (Z.to_nat (n - nta)) nta t) as (t' & nta' & out & E & Hrun); [lia|lia|].
  pose proof (midi_run_end n spt sptf nta t t' nta' out Hst Hrun) as (H1 & H2 & H3 & H4 & H5).
  pose proof (H2 ltac:(lia)).
  destruct (load_ok_inv _ _ _ Hnta) as [Hr _].
  exists t', nta', out, (<[Z.to_nat D_MIDI := nta' - n]> (next_tick_at t)).
  assert (store (next_tick_at t) D_MIDI (nta' - n) = Ok (<[Z.to_nat D_MIDI := nta' - n]> (next_tick_at t))) as Es
    by (by apply store_in).
  repeat split; [done|lia|lia|done|].
  unfold tick_dimension. rewrite Hn, Hnta, Hspt, Hsptf. cbn [rbind]. rewrite E. cbn [rbind].
  rewrite H3, H4, H5. rewrite i32_id by (unfold in_i32; lia). by rewrite Es.
Qed.

Lemma load_store {A} (l l' : list A) i x : store l i x = Ok l' -> load l' i = Ok x.
Proof.
  intros [Hi ->]%store_ok_inv. apply load_lookup; [lia|]. apply list_lookup_insert_eq. lia.
Qed.

Lemma store_store {A} (l l' : list A) i x y : store l i x = Ok l' -> store l' i y = store l i y.
Proof.
  intros [Hi ->]%store_ok_inv. rewrite !store_in by (rewrite ?length_insert; lia). by rewrite list_insert_insert_eq.
Qed.


(** ** The transport as a counter *)

(** Ticks in the loop, and the transport at tick [p] of its loop. *)
Definition loop_ticks (t : transport) : Z := MACHINE_TICKS_PER_LINE * (loop_stop t - loop_start t).
Definition at_phase (t : transport) (p : Z) : transport :=
  with_position t (p mod MACHINE_TICKS_PER_LINE) (loop_start t + p / MACHINE_TICKS_PER_LINE).

(** The callbacks of [k] ticks from tick [p] of the loop: the lines that begin. *)
Fixpoint lines_begun (t : transport) (p : Z) (k : nat) : list Z :=
  match k with
  | O => []
  | S k => (if is_playing t && (p mod MACHINE_TICKS_PER_LINE =? 0) then [loop_start t + p / MACHINE_TICKS_PER_LINE] else []) ++
           lines_begun t ((p + 1) mod loop_ticks t) k
  end.

Record looping (t : transport) : Prop := {
  looping_on : do_loop t = true;
  looping_range : 0 <= loop_start t < loop_stop t;
  looping_int : loop_stop t < 2^30
}.

Lemma midi_tick_at t p : looping t -> 0 <= p < loop_ticks t ->
  midi_tick (at_phase t p) = (at_phase t ((p + 1) mod loop_ticks t), lines_begun t p 1).
Proof.
  intros [Hon Hr Hi] Hp. unfold loop_ticks in *. unfold midi_tick. cbn [lines_begun]. rewrite app_nil_r.
  unfold at_phase, MACHINE_TICKS_PER_LINE in *. cbn. rewrite Hon.
  set (q := p / 16) in *. set (r := p mod 16) in *.
  assert (p = 16 * q + r /\ 0 <= r < 16) as [Ep Hrr] by (subst q r; Z.to_euclidean_division_equations; lia).
  unfold c_rem. rewrite Z.rem_mod_nonneg by lia. rewrite (i32_id (loop_start t + q + 1)) by (unfold in_i32; lia).
  destruct (Z.eq_dec r 15) as [E|E].
  - rewrite E. change ((15 + 1) mod 16) with 0. cbn [Z.eqb andb].
    destruct (Z.leb_spec (loop_stop t) (loop_start t + q + 1)).
    + replace ((p + 1) mod (16 * (loop_stop t - loop_start t))) with 0
        by (replace (p + 1) with (1 * (16 * (loop_stop t - loop_start t))) by lia; rewrite Z.mod_mul; lia).
      cbn. by rewrite Z.add_0_r.
    + rewrite (Z.mod_small (p + 1)) by lia. replace (p + 1) with ((q + 1) * 16) by lia.
      rewrite Z.mod_mul, Z.div_mul by lia. by rewrite Z.add_assoc.
  - rewrite (Z.mod_small (r + 1)) by lia. rewrite (proj2 (Z.eqb_neq (r + 1) 0)) by lia.
    rewrite (Z.mod_small (p + 1)) by lia. replace (p + 1) with (r + 1 + q * 16) by lia.
    rewrite Z.mod_add, Z.div_add by lia. by rewrite (Z.mod_small (r + 1)), (Z.div_small (r + 1)) by lia.
Qed.

Lemma loop_ticks_pos t : looping t -> 0 < loop_ticks t.
Proof. intros [_ H _]. unfold loop_ticks, MACHINE_TICKS_PER_LINE. lia. Qed.

(** [k] ticks end the run when the [k]th passes [n] and the one before does not. *)
Lemma midi_run_count t n spt sptf : looping t -> sptf = 0 -> forall k p nta, 0 <= p < loop_ticks t ->
  n <= nta + Z.of_nat k * spt -> (k <> O -> nta + (Z.of_nat k - 1) * spt < n) -> 0 < spt ->
  midi_run n spt sptf nta (at_phase t p) (at_phase t ((p + Z.of_nat k) mod loop_ticks t)) (nta + Z.of_nat k * spt)
    (lines_begun t p k).
Proof.
  intros Hl ->. pose proof (loop_ticks_pos t Hl) as HL.
  induction k as [|k IH]; intros p nta Hp Hk Hk1 Hs.
  - rewrite Z.mul_0_l, !Z.add_0_r, Z.mod_small by done. constructor. lia.
  - cbn [lines_begun]. pose proof (midi_tick_at t p Hl Hp) as E. cbn [lines_begun] in E. rewrite app_nil_r in E.
    eapply run_tick; [nia|exact E|].
    replace (step_of spt 0 (at_phase t ((p + 1) mod loop_ticks t))) with spt by (unfold step_of; case_if; lia).
    replace (nta + Z.of_nat (S k) * spt) with (nta + spt + Z.of_nat k * spt) by lia.
    replace ((p + Z.of_nat (S k)) mod loop_ticks t) with (((p + 1) mod loop_ticks t + Z.of_nat k) mod loop_ticks t)
      by (rewrite Z.add_mod_idemp_l by lia; f_equal; lia).
    apply IH; [by apply Z.mod_pos_bound|lia|intros; nia|done].
Qed.

(** C25: Without shuffle the looping transport is a counter modulo the length of the loop: a
    buffer of [n] samples moves it by the number of multiples of [spt] from the next tick on that
    fall into the buffer, the remainder is carried to the next buffer, and the periodic callbacks
    are those of the lines that begin, none twice and none skipped. *)
Theorem transport_is_counter f dn n t p nta spt : load dn D_MIDI = Ok n -> 0 <= n < 2^30 -> looping t ->
  0 <= p < loop_ticks t -> midi_clock t nta spt 0 -> 0 < spt < 2^30 -> 0 <= nta < 2^30 ->
  let k := Z.max 0 ((n - nta + spt - 1) / spt) in
  exists ntas, store (next_tick_at t) D_MIDI (nta + k * spt - n) = Ok ntas /\
    tick_dimension (SignalDefaults dn f) (at_phase t p) D_MIDI =
      Ok (with_ticks (at_phase t ((p + k) mod loop_ticks t)) ntas (samples_per_tick t) (samples_per_tick_shuffle t),
          lines_begun t p (Z.to_nat k)).
Proof.
  intros Hn Hn0 Hl Hp Hc Hs Hb k.
  assert (steps_ok spt 0) as Hst by (unfold steps_ok; lia).
  destruct (tick_dimension_run (SignalDefaults dn f) n (at_phase t p) nta spt 0)
    as (t' & na & out & ntas & R & B & S & E); [done|lia| |done|lia|lia|].
  { split; apply Hc. }
  pose proof (Z.mul_div_le (n - nta + spt - 1) spt ltac:(lia)) as H1.
  pose proof (Z.mul_succ_div_gt (n - nta + spt - 1) spt ltac:(lia)) as H2.
  pose proof (midi_run_count t n spt 0 Hl eq_refl (Z.to_nat k) p nta Hp) as Rk.
  rewrite Z2Nat.id in Rk by lia. unfold k in *.
  destruct (midi_run_det _ _ _ _ _ _ _ _ R _ _ _ (Rk ltac:(nia) ltac:(intros; nia) ltac:(lia))) as (-> & -> & ->).
  exists ntas. split; [exact S|]. exact E.
Qed.

(** ** The clock never stalls *)

(** What [internal_fill_sink] needs: dimensions that are in use have a frequency from 1280 Hz on;
    the ones that are not have no samples. *)
Definition dimension_ok (samples frequency : Z) : Prop :=
  0 <= samples < 2^30 /\ (samples = 0 \/ 1280 <= frequency <= 35000000).

Record clock_wf (defaults : signal_defaults) (t : transport) : Prop := {
  wf_tempo : tempo_ok t;
  wf_defaults : Forall2 dimension_ok (def_samples defaults) (def_frequency defaults);
  wf_dimensions : length (def_samples defaults) = 4%nat;
  wf_next_length : length (next_tick_at t) = 4%nat;
  wf_next : Forall (fun nta => 0 <= nta < 2^30) (next_tick_at t)
}.

Definition dimension_ready (defaults : signal_defaults) (t : transport) (d : Z) : Prop :=
  exists n nta spt sptf, load (def_samples defaults) d = Ok n /\ load (next_tick_at t) d = Ok nta /\
    load (samples_per_tick t) d = Ok spt /\ load (samples_per_tick_shuffle t) d = Ok sptf /\
    0 <= n < 2^30 /\ 0 <= nta < 2^30 /\ (n = 0 \/ steps_ok spt sptf).

Definition keeps_tempo (t t' : transport) : Prop :=
  tempo_ok t -> tempo_ok t'.

Lemma midi_tick_settings t t1 c : midi_tick t = (t1, c) -> keeps_tempo t t1.
Proof. unfold midi_tick. repeat case_match; intros [= <- _] Ht; by destruct Ht. Qed.

Lemma tick_loop_total d n spt sptf : n < 2^30 -> forall fuel even nta t, 0 <= nta < n + 2^30 ->
  nta >= n \/ steps_ok spt sptf -> (Z.to_nat (n - nta) <= fuel)%nat ->
  exists t' nta' out, tick_loop fuel d n spt sptf even nta t = Ok (t', nta', out) /\ n <= nta' < n + 2^30 /\
    next_tick_at t' = next_tick_at t /\ samples_per_tick t' = samples_per_tick t /\
    samples_per_tick_shuffle t' = samples_per_tick_shuffle t /\ keeps_tempo t t'.
Proof.
  intros Hn. induction fuel as [|fuel IH]; intros even nta t Hnta Hst Hf; cbn [tick_loop].
  - destruct (Z.ltb_spec nta n); [lia|]. do 3 eexists. split; [reflexivity|]. unfold keeps_tempo. split_and!; (lia || done).
  - destruct (Z.ltb_spec nta n); [|do 3 eexists; split; [reflexivity|unfold keeps_tempo; split_and!; (lia || done)]].
    destruct Hst as [|Hst]; [lia|].
    destruct (if d =? D_MIDI then midi_tick t else (t, [])) as [t1 c] eqn:Et.
    set (ev := if (d =? D_MIDI) && (current_tick t1 =? 0) then is_even (next_sequence_position t1) else even).
    assert (1 <= (if ev then spt - sptf else spt + sptf) < 2^30) as Hb by (unfold steps_ok in Hst; case_if; lia).
    rewrite i32_id by (unfold in_i32; lia).
    destruct (IH ev (nta + (if ev then spt - sptf else spt + sptf)) t1)
      as (t' & nta' & out & -> & B & E1 & E2 & E3 & E4); [lia|by right|lia|]. cbn [rbind].
    do 3 eexists. split; [reflexivity|]. split; [done|]. rewrite E1, E2, E3.
    destruct (d =? D_MIDI); [|injection Et as <- <-; done].
    destruct (midi_tick_keeps t t1 c Et) as (-> & -> & ->). split_and!; try done.
    intros H'. by apply E4, (midi_tick_settings t t1 c).
Qed.

Lemma tick_dimension_total defaults t d : 0 <= d -> dimension_ready defaults t d ->
  exists t' out v, tick_dimension defaults t d = Ok (t', out) /\ 0 <= v < 2^30 /\
    store (next_tick_at t) d v = Ok (next_tick_at t') /\ samples_per_tick t' = samples_per_tick t /\
    samples_per_tick_shuffle t' = samples_per_tick_shuffle t /\ keeps_tempo t t'.
Proof.
  intros Hd (n & nta & spt & sptf & E1 & E2 & E3 & E4 & Hn & Hnta & Hst).
  destruct (tick_loop_total d n spt sptf (proj2 Hn) (Z.to_nat (n - nta)) (is_even (next_sequence_position t)) nta t)
    as (t' & nta' & out & E & B & K1 & K2 & K3 & K4); [lia|destruct Hst as [->|]; [left; lia|right; done]|lia|].
  destruct (load_ok_inv _ _ _ E2) as [Hr _].
  unfold tick_dimension. rewrite E1, E2, E3, E4. cbn [rbind]. rewrite E. cbn [rbind].
  rewrite i32_id by (unfold in_i32; lia). rewrite K1, store_in by done. cbn [rbind].
  exists (with_ticks t' (<[Z.to_nat d:=nta' - n]> (next_tick_at t)) (samples_per_tick t') (samples_per_tick_shuffle t')), out, (nta' - n).
  cbn. rewrite store_in by done. split_and!; try done; [lia|lia|]. intros Ht. by destruct (K4 Ht).
Qed.

Lemma ready_after defaults t t' d d' v : 0 <= v < 2^30 -> store (next_tick_at t) d v = Ok (next_tick_at t') ->
  samples_per_tick t' = samples_per_tick t -> samples_per_tick_shuffle t' = samples_per_tick_shuffle t -> 0 <= d' ->
  dimension_ready defaults t d' -> dimension_ready defaults t' d'.
Proof.
  intros Hv [Hd E]%store_ok_inv E3 E4 Hd' (n & nta & spt & sptf & L1 & L2 & L3 & L4 & Hn & Hnta & Hst).
  destruct (decide (d = d')) as [->|N].
  - exists n, v, spt, sptf. rewrite E3, E4, E. split_and!; try done; try lia.
    apply load_lookup; [lia|]. apply list_lookup_insert_eq. lia.
  - exists n, nta, spt, sptf. rewrite E3, E4, E. split_and!; try done; try lia.
    apply load_lookup; [lia|]. rewrite list_lookup_insert_ne by lia. by apply load_ok_inv in L2 as [_ L2].
Qed.

Lemma tick_all_total defaults t : (forall d, 0 <= d < 4 -> dimension_ready defaults t d) ->
  Forall (fun nta => 0 <= nta < 2^30) (next_tick_at t) ->
  exists t' out, calculate_next_tick_at_and_sequence_position defaults t = Ok (t', out) /\ keeps_tempo t t' /\
    length (next_tick_at t') = length (next_tick_at t) /\ Forall (fun nta => 0 <= nta < 2^30) (next_tick_at t').
Proof.
  intros Hr HF. unfold calculate_next_tick_at_and_sequence_position.
  assert (forall d t, 0 <= d < 4 -> (forall d, 0 <= d < 4 -> dimension_ready defaults t d) ->
    Forall (fun nta => 0 <= nta < 2^30) (next_tick_at t) ->
    exists t' out, tick_dimension defaults t d = Ok (t', out) /\ keeps_tempo t t' /\
      length (next_tick_at t') = length (next_tick_at t) /\ Forall (fun nta => 0 <= nta < 2^30) (next_tick_at t') /\
      (forall d, 0 <= d < 4 -> dimension_ready defaults t' d)) as Step.
  { intros d u Hd Hu HuF. destruct (tick_dimension_total defaults u d) as (u' & out & v & E & Hv & S & E3 & E4 & K); [lia|by apply Hu|].
    exists u', out. split_and!; [done|done| | |].
    - apply store_ok_inv in S as [_ ->]. by rewrite length_insert.
    - apply store_ok_inv in S as [_ ->]. by apply Forall_insert.
    - intros d' Hd'. eapply ready_after; eauto. lia. }
  destruct (Step 0 t) as (t0 & o0 & -> & K0 & L0 & F0 & R0); [lia|done|done|]. cbn [rbind].
  destruct (Step 1 t0) as (t1 & o1 & -> & K1 & L1 & F1 & R1); [lia|done|done|]. cbn [rbind].
  destruct (Step 2 t1) as (t2 & o2 & -> & K2 & L2 & F2 & R2); [lia|done|done|]. cbn [rbind].
  destruct (Step 3 t2) as (t3 & o3 & -> & K3 & L3 & F3 & R3); [lia|done|done|]. cbn [rbind].
  do 2 eexists. split_and!; [reflexivity| |congruence|done]. intros H. by apply K3, K2, K1, K0.
Qed.

(** The samples per tick of all dimensions. *)
Lemma over_frequencies_total t : tempo_ok t -> forall fs, exists spts sptfs, over_frequencies t fs = Ok (spts, sptfs) /\
  length spts = length fs /\ length sptfs = length fs /\
  forall i f, fs !! i = Some f -> exists spt sptf, spts !! i = Some spt /\ sptfs !! i = Some sptf /\
    samples_of t f = Ok (spt, sptf).
Proof.
  intros [Hb Hl Hs]. induction fs as [|f fs (spts & sptfs & E & L1 & L2 & IH)].
  - by exists [], [].
  - assert (exists x, samples_of t f = Ok x) as [[spt sptf] Ef].
    { unfold samples_of, MACHINE_TICKS_PER_LINE. assert (40 <= bpm t * lpb t <= 4800) by nia.
      rewrite !(i32_id (bpm t * lpb t)), (i32_id (bpm t * lpb t * 16)) by (unfold in_i32; lia).
      rewrite (proj2 (Z.eqb_neq _ _)) by lia. by eexists. }
    exists (spt :: spts), (sptf :: sptfs). cbn [over_frequencies]. rewrite Ef. cbn [rbind]. rewrite E. cbn.
    split_and!; [done|lia|lia|]. intros [|i] g Hg; [injection Hg as <-; eauto|by apply IH].
Qed.

(** C26: Every call of the sink returns and keeps the transport well-formed: with a tempo that the
    setters accept and dimensions that are unused or have at least 1280 Hz the tick loops of all
    dimensions end, and the next tick of every dimension is again a sample of a coming buffer. *)
Theorem fill_sink_returns defaults callback has_sink t : clock_wf defaults t ->
  exists t' status out, internal_fill_sink defaults callback has_sink t = Ok (t', status, out) /\ clock_wf defaults t'.
Proof.
  intros Hwf.
  assert (forall t, clock_wf defaults t -> exists t' out, (let! t := calculate_samples_per_tick defaults t in
      let seen := t in
      let! (t, positions) := calculate_next_tick_at_and_sequence_position defaults t in
      Ok (t, Rendered seen :: map Periodic positions)) = Ok (t', out) /\ clock_wf defaults t') as Hfill.
  { clear. intros t [Ht Hd H4 Hl HF].
    destruct (over_frequencies_total t Ht (def_frequency defaults)) as (spts & sptfs & E & L1 & L2 & HS).
    unfold calculate_samples_per_tick. rewrite E. cbn [rbind].
    pose proof (list.Forall2_length _ _ _ Hd) as HL.
    destruct (tick_all_total defaults (with_ticks t (next_tick_at t) spts sptfs)) as (t' & out & -> & K & K1 & K2); [|exact HF|].
    - intros d Hr. destruct (load_in (def_samples defaults) d) as (n & Ln & Kn); [lia|].
      destruct (load_in (next_tick_at t) d) as (nta & Lt & Kt); [lia|].
      destruct (Forall2_lookup_l _ _ _ _ _ Hd Kn) as (f & Kf & Hn & Hf).
      destruct (HS _ _ Kf) as (spt & sptf & K1 & K2 & Es). exists n, nta, spt, sptf. cbn.
      split_and!; try done; try lia; try (by apply load_lookup; [lia|]); try by (eapply (Forall_lookup_1 _ _ _ _ HF Kt)).
      destruct Hf as [|Hf]; [by left|right]. destruct (samples_of_spec t f Ht Hf) as (sf & E2 & _ & Hst).
      rewrite Es in E2. by injection E2 as -> ->.
    - cbn [rbind]. do 2 eexists. split; [reflexivity|]. cbn in *. split; try done; [apply K; by destruct Ht|exact (eq_trans K1 Hl)]. }
  unfold internal_fill_sink.
  set (first := (if negb (is_playing t) then _ else _) : transport * Z * list sink_event).
  assert (clock_wf defaults first.1.1) as Hfirst
    by (unfold first; repeat case_match; cbn; destruct Hwf as [Ht ? ? ? ?]; split; try done; by destruct Ht).
  destruct first as [[t1 retval] out]. cbn in Hfirst.
  destruct ((retval =? sink_callback_ok) && has_sink); [|cbn [rbind]; eauto].
  destruct (Hfill t1 Hfirst) as (t' & more & E & Hwf'). cbv zeta in E |- *. rewrite E. cbn [rbind]. eauto.
Qed.

(** The calls a client can make, with an argument that the call accepts; the shuffle factor is
    not checked by the code, so it is bounded here. *)
Inductive transport_request : transport_op -> Prop :=
| request_shuffle nf : 0 <= nf <= SHUFFLE_FACTOR_DIVISOR -> transport_request (set_shuffle_factor nf)
| request_loop_state on : transport_request (set_loop_state on)
| request_loop_start line f : set_loop_start line = Ok f -> transport_request f
| request_loop_length n f : set_loop_length n = Ok f -> transport_request f
| request_bpm b f : set_bpm b = Ok f -> transport_request f
| request_lpb l f : set_lpb l = Ok f -> transport_request f
| request_record on : transport_request (set_record_state on)
| request_jump position : transport_request (jump_to position)
| request_rewind : transport_request rewind
| request_play : transport_request play
| request_stop : transport_request stop.


(** ** Witnesses *)

Definition audio_defaults : signal_defaults := SignalDefaults [1024; 0; 0; 1024] [44100; 0; 0; 44100].
Definition ticking : transport :=
  play (with_ticks (with_loop initial_transport 2 6 true) [0; 0; 0; 100] [344; 0; 0; 344] [43; 0; 0; 43]).


Lemma transport_is_counter_witness :
  exists ntas, store [0; 0; 0; 100] D_MIDI (100 + 67 * 344 - 23000) = Ok ntas /\
    tick_dimension (SignalDefaults [0; 0; 0; 23000] []) (at_phase (with_ticks ticking [0; 0; 0; 100] [0; 0; 0; 344] [0; 0; 0; 0]) 60) D_MIDI =
    Ok (with_ticks (at_phase ticking 63) ntas [0; 0; 0; 344] [0; 0; 0; 0], [2; 3; 4; 5]).
Proof.
  apply (transport_is_counter [] [0; 0; 0; 23000] 23000 (with_ticks ticking [0; 0; 0; 100] [0; 0; 0; 344] [0; 0; 0; 0]) 60 100 344);
    [reflexivity|lia|split; cbn; done || lia|vm_compute; done|split; reflexivity|lia|lia].
Defined.

Lemma fill_sink_returns_witness :
  exists t' status out, internal_fill_sink audio_defaults (fun _ => sink_callback_ok) true (with_ticks ticking [0; 0; 0; 100] [] []) =
    Ok (t', status, out) /\ clock_wf audio_defaults t'.
Proof.
  apply fill_sink_returns. split; [split; cbn; unfold SHUFFLE_FACTOR_DIVISOR; lia| |done|done|].
  - repeat constructor; cbn; lia.
  - repeat constructor; cbn; lia.
Defined.

