(* ===== verification/SignalLinks.v ===== *)
(** * Signals attached to an input (class [Machine::Signal], signal.cc)

    The signals attached to one input of a machine are a doubly linked list through the
    signals' own [next] and [previous] maps, which are keyed by the listening machine only.
    [link], [unlink] and [get_next] are translated pointer by pointer; [chained] relates the
    pointers to a list of signals, and the lemmas say what the operations do to it. *)

From Stdlib Require Import String ZArith Lia List.
From stdpp Require Import base list gmap numbers option.
From S2P Require Import Prelude DoubleList StdMap MachineClock.
Local Open Scope string_scope.
Local Open Scope list_scope.
Local Open Scope Z_scope.
Local Open Scope vk_scope.

(** Machines and signals are addresses. An entry [NULL] of [next] or [previous] is no entry:
    [operator[]] makes one of the other, and the code does not tell them apart. *)
(* @src src_jni/machine.hh:346-358 Machine::Signal *)
Record signal : Type := Signal {
  originator : Z;
  sig_name : string;
  sig_dimension : Z;
  sig_channels : Z;
  sig_previous : gmap Z Z;
  sig_next : gmap Z Z;
  attached_machines : smap Z Z
}.

Abbreviation signal_heap := (gmap Z signal).

Definition with_signal_links (s : signal) (previous next : gmap Z Z) : signal :=
  Signal (originator s) (sig_name s) (sig_dimension s) (sig_channels s) previous next (attached_machines s).
Definition with_attached (s : signal) (a : smap Z Z) : signal :=
  Signal (originator s) (sig_name s) (sig_dimension s) (sig_channels s) (sig_previous s) (sig_next s) a.

Definition at_signal (h : signal_heap) (a : Z) : result signal :=
  match h !! a with Some s => Ok s | None => Err (UndefinedBehaviour "dangling Signal pointer"%string) end.

(** [a->next[m]], [a->next[m] = o] and the same for [previous]. *)
Definition set_entry (g : gmap Z Z) (m : Z) (o : option Z) : gmap Z Z := partial_alter (fun _ => o) m g.
Definition next_at (h : signal_heap) (m a : Z) : result (option Z) := let! s := at_signal h a in Ok (sig_next s !! m).
Definition previous_at (h : signal_heap) (m a : Z) : result (option Z) := let! s := at_signal h a in Ok (sig_previous s !! m).
Definition put_next_at (h : signal_heap) (m a : Z) (o : option Z) : result signal_heap :=
  let! s := at_signal h a in Ok (<[a := with_signal_links s (sig_previous s) (set_entry (sig_next s) m o)]> h).
Definition put_previous_at (h : signal_heap) (m a : Z) (o : option Z) : result signal_heap :=
  let! s := at_signal h a in Ok (<[a := with_signal_links s (set_entry (sig_previous s) m o) (sig_next s)]> h).

(** [p->next[m] = o] for a [p] that is known not to be null. *)
Definition on_pointer (p : option Z) (f : Z -> result signal_heap) : result signal_heap :=
  match p with Some a => f a | None => Err (UndefinedBehaviour "null Signal pointer"%string) end.

(** ** Operations *)

(** Counts in a [std::map<Machine *, int>]. *)
Definition incr_count (counts : smap Z Z) (m : Z) : smap Z Z :=
  match mfind counts m with Some c => mset counts m (c + 1) | None => mset counts m 1 end.
Definition decr_count (counts : smap Z Z) (m : Z) : smap Z Z :=
  match mfind counts m with
  | Some c => if c - 1 =? 0 then merase counts m else mset counts m (c - 1)
  | None => counts
  end.

(* @src src_jni/signal.cc:867-876 Machine::Signal::attach *)
Definition attach (h : signal_heap) (a m : Z) : result signal_heap :=
  let! s := at_signal h a in Ok (<[a := with_attached s (incr_count (attached_machines s) m)]> h).

(* @src src_jni/signal.cc:878-888 Machine::Signal::detach *)
Definition detach (h : signal_heap) (a m : Z) : result signal_heap :=
  let! s := at_signal h a in Ok (<[a := with_attached s (decr_count (attached_machines s) m)]> h).

(* @src src_jni/signal.cc:890-901 Machine::Signal::get_attached_machines *)
Definition get_attached_machines (s : signal) : list Z := map fst (attached_machines s).

(** [next[m]] is read again for each use. *)
(* @src src_jni/signal.cc:903-919 Machine::Signal::link *)
Definition link (h : signal_heap) (this m : Z) (ns : option Z) : result signal_heap :=
  let! s := at_signal h this in
  if sig_dimension s =? D_MIDI then Err (JException "Cannot attach more than one midi signal to an input."%string) else
  match ns with
  | None => Err (JException "Trying to link NULL signal."%string)
  | Some ns =>
      let! last_next := next_at h m this in
      let! h := put_next_at h m this (Some ns) in
      let! n := next_at h m this in
      let! h := on_pointer n (fun n => put_previous_at h m n (Some this)) in
      let! n := next_at h m this in
      let! h := on_pointer n (fun n => put_next_at h m n last_next) in
      match last_next with
      | None => Ok h
      | Some l => let! n := next_at h m this in put_previous_at h m l n
      end
  end.

(* @src src_jni/signal.cc:921-925 Machine::Signal::get_next *)
Definition get_next (h : signal_heap) (a m : Z) : result (option Z) := next_at h m a.

(** The loop from [s]; [head] is [this]. *)
(* @src src_jni/signal.cc:931-947 Machine::Signal::unlink *)
Fixpoint unlink_from (fuel : nat) (h : signal_heap) (m ns head : Z) (s : option Z)
  : result (signal_heap * option Z) :=
  match s with
  | None => Err (JException "Failed to unlink signal, not in list."%string)
  | Some s =>
      match fuel with
      | O => Err OutOfFuel
      | S fuel =>
          if s =? ns then
            let! p := previous_at h m s in
            let! n := next_at h m s in
            let! h := match p with Some p => put_next_at h m p n | None => Ok h end in
            let! n := next_at h m s in
            let! p := previous_at h m s in
            let! h := match n with Some n => put_previous_at h m n p | None => Ok h end in
            let! n := next_at h m s in
            let head := if s =? head then n else Some head in
            let! h := put_next_at h m s None in
            let! h := put_previous_at h m s None in
            Ok (h, head)
          else
            let! n := next_at h m s in
            unlink_from fuel h m ns head n
      end
  end.

(** As much fuel as there are signals. *)
(* @src src_jni/signal.cc:927-950 Machine::Signal::unlink *)
Definition unlink (h : signal_heap) (this m ns : Z) : result (signal_heap * option Z) :=
  unlink_from (size h) h m ns this (Some this).

(** ** The list the pointers stand for *)

Definition next_f (h : signal_heap) (m a : Z) : option Z := s ← h !! a; sig_next s !! m.
Definition previous_f (h : signal_heap) (m a : Z) : option Z := s ← h !! a; sig_previous s !! m.

(** Only links of the machine [m] differ. *)
Definition relinked (m : Z) (h h' : signal_heap) : Prop :=
  forall a, match h !! a with
            | Some s => exists p n, h' !! a = Some (with_signal_links s (set_entry (sig_previous s) m p) (set_entry (sig_next s) m n))
            | None => h' !! a = None
            end.

Definition chained (h : signal_heap) (m : Z) (l : list Z) : Prop :=
  NoDup l /\ Forall (fun a => is_Some (h !! a)) l /\ linked (next_f h m) (previous_f h m) None l None.

Definition unchained (h : signal_heap) (m a : Z) : Prop := next_f h m a = None /\ previous_f h m a = None.

Lemma set_entry_eq g m o : set_entry g m o !! m = o.
Proof. apply lookup_partial_alter_eq. Qed.

Lemma set_entry_ne g m o m' : m' <> m -> set_entry g m o !! m' = g !! m'.
Proof. intros H. by apply lookup_partial_alter_ne. Qed.

Lemma set_entry_same g m : set_entry g m (g !! m) = g.
Proof. apply partial_alter_self. Qed.

Lemma set_entry_twice g m o o' : set_entry (set_entry g m o) m o' = set_entry g m o'.
Proof. unfold set_entry. apply map_eq. intros i. destruct (decide (i = m)) as [->|];
  [by rewrite !lookup_partial_alter_eq|by rewrite !lookup_partial_alter_ne]. Qed.

Lemma signals_relinked_refl m h : relinked m h h.
Proof.
  intros a. destruct (h !! a) as [s|] eqn:E; [|done]. exists (sig_previous s !! m), (sig_next s !! m).
  rewrite !set_entry_same. by destruct s.
Qed.

Lemma signals_relinked_trans m h1 h2 h3 : relinked m h1 h2 -> relinked m h2 h3 -> relinked m h1 h3.
Proof.
  intros H1 H2 a. specialize (H1 a). specialize (H2 a). destruct (h1 !! a) as [s|]; [|by rewrite H1 in H2].
  destruct H1 as (p & n & E1). rewrite E1 in H2. destruct H2 as (p' & n' & E2). exists p', n'. rewrite E2.
  unfold with_signal_links. cbn. by rewrite !set_entry_twice.
Qed.

Lemma relinked_is_some m h h' a : relinked m h h' -> is_Some (h !! a) <-> is_Some (h' !! a).
Proof.
  intros H. specialize (H a). destruct (h !! a) as [s|]; [|by rewrite H].
  destruct H as (p & n & ->). split; by eexists.
Qed.

(** The lists of other machines are untouched. *)
Lemma relinked_other m m' h h' a : relinked m h h' -> m' <> m ->
  next_f h' m' a = next_f h m' a /\ previous_f h' m' a = previous_f h m' a.
Proof.
  intros H Hne. specialize (H a). unfold next_f, previous_f. destruct (h !! a) as [s|]; [|by rewrite H].
  destruct H as (p & n & ->). cbn. by rewrite !set_entry_ne.
Qed.

(** ** Reading and writing *)

Lemma next_at_ok h m a : is_Some (h !! a) -> next_at h m a = Ok (next_f h m a).
Proof. intros [s E]. unfold next_at, at_signal, next_f. by rewrite E. Qed.

Lemma previous_at_ok h m a : is_Some (h !! a) -> previous_at h m a = Ok (previous_f h m a).
Proof. intros [s E]. unfold previous_at, at_signal, previous_f. by rewrite E. Qed.

Lemma put_next_ok h m a o : is_Some (h !! a) -> exists h', put_next_at h m a o = Ok h' /\ relinked m h h' /\
  (forall b, next_f h' m b = if b =? a then o else next_f h m b) /\ (forall b, previous_f h' m b = previous_f h m b).
Proof.
  intros [s E]. unfold put_next_at, at_signal. rewrite E. eexists. split; [reflexivity|]. unfold next_f, previous_f.
  split; [|split]; intros b; (destruct (Z.eqb_spec b a) as [->|Hne]; [rewrite ?E, !lookup_insert_eq|rewrite !lookup_insert_ne by done]); try done.
  - exists (sig_previous s !! m), o. by rewrite set_entry_same.
  - apply (signals_relinked_refl m h b).
  - cbn. by rewrite set_entry_eq.
Qed.

Lemma put_previous_ok h m a o : is_Some (h !! a) -> exists h', put_previous_at h m a o = Ok h' /\ relinked m h h' /\
  (forall b, previous_f h' m b = if b =? a then o else previous_f h m b) /\ (forall b, next_f h' m b = next_f h m b).
Proof.
  intros [s E]. unfold put_previous_at, at_signal. rewrite E. eexists. split; [reflexivity|]. unfold next_f, previous_f.
  split; [|split]; intros b; (destruct (Z.eqb_spec b a) as [->|Hne]; [rewrite ?E, !lookup_insert_eq|rewrite !lookup_insert_ne by done]); try done.
  - exists o, (sig_next s !! m). by rewrite set_entry_same.
  - apply (signals_relinked_refl m h b).
  - cbn. by rewrite set_entry_eq.
Qed.

Lemma chained_length h m l : chained h m l -> (length l <= size h)%nat.
Proof.
  intros (Hnd & HF & _). rewrite <- (size_list_to_set (C:=gset Z) l Hnd), <- (size_dom h).
  apply subseteq_size. intros a Ha%elem_of_list_to_set. apply elem_of_dom. by apply (list.Forall_forall (fun a => is_Some (h !! a)) l).
Qed.

(** ** [link] and [unlink] on lists *)

(** Signals outside [l] keep their links for [m]. *)
Definition links_kept (m : Z) (l : list Z) (h h' : signal_heap) : Prop :=
  forall b, b ∉ l -> next_f h' m b = next_f h m b /\ previous_f h' m b = previous_f h m b.

(** Write one pointer after another. *)
Ltac write_next h' H :=
  match goal with |- context [put_next_at ?h ?m ?a ?o] =>
    let R := fresh "R" in
    destruct (put_next_ok h m a o) as (h' & -> & R & H); [|cbn [rbind]] end.
Ltac write_previous h' H :=
  match goal with |- context [put_previous_at ?h ?m ?a ?o] =>
    let R := fresh "R" in
    destruct (put_previous_ok h m a o) as (h' & -> & R & H); [|cbn [rbind]] end.

Lemma link_spec h m a rest ns : chained h m (a :: rest) ->
  (forall s, h !! a = Some s -> sig_dimension s <> D_MIDI) -> is_Some (h !! ns) -> ns ∉ a :: rest ->
  exists h', link h a m (Some ns) = Ok h' /\ relinked m h h' /\ chained h' m (a :: ns :: rest) /\
    links_kept m (a :: ns :: rest) h h'.
Proof.
  intros (Hnd & HF & Hp & Hn & Hl) Hd Hns Hnot. apply list.Forall_cons in HF as [Ha HF].
  apply not_elem_of_cons in Hnot as [Hna Hnr]. apply list.NoDup_cons in Hnd as [Har Hnd].
  unfold link, at_signal. destruct Ha as [s Es]. rewrite Es. cbn [rbind]. rewrite (proj2 (Z.eqb_neq _ _)) by (by apply Hd).
  assert (is_Some (h !! a)) as Ha by eauto.
  rewrite (next_at_ok h) by done. cbn [rbind]. rewrite Hn.
  write_next h1 N1; [done|]. destruct N1 as [N1 P1].
  rewrite next_at_ok by (by apply (relinked_is_some _ _ _ _ R)). rewrite N1, Z.eqb_refl. cbn [rbind on_pointer].
  write_previous h2 N2; [by apply (relinked_is_some _ _ _ _ R)|]. destruct N2 as [P2 N2].
  pose proof (signals_relinked_trans _ _ _ _ R R0) as R2.
  rewrite next_at_ok by (by apply (relinked_is_some _ _ _ _ R2)). rewrite N2, N1, Z.eqb_refl. cbn [rbind on_pointer].
  write_next h3 N3; [by apply (relinked_is_some _ _ _ _ R2)|]. destruct N3 as [N3 P3].
  pose proof (signals_relinked_trans _ _ _ _ R2 R1) as R3.
  assert (forall b, next_f h3 m b = if b =? ns then first_of rest None else if b =? a then Some ns else next_f h m b) as NX
    by (intros b; rewrite N3, N2, N1; by destruct rest).
  assert (forall b, previous_f h3 m b = if b =? ns then Some a else previous_f h m b) as PV
    by (intros b; by rewrite P3, P2, P1).
  assert (forall h', relinked m h h' -> Forall (fun a => is_Some (h' !! a)) (a :: ns :: rest)) as Hsome.
  { intros h' R'. repeat constructor; [by apply (relinked_is_some _ _ _ _ R')..|].
    eapply list.Forall_impl; [exact HF|]. intros b. by apply (relinked_is_some _ _ _ _ R'). }
  assert (NoDup (a :: ns :: rest)) as Hnd'.
  { rewrite !list.NoDup_cons. split_and!; [|done|done]. apply not_elem_of_cons. by split. }
  destruct rest as [|r rest].
  - exists h3. split; [done|]. split; [done|]. split; [split; [done|split; [by apply Hsome|]]|].
    + cbn. rewrite !NX, !PV, !Z.eqb_refl. rewrite (proj2 (Z.eqb_neq a ns)) by congruence. done.
    + intros b Hb. rewrite NX, PV. apply not_elem_of_cons in Hb as [Hb1 Hb]. apply not_elem_of_cons in Hb as [Hb2 _].
      by rewrite !(proj2 (Z.eqb_neq b _)) by congruence.
  - rewrite next_at_ok by (by apply (relinked_is_some _ _ _ _ R3)). rewrite NX, Z.eqb_refl.
    rewrite (proj2 (Z.eqb_neq a ns)) by congruence. cbn [rbind].
    apply list.Forall_cons in HF as [Hr HF]. apply not_elem_of_cons in Hnr as [Hr1 Hr2].
    apply not_elem_of_cons in Har as [Ha1 Ha2]. apply list.NoDup_cons in Hnd as [Hr3 Hnd].
    destruct (put_previous_ok h3 m r (Some ns)) as (h4 & E4 & R4 & P4 & N4); [by apply (relinked_is_some _ _ _ _ R3)|].
    pose proof (signals_relinked_trans _ _ _ _ R3 R4) as R5.
    exists h4. split; [exact E4|]. split; [done|]. split; [split; [done|split; [by apply Hsome|]]|].
    + destruct Hl as (Hl1 & Hl2 & Hl3). cbn. rewrite !N4, !P4, !NX, !PV, !Z.eqb_refl.
      rewrite !(proj2 (Z.eqb_neq a ns)), !(proj2 (Z.eqb_neq a r)), !(proj2 (Z.eqb_neq ns r)), !(proj2 (Z.eqb_neq r ns)),
        !(proj2 (Z.eqb_neq r a)) by congruence. split_and!; try done.
      apply (linked_ext (next_f h m) (previous_f h m)); [|done]. intros b Hb.
      rewrite N4, P4, NX, PV.
      rewrite (proj2 (Z.eqb_neq b ns)), (proj2 (Z.eqb_neq b a)), (proj2 (Z.eqb_neq b r)) by (intros ->; contradiction). done.
    + intros b Hb. rewrite N4, P4, NX, PV. rewrite !not_elem_of_cons in Hb. destruct Hb as (Hb1 & Hb2 & Hb3 & Hb4).
      by rewrite !(proj2 (Z.eqb_neq b _)) by congruence.
Qed.

(** The body of [unlink]'s loop at the signal it looks for. *)
Lemma unlink_here fuel h m l1 a l2 head : chained h m (l1 ++ a :: l2) -> first_of (l1 ++ [a]) None = Some head ->
  exists h', unlink_from (S fuel) h m a head (Some a) = Ok (h', first_of (l1 ++ l2) None) /\ relinked m h h' /\
    chained h' m (l1 ++ l2) /\ unchained h' m a /\ links_kept m (l1 ++ a :: l2) h h'.
Proof.
  intros (Hnd & HF & Hl) Hhead. pose proof Hl as Hl0. apply linked_app in Hl0 as [_ (Hpv & Hnx & _)].
  pose proof HF as HF'. apply Forall_app in HF as [HF1 [Ha HF2]%list.Forall_cons].
  pose proof Hnd as Hnd'. apply list.NoDup_app in Hnd' as (N1 & N2 & [N3 N4]%list.NoDup_cons).
  assert (forall b, last_of None l1 = Some b -> b ∈ l1 /\ b <> a) as Hlast.
  { intros b [?|Hb]%last_of_in; [done|]. split; [done|]. intros ->. apply (N2 a Hb). by left. }
  assert (forall b, first_of l2 None = Some b -> b ∈ l2 /\ b <> a) as Hfirst.
  { intros b Hb. destruct l2 as [|c l2]; [done|]. injection Hb as ->. split; [by left|]. intros ->. apply N3. by left. }
  change (match l2 with [] => None | b :: _ => Some b end) with (first_of l2 None) in Hnx.
  cbn [unlink_from]. rewrite Z.eqb_refl. rewrite (previous_at_ok h), (next_at_ok h) by done. cbn [rbind]. rewrite Hpv, Hnx.
  assert (exists h1, match last_of None l1 with Some p => put_next_at h m p (first_of l2 None) | None => Ok h end = Ok h1 /\
    relinked m h h1 /\ (forall b, previous_f h1 m b = previous_f h m b) /\
    forall b, next_f h1 m b = if bool_decide (last_of None l1 = Some b) then first_of l2 None else next_f h m b) as (h1 & -> & R1 & P1 & X1).
  { destruct (last_of None l1) as [p|] eqn:E.
    - destruct (put_next_ok h m p (first_of l2 None)) as (h1 & -> & R & X & P);
        [by apply (proj1 (list.Forall_forall _ _) HF1), Hlast|].
      exists h1. split_and!; try done. intros b. rewrite X. case_bool_decide as D; [injection D as ->; by rewrite Z.eqb_refl|].
      rewrite (proj2 (Z.eqb_neq b p)); [done|congruence].
    - exists h. split_and!; try done. apply signals_relinked_refl. }
  cbn [rbind]. rewrite (next_at_ok h1), (previous_at_ok h1) by (by apply (relinked_is_some _ _ _ _ R1)). cbn [rbind].
  rewrite X1, P1, Hpv, Hnx. rewrite bool_decide_false by (intros E; by apply Hlast in E as [_ E]).
  assert (exists h2, match first_of l2 None with Some n => put_previous_at h1 m n (last_of None l1) | None => Ok h1 end = Ok h2 /\
    relinked m h h2 /\ (forall b, next_f h2 m b = next_f h1 m b) /\
    forall b, previous_f h2 m b = if bool_decide (first_of l2 None = Some b) then last_of None l1 else previous_f h m b) as (h2 & -> & R2 & X2 & P2).
  { destruct (first_of l2 None) as [n|] eqn:E.
    - destruct (put_previous_ok h1 m n (last_of None l1)) as (h2 & -> & R & P & X).
      { apply (relinked_is_some _ _ _ _ R1). by apply (proj1 (list.Forall_forall _ _) HF2), Hfirst. }
      exists h2. split_and!; try done; [by eapply signals_relinked_trans|]. intros b. rewrite P, P1.
      case_bool_decide as D; [injection D as ->; by rewrite Z.eqb_refl|]. rewrite (proj2 (Z.eqb_neq b n)); [done|congruence].
    - by exists h1. }
  cbn [rbind]. rewrite (next_at_ok h2) by (by apply (relinked_is_some _ _ _ _ R2)). cbn [rbind].
  rewrite X2, X1, Hnx. rewrite bool_decide_false by (intros E; by apply Hlast in E as [_ E]).
  write_next h3 X3; [by apply (relinked_is_some _ _ _ _ R2)|]. destruct X3 as [X3 P3].
  pose proof (signals_relinked_trans _ _ _ _ R2 R) as R3.
  write_previous h4 P4; [by apply (relinked_is_some _ _ _ _ R3)|]. destruct P4 as [P4 X4].
  pose proof (signals_relinked_trans _ _ _ _ R3 R0) as R4.
  exists h4. split; [|split; [done|split; [|split]]].
  - do 2 f_equal. destruct l1 as [|b l1]; cbn in Hhead; injection Hhead as <-; [by rewrite Z.eqb_refl|].
    rewrite (proj2 (Z.eqb_neq a b)); [done|]. intros ->. apply (N2 b ltac:(left)). by left.
  - split; [|split].
    + apply list.NoDup_app. split_and!; [done| |done]. intros b Hb Hb2. apply (N2 b Hb). by right.
    + eapply list.Forall_impl; [by apply Forall_app_2|]. intros b. by apply (relinked_is_some _ _ _ _ R4).
    + eapply linked_without; [exact Hnd|exact Hl| |]; intros b Hb.
      * by rewrite X4, X3, X2, X1, (proj2 (Z.eqb_neq b a)).
      * by rewrite P4, P3, P2, (proj2 (Z.eqb_neq b a)).
  - split; [by rewrite X4, X3, Z.eqb_refl|by rewrite P4, Z.eqb_refl].
  - intros b Hb. apply not_elem_of_app in Hb as [Hb1 [Hb2 Hb3]%not_elem_of_cons].
    rewrite X4, X3, X2, X1, P4, P3, P2, (proj2 (Z.eqb_neq b a)) by done.
    rewrite !bool_decide_false; [done|..]; intros E; [by apply Hfirst in E as [E _]|by apply Hlast in E as [E _]].
Qed.

Lemma unlink_from_spec h m a l2 head : forall l1b l1a fuel, chained h m (l1a ++ l1b ++ a :: l2) ->
  first_of (l1a ++ l1b ++ [a]) None = Some head -> (length l1b < fuel)%nat ->
  exists h', unlink_from fuel h m a head (first_of (l1b ++ [a]) None) = Ok (h', first_of (l1a ++ l1b ++ l2) None) /\
    relinked m h h' /\ chained h' m (l1a ++ l1b ++ l2) /\ unchained h' m a /\ links_kept m (l1a ++ l1b ++ a :: l2) h h'.
Proof.
  induction l1b as [|b l1b IH]; intros l1a fuel Hc Hhead Hf; (destruct fuel as [|fuel]; [lia|]); cbn [app first_of] in *.
  - by apply unlink_here.
  - cbn [unlink_from]. destruct Hc as (Hnd & HF & Hl).
    assert (a <> b) as Hab.
    { intros <-. apply list.NoDup_app in Hnd as (_ & _ & [Hn _]%list.NoDup_cons). apply Hn, elem_of_app. right. by left. }
    rewrite (proj2 (Z.eqb_neq b a)) by congruence.
    assert (is_Some (h !! b)) as Hb by (by apply Forall_app in HF as [_ [Hb _]%list.Forall_cons]).
    rewrite (next_at_ok h m b Hb). cbn [rbind].
    pose proof Hl as Hl'. apply linked_app in Hl' as [_ (_ & Hnx & _)]. rewrite Hnx.
    assert (match l1b ++ a :: l2 with [] => None | b :: _ => Some b end = first_of (l1b ++ [a]) None) as -> by (by destruct l1b).
    assert (forall l3, l1a ++ b :: l3 = (l1a ++ [b]) ++ l3) as Hsh by (intros l3; by rewrite <- app_assoc).
    rewrite (Hsh (l1b ++ l2)), (Hsh (l1b ++ a :: l2)). rewrite (Hsh (l1b ++ [a])) in Hhead.
    apply IH; [|done|cbn in Hf; lia]. rewrite <- Hsh. by split.
Qed.

Lemma unlink_spec h m l1 a l2 head : chained h m (l1 ++ a :: l2) -> first_of (l1 ++ [a]) None = Some head ->
  exists h', unlink h head m a = Ok (h', first_of (l1 ++ l2) None) /\ relinked m h h' /\ chained h' m (l1 ++ l2) /\
    unchained h' m a /\ links_kept m (l1 ++ a :: l2) h h'.
Proof.
  intros Hc Hhead. unfold unlink. rewrite <- Hhead. apply (unlink_from_spec h m a l2 head l1 []); [done|done|].
  pose proof (chained_length h m _ Hc) as H. rewrite length_app in H. cbn in H. lia.
Qed.

(** The loop runs off the end of a list that does not hold the signal. *)
Lemma unlink_from_absent h m a head l : forall p fuel, a ∉ l -> Forall (fun b => is_Some (h !! b)) l ->
  linked (next_f h m) (previous_f h m) p l None -> (length l <= fuel)%nat ->
  unlink_from fuel h m a head (first_of l None) = Err (JException "Failed to unlink signal, not in list.").
Proof.
  induction l as [|b l IH]; intros p fuel Ha HF Hl Hf; [by destruct fuel|].
  destruct fuel as [|fuel]; [cbn in Hf; lia|]. apply not_elem_of_cons in Ha as [Hab Ha].
  apply list.Forall_cons in HF as [Hb HF]. destruct Hl as (_ & Hnx & Hl). cbn [first_of unlink_from].
  rewrite (proj2 (Z.eqb_neq b a)) by congruence. rewrite (next_at_ok h m b Hb). cbn [rbind]. rewrite Hnx.
  apply (IH (Some b)); [done|done|done|cbn in Hf; lia].
Qed.

Lemma unlink_absent h m a head l : chained h m (head :: l) -> a ∉ head :: l ->
  unlink h head m a = Err (JException "Failed to unlink signal, not in list.").
Proof.
  intros Hc Ha. pose proof (chained_length _ _ _ Hc). destruct Hc as (_ & HF & Hl).
  by apply (unlink_from_absent h m a head (head :: l) None).
Qed.

(** ** A signal that is linked twice *)

(** A second link of the signal behind the head makes it its own next one: the code links it
    whether it is in the list or not. *)
Example linked_twice_is_its_own_next :
  let free := Signal 1 "out" 0 2 ∅ ∅ [] in
  let h := <[11 := free]> (<[12 := free]> ∅) : signal_heap in
  (let! h := link h 11 3 (Some 12) in
   let! h := link h 11 3 (Some 12) in
   get_next h 12 3) = Ok (Some 12).
Proof. vm_compute. reflexivity. Qed.
