(* ===== verification/MachineGraph.v ===== *)
(** * The machine graph (class [Machine], machine.cc)

    Machines with inputs and outputs; attaching the output of one to the input of another, the
    count of dependants that the loop check and the render chain read, taking machines out.
    The pointer lists of the signals are those of SignalLinks.v. *)

From Stdlib Require Import String ZArith Lia List.
From stdpp Require Import base list gmap numbers option relations.
From S2P Require Import Prelude DoubleList StdMap MachineClock SignalLinks.
Local Open Scope string_scope.
Local Open Scope list_scope.
Local Open Scope Z_scope.
Local Open Scope vk_scope.

(* @src src_jni/machine.hh:399-406 Machine::Signal::Description *)
Record description : Type := Description { dimension : Z; channels : Z; premix : bool }.

(* @src src_jni/machine.hh:620-627 Machine *)
Record machine : Type := Machine {
  m_name : string;
  input_descriptor : smap string description;
  output_descriptor : smap string description;
  input : smap string Z;
  output : smap string Z;
  dependant : smap Z Z;
  tightly_connected : smap Z unit;
  has_been_deregistered : bool
}.

Inductive broadcast : Type :=
| MachineRegistered (m : Z)
| MachineUnregistered (m : Z)
| InputAttached (source destination : Z) (output_name input_name : string)
| InputDetached (source destination : Z) (output_name input_name : string).

(** [render] is the chain from [top_render_chain] on; [broadcasts] are the notifications of the
    listeners in the order in which they were handed to the asynchronous thread. *)
(* @src src_jni/machine.hh:750-754 Machine *)
Record graph : Type := Graph {
  signals : signal_heap;
  machines : gmap Z machine;
  machine_set : smap Z unit;
  sink : option Z;
  render : list Z;
  broadcasts : list broadcast
}.

Definition with_inputs (mc : machine) (i : smap string Z) (d : smap Z Z) : machine :=
  Machine (m_name mc) (input_descriptor mc) (output_descriptor mc) i (output mc) d (tightly_connected mc) (has_been_deregistered mc).
Definition with_tight (mc : machine) (t : smap Z unit) : machine :=
  Machine (m_name mc) (input_descriptor mc) (output_descriptor mc) (input mc) (output mc) (dependant mc) t (has_been_deregistered mc).
Definition with_deregistered (mc : machine) (b : bool) : machine :=
  Machine (m_name mc) (input_descriptor mc) (output_descriptor mc) (input mc) (output mc) (dependant mc) (tightly_connected mc) b.

Definition with_signals (g : graph) (h : signal_heap) : graph :=
  Graph h (machines g) (machine_set g) (sink g) (render g) (broadcasts g).
Definition with_machine (g : graph) (x : Z) (mc : machine) : graph :=
  Graph (signals g) (<[x := mc]> (machines g)) (machine_set g) (sink g) (render g) (broadcasts g).
Definition with_set (g : graph) (s : smap Z unit) : graph :=
  Graph (signals g) (machines g) s (sink g) (render g) (broadcasts g).
Definition with_render (g : graph) (s : option Z) (r : list Z) : graph :=
  Graph (signals g) (machines g) (machine_set g) s r (broadcasts g).
Definition tell (g : graph) (b : broadcast) : graph :=
  Graph (signals g) (machines g) (machine_set g) (sink g) (render g) (broadcasts g ++ [b]).

Definition at_machine (g : graph) (x : Z) : result machine :=
  match machines g !! x with Some mc => Ok mc | None => Err (UndefinedBehaviour "dangling Machine pointer"%string) end.

(** An operation that may throw a [jException], with the graph it leaves then. *)
Definition outcome : Type := result (graph * option string).
Definition returns (g : graph) : outcome := Ok (g, None).
Definition throws (g : graph) (message : string) : outcome := Ok (g, Some message).

(** [next] with the graph that a call returned, or what the call threw. *)
Definition and_then (o : outcome) (next : graph -> outcome) : outcome :=
  let! (g, e) := o in match e with None => next g | Some _ => Ok (g, e) end.

(** A call on signals alone that may throw. *)
Definition signal_call {A} (g : graph) (r : result A) (next : A -> outcome) : outcome :=
  match r with
  | Ok a => next a
  | Err (JException message) => throws g message
  | Err e => Err e
  end.

(** ** The render chain *)

(** The recursion goes at most as deep as there are machines. *)
(* @src src_jni/machine.cc:1068-1087 Machine::push_to_render_chain *)
Fixpoint push_to_render_chain (fuel : nat) (g : graph) (chain : list Z) (this : Z) : result (list Z) :=
  if bool_decide (this ∈ chain) then Ok chain
  else
    match fuel with
    | O => Err OutOfFuel
    | S fuel =>
        let! mc := at_machine g this in
        rfold (push_to_render_chain fuel g) (this :: chain) (map fst (dependant mc))
    end.

(* @src src_jni/machine.cc:1089-1094 Machine::recalculate_render_chain *)
Definition recalculate_render_chain (g : graph) : result graph :=
  match sink g with
  | None => Ok (with_render g None [])
  | Some s => let! chain := push_to_render_chain (size (machines g)) g [] s in Ok (with_render g (Some s) chain)
  end.

(* @src src_jni/machine.cc:1554-1575 Machine::find_machine_in_graph *)
Fixpoint find_machine_in_graph (fuel : nat) (g : graph) (this m : Z) : result bool :=
  match fuel with
  | O => Err OutOfFuel
  | S fuel =>
      if m =? this then Ok true else
      let! mc := at_machine g this in
      match mfind (dependant mc) m with
      | Some _ => Ok true
      | None =>
          rfold (fun found i => if (found : bool) then Ok true else find_machine_in_graph fuel g i m) false (map fst (dependant mc))
      end
  end.

(** ** Attaching and detaching *)

Definition newline : string := String (Ascii.ascii_of_nat 10) EmptyString.

(* @src src_jni/machine.cc:1595-1601 Machine::get_output *)
Definition get_output (mc : machine) (name : string) : option Z := mfind (output mc) name.

(** A mono signal fits into an input with more channels that is premixed. *)
(* @src src_jni/machine.cc:440-464 Machine::internal_attach_input *)
Definition signals_match (des : description) (s : signal) : bool :=
  negb (negb (dimension des =? sig_dimension s) ||
        ((negb (sig_channels s =? 1) || negb (premix des)) && negb (channels des =? sig_channels s))).

(** The signal goes to the front of an empty input, else behind the first one. *)
(* @src src_jni/machine.cc:482-509 Machine::internal_attach_input *)
Definition attach_signal (g : graph) (this m s : Z) (output_name input_name : string) : outcome :=
  let! dst := at_machine g this in
  signal_call g
    (match mfind (input dst) input_name with
     | None => Ok (mset (input dst) input_name s, signals g)
     | Some head => let! h := link (signals g) head this (Some s) in Ok (input dst, h)
     end) (fun '(inputs, h) =>
  let! h := SignalLinks.attach h s this in
  let g := with_machine (with_signals g h) this (with_inputs dst inputs (incr_count (dependant dst) m)) in
  let! g := recalculate_render_chain g in
  returns (tell g (InputAttached m this output_name input_name))).

(* @src src_jni/machine.cc:421-509 Machine::internal_attach_input *)
Definition internal_attach_input (g : graph) (this : Z) (m : option Z) (output_name input_name : string) : outcome :=
  match m with
  | None => throws g "Source machine pointer is NULL."
  | Some m =>
      let! src := at_machine g m in
      match get_output src output_name with
      | None => throws g ("[" ++ output_name ++ "]: No such output.")
      | Some s =>
          let! dst := at_machine g this in
          match mfind (input_descriptor dst) input_name with
          | None => throws g ("[" ++ input_name ++ "]: No such input")
          | Some des =>
              let! sg := at_signal (signals g) s in
              if negb (signals_match des sg) then
                throws g ("The signal type of output [" ++ output_name ++ "] does not match input [" ++ input_name
                          ++ "] when trying to connect [" ++ m_name src ++ "] with [" ++ m_name dst ++ "].")
              else
                let! loop := find_machine_in_graph (S (size (machines g))) g m this in
                if (loop : bool) then throws g ("Connection would create a loop." ++ newline)
                else attach_signal g this m s output_name input_name
          end
      end
  end.

(** One link less; the entry of the input goes with its last signal. *)
Definition set_head (inputs : smap string Z) (input_name : string) (head : option Z) : smap string Z :=
  match head with Some a => mset inputs input_name a | None => merase inputs input_name end.

(* @src src_jni/machine.cc:511-566 Machine::internal_detach_input *)
Definition internal_detach_input (g : graph) (this : Z) (m : option Z) (output_name input_name : string) : outcome :=
  match m with
  | None => throws g "Source machine pointer is NULL."
  | Some m =>
      let! src := at_machine g m in
      match get_output src output_name with
      | None => throws g ("[" ++ output_name ++ "]: No such output.")
      | Some s =>
          let! dst := at_machine g this in
          match mfind (input_descriptor dst) input_name with
          | None => throws g ("[" ++ input_name ++ "]: No such input")
          | Some _ =>
              match mfind (input dst) input_name with
              | None => throws g ("[" ++ input_name ++ "]: Nothing attached to input")
              | Some first =>
                  let! h := SignalLinks.detach (signals g) s this in
                  let g := with_signals g h in
                  signal_call g (unlink h first this s) (fun '(h, head) =>
                  let inputs := set_head (input dst) input_name head in
                  let g := with_machine (with_signals g h) this (with_inputs dst inputs (dependant dst)) in
                  match mfind (dependant dst) m with
                  | None => throws g ("[" ++ input_name ++ "]: dependant count error!")
                  | Some _ =>
                      let g := with_machine g this (with_inputs dst inputs (decr_count (dependant dst) m)) in
                      let! g := recalculate_render_chain g in
                      returns (tell g (InputDetached m this output_name input_name))
                  end)
              end
          end
      end
  end.

(** [attach_input] and [detach_input] for the operation they enqueue. *)
(* @src src_jni/machine.cc:784-796 Machine::attach_input *)
Definition attach_input (g : graph) (this m : Z) (output_name input_name : string) : outcome :=
  let! dst := at_machine g this in
  let! invalid := if has_been_deregistered dst then Ok true else let! src := at_machine g m in Ok (has_been_deregistered src) in
  if (invalid : bool) then throws g "One or both machines are invalid."
  else internal_attach_input g this (Some m) output_name input_name.

(* @src src_jni/machine.cc:798-810 Machine::detach_input *)
Definition detach_input (g : graph) (this m : Z) (output_name input_name : string) : outcome :=
  let! dst := at_machine g this in
  let! invalid := if has_been_deregistered dst then Ok true else let! src := at_machine g m in Ok (has_been_deregistered src) in
  if (invalid : bool) then throws g "One or both machines are invalid."
  else internal_detach_input g this (Some m) output_name input_name.

(** [broadcast_detach], the count, the signal and the list, for one signal [s] of [head]'s list. *)
(* @src src_jni/machine.cc:1441-1465 Machine::detach_all_inputs *)
Definition drop_signal (g : graph) (this : Z) (input_name : string) (head s : Z) : result (graph * option Z) :=
  let! sg := at_signal (signals g) s in
  let g := tell g (InputDetached (originator sg) this (sig_name sg) input_name) in
  let! mc := at_machine g this in
  let g := with_machine g this (with_inputs mc (input mc) (decr_count (dependant mc) (originator sg))) in
  let! h := SignalLinks.detach (signals g) s this in
  let! (h, head) := unlink h head this s in
  Ok (with_signals g h, head).

(** [detach_all_inputs()]: the heads one after the other. *)
(* @src src_jni/machine.cc:1441-1448 Machine::detach_all_inputs *)
Fixpoint drain_input (fuel : nat) (g : graph) (this : Z) (input_name : string) (head : option Z) : result graph :=
  match head with
  | None => Ok g
  | Some a =>
      match fuel with
      | O => Err OutOfFuel
      | S fuel => let! (g, head) := drop_signal g this input_name a a in drain_input fuel g this input_name head
      end
  end.

(** [detach_all_inputs(m)]: the signals of [m]; the walk starts again after each one. *)
(* @src src_jni/machine.cc:1449-1465 Machine::detach_all_inputs *)
Fixpoint purge_input (fuel : nat) (g : graph) (this m : Z) (input_name : string) (head s : option Z)
  : result (graph * option Z) :=
  match s, head with
  | None, _ => Ok (g, head)
  | Some _, None => Err (UndefinedBehaviour "null Signal pointer"%string)
  | Some a, Some first =>
      match fuel with
      | O => Err OutOfFuel
      | S fuel =>
          let! sg := at_signal (signals g) a in
          if originator sg =? m then
            let! (g, head) := drop_signal g this input_name first a in
            purge_input fuel g this m input_name head head
          else
            let! n := get_next (signals g) a this in
            purge_input fuel g this m input_name head n
      end
  end.

(** One entry of [input], with enough steps to walk from the head again after each signal. *)
(* @src src_jni/machine.cc:1437-1471 Machine::detach_all_inputs *)
Definition detach_entry (m : option Z) (this : Z) (g : graph) (entry : string * Z) : result graph :=
  let '(input_name, first) := entry in
  let n := size (signals g) in
  let! (g, head) :=
    match m with
    | None => let! g := drain_input n g this input_name (Some first) in Ok (g, None)
    | Some m => purge_input (S n * S n) g this m input_name (Some first) (Some first)
    end in
  let! mc := at_machine g this in
  Ok (with_machine g this (with_inputs mc (set_head (input mc) input_name head) (dependant mc))).

(* @src src_jni/machine.cc:1433-1474 Machine::detach_all_inputs *)
Definition detach_all_inputs (m : option Z) (g : graph) (this : Z) : result graph :=
  let! mc := at_machine g this in
  let! g := rfold (detach_entry m this) g (input mc) in
  recalculate_render_chain g.

(** The machines that listen to an output are collected when its turn comes. *)
(* @src src_jni/machine.cc:1476-1491 Machine::detach_all_outputs *)
Definition detach_all_outputs (g : graph) (this : Z) : result graph :=
  let! mc := at_machine g this in
  let! g := rfold (fun g '(_, s) =>
      let! sg := at_signal (signals g) s in
      rfold (detach_all_inputs (Some this)) g (get_attached_machines sg)) g (output mc) in
  recalculate_render_chain g.

(** Both classes of machines do this, and then release what they own. *)
(* @src src_jni/machine_sequencer.cc:489-494 MachineSequencer::detach_and_destroy *)
Definition detach_and_destroy (g : graph) (this : Z) : result graph :=
  let! g := detach_all_inputs None g this in
  detach_all_outputs g this.

(** ** The set of machines *)

(* @src src_jni/machine.cc:1577-1593 Machine::tightly_connect *)
Definition tightly_connect (g : graph) (this : Z) (m : option Z) : outcome :=
  match m with
  | None => throws g "Source machine pointer is NULL."
  | Some m =>
      let! a := at_machine g this in
      match mfind (tightly_connected a) m with
      | Some _ => throws g "Machines already tightly connected."
      | None =>
          let! b := at_machine g m in
          match mfind (tightly_connected b) this with
          | Some _ => throws g "Machines already tightly connected."
          | None =>
              let g := with_machine g this (with_tight a (minsert (tightly_connected a) m tt)) in
              let! b := at_machine g m in
              returns (with_machine g m (with_tight b (minsert (tightly_connected b) this tt)))
          end
      end
  end.

(* @src src_jni/machine.cc:1695-1708 Machine::internal_register_sink *)
Definition internal_register_sink (g : graph) (s : Z) : outcome :=
  match sink g with
  | Some _ => throws g "Multiple sinks not allowed."
  | None => returns (with_render g (Some s) (render g))
  end.

(* @src src_jni/machine.cc:1710-1722 Machine::internal_unregister_sink *)
Definition internal_unregister_sink (g : graph) (s : Z) : outcome :=
  if bool_decide (sink g = Some s) then returns (with_render g None []) else throws g "Sink not registered.".

(* @src src_jni/machine.cc:1724-1747 Machine::internal_register_machine *)
Definition internal_register_machine (g : graph) (m : Z) : outcome :=
  match mfind (machine_set g) m with
  | Some _ => throws g "Trying to register machine twice."
  | None =>
      let! mc := at_machine g m in
      let g := with_set g (mset (machine_set g) m tt) in
      returns (tell (with_machine g m (with_deregistered mc false)) (MachineRegistered m))
  end.

(* @src src_jni/machine.cc:1749-1775 Machine::internal_deregister_machine *)
Definition internal_deregister_machine (g : graph) (m : Z) : outcome :=
  match mfind (machine_set g) m with
  | None => throws g "Trying to deregister unknown machine."
  | Some _ =>
      let g := tell g (MachineUnregistered m) in
      let! mc := at_machine g m in
      let g := with_set (with_machine g m (with_deregistered mc true)) (merase (machine_set g) m) in
      if bool_decide (sink g = Some m) then internal_unregister_sink g m else returns g
  end.

(** [k] is the iterator into the set of [this], which must not be erased under it. *)
(* @src src_jni/machine.cc:1318-1341 Machine::destroy_tightly_attached_machines *)
Fixpoint destroy_tightly_attached_machines (destroy : graph -> Z -> outcome) (steps : nat) (g : graph) (this : Z) (k : option Z)
  : outcome :=
  match k with
  | None => returns g
  | Some other =>
      match steps with
      | O => Err OutOfFuel
      | S steps =>
          let! mo := at_machine g other in
          let g := with_machine g other (with_tight mo (merase (tightly_connected mo) this)) in
          and_then (destroy g other) (fun g =>
          let! mc := at_machine g this in
          match mfind (tightly_connected mc) other with
          | None => Err (UndefinedBehaviour "iterator of an erased element"%string)
          | Some _ => destroy_tightly_attached_machines destroy steps g this (mnext (tightly_connected mc) other)
          end)
      end
  end.

(** [detach_and_destroy] returns true in all classes. *)
(* @src src_jni/machine.cc:1912-1920 Machine::internal_disconnect_and_destroy *)
Fixpoint internal_disconnect_and_destroy (fuel : nat) (g : graph) (m : Z) : outcome :=
  match fuel with
  | O => Err OutOfFuel
  | S fuel =>
      let! g := detach_and_destroy g m in
      let! mc := at_machine g m in
      and_then (destroy_tightly_attached_machines (internal_disconnect_and_destroy fuel) fuel g m (mbegin (tightly_connected mc)))
        (fun g => and_then (internal_deregister_machine g m)
        (fun g => let! g := recalculate_render_chain g in returns g))
  end.
