(* ===== verification/GraphPaths.v ===== *)
(** * Paths in the machine graph

    [edge] is the relation that [dependant] stands for and [topological] an order of the
    machines that witnesses that it has no loop. The loop check decides reachability, and the
    render chain is what the sink reaches. *)

From Stdlib Require Import String ZArith Lia List Sorted.
From stdpp Require Import base list gmap numbers option relations sets sorting.
From S2P Require Import Prelude DoubleList StdMap MachineClock SignalLinks MachineGraph.
Local Open Scope list_scope.
Local Open Scope Z_scope.
Local Open Scope vk_scope.

(** [x] takes input from [o]. *)
Definition edge (g : graph) (x o : Z) : Prop :=
  exists mc, machines g !! x = Some mc /\ o ∈ map fst (dependant mc).

Definition exists_in (g : graph) (x : Z) : Prop := is_Some (machines g !! x).

(** Machines only take input from machines that exist. *)
Definition closed (g : graph) : Prop := forall x o, edge g x o -> exists_in g o.

(** All machines, each before those it takes input from. *)
Record topological (g : graph) (l : list Z) : Prop := {
  topo_nodup : NoDup l;
  topo_all x : x ∈ l <-> exists_in g x;
  topo_closed : closed g;
  topo_irrefl x : ~ edge g x x;
  topo_sorted : StronglySorted (fun a b => ~ edge g b a) l
}.

Definition acyclic (g : graph) : Prop := exists l, topological g l.

Lemma mfind_key {K V} `{OrderedKey K} (m : smap K V) k v : mfind m k = Some v -> k ∈ map fst m.
Proof.
  induction m as [|[k' v'] m IH]; [done|]. cbn. destruct (key_eqb k k') eqn:E; intros Hf.
  - apply key_eqb_spec in E as ->. left.
  - right. by apply IH.
Qed.

Lemma topo_after g l : topological g l -> forall l1 x l2 o, l = l1 ++ x :: l2 -> edge g x o -> o ∈ l2.
Proof.
  intros [Hnd Hall Hc Hirr Hs] l1 x l2 o -> He. pose proof (Hc _ _ He) as Ho. apply Hall in Ho.
  apply elem_of_app in Ho as [Ho|[->|Ho]%elem_of_cons]; [|by apply Hirr in He|done].
  exfalso. refine (StronglySorted_app_1_elem_of _ l1 (x :: l2) o x Hs Ho _ He). left.
Qed.

Lemma topo_length g l : topological g l -> length l = size (machines g).
Proof.
  intros [Hnd Hall _ _ _]. rewrite <- (size_list_to_set (C:=gset Z) l Hnd), <- (size_dom (machines g)).
  f_equal. apply set_eq. intros x. by rewrite elem_of_list_to_set, elem_of_dom, Hall.
Qed.

(** ** The loop check *)

Lemma any_spec {A} (f : A -> result bool) (P : A -> Prop) l : forall found,
  (forall a, a ∈ l -> exists b, f a = Ok b /\ (b = true <-> P a)) ->
  exists b, rfold (fun found a => if (found : bool) then Ok true else f a) found l = Ok b /\
    (b = true <-> found = true \/ exists a, a ∈ l /\ P a).
Proof.
  induction l as [|a l IH]; intros found Hf; cbn [rfold].
  - exists found. split; [done|]. split; [by left|]. intros [H|(a & Ha & _)]; [done|]. by apply not_elem_of_nil in Ha.
  - destruct (Hf a ltac:(left)) as (b & E & Hb).
    destruct (IH (if found then true else b)) as (b' & E' & Hb'); [intros c Hc; apply Hf; by right|].
    exists b'. split; [destruct found; [exact E'|rewrite E; exact E']|]. rewrite Hb'. split.
    + intros [H|(c & Hc & HP)]; [|right; exists c; split; [by right|done]].
      destruct found; [by left|]. right. exists a. split; [left|by apply Hb].
    + intros [->|(c & Hc & HP)]; [by left|]. apply elem_of_cons in Hc as [->|Hc]; [|right; by exists c].
      left. destruct found; [done|]. by apply Hb.
Qed.

Lemma find_machine_from g l m : topological g l -> forall fuel l1 x l2, l = l1 ++ x :: l2 -> (length l2 < fuel)%nat ->
  exists b, find_machine_in_graph fuel g x m = Ok b /\ (b = true <-> rtc (edge g) x m).
Proof.
  intros Ht. induction fuel as [|fuel IH]; intros l1 x l2 -> Hf; [lia|]. cbn [find_machine_in_graph].
  destruct (Z.eqb_spec m x) as [->|Hne].
  - exists true. split; [done|]. split; [|done]. intros _. apply rtc_refl.
  - destruct (proj1 (topo_all _ _ Ht x)) as [mc E]; [apply elem_of_app; right; left|].
    unfold at_machine. rewrite E. cbn [rbind].
    destruct (mfind (dependant mc) m) eqn:Ed.
    + exists true. split; [done|]. split; [|done]. intros _. apply rtc_once. exists mc. split; [done|]. by eapply mfind_key.
    + destruct (any_spec (fun i => find_machine_in_graph fuel g i m) (fun i => rtc (edge g) i m) (map fst (dependant mc)) false)
        as (b & -> & Hb).
      { intros o Ho. assert (edge g x o) as He by (by exists mc).
        pose proof (topo_after _ _ Ht l1 x l2 o eq_refl He) as Hin. apply list_elem_of_split in Hin as (a & c & ->).
        apply (IH (l1 ++ x :: a) o c); [by rewrite <- app_assoc|]. rewrite length_app in Hf. cbn in Hf. lia. }
      exists b. split; [done|]. rewrite Hb. split.
      * intros [|(o & Ho & Hr)]; [done|]. eapply rtc_l; [|exact Hr]. by exists mc.
      * intros Hr. right. inversion Hr as [|? o ? [mc' [E' Ho]] Hr']; [done|]. subst.
        rewrite E in E'. injection E' as <-. by exists o.
Qed.

(** With the fuel of the loop check. *)
Lemma find_machine_decides g m x : acyclic g -> exists_in g x ->
  exists b, find_machine_in_graph (S (size (machines g))) g x m = Ok b /\ (b = true <-> rtc (edge g) x m).
Proof.
  intros [l Ht] Hx. apply (topo_all _ _ Ht) in Hx. apply list_elem_of_split in Hx as (l1 & l2 & El).
  apply (find_machine_from g l m Ht _ l1 x l2 El). rewrite <- (topo_length g l Ht), El, length_app. cbn. lia.
Qed.

(** ** Links that come and go *)

Lemma sorted_filter {A} (R : relation A) (f : A -> bool) l : StronglySorted R l -> StronglySorted R (List.filter f l).
Proof.
  induction 1 as [|a l Hl IH Ha]; cbn; [constructor|]. case_if; [|done]. constructor; [done|].
  apply list.Forall_forall. intros b Hb. apply list_elem_of_In, filter_In in Hb as [Hb _].
  apply (proj1 (list.Forall_forall _ _) Ha). by apply list_elem_of_In.
Qed.

Lemma elem_of_bool_filter {A} (f : A -> bool) l a : a ∈ List.filter f l <-> a ∈ l /\ f a = true.
Proof. by rewrite !list_elem_of_In, filter_In. Qed.

Lemma NoDup_bool_filter {A} (f : A -> bool) (l : list A) : NoDup l -> NoDup (List.filter f l).
Proof.
  induction 1 as [|a l Ha Hl IH]; cbn; [constructor|]. case_if; [|done]. apply list.NoDup_cons. split; [|done].
  intros [H _]%elem_of_bool_filter. done.
Qed.

Lemma acyclic_fewer g g' : acyclic g -> (forall x, exists_in g' x <-> exists_in g x) ->
  (forall x o, edge g' x o -> edge g x o) -> acyclic g'.
Proof.
  intros [l [Hnd Hall Hc Hirr Hs]] Hex Hsub. exists l. split; [done| | | |].
  - intros x. by rewrite Hex.
  - intros x o He. apply Hex. eapply Hc, Hsub, He.
  - intros x He. by eapply Hirr, Hsub.
  - clear -Hs Hsub. induction Hs as [|a l Hl IH Ha]; [constructor|]. constructor; [exact IH|].
    eapply list.Forall_impl; [exact Ha|]. intros b Hn He. by apply Hn, Hsub.
Qed.

(** A link to a machine from which the listener cannot be reached makes no loop. *)
Lemma acyclic_add g g' t m : acyclic g -> (forall x, exists_in g' x <-> exists_in g x) ->
  (forall x o, edge g' x o -> edge g x o \/ (x = t /\ o = m)) -> exists_in g m -> ~ rtc (edge g) m t -> acyclic g'.
Proof.
  intros Hac Hex Hsub Hm Hno. pose proof Hac as [l Ht]. pose proof Ht as [Hnd Hall Hc Hirr Hs].
  set (reach := fun x => match find_machine_in_graph (S (size (machines g))) g m x with Ok b => b | Err _ => false end).
  assert (forall x, reach x = true <-> rtc (edge g) m x) as Hr.
  { intros x. unfold reach. destruct (find_machine_decides g x m Hac Hm) as (b & E & Hb). rewrite E. exact Hb. }
  assert (forall x o, edge g' x o -> reach x = true -> reach o = true) as Hdown.
  { intros x o [He|[-> ->]]%Hsub Hx; apply Hr; apply Hr in Hx; [by eapply rtc_r|done]. }
  assert (forall x, ~ edge g' x x) as Hirr'.
  { intros x [He|[-> ->]]%Hsub; [by apply (Hirr x)|]. by apply Hno. }
  assert (forall f, (forall a b, f a = true -> f b = true -> edge g' b a -> edge g b a) ->
    StronglySorted (fun a b => ~ edge g' b a) (List.filter f l)) as Hpart.
  { intros f Hf. pose proof (sorted_filter _ f l Hs) as Hsf.
    assert (forall a, a ∈ List.filter f l -> f a = true) as Hin by (by intros a [_ Ha]%elem_of_bool_filter).
    clear -Hf Hsf Hin. induction Hsf as [|a k Hk IH Ha]; [constructor|]. constructor.
    - apply IH. intros b Hb. apply Hin. by right.
    - apply list.Forall_forall. intros b Hb He. apply (proj1 (list.Forall_forall _ _) Ha b Hb).
      apply Hf; [apply Hin; left|apply Hin; by right|done]. }
  exists (List.filter (fun x => negb (reach x)) l ++ List.filter reach l). split; [| | |done|].
  - apply list.NoDup_app. split_and!; [by apply NoDup_bool_filter| |by apply NoDup_bool_filter].
    intros x [_ H1]%elem_of_bool_filter [_ H2]%elem_of_bool_filter. by rewrite H2 in H1.
  - intros x. rewrite elem_of_app, !elem_of_bool_filter, Hall, Hex. destruct (reach x); cbn; intuition congruence.
  - intros x o [He|[-> ->]]%Hsub; apply Hex; [by eapply Hc|done].
  - apply StronglySorted_app. split_and!.
    + intros a b [_ Ha]%elem_of_bool_filter [_ Hb]%elem_of_bool_filter He. by rewrite (Hdown _ _ He Hb) in Ha.
    + apply Hpart. intros a b Ha Hb [He|[-> ->]]%Hsub; [done|].
      rewrite (proj2 (Hr m)) in Ha; [done|apply rtc_refl].
    + apply Hpart. intros a b Ha Hb [He|[-> ->]]%Hsub; [done|]. by apply Hr in Hb.
Qed.

(** ** The render chain *)

(** What a push adds to a chain: machines that [x] reaches, with all that they take input from. *)
Record pushed (g : graph) (chain : list Z) (x : Z) (chain' : list Z) : Prop := {
  push_keeps y : y ∈ chain -> y ∈ chain';
  push_top : x ∈ chain';
  push_reached y : y ∈ chain' -> y ∈ chain \/ rtc (edge g) x y;
  push_closed y o : y ∈ chain' -> y ∉ chain -> edge g y o -> o ∈ chain';
  push_nodup : NoDup chain';
  push_exist y : y ∈ chain' -> exists_in g y
}.

Lemma chain_bound g (chain : list Z) : NoDup chain -> (forall y, y ∈ chain -> exists_in g y) ->
  (length chain <= size (machines g))%nat.
Proof.
  intros Hnd Hex. rewrite <- (size_list_to_set (C:=gset Z) chain Hnd), <- (size_dom (machines g)).
  apply subseteq_size. intros y Hy%elem_of_list_to_set. apply elem_of_dom. by apply Hex.
Qed.

Lemma push_all g (push : list Z -> Z -> result (list Z)) k ds :
  (forall chain d, d ∈ ds -> NoDup chain -> (forall y, y ∈ chain -> exists_in g y) -> (k <= length chain)%nat ->
    exists chain', push chain d = Ok chain' /\ pushed g chain d chain') ->
  forall chain, NoDup chain -> (forall y, y ∈ chain -> exists_in g y) -> (k <= length chain)%nat ->
  exists chain', rfold push chain ds = Ok chain' /\ NoDup chain' /\ (forall y, y ∈ chain' -> exists_in g y) /\
    (forall y, y ∈ chain -> y ∈ chain') /\ (forall d, d ∈ ds -> d ∈ chain') /\
    (forall y, y ∈ chain' -> y ∈ chain \/ exists d, d ∈ ds /\ rtc (edge g) d y) /\
    (forall y o, y ∈ chain' -> y ∉ chain -> edge g y o -> o ∈ chain').
Proof.
  induction ds as [|d ds IH]; intros Hpush chain Hnd Hex Hk; cbn [rfold].
  - exists chain. split_and!; try done; [by intros d ?%not_elem_of_nil|by left].
  - destruct (Hpush chain d ltac:(left) Hnd Hex Hk) as (c1 & -> & [K1 K2 K3 K4 K5 K6]). cbn [rbind].
    assert (k <= length c1)%nat as Hk1.
    { etransitivity; [exact Hk|]. apply submseteq_length, NoDup_submseteq; [done|]. intros y. apply K1. }
    destruct (IH ltac:(intros; apply Hpush; [by right|done..]) c1 K5 K6 Hk1) as (c2 & -> & Q1 & Q2 & Q3 & Q4 & Q5 & Q6).
    exists c2. split_and!; try done.
    + intros y Hy. by apply Q3, K1.
    + intros e [->|He]%elem_of_cons; [by apply Q3|by apply Q4].
    + intros y [Hy|(e & He & Hr)]%Q5; [|right; exists e; split; [by right|done]].
      apply K3 in Hy as [Hy|Hr]; [by left|]. right. exists d. split; [left|done].
    + intros y o Hy Hn He. destruct (decide (y ∈ c1)) as [H1|H1]; [by eapply Q3, K4|by eapply Q6].
Qed.

Lemma push_spec g : closed g -> forall fuel chain x, NoDup chain -> (forall y, y ∈ chain -> exists_in g y) ->
  exists_in g x -> (size (machines g) <= fuel + length chain)%nat ->
  exists chain', push_to_render_chain fuel g chain x = Ok chain' /\ pushed g chain x chain'.
Proof.
  intros Hc. induction fuel as [|fuel IH]; intros chain x Hnd Hex Hx Hf; cbn [push_to_render_chain]; case_bool_decide as Hin;
    try (exists chain; split; [done|]; split; try done; by left).
  - exfalso. assert (length (x :: chain) <= size (machines g))%nat as H.
    { apply chain_bound; [by apply list.NoDup_cons|]. intros y [->|Hy]%elem_of_cons; [done|by apply Hex]. }
    cbn in H. lia.
  - pose proof Hx as [mc E]. unfold at_machine. rewrite E. cbn [rbind].
    destruct (push_all g (push_to_render_chain fuel g) (S (length chain)) (map fst (dependant mc))) with (chain := x :: chain)
      as (c & -> & Q1 & Q2 & Q3 & Q4 & Q5 & Q6).
    + intros c d Hd Hc1 Hc2 Hlen. apply IH; [done|done| |lia]. apply (Hc x). by exists mc.
    + by apply list.NoDup_cons.
    + intros y [->|Hy]%elem_of_cons; [done|by apply Hex].
    + cbn. lia.
    + exists c. split; [done|]. split; try done.
      * intros y Hy. apply Q3. by right.
      * apply Q3. left.
      * intros y [[->|Hy]%elem_of_cons|(d & Hd & Hr)]%Q5; [right; apply rtc_refl|by left|]. right.
        eapply rtc_l; [|exact Hr]. by exists mc.
      * intros y o Hy Hn He. destruct (decide (y = x)) as [->|Hyx]; [|apply (Q6 y); [done| |done]].
        -- destruct He as (mc' & E' & Ho). rewrite E in E'. injection E' as <-. by apply Q4.
        -- intros [?|?]%elem_of_cons; done.
Qed.

Lemma edge_same_machines g g' : machines g' = machines g -> forall x o, edge g' x o <-> edge g x o.
Proof. intros E x o. unfold edge. by rewrite E. Qed.

(** The chain is what the sink reaches, each machine once. *)
Definition chain_ok (g : graph) : Prop :=
  NoDup (render g) /\ forall x, x ∈ render g <-> exists s, sink g = Some s /\ rtc (edge g) s x.

Lemma recalculate_spec g : closed g -> (forall s, sink g = Some s -> exists_in g s) ->
  exists chain, recalculate_render_chain g = Ok (with_render g (sink g) chain) /\ chain_ok (with_render g (sink g) chain).
Proof.
  intros Hc Hs. unfold recalculate_render_chain. destruct (sink g) as [s|] eqn:Es.
  - destruct (push_spec g Hc (size (machines g)) [] s) as (chain & -> & [K1 K2 K3 K4 K5 K6]);
      [constructor|by intros y ?%not_elem_of_nil|by apply Hs|lia|]. cbn [rbind].
    exists chain. split; [done|]. split; [done|]. cbn. intros x. split.
    + intros [?%not_elem_of_nil|Hr]%K3; [done|]. by exists s.
    + intros (s' & [= <-] & Hr). change (rtc (edge g) s x) in Hr. revert K2. clear -K4 Hr.
      induction Hr as [|y o z He Hr IH]; [done|]. intros Hy. apply IH. apply (K4 y o); [done|by apply not_elem_of_nil|done].
  - exists []. split; [done|]. split; [constructor|]. cbn. intros x. split; [by intros ?%not_elem_of_nil|]. by intros (s & Hs' & _).
Qed.
