(* ===== verification/GraphLinks.v ===== *)
(** * The links of the machine graph

    The invariant of the graph: every input of a machine is a list of signals through their
    pointers, the counts of dependants and of listeners are those of the lists, and there is no
    loop. A [view] gives the lists; [attach_input] and [detach_input] are functions on it. *)

From Stdlib Require Import String ZArith Lia List Permutation.
From stdpp Require Import base list gmap numbers option relations sets.
From S2P Require Import Prelude DoubleList StdMap MachineClock SignalLinks MachineGraph GraphPaths.
Local Open Scope string_scope.
Local Open Scope list_scope.
Local Open Scope Z_scope.
Local Open Scope vk_scope.

(** ** Counts *)

Definition count (o : Z) (l : list Z) : Z := Z.of_nat (count_occ Z.eq_dec l o).

(** A [std::map<Machine *, int>] that counts the elements of [l]. *)
Definition counts_ok (c : smap Z Z) (l : list Z) : Prop :=
  smap_ok c /\ forall o, mfind c o = if count o l =? 0 then None else Some (count o l).

Lemma count_cons o a l : count o (a :: l) = (if a =? o then 1 else 0) + count o l.
Proof. unfold count. cbn. destruct (Z.eq_dec a o) as [->|Hn]; [rewrite Z.eqb_refl; lia|]. rewrite (proj2 (Z.eqb_neq a o)); lia. Qed.

Lemma count_nonneg o l : 0 <= count o l.
Proof. unfold count. lia. Qed.

Lemma counts_nil : counts_ok [] [].
Proof. split; [apply smap_ok_nil|done]. Qed.

Lemma counts_perm c l l' : Permutation l l' -> counts_ok c l -> counts_ok c l'.
Proof.
  intros Hp [Hok H]. split; [done|]. intros o. rewrite H. unfold count.
  by rewrite (proj1 (Permutation_count_occ Z.eq_dec l l') Hp o).
Qed.

Lemma counts_incr c l o : counts_ok c l -> counts_ok (incr_count c o) (o :: l).
Proof.
  intros [Hok H]. pose proof (count_nonneg o l). unfold incr_count. rewrite H.
  assert (forall v, v = count o l + 1 -> counts_ok (mset c o v) (o :: l)) as Hset.
  { intros v ->. split; [by apply mset_ok|]. intros p. rewrite mfind_mset, count_cons by done.
    unfold key_eqb. destruct (key_cases p o) as [E|[->|E]].
    - cbn in *. zbool. rewrite (proj2 (Z.eqb_neq o p)) by lia. rewrite (proj2 (Z.ltb_lt p o)) by lia. cbn. by rewrite H.
    - cbn. rewrite Z.ltb_irrefl, Z.eqb_refl. cbn. rewrite (proj2 (Z.eqb_neq _ 0)) by lia. f_equal. lia.
    - cbn in *. zbool. rewrite (proj2 (Z.eqb_neq o p)) by lia. rewrite (proj2 (Z.ltb_lt o p)) by lia. rewrite andb_false_r. by rewrite H. }
  destruct (Z.eqb_spec (count o l) 0) as [E|E]; apply Hset; lia.
Qed.

Lemma counts_decr c l o : counts_ok c (o :: l) -> counts_ok (decr_count c o) l.
Proof.
  intros [Hok H]. pose proof (count_nonneg o l). unfold decr_count. rewrite H, count_cons, Z.eqb_refl.
  rewrite (proj2 (Z.eqb_neq _ 0)) by lia.
  assert (forall p, p <> o -> mfind c p = if count p l =? 0 then None else Some (count p l)) as Hother.
  { intros p Hp. rewrite H, count_cons, (proj2 (Z.eqb_neq o p)) by congruence. done. }
  destruct (Z.eqb_spec (1 + count o l - 1) 0) as [E|E].
  - split; [by apply merase_ok|]. intros p. rewrite mfind_merase by done. destruct (Z.eq_dec p o) as [->|Hne].
    + rewrite key_eqb_refl. by rewrite (proj2 (Z.eqb_eq _ 0)) by lia.
    + rewrite key_eqb_neq by congruence. by apply Hother.
  - split; [by apply mset_ok|]. intros p. rewrite mfind_mset by done. destruct (Z.eq_dec p o) as [->|Hne].
    + rewrite key_eqb_refl. rewrite (proj2 (Z.eqb_neq _ 0)) by lia. f_equal. lia.
    + rewrite key_eqb_neq by congruence. by apply Hother.
Qed.

(** The keys are the elements. *)
Lemma counts_keys c l o : counts_ok c l -> o ∈ map fst c <-> o ∈ l.
Proof.
  intros [Hok H]. rewrite <- mfind_in_keys by done. rewrite H. unfold count.
  rewrite (list_elem_of_In l o), (count_occ_In Z.eq_dec l o).
  destruct (Z.eqb_spec (Z.of_nat (count_occ Z.eq_dec l o)) 0) as [E|E]; split; intros Hx; try lia; try by eexists.
  by destruct Hx.
Qed.

(** ** Views *)

(** The signals attached to a machine, input by input. *)
Abbreviation inputs_view := (smap string (list Z)).
Definition links (v : inputs_view) : list Z := flat_map snd v.
Definition list_at (v : inputs_view) (i : string) : list Z := default [] (mfind v i).
Definition put_list (v : inputs_view) (i : string) (l : list Z) : inputs_view :=
  match l with [] => merase v i | _ => mset v i l end.

Lemma links_perm v v' : Permutation v v' -> Permutation (links v) (links v').
Proof. intros H. unfold links. by apply Permutation_flat_map. Qed.

Lemma merase_entries {V} (m : smap string V) k v : smap_ok m -> mfind m k = Some v -> Permutation m ((k, v) :: merase m k).
Proof.
  intros Hok Hf. assert (m = mset (merase m k) k v) as E.
  { apply smap_ext; [done|by apply mset_ok, merase_ok|]. intros k'. rewrite mfind_mset by (by apply merase_ok).
    rewrite mfind_merase by done. by destruct (key_eqb k' k) eqn:Ek; [apply key_eqb_spec in Ek as ->|]. }
  rewrite E at 1. apply mset_fresh_entries. rewrite mfind_merase by done. by rewrite key_eqb_refl.
Qed.

Lemma links_at v i : smap_ok v -> Permutation (links v) (list_at v i ++ links (merase v i)).
Proof.
  intros Hok. unfold list_at. destruct (mfind v i) as [l|] eqn:E; cbn.
  - rewrite (links_perm _ _ (merase_entries _ _ _ Hok E)). done.
  - by rewrite merase_absent.
Qed.

Lemma merase_mset {V} (m : smap string V) k v : smap_ok m -> merase (mset m k v) k = merase m k.
Proof.
  intros Hok. apply smap_ext; [by apply merase_ok, mset_ok|by apply merase_ok|]. intros k'.
  rewrite !mfind_merase by (try apply mset_ok; done). destruct (key_eqb k' k) eqn:E; [done|].
  by rewrite mfind_mset, E by done.
Qed.

Lemma put_list_ok v i l : smap_ok v -> smap_ok (put_list v i l).
Proof. intros Hok. destruct l; [by apply merase_ok|by apply mset_ok]. Qed.

Lemma links_put v i l : smap_ok v -> Permutation (links (put_list v i l)) (l ++ links (merase v i)).
Proof.
  intros Hok. destruct l as [|a l]; [done|]. unfold put_list.
  rewrite (links_at _ i) by (by apply mset_ok). unfold list_at. rewrite mfind_mset, key_eqb_refl by done. by rewrite merase_mset.
Qed.

Lemma put_list_entry v i l j k : smap_ok v -> mfind (put_list v i l) j = Some k ->
  (j = i /\ k = l /\ l <> []) \/ (j <> i /\ mfind v j = Some k).
Proof.
  intros Hok. unfold put_list. destruct l as [|a l].
  - rewrite mfind_merase by done. destruct (key_eqb j i) eqn:E; [done|]. intros H. right. split; [|done].
    intros ->. by rewrite key_eqb_refl in E.
  - rewrite mfind_mset by done. destruct (key_eqb j i) eqn:E; intros H.
    + injection H as <-. apply key_eqb_spec in E as ->. by left.
    + right. split; [|done]. intros ->. by rewrite key_eqb_refl in E.
Qed.

Lemma entry_links v j k s : smap_ok v -> mfind v j = Some k -> s ∈ k -> s ∈ links v.
Proof. intros Hok Hj Hs. rewrite (links_at v j Hok). apply elem_of_app. left. unfold list_at. by rewrite Hj. Qed.

(** ** The signals of one machine *)

(** Which signals [this] listens to, in the signals' own books. *)
Definition attached_ok (h : signal_heap) (this : Z) (P : Z -> Prop) `{forall s, Decision (P s)} : Prop :=
  forall s sg, h !! s = Some sg -> smap_ok (attached_machines sg) /\
    mfind (attached_machines sg) this = if bool_decide (P s) then Some 1 else None.

Definition machine_heap (h : signal_heap) (this : Z) (ls : list Z) : Prop :=
  (forall s, s ∉ ls -> unchained h this s) /\ attached_ok h this (fun s => s ∈ ls).

(** What an operation of [this] leaves alone. *)
Definition same_signals (this : Z) (h h' : signal_heap) : Prop :=
  forall a, match h !! a with
            | Some s => exists s', h' !! a = Some s' /\ originator s' = originator s /\ sig_name s' = sig_name s /\
                sig_dimension s' = sig_dimension s /\ sig_channels s' = sig_channels s /\
                (smap_ok (attached_machines s) -> smap_ok (attached_machines s')) /\
                forall x, x <> this -> (smap_ok (attached_machines s) ->
                    mfind (attached_machines s') x = mfind (attached_machines s) x) /\
                  sig_next s' !! x = sig_next s !! x /\ sig_previous s' !! x = sig_previous s !! x
            | None => h' !! a = None
            end.

Lemma relinked_same this h h' : relinked this h h' -> same_signals this h h'.
Proof.
  intros H a. specialize (H a). destruct (h !! a) as [s|]; [|done]. destruct H as (p & n & ->).
  eexists. split; [reflexivity|]. cbn. split_and!; try done. intros x Hx. by rewrite !set_entry_ne.
Qed.

Lemma same_signals_trans this h1 h2 h3 : same_signals this h1 h2 -> same_signals this h2 h3 -> same_signals this h1 h3.
Proof.
  intros H1 H2 a. specialize (H1 a). specialize (H2 a). destruct (h1 !! a) as [s|]; [|by rewrite H1 in H2].
  destruct H1 as (s1 & E1 & A1 & A2 & A3 & A4 & A5 & A6). rewrite E1 in H2.
  destruct H2 as (s2 & E2 & B1 & B2 & B3 & B4 & B5 & B6). exists s2. split_and!; try congruence; [by auto|].
  intros x Hx. destruct (A6 x Hx) as (C1 & C2 & C3), (B6 x Hx) as (D1 & D2 & D3). split_and!; try congruence.
  intros Hok. rewrite D1, C1; auto.
Qed.

Lemma same_signals_refl this h : same_signals this h h.
Proof. intros a. destruct (h !! a) as [s|]; [|done]. by exists s. Qed.

Lemma same_is_some this h h' a : same_signals this h h' -> is_Some (h' !! a) <-> is_Some (h !! a).
Proof.
  intros H. specialize (H a). destruct (h !! a) as [s|]; [destruct H as (s' & -> & _); by split; eexists|by rewrite H].
Qed.

Definition originator_of (h : signal_heap) (s : Z) : Z := match h !! s with Some sg => originator sg | None => 0 end.

Lemma same_originator this h h' s : same_signals this h h' -> originator_of h' s = originator_of h s.
Proof.
  intros H. specialize (H s). unfold originator_of. destruct (h !! s); [by destruct H as (s' & -> & -> & _)|by rewrite H].
Qed.

Definition name_of (h : signal_heap) (s : Z) : string := match h !! s with Some sg => sig_name sg | None => "" end.

Lemma same_name this h h' s : same_signals this h h' -> name_of h' s = name_of h s.
Proof.
  intros H. specialize (H s). unfold name_of. destruct (h !! s); [by destruct H as (s' & -> & _ & -> & _)|by rewrite H].
Qed.

(** The lists of other machines stay what they are. *)
Lemma same_links_other this h h' x a : same_signals this h h' -> x <> this ->
  next_f h' x a = next_f h x a /\ previous_f h' x a = previous_f h x a.
Proof.
  intros H Hx. specialize (H a). unfold next_f, previous_f. destruct (h !! a) as [s|]; [|by rewrite H].
  destruct H as (s' & -> & _ & _ & _ & _ & _ & H). cbn. by destruct (H x Hx) as (_ & -> & ->).
Qed.

Lemma chained_kept this h h' x l : same_signals this h h' ->
  (forall a, a ∈ l -> next_f h' x a = next_f h x a /\ previous_f h' x a = previous_f h x a) -> chained h x l -> chained h' x l.
Proof.
  intros Hs Hk (Hnd & HF & Hl). split; [done|]. split; [|by eapply linked_ext].
  eapply list.Forall_impl; [exact HF|]. intros a. by apply (same_is_some this h h').
Qed.

Lemma machine_heap_other this h h' x ls : same_signals this h h' -> x <> this -> machine_heap h x ls -> machine_heap h' x ls.
Proof.
  intros Hs Hx [H1 H2]. split.
  - intros s Hn. unfold unchained. by destruct (same_links_other this h h' x s Hs Hx) as [-> ->]; apply H1.
  - intros s sg Es. specialize (Hs s). destruct (h !! s) as [s0|] eqn:E; [|congruence].
    destruct Hs as (s' & E' & _ & _ & _ & _ & A5 & A6). rewrite Es in E'. injection E' as <-.
    destruct (H2 s s0 E) as [Hok Hf]. split; [by apply A5|]. by rewrite (proj1 (A6 x Hx)).
Qed.

(** Counting a listener, up and down. *)
Lemma attach_spec h s this (ls : list Z) : attached_ok h this (fun s => s ∈ ls) -> is_Some (h !! s) -> s ∉ ls ->
  exists h', SignalLinks.attach h s this = Ok h' /\ same_signals this h h' /\
    (forall a, next_f h' this a = next_f h this a /\ previous_f h' this a = previous_f h this a) /\
    attached_ok h' this (fun a => a ∈ s :: ls).
Proof.
  intros H2 [sg E] Hn. unfold SignalLinks.attach, at_signal. rewrite E. cbn [rbind].
  destruct (H2 s sg E) as [Hok Hf]. rewrite bool_decide_false in Hf by done.
  unfold incr_count. rewrite Hf. eexists. split; [reflexivity|]. split; [|split].
  - intros a. destruct (Z.eq_dec s a) as [->|Ha].
    + rewrite E, lookup_insert_eq. eexists. split; [reflexivity|]. cbn. split_and!; try done; [intros; by apply mset_ok|].
      intros x Hx. split; [|done]. intros _. by rewrite mfind_mset, key_eqb_neq.
    + rewrite lookup_insert_ne by done. apply (same_signals_refl this h a).
  - intros a. unfold next_f, previous_f. destruct (Z.eq_dec s a) as [->|Ha]; [by rewrite E, lookup_insert_eq|by rewrite lookup_insert_ne].
  - intros a sg' Ea. destruct (Z.eq_dec s a) as [->|Ha].
    + rewrite lookup_insert_eq in Ea. injection Ea as <-. cbn. split; [by apply mset_ok|].
      rewrite mfind_mset, key_eqb_refl by done. rewrite bool_decide_true; [done|left].
    + rewrite lookup_insert_ne in Ea by done. destruct (H2 a sg' Ea) as [Hok' Hf']. split; [done|]. rewrite Hf'.
      rewrite (bool_decide_ext (a ∈ s :: ls) (a ∈ ls)); [done|]. rewrite elem_of_cons. intuition congruence.
Qed.

Lemma detach_spec h s this (ls : list Z) : attached_ok h this (fun s => s ∈ ls) -> is_Some (h !! s) -> s ∈ ls ->
  exists h', SignalLinks.detach h s this = Ok h' /\ same_signals this h h' /\
    (forall a, next_f h' this a = next_f h this a /\ previous_f h' this a = previous_f h this a) /\
    attached_ok h' this (fun a => a ∈ ls /\ a <> s).
Proof.
  intros H2 [sg E] Hin. unfold SignalLinks.detach, at_signal. rewrite E. cbn [rbind].
  destruct (H2 s sg E) as [Hok Hf]. rewrite bool_decide_true in Hf by done.
  unfold decr_count. rewrite Hf. change (1 - 1 =? 0) with true. cbv iota. eexists. split; [reflexivity|]. split; [|split].
  - intros a. destruct (Z.eq_dec s a) as [->|Ha].
    + rewrite E, lookup_insert_eq. eexists. split; [reflexivity|]. cbn [with_attached attached_machines originator sig_name sig_dimension sig_channels sig_next sig_previous].
      split_and!; try done; [intros; by apply merase_ok|].
      intros x Hx. split; [|done]. intros _. by rewrite mfind_merase, key_eqb_neq.
    + rewrite lookup_insert_ne by done. apply (same_signals_refl this h a).
  - intros a. unfold next_f, previous_f. destruct (Z.eq_dec s a) as [->|Ha]; [by rewrite E, lookup_insert_eq|by rewrite lookup_insert_ne].
  - intros a sg' Ea. destruct (Z.eq_dec s a) as [->|Ha].
    + rewrite lookup_insert_eq in Ea. injection Ea as <-. cbn [with_attached attached_machines]. split; [by apply merase_ok|].
      rewrite mfind_merase, key_eqb_refl by done. rewrite bool_decide_false; [done|]. by intros [_ ?].
    + rewrite lookup_insert_ne in Ea by done. destruct (H2 a sg' Ea) as [Hok' Hf']. split; [done|]. rewrite Hf'.
      rewrite (bool_decide_ext (a ∈ ls /\ a <> s) (a ∈ ls)); [done|]. intuition congruence.
Qed.

Lemma machine_heap_ext h this ls ls' : (forall a, a ∈ ls <-> a ∈ ls') -> machine_heap h this ls -> machine_heap h this ls'.
Proof.
  intros He [H1 H2]. split; [intros s Hs; apply H1; by rewrite He|].
  intros s sg E. destruct (H2 s sg E) as [Hok Hf]. split; [done|]. rewrite Hf.
  by rewrite (bool_decide_ext (s ∈ ls') (s ∈ ls)) by (symmetry; apply He).
Qed.

(** A signal becomes the first one of an input. *)
Lemma heap_first h this s ls : machine_heap h this ls -> is_Some (h !! s) -> s ∉ ls ->
  exists h', SignalLinks.attach h s this = Ok h' /\ same_signals this h h' /\ chained h' this [s] /\
    machine_heap h' this (s :: ls) /\ forall k, chained h this k -> chained h' this k.
Proof.
  intros Hm Hs Hn. destruct (attach_spec h s this ls (proj2 Hm) Hs Hn) as (h' & E & HS & HL & HA).
  exists h'. split_and!; [done|done| |split; [|done]|].
  - destruct (proj1 Hm s Hn) as [N P]. split; [apply list.NoDup_singleton|]. split.
    + apply list.Forall_singleton. by apply (same_is_some this h h').
    + cbn. by destruct (HL s) as [-> ->].
  - intros a Ha. unfold unchained. destruct (HL a) as [-> ->]. apply (proj1 Hm). intros ?. apply Ha. by right.
  - intros k. apply (chained_kept this); [done|]. intros a _. apply HL.
Qed.


Lemma relinked_attached m h h' (P : Z -> Prop) `{forall s, Decision (P s)} : relinked m h h' -> attached_ok h m P -> attached_ok h' m P.
Proof.
  intros Hr Ha s sg E. specialize (Hr s). destruct (h !! s) as [s0|] eqn:E0; [|congruence].
  destruct Hr as (p & n & E'). rewrite E in E'. injection E' as ->. exact (Ha s s0 E0).
Qed.

Lemma attached_ext h m (P Q : Z -> Prop) `{forall s, Decision (P s)} `{forall s, Decision (Q s)} :
  (forall s, P s <-> Q s) -> attached_ok h m P -> attached_ok h m Q.
Proof. intros HPQ Ha s sg E. rewrite (bool_decide_ext (Q s) (P s)) by (symmetry; apply HPQ). by apply Ha. Qed.

(** A signal is linked behind the first one of an input. *)
Lemma heap_add h this head rest s ls : machine_heap h this ls -> chained h this (head :: rest) ->
  (forall a, a ∈ head :: rest -> a ∈ ls) -> (forall sg, h !! head = Some sg -> sig_dimension sg <> D_MIDI) ->
  is_Some (h !! s) -> s ∉ ls ->
  exists h1 h2, link h head this (Some s) = Ok h1 /\ SignalLinks.attach h1 s this = Ok h2 /\ same_signals this h h2 /\
    chained h2 this (head :: s :: rest) /\ machine_heap h2 this (s :: ls) /\
    forall k, (forall a, a ∈ k -> a ∉ head :: s :: rest) -> chained h this k -> chained h2 this k.
Proof.
  intros Hm Hc Hsub Hd Hs Hn.
  destruct (link_spec h this head rest s Hc Hd Hs) as (h1 & E1 & R1 & C1 & K1); [intros ?; by apply Hn, Hsub|].
  pose proof (relinked_same _ _ _ R1) as S1.
  destruct (attach_spec h1 s this ls) as (h2 & E2 & S2 & L2 & A2);
    [by apply (relinked_attached this h), Hm|by apply (same_is_some this h h1)|done|].
  exists h1, h2. split; [done|]. split; [done|]. split; [by eapply same_signals_trans|]. split_and!.
  - apply (chained_kept this h1); [done|intros a _; apply L2|done].
  - split; [|done]. intros a Ha. apply not_elem_of_cons in Ha as [Ha1 Ha2]. unfold unchained.
    destruct (L2 a) as [-> ->]. destruct (K1 a) as [-> ->]; [|by apply Hm].
    intros [->|[->|?]%elem_of_cons]%elem_of_cons; [apply Ha2, Hsub; left|done|apply Ha2, Hsub; by right].
  - intros k Hk Hck. apply (chained_kept this h1); [done|intros a _; apply L2|].
    apply (chained_kept this h); [done| |done]. intros a Ha. apply K1. by apply Hk.
Qed.

(** A signal is taken out of an input. *)
Lemma heap_drop h this l1 s l2 head ls : machine_heap h this ls -> chained h this (l1 ++ s :: l2) ->
  (forall a, a ∈ l1 ++ s :: l2 -> a ∈ ls) -> first_of (l1 ++ [s]) None = Some head ->
  exists h1 h2, SignalLinks.detach h s this = Ok h1 /\ unlink h1 head this s = Ok (h2, first_of (l1 ++ l2) None) /\
    same_signals this h h2 /\ chained h2 this (l1 ++ l2) /\
    (forall ls', (forall a, a ∈ ls' <-> a ∈ ls /\ a <> s) -> machine_heap h2 this ls') /\
    forall k, (forall a, a ∈ k -> a ∉ l1 ++ s :: l2) -> chained h this k -> chained h2 this k.
Proof.
  intros Hm Hc Hsub Hhead.
  assert (is_Some (h !! s)) as Hs.
  { destruct Hc as (_ & HF & _). apply (proj1 (list.Forall_forall _ _) HF). apply elem_of_app. right. left. }
  destruct (detach_spec h s this ls) as (h1 & E1 & S1 & L1 & A1); [apply Hm|done|apply Hsub, elem_of_app; right; left|].
  destruct (unlink_spec h1 this l1 s l2 head) as (h2 & E2 & R2 & C2 & U2 & K2);
    [apply (chained_kept this h); [done|intros a _; apply L1|done]|done|].
  exists h1, h2. split; [done|]. split; [done|].
  split; [eapply same_signals_trans; [done|by apply relinked_same]|]. split; [done|]. split.
  - intros ls' Hls. split.
    + intros a Ha. destruct (Z.eq_dec a s) as [->|Hne]; [done|].
      assert (a ∉ ls) as Hn by (intros ?; by apply Ha, Hls). unfold unchained.
      destruct (K2 a) as [-> ->]; [intros ?; by apply Hn, Hsub|]. destruct (L1 a) as [-> ->]. by apply Hm.
    + apply (relinked_attached this h1); [done|]. by eapply attached_ext, A1.
  - intros k Hk Hck. apply (chained_kept this h1); [by apply relinked_same|intros a Ha; by apply K2, Hk|].
    apply (chained_kept this h); [done|intros a _; apply L1|done].
Qed.

(** ** The invariant *)

Definition heads (a : Z) (l : list Z) : Prop := first_of l None = Some a.

(** [s] is what its originator finds under its name. *)
Definition has_source (g : graph) (s : Z) : Prop :=
  exists mc sg, signals g !! s = Some sg /\ machines g !! originator sg = Some mc /\ mfind (output mc) (sig_name sg) = Some s.

Record graph_ok (g : graph) (V : Z -> inputs_view) : Prop := {
  ok_absent x : ~ exists_in g x -> V x = [];
  ok_inputs x mc : machines g !! x = Some mc -> smap_ok (input mc) /\ smap_rel heads (input mc) (V x);
  ok_chained x i l : mfind (V x) i = Some l -> chained (signals g) x l;
  ok_nodup x : NoDup (links (V x));
  ok_heap x : machine_heap (signals g) x (links (V x));
  ok_dependant x mc : machines g !! x = Some mc ->
    counts_ok (dependant mc) (map (originator_of (signals g)) (links (V x)));
  ok_source x s : s ∈ links (V x) -> has_source g s;
  ok_output x mc n s : machines g !! x = Some mc -> mfind (output mc) n = Some s ->
    exists sg, signals g !! s = Some sg /\ originator sg = x /\ sig_name sg = n;
  ok_output_keys x mc : machines g !! x = Some mc -> smap_ok (output mc);
  ok_acyclic : acyclic g;
  ok_sink s : sink g = Some s -> exists_in g s
}.

Lemma ok_view g V x : graph_ok g V -> smap_ok (V x).
Proof.
  intros Hg. destruct (machines g !! x) as [mc|] eqn:E.
  - destruct (ok_inputs _ _ Hg x mc E) as [H1 H2]. by eapply smap_rel_ok.
  - rewrite (ok_absent _ _ Hg x); [apply smap_ok_nil|]. unfold exists_in. rewrite E. by intros [? ?].
Qed.

Definition view_set (V : Z -> inputs_view) (x : Z) (v : inputs_view) : Z -> inputs_view :=
  fun y => if y =? x then v else V y.

Lemma set_head_rel m v i l : smap_rel heads m v -> smap_rel heads (set_head m i (first_of l None)) (put_list v i l).
Proof. intros Hr. destruct l as [|a l]; [by apply smap_rel_erase|by apply smap_rel_set]. Qed.

Lemma set_head_ok m i o : smap_ok m -> smap_ok (set_head m i o).
Proof. intros Hok. destruct o; [by apply mset_ok|by apply merase_ok]. Qed.

(** One input of one machine gets another list. *)
Lemma graph_ok_put g V this mc i l dep g' : graph_ok g V -> machines g !! this = Some mc ->
  machines g' = <[this := with_inputs mc (set_head (input mc) i (first_of l None)) dep]> (machines g) -> sink g' = sink g ->
  same_signals this (signals g) (signals g') ->
  (l <> [] -> chained (signals g') this l) ->
  (forall j k, j <> i -> mfind (V this) j = Some k -> chained (signals g') this k) ->
  machine_heap (signals g') this (l ++ links (merase (V this) i)) -> NoDup (l ++ links (merase (V this) i)) ->
  counts_ok dep (map (originator_of (signals g)) (l ++ links (merase (V this) i))) ->
  (forall s, s ∈ l -> has_source g s) -> acyclic g' ->
  graph_ok g' (view_set V this (put_list (V this) i l)).
Proof.
  intros Hg Em Em' Esink HS Hl Hother Hheap Hnd Hdep Hsrc Hac. pose proof (ok_view g V this Hg) as Hv.
  pose proof (links_put (V this) i l Hv) as Hperm.
  assert (forall x, exists_in g' x <-> exists_in g x) as Hex.
  { intros x. unfold exists_in. rewrite Em'. destruct (Z.eq_dec this x) as [->|Hne]; [|by rewrite lookup_insert_ne].
    rewrite lookup_insert_eq, Em. split; intros _; by eexists. }
  assert (forall s, has_source g s -> has_source g' s) as Hsource.
  { intros s (m0 & sg & E1 & E2 & E3). specialize (HS s). rewrite E1 in HS. destruct HS as (sg' & E1' & O1 & O2 & _).
    unfold has_source. rewrite Em'. destruct (Z.eq_dec this (originator sg)) as [Heq|Hne].
    - exists (with_inputs mc (set_head (input mc) i (first_of l None)) dep), sg'. rewrite O1, O2, <- Heq, lookup_insert_eq.
      rewrite <- Heq, Em in E2. injection E2 as <-. done.
    - exists m0, sg'. by rewrite O1, O2, lookup_insert_ne. }
  unfold view_set. split.
  - intros x Hx. destruct (Z.eqb_spec x this) as [->|Hne]; [|apply (ok_absent _ _ Hg); by rewrite <- Hex].
    exfalso. apply Hx, Hex. by exists mc.
  - intros x mx. rewrite Em'. destruct (Z.eqb_spec x this) as [->|Hne].
    + rewrite lookup_insert_eq. intros [= <-]. cbn. destruct (ok_inputs _ _ Hg this mc Em) as [H1 H2].
      split; [by apply set_head_ok|by apply set_head_rel].
    + rewrite lookup_insert_ne by done. by apply (ok_inputs _ _ Hg).
  - intros x j k. destruct (Z.eqb_spec x this) as [->|Hne].
    + intros [(-> & -> & Hn)|[Hn Hj]]%put_list_entry; [by apply Hl|by eapply Hother|done].
    + intros Hj. apply (chained_kept this (signals g)); [done|intros a _; by apply (same_links_other this)|].
      by apply (ok_chained _ _ Hg x j).
  - intros x. destruct (Z.eqb_spec x this) as [->|Hne]; [|by apply (ok_nodup _ _ Hg)]. by rewrite Hperm.
  - intros x. destruct (Z.eqb_spec x this) as [->|Hne].
    + eapply machine_heap_ext; [|exact Hheap]. intros a. by rewrite Hperm.
    + apply (machine_heap_other this (signals g)); [done|done|]. by apply (ok_heap _ _ Hg).
  - intros x mx. rewrite Em'. destruct (Z.eqb_spec x this) as [->|Hne].
    + rewrite lookup_insert_eq. intros [= <-]. cbn. eapply counts_perm; [|exact Hdep].
      rewrite Hperm. apply Permutation_refl'. apply map_ext. intros s. symmetry. by apply (same_originator this (signals g)).
    + rewrite lookup_insert_ne by done. intros E. pose proof (ok_dependant _ _ Hg x mx E) as Hd.
      rewrite (map_ext _ (originator_of (signals g))); [done|]. intros s. by apply (same_originator this (signals g)).
  - intros x s. destruct (Z.eqb_spec x this) as [->|Hne]; [|intros Hs; by eapply Hsource, (ok_source _ _ Hg)].
    rewrite Hperm, elem_of_app. intros [Hs|Hs]; [by apply Hsource, Hsrc|]. apply Hsource, (ok_source _ _ Hg this).
    rewrite (links_at _ i Hv). apply elem_of_app. by right.
  - intros x mx n s. rewrite Em'. intros E Ho.
    assert (exists m0, machines g !! x = Some m0 /\ output m0 = output mx) as (m0 & E0 & Eo).
    { destruct (Z.eq_dec this x) as [->|Hne]; [rewrite lookup_insert_eq in E; injection E as <-; by exists mc|].
      rewrite lookup_insert_ne in E by done. by exists mx. }
    rewrite <- Eo in Ho. destruct (ok_output _ _ Hg x m0 n s E0 Ho) as (sg & E1 & O1 & O2).
    specialize (HS s). rewrite E1 in HS. destruct HS as (sg' & E1' & P1 & P2 & _). exists sg'. by rewrite P1, P2.
  - intros x mx. rewrite Em'. destruct (Z.eq_dec this x) as [->|Hne].
    + rewrite lookup_insert_eq. intros [= <-]. exact (ok_output_keys _ _ Hg x mc Em).
    + rewrite lookup_insert_ne by done. apply (ok_output_keys _ _ Hg).
  - done.
  - intros s. rewrite Esink. intros Hs. by apply Hex, (ok_sink _ _ Hg).
Qed.

(** ** Attaching *)

(** Where [link] puts a signal. *)
Definition after_first (l : list Z) (s : Z) : list Z := match l with [] => [s] | a :: l => a :: s :: l end.

(** What [internal_attach_input] checks. *)
Definition attachable (g : graph) (this m : Z) (output_name input_name : string) (s : Z) : Prop :=
  exists src dst des sg, machines g !! m = Some src /\ mfind (output src) output_name = Some s /\
    machines g !! this = Some dst /\ mfind (input_descriptor dst) input_name = Some des /\
    signals g !! s = Some sg /\ signals_match des sg = true /\ ~ rtc (edge g) m this /\
    forall head sh, mfind (input dst) input_name = Some head -> signals g !! head = Some sh -> sig_dimension sh <> D_MIDI.

Lemma acyclic_closed g : acyclic g -> closed g.
Proof. intros [l Ht]. apply Ht. Qed.

(** A machine whose dependants are counted again: the edges of the new graph. *)
Lemma edge_update g g' this mc inputs dep : machines g !! this = Some mc ->
  machines g' = <[this := with_inputs mc inputs dep]> (machines g) ->
  forall x o, edge g' x o -> edge g x o \/ (x = this /\ o ∈ map fst dep).
Proof.
  intros Em Em' x o (mx & E & Ho). rewrite Em' in E. destruct (Z.eq_dec this x) as [->|Hne].
  - rewrite lookup_insert_eq in E. injection E as <-. by right.
  - rewrite lookup_insert_ne in E by done. left. by exists mx.
Qed.

Lemma exists_update g g' this mc mc' : machines g !! this = Some mc -> machines g' = <[this := mc']> (machines g) ->
  forall x, exists_in g' x <-> exists_in g x.
Proof.
  intros Em Em' x. unfold exists_in. rewrite Em'. destruct (Z.eq_dec this x) as [->|Hne]; [|by rewrite lookup_insert_ne].
  rewrite lookup_insert_eq, Em. split; intros _; by eexists.
Qed.

(** What stays the same of a graph while links are made and taken out. *)
Record same_frame (g g' : graph) : Prop := {
  frame_exists x : exists_in g' x <-> exists_in g x;
  frame_machine x mc : machines g !! x = Some mc -> exists inputs dep, machines g' !! x = Some (with_inputs mc inputs dep);
  frame_originator s : originator_of (signals g') s = originator_of (signals g) s;
  frame_name s : name_of (signals g') s = name_of (signals g) s;
  frame_signals s : is_Some (signals g' !! s) <-> is_Some (signals g !! s);
  frame_sink : sink g' = sink g;
  frame_set : machine_set g' = machine_set g
}.

Lemma same_frame_refl g : same_frame g g.
Proof. split; try done. intros x mc E. exists (input mc), (dependant mc). by destruct mc. Qed.

Lemma same_frame_trans g1 g2 g3 : same_frame g1 g2 -> same_frame g2 g3 -> same_frame g1 g3.
Proof.
  intros [A1 A2 A3 A4 A5 A6 A7] [B1 B2 B3 B4 B5 B6 B7].
  split; [intros x; by rewrite B1| |intros s; by rewrite B3|intros s; by rewrite B4|intros s; by rewrite B5|congruence|congruence].
  intros x mc E. destruct (A2 x mc E) as (i2 & d2 & E2). destruct (B2 x _ E2) as (i3 & d3 & E3). by exists i3, d3.
Qed.

Lemma same_frame_inputs g g' this mc inputs dep : machines g !! this = Some mc ->
  machines g' = <[this := with_inputs mc inputs dep]> (machines g) ->
  same_signals this (signals g) (signals g') -> sink g' = sink g -> machine_set g' = machine_set g -> same_frame g g'.
Proof.
  intros Em Em' Hs Hk Hset. split; try done; [by eapply exists_update| |intros s; by apply (same_originator this)|
    intros s; by apply (same_name this)|intros s; by apply (same_is_some this)].
  intros x mx E. rewrite Em'. destruct (Z.eq_dec this x) as [->|Hne].
  - rewrite lookup_insert_eq. rewrite Em in E. injection E as <-. by eexists _, _.
  - rewrite lookup_insert_ne by done. exists (input mx), (dependant mx). by destruct mx.
Qed.

(** The counts of a machine and its edges. *)
Lemma edge_counts g V x o : graph_ok g V -> edge g x o <-> exists_in g x /\ o ∈ map (originator_of (signals g)) (links (V x)).
Proof.
  intros Hg. split.
  - intros (mc & E & Ho). split; [by exists mc|]. by apply (counts_keys _ _ _ (ok_dependant _ _ Hg x mc E)).
  - intros [[mc E] Ho]. exists mc. split; [done|]. by apply (counts_keys _ _ _ (ok_dependant _ _ Hg x mc E)).
Qed.

Lemma in_at (V : inputs_view) i head : smap_ok V -> forall m, smap_ok m -> smap_rel heads m V -> mfind m i = head ->
  first_of (list_at V i) None = head.
Proof.
  intros Hv m Hm Hr <-. pose proof (smap_rel_find _ _ _ i Hr) as H. unfold list_at.
  destruct (mfind m i) as [a|]; [destruct H as (l & -> & Hl); exact Hl|by rewrite H].
Qed.

(** The links of [this] do not hold [s] twice. *)
Lemma attach_signal_spec g V this m s output_name input_name dst sg : graph_ok g V -> machines g !! this = Some dst ->
  exists_in g m -> signals g !! s = Some sg -> originator sg = m -> has_source g s -> s ∉ links (V this) ->
  ~ rtc (edge g) m this ->
  exists g' e, attach_signal g this m s output_name input_name = Ok (g', e) /\
    (e = None <-> forall head sh, mfind (input dst) input_name = Some head -> signals g !! head = Some sh -> sig_dimension sh <> D_MIDI) /\
    match e with
    | Some _ => g' = g
    | None => graph_ok g' (view_set V this (put_list (V this) input_name (after_first (list_at (V this) input_name) s))) /\
        chain_ok g' /\ broadcasts g' = broadcasts g ++ [InputAttached m this output_name input_name] /\ same_frame g g'
    end.
Proof.
  intros Hg Et Hm Es Eo Hsrc Hn Hloop. pose proof (ok_view g V this Hg) as Hv.
  destruct (ok_inputs _ _ Hg this dst Et) as [Hin Hrel].
  pose proof (links_at (V this) input_name Hv) as Hperm. set (others := links (merase (V this) input_name)) in *.
  pose proof (ok_nodup _ _ Hg this) as Hnd. pose proof (ok_heap _ _ Hg this) as Hheap.
  assert (NoDup (list_at (V this) input_name ++ others)) as Hnd2 by (by rewrite <- Hperm).
  (* the graph after the links were made *)
  assert (forall h' l, same_signals this (signals g) h' -> (l <> [] -> chained h' this l) ->
    (forall j k, j <> input_name -> mfind (V this) j = Some k -> chained h' this k) ->
    machine_heap h' this (s :: links (V this)) -> Permutation l (s :: list_at (V this) input_name) ->
    exists g', (let g1 := with_machine (with_signals g h') this
                  (with_inputs dst (set_head (input dst) input_name (first_of l None)) (incr_count (dependant dst) m)) in
                let! g2 := recalculate_render_chain g1 in
                returns (tell g2 (InputAttached m this output_name input_name))) = Ok (g', None) /\
      graph_ok g' (view_set V this (put_list (V this) input_name l)) /\ chain_ok g' /\
      broadcasts g' = broadcasts g ++ [InputAttached m this output_name input_name] /\ same_frame g g') as Hfinish.
  { intros h' l HS Hl Hother Hh Hpl. cbv zeta.
    set (g1 := with_machine _ _ _).
    assert (Permutation (l ++ others) (s :: links (V this))) as Hp by (rewrite Hpl, Hperm; done).
    assert (originator_of (signals g) s = m) as Hos by (unfold originator_of; by rewrite Es).
    assert (counts_ok (incr_count (dependant dst) m) (map (originator_of (signals g)) (l ++ others))) as Hcounts.
    { eapply counts_perm; [symmetry; by apply Permutation_map, Hp|]. cbn [map]. rewrite Hos.
      apply counts_incr. by apply (ok_dependant _ _ Hg). }
    assert (acyclic g1) as Hac.
    { apply (acyclic_add g g1 this m); [apply Hg|by apply (exists_update g g1 this dst _ Et eq_refl)| |done|done].
      intros x o [He|[-> Ho]]%(edge_update g g1 this dst _ _ Et eq_refl); [by left|].
      apply (counts_keys _ _ _ Hcounts) in Ho. rewrite (Permutation_map _ Hp) in Ho. cbn [map] in Ho. rewrite Hos in Ho.
      apply elem_of_cons in Ho as [->|Ho]; [by right|]. left. apply (edge_counts g V); [done|]. split; [by exists dst|done]. }
    destruct (recalculate_spec g1 (acyclic_closed _ Hac)) as (chain & -> & Hchain).
    { intros x Hx. apply (exists_update g g1 this dst _ Et eq_refl). by apply (ok_sink _ _ Hg). }
    cbn [rbind]. eexists. split; [reflexivity|]. split; [|split; [exact Hchain|split; [done|by eapply (same_frame_inputs g _ this)]]].
    eapply (graph_ok_put g V this dst input_name l); try done.
    - eapply machine_heap_ext; [|exact Hh]. intros a. fold others. by rewrite Hp.
    - fold others. rewrite Hp. by apply list.NoDup_cons.
    - intros a Ha. rewrite Hpl in Ha. apply elem_of_cons in Ha as [->|Ha]; [done|]. apply (ok_source _ _ Hg this).
      rewrite Hperm. apply elem_of_app. by left.
    - by apply (acyclic_fewer g1). }
  unfold attach_signal, at_machine. rewrite Et. cbn [rbind].
  pose proof (in_at (V this) input_name _ Hv (input dst) Hin Hrel eq_refl) as Hfirst.
  destruct (mfind (input dst) input_name) as [head|] eqn:Eh.
  - destruct (list_at (V this) input_name) as [|a rest] eqn:El; [done|]. injection Hfirst as ->.
    assert (mfind (V this) input_name = Some (head :: rest)) as EV.
    { revert El. unfold list_at. destruct (mfind (V this) input_name); [cbn; by intros ->|done]. }
    pose proof (ok_chained _ _ Hg this _ _ EV) as Hc.
    assert (is_Some (signals g !! head)) as [sh Esh] by (destruct Hc as (_ & [H _]%list.Forall_cons & _); exact H).
    destruct (Z.eq_dec (sig_dimension sh) D_MIDI) as [Hmidi|Hmidi].
    + exists g. unfold link at 1, at_signal. rewrite Esh. cbn [rbind]. rewrite Hmidi. cbn.
      eexists. split; [reflexivity|]. split; [|done]. split; [done|]. intros H. by destruct (H head sh eq_refl Esh).
    + destruct (heap_add (signals g) this head rest s (links (V this))) as (h1 & h2 & E1 & E2 & S & C & M & K); try done.
      { intros a Ha. rewrite Hperm. apply elem_of_app. by left. }
      { intros sg' E'. congruence. }
      rewrite E1. cbn [rbind signal_call]. rewrite E2. cbn [rbind].
      destruct (Hfinish h2 (head :: s :: rest)) as (g' & E & H1 & H2 & H3); try done.
      { intros j k Hj Hk. apply K; [|by apply (ok_chained _ _ Hg this j)]. intros b Hb Hin'.
        assert (b ∈ others) as Hbo by (eapply entry_links; [by apply merase_ok| |exact Hb]; rewrite mfind_merase, key_eqb_neq by done; exact Hk).
        apply list.NoDup_app in Hnd2 as (_ & Hdis & _).
        apply elem_of_cons in Hin' as [->|[->|Hr]%elem_of_cons]; [apply (Hdis head); [left|done]| |apply (Hdis b); [by right|done]].
        apply Hn. rewrite Hperm. apply elem_of_app. by right. }
      { apply Permutation_swap. }
      cbn [first_of set_head] in E. rewrite (mset_same _ _ _ Hin Eh) in E.
      exists g', None. split; [exact E|]. split; [|by rewrite El in * || done]. split; [|done].
      intros _ hd sh' [= <-] E'. congruence.
  - destruct (list_at (V this) input_name) as [|a rest] eqn:El; [|done].
    destruct (heap_first (signals g) this s (links (V this))) as (h' & E1 & S & C & M & K); [done|by exists sg|done|].
    cbn [signal_call]. rewrite E1. cbn [rbind].
    destruct (Hfinish h' [s]) as (g' & E & H1 & H2 & H3); try done.
    { intros j k _ Hk. apply K. by apply (ok_chained _ _ Hg this j). }
    exists g', None. split; [exact E|]. split; [|done]. split; [|done]. done.
Qed.

Lemma internal_attach_spec g V this m output_name input_name : graph_ok g V -> exists_in g this -> exists_in g m ->
  (forall src s, machines g !! m = Some src -> mfind (output src) output_name = Some s -> s ∉ links (V this)) ->
  exists g' e, internal_attach_input g this (Some m) output_name input_name = Ok (g', e) /\
    match e with
    | Some _ => g' = g /\ forall s, ~ attachable g this m output_name input_name s
    | None => exists s, attachable g this m output_name input_name s /\
        graph_ok g' (view_set V this (put_list (V this) input_name (after_first (list_at (V this) input_name) s))) /\
        chain_ok g' /\ broadcasts g' = broadcasts g ++ [InputAttached m this output_name input_name] /\ same_frame g g'
    end.
Proof.
  intros Hg [dst Et] [src Em] Hfresh. unfold internal_attach_input, at_machine, get_output. rewrite Em. cbn [rbind].
  destruct (mfind (output src) output_name) as [s|] eqn:Eo.
  2:{ eexists g, _. split; [reflexivity|]. split; [done|]. intros s (a & b & d & e & H). naive_solver. }
  rewrite Et. cbn [rbind]. destruct (mfind (input_descriptor dst) input_name) as [des|] eqn:Ed.
  2:{ eexists g, _. split; [reflexivity|]. split; [done|]. intros s0 (a & b & d & e & H). naive_solver. }
  destruct (ok_output _ _ Hg m src output_name s Em Eo) as (sg & Es & Hos & Hns).
  unfold at_signal. rewrite Es. cbn [rbind]. destruct (signals_match des sg) eqn:Ematch; cbn [negb].
  2:{ eexists g, _. split; [reflexivity|]. split; [done|]. intros s0 (a & b & d & e & H). naive_solver congruence. }
  destruct (find_machine_decides g this m (ok_acyclic _ _ Hg)) as (b & -> & Hb); [by exists src|]. cbn [rbind].
  destruct b.
  { eexists g, _. split; [reflexivity|]. split; [done|]. intros s0 (a & b & d & e & H). naive_solver. }
  assert (~ rtc (edge g) m this) as Hloop by (intros Hr; by apply Hb in Hr).
  destruct (attach_signal_spec g V this m s output_name input_name dst sg Hg Et) as (g' & e & -> & He & Hpost); try done.
  { by exists src. }
  { exists src, sg. by rewrite Hos, Hns. }
  { by apply (Hfresh src). }
  exists g', e. split; [done|]. destruct e as [msg|].
  - split; [exact Hpost|]. intros s0 (a & b & d & e & Ha). enough (Some msg = None) by done. apply He.
    intros head sh Hh Esh. naive_solver.
  - exists s. split; [|done]. exists src, dst, des, sg. split_and!; try done. by apply He.
Qed.


(** ** Detaching *)

Lemma list_at_entry v i l : list_at v i = l -> l <> [] -> mfind v i = Some l.
Proof. unfold list_at. destruct (mfind v i); cbn; congruence. Qed.

(** An entry is not empty. *)
Lemma entry_nonempty g V x i : graph_ok g V -> mfind (V x) i <> Some [].
Proof.
  intros Hg H. destruct (machines g !! x) as [mc|] eqn:E.
  - destruct (ok_inputs _ _ Hg x mc E) as [_ Hrel]. pose proof (smap_rel_find _ _ _ i Hrel) as Hf.
    destruct (mfind (input mc) i); [destruct Hf as (l & E' & Hl)|congruence]. rewrite H in E'. injection E' as <-. done.
  - rewrite (ok_absent _ _ Hg x) in H; [done|]. unfold exists_in. rewrite E. by intros [? ?].
Qed.

Lemma head_of_list g V this dst i l : graph_ok g V -> machines g !! this = Some dst -> list_at (V this) i = l ->
  mfind (input dst) i = first_of l None.
Proof.
  intros Hg Et El. destruct (ok_inputs _ _ Hg this dst Et) as [Hin Hrel].
  rewrite <- (in_at (V this) i _ (ok_view _ _ _ Hg) (input dst) Hin Hrel eq_refl). by rewrite El.
Qed.

(** Signals of other inputs are not those of this one. *)
Lemma other_input_disjoint g V this i j k a : graph_ok g V -> mfind (V this) j = Some k -> j <> i -> a ∈ k ->
  a ∉ list_at (V this) i /\ a ∈ links (merase (V this) i).
Proof.
  intros Hg Hk Hj Ha. pose proof (ok_view _ _ this Hg) as Hv.
  assert (a ∈ links (merase (V this) i)) as Hin
    by (eapply entry_links; [by apply merase_ok| |exact Ha]; rewrite mfind_merase, key_eqb_neq by done; exact Hk).
  split; [|done]. intros Hl. pose proof (ok_nodup _ _ Hg this) as Hnd. rewrite (links_at _ i Hv) in Hnd.
  apply list.NoDup_app in Hnd as (_ & Hdis & _). by apply (Hdis a).
Qed.

(** The edges of a graph with fewer links. *)
Lemma acyclic_with_counts g V g' this mc inputs dep ls : graph_ok g V -> machines g !! this = Some mc ->
  machines g' = <[this := with_inputs mc inputs dep]> (machines g) ->
  counts_ok dep (map (originator_of (signals g)) ls) -> (forall s, s ∈ ls -> s ∈ links (V this)) -> acyclic g'.
Proof.
  intros Hg Em Em' Hc Hsub. apply (acyclic_fewer g); [apply Hg|by eapply exists_update|].
  intros x o [He|[-> Ho]]%(edge_update g g' this mc inputs dep Em Em'); [done|].
  apply (counts_keys _ _ _ Hc) in Ho. apply (edge_counts g V); [done|]. split; [by exists mc|].
  apply list_elem_of_In, in_map_iff in Ho as (s & <- & Hs). apply list_elem_of_In in Hs.
  apply list_elem_of_In, in_map_iff. exists s. split; [done|]. by apply list_elem_of_In, Hsub.
Qed.

(** The graph with the lists of [this] changed, after its render chain was made again. *)
Lemma recalculated g V g' : graph_ok g V -> exists chain, recalculate_render_chain g = Ok (with_render g (sink g) chain) /\
  (machines g' = machines g -> sink g' = sink g -> render g' = chain -> chain_ok g').
Proof.
  intros Hg. destruct (recalculate_spec g (acyclic_closed _ (ok_acyclic _ _ Hg)) (ok_sink _ _ Hg)) as (chain & E & Hnd & Hc).
  exists chain. split; [done|]. intros E1 E2 <-. split; [exact Hnd|]. intros x. rewrite E2.
  specialize (Hc x). cbn in Hc. rewrite Hc. clear -E1.
  assert (forall a b, edge g' a b <-> edge g a b) as Hee by (by apply edge_same_machines).
  split; intros (s & Es & Hr); exists s; (split; [done|]); (eapply rtc_congruence with (f := id); [|exact Hr]);
    intros a b; apply Hee.
Qed.

(** Nothing of the graph but notifications and the render chain changed. *)
Lemma graph_ok_same g V g' : graph_ok g V -> machines g' = machines g -> signals g' = signals g -> sink g' = sink g ->
  graph_ok g' V.
Proof.
  intros Hg E1 E2 E3. destruct g as [h ms set sk rd bc], g' as [h' ms' set' sk' rd' bc']. cbn in *. subst.
  destruct Hg as [H1 H2 H3 H4 H5 H6 H7 H8 H9 H10 H11]. split; try done. by eapply acyclic_fewer.
Qed.

Lemma detach_spec_graph g V this m output_name input_name src dst s l1 l2 des : graph_ok g V ->
  machines g !! m = Some src -> mfind (output src) output_name = Some s ->
  machines g !! this = Some dst -> mfind (input_descriptor dst) input_name = Some des ->
  list_at (V this) input_name = l1 ++ s :: l2 ->
  exists g', internal_detach_input g this (Some m) output_name input_name = Ok (g', None) /\
    graph_ok g' (view_set V this (put_list (V this) input_name (l1 ++ l2))) /\ chain_ok g' /\
    broadcasts g' = broadcasts g ++ [InputDetached m this output_name input_name] /\ same_frame g g'.
Proof.
  intros Hg Em Eo Et Ed El. pose proof (ok_view g V this Hg) as Hv.
  pose proof (links_at (V this) input_name Hv) as Hperm. rewrite El in Hperm. set (others := links (merase (V this) input_name)) in *.
  assert (Permutation (links (V this)) (s :: (l1 ++ l2) ++ others)) as Hp
    by (rewrite Hperm; by rewrite <- Permutation_middle).
  pose proof (ok_nodup _ _ Hg this) as Hnd. rewrite Hp in Hnd. apply list.NoDup_cons in Hnd as [Hns Hnd].
  destruct (ok_output _ _ Hg m src output_name s Em Eo) as (sg & Es & Hos & Hnm).
  assert (originator_of (signals g) s = m) as Horig by (unfold originator_of; by rewrite Es).
  pose proof (ok_dependant _ _ Hg this dst Et) as Hdep. apply (counts_perm _ _ _ (Permutation_map _ Hp)) in Hdep.
  cbn [map] in Hdep. rewrite Horig in Hdep.
  assert (first_of (l1 ++ s :: l2) None = first_of (l1 ++ [s]) None) as Hfst by (by destruct l1).
  destruct (first_of (l1 ++ [s]) None) as [head|] eqn:Ehead; [|by destruct l1].
  assert (mfind (input dst) input_name = Some head) as Eh by (by rewrite (head_of_list g V this dst input_name _ Hg Et El)).
  destruct (heap_drop (signals g) this l1 s l2 head (links (V this))) as (h1 & h2 & E1 & E2 & S & C & M & K);
    [apply Hg|apply (ok_chained _ _ Hg this input_name), list_at_entry; [done|by destruct l1]|
     intros a Ha; rewrite Hperm; apply elem_of_app; by left|done|].
  unfold internal_detach_input, at_machine, get_output. rewrite Em. cbn [rbind]. rewrite Eo, Et. cbn [rbind].
  rewrite Ed, Eh, E1. cbn [rbind]. rewrite E2. cbn [signal_call].
  destruct (mfind (dependant dst) m) as [c|] eqn:Ec.
  2:{ exfalso. destruct Hdep as [_ Hdep]. rewrite Hdep, count_cons, Z.eqb_refl in Ec.
      pose proof (count_nonneg m (map (originator_of (signals g)) ((l1 ++ l2) ++ others))).
      rewrite (proj2 (Z.eqb_neq _ 0)) in Ec by lia. done. }
  set (g2 := with_machine _ _ (with_inputs dst _ (decr_count _ _))).
  pose proof (counts_decr _ _ _ Hdep) as Hcounts.
  assert (machines g2 = <[this := with_inputs dst (set_head (input dst) input_name (first_of (l1 ++ l2) None))
    (decr_count (dependant dst) m)]> (machines g)) as Em2 by (cbn; by rewrite insert_insert_eq).
  assert (graph_ok g2 (view_set V this (put_list (V this) input_name (l1 ++ l2)))) as Hok2.
  { eapply (graph_ok_put g V this dst input_name (l1 ++ l2)); try done.
    - intros j k Hj Hk. apply K; [|by apply (ok_chained _ _ Hg this j)]. intros a Ha. rewrite <- El.
      by eapply other_input_disjoint.
    - apply M. intros a. fold others. rewrite Hp, elem_of_cons. split; [|intuition congruence].
      intros Ha. split; [by right|]. by intros ->.
    - intros a Ha. apply (ok_source _ _ Hg this). rewrite Hp. right. apply elem_of_app. by left.
    - eapply (acyclic_with_counts g V g2); [done|done|done|exact Hcounts|]. intros a Ha. rewrite Hp. by right. }
  destruct (recalculated g2 _ (tell (with_render g2 (sink g2) (match recalculate_render_chain g2 with Ok g3 => render g3 | Err _ => [] end))
    (InputDetached m this output_name input_name)) Hok2) as (chain & E3 & Hchain).
  rewrite E3 in *. cbn [rbind]. eexists. split; [reflexivity|].
  split; [|split; [by apply Hchain|split; [done|by eapply (same_frame_inputs g _ this); [exact Et|exact Em2|..]]]].
  by eapply graph_ok_same.
Qed.

(** C34: Detaching a signal that is attached always succeeds: it leaves the list of the input
    without that signal and in the same order, and a graph that is well-formed again. *)
Theorem detach_removes_link g V this m output_name input_name src dst s l1 l2 des : graph_ok g V ->
  machines g !! m = Some src -> mfind (output src) output_name = Some s ->
  machines g !! this = Some dst -> mfind (input_descriptor dst) input_name = Some des ->
  list_at (V this) input_name = l1 ++ s :: l2 ->
  exists g', internal_detach_input g this (Some m) output_name input_name = Ok (g', None) /\
    graph_ok g' (view_set V this (put_list (V this) input_name (l1 ++ l2))) /\ chain_ok g' /\
    broadcasts g' = broadcasts g ++ [InputDetached m this output_name input_name] /\ same_frame g g'.
Proof. apply detach_spec_graph. Qed.

(** ** A graph without links *)

Record unlinked (g : graph) : Prop := {
  unlinked_machine x mc : machines g !! x = Some mc -> input mc = [] /\ dependant mc = [] /\ smap_ok (output mc) /\
    forall n s, (n, s) ∈ output mc -> exists sg, signals g !! s = Some sg /\ originator sg = x /\ sig_name sg = n;
  unlinked_signal s sg : signals g !! s = Some sg -> sig_next sg = ∅ /\ sig_previous sg = ∅ /\ attached_machines sg = [];
  unlinked_sink s : sink g = Some s -> exists_in g s
}.

Lemma unlinked_ok g : unlinked g -> graph_ok g (fun _ => []).
Proof.
  intros [Hm Hs Hk].
  assert (forall x o, ~ edge g x o) as Hno.
  { intros x o (mc & E & Ho). destruct (Hm x mc E) as (_ & Hd & _). rewrite Hd in Ho. by apply not_elem_of_nil in Ho. }
  split; try done.
  - intros x mc E. destruct (Hm x mc E) as (-> & _). split; [apply smap_ok_nil|constructor].
  - constructor.
  - intros x. split.
    + intros s _. unfold unchained, next_f, previous_f. destruct (signals g !! s) as [sg|] eqn:E; [|done].
      destruct (Hs s sg E) as (H1 & H2 & _). cbn. by rewrite H1, H2, lookup_empty.
    + intros s sg E. destruct (Hs s sg E) as (_ & _ & ->). split; [apply smap_ok_nil|done].
  - intros x mc E. destruct (Hm x mc E) as (_ & -> & _). apply counts_nil.
  - intros x s ?%not_elem_of_nil. done.
  - intros x mc n s E Ho. destruct (Hm x mc E) as (_ & _ & Hok & Hout). apply mfind_elem in Ho; [|done]. by apply Hout.
  - intros x mc E. by destruct (Hm x mc E) as (_ & _ & Hok & _).
  - exists (elements (dom (machines g))). split; [apply NoDup_elements| |intros x o He; by apply Hno in He|intros x; apply Hno|].
    + intros x. by rewrite elem_of_elements, elem_of_dom.
    + induction (elements (dom (machines g))) as [|a l IH]; [constructor|]. constructor; [done|].
      apply list.Forall_forall. intros b _. apply Hno.
Qed.

(** A synthesizer, an effect and the sink. *)
Definition ex_signal (origin : Z) (name : string) : signal := Signal origin name 0 2 ∅ ∅ [].
Definition ex_machine (inputs : list string) (outputs : smap string Z) : machine :=
  Machine "m" (map (fun i => (i, Description 0 2 true)) inputs) (map (fun o => (fst o, Description 0 2 false)) outputs) [] outputs [] [] false.
Definition ex_graph : graph :=
  Graph (<[11 := ex_signal 1 "out"]> (<[12 := ex_signal 2 "out"]> ∅))
    (<[1 := ex_machine [] [("out", 11)]]> (<[2 := ex_machine ["in"] [("out", 12)]]> (<[3 := ex_machine ["in"] []]> ∅)))
    [(1, tt); (2, tt); (3, tt)] (Some 3) [] [].

Lemma ex_graph_unlinked : unlinked ex_graph.
Proof.
  split.
  - intros x mc E. cbn in E.
    assert (forall n s, (n, s) ∈ [("out", 11)] -> n = "out" /\ s = 11) as H1
      by (intros n s [[= -> ->]|H]%elem_of_cons; [done|by apply not_elem_of_nil in H]).
    assert (forall n s, (n, s) ∈ [("out", 12)] -> n = "out" /\ s = 12) as H2
      by (intros n s [[= -> ->]|H]%elem_of_cons; [done|by apply not_elem_of_nil in H]).
    apply lookup_insert_Some in E as [[<- <-]|[_ E]]; [|apply lookup_insert_Some in E as [[<- <-]|[_ E]];
      [|apply lookup_insert_Some in E as [[<- <-]|[_ E]]; [|by rewrite lookup_empty in E]]].
    + split_and!; [done|done|repeat constructor|]. intros n s [-> ->]%H1. by eexists.
    + split_and!; [done|done|repeat constructor|]. intros n s [-> ->]%H2. by eexists.
    + split_and!; [done|done|constructor|]. by intros n s ?%not_elem_of_nil.
  - intros s sg E. cbn in E. repeat (apply lookup_insert_Some in E as [[<- <-]|[_ E]]; [done|]). by rewrite lookup_empty in E.
  - intros s [= <-]. by eexists.
Qed.

Lemma ex_graph_ok : graph_ok ex_graph (fun _ => []).
Proof. apply unlinked_ok, ex_graph_unlinked. Qed.


(** The effect listens to the synthesizer. *)
Definition ex_linked : graph :=
  match attach_signal ex_graph 2 1 11 "out" "in" with Ok (g, _) => g | Err _ => ex_graph end.

Lemma ex_linked_ok : graph_ok ex_linked (view_set (fun _ => []) 2 [("in", [11])]).
Proof.
  assert (~ rtc (edge ex_graph) 1 2) as Hno.
  { intros Hr. inversion Hr as [|? o ? [mc [E Ho]] _]; subst. cbn in E. injection E as <-. by apply not_elem_of_nil in Ho. }
  destruct (attach_signal_spec ex_graph (fun _ => []) 2 1 11 "out" "in" (ex_machine ["in"] [("out", 12)]) (ex_signal 1 "out"))
    as (g' & e & E & He & Hpost); [exact ex_graph_ok|reflexivity|by eexists|reflexivity|reflexivity| |apply not_elem_of_nil|exact Hno|].
  { by eexists _, _. }
  unfold ex_linked. rewrite E. assert (e = None) as -> by (by apply He). exact (proj1 Hpost).
Qed.

Lemma detach_removes_link_witness : exists g', internal_detach_input ex_linked 2 (Some 1) "out" "in" = Ok (g', None) /\
  graph_ok g' (view_set (view_set (fun _ => []) 2 [("in", [11])]) 2 []) /\ chain_ok g' /\
  broadcasts g' = broadcasts ex_linked ++ [InputDetached 1 2 "out" "in"].
Proof.
  destruct (machines ex_linked !! 1) as [src|] eqn:E1; [|vm_compute in E1; discriminate].
  destruct (machines ex_linked !! 2) as [dst|] eqn:E2; [|vm_compute in E2; discriminate].
  destruct (mfind (input_descriptor dst) "in") as [des|] eqn:E3; [|vm_compute in E2; injection E2 as <-; discriminate].
  destruct (detach_removes_link ex_linked _ 2 1 "out" "in" src dst 11 [] [] des ex_linked_ok E1) as (g' & H1 & H2 & H3 & H4 & _);
    [vm_compute in E1; injection E1 as <-; reflexivity|exact E2|exact E3|reflexivity|].
  exists g'. split; [exact H1|]. split; [exact H2|]. split; [exact H3|exact H4].
Defined.
