(* ===== verification/GraphDetach.v ===== *)
(** * Taking a machine out of the graph

    [detach_all_inputs] and [detach_all_outputs] empty or filter the lists of the inputs, with
    the loops that start again after every signal they take out. *)

From Stdlib Require Import String ZArith Lia List Permutation.
From stdpp Require Import base list gmap numbers option relations sets.
From S2P Require Import Prelude DoubleList StdMap MachineClock SignalLinks MachineGraph GraphPaths GraphLinks.
Local Open Scope string_scope.
Local Open Scope list_scope.
Local Open Scope Z_scope.
Local Open Scope vk_scope.

(** The signals that [detach_all_inputs(m)] keeps. *)
Definition kept (orig : Z -> Z) (m : option Z) (l : list Z) : list Z :=
  match m with
  | None => []
  | Some m => List.filter (fun s => negb (orig s =? m)) l
  end.

(** What a graph's listeners are told when the signal [s] is taken out of the input [i] of [x]. *)
Definition detached (g : graph) (t : Z * string * Z) : broadcast :=
  let '(x, i, s) := t in InputDetached (originator_of (signals g) s) x (name_of (signals g) s) i.

(** From the links of [V] to those of [V'], the links [D] were taken out, one notification for
    each. *)
Record took_out (g : graph) (V : Z -> inputs_view) (g' : graph) (V' : Z -> inputs_view) (D : list (Z * string * Z)) : Prop := {
  took_told : broadcasts g' = broadcasts g ++ map (detached g) D;
  took_links x i s : s ∈ list_at (V' x) i <-> s ∈ list_at (V x) i /\ (x, i, s) ∉ D;
  took_from x i s : (x, i, s) ∈ D -> s ∈ list_at (V x) i;
  took_once : NoDup D
}.

Lemma took_nothing g V g' : broadcasts g' = broadcasts g -> took_out g V g' V [].
Proof.
  intros E. split; [by rewrite E, app_nil_r| |by intros x i s ?%not_elem_of_nil|constructor].
  intros x i s. split; [intros H; split; [done|apply not_elem_of_nil]|by intros []].
Qed.

Lemma took_trans g1 V1 g2 V2 g3 V3 D1 D2 : same_frame g1 g2 -> took_out g1 V1 g2 V2 D1 -> took_out g2 V2 g3 V3 D2 ->
  took_out g1 V1 g3 V3 (D1 ++ D2).
Proof.
  intros F [A1 A2 A3 A4] [B1 B2 B3 B4]. split.
  - rewrite B1, A1, map_app, <- app_assoc. do 2 f_equal. apply map_ext. intros [[x i] s]. cbn.
    by rewrite (frame_originator _ _ F), (frame_name _ _ F).
  - intros x i s. rewrite B2, A2, elem_of_app. tauto.
  - intros x i s [H|H]%elem_of_app; [by apply A3|]. by apply B3, A2 in H as [H _].
  - apply list.NoDup_app. split; [done|]. split; [|done]. intros [[x i] s] H1 H2. by apply B3, A2 in H2 as [_ H2].
Qed.

Section detach_loop.
Context (g0 : graph) (V : Z -> inputs_view) (this : Z) (mc : machine) (i : string).
Context (Hg : graph_ok g0 V) (Em : machines g0 !! this = Some mc).

Let others : list Z := links (merase (V this) i).
Let orig : Z -> Z := originator_of (signals g0).

(** The graph while the signals of one input are taken out: [l] is what is left. *)
Record dropping (l : list Z) (g : graph) : Prop := {
  drop_dep : exists dep, machines g = <[this := with_inputs mc (input mc) dep]> (machines g0) /\
    counts_ok dep (map orig (l ++ others));
  drop_same : same_signals this (signals g0) (signals g);
  drop_chained : chained (signals g) this l;
  drop_others j k : j <> i -> mfind (V this) j = Some k -> chained (signals g) this k;
  drop_heap : machine_heap (signals g) this (l ++ others);
  drop_nodup : NoDup (l ++ others);
  drop_sub s : s ∈ l -> s ∈ list_at (V this) i;
  drop_sink : sink g = sink g0;
  drop_set : machine_set g = machine_set g0;
  drop_told : exists D, broadcasts g = broadcasts g0 ++ map (fun s => detached g0 (this, i, s)) D /\
    Permutation (list_at (V this) i) (l ++ D)
}.

Lemma drop_signal_spec l1 s l2 g head : dropping (l1 ++ s :: l2) g -> first_of (l1 ++ [s]) None = Some head ->
  exists g', drop_signal g this i head s = Ok (g', first_of (l1 ++ l2) None) /\ dropping (l1 ++ l2) g'.
Proof.
  intros [(dep & Ed & Hc) HS Hch Hoth Hheap Hnd Hsub Hsink Hset (D & Htold & Hl)] Hhead.
  assert (Permutation ((l1 ++ s :: l2) ++ others) (s :: (l1 ++ l2) ++ others)) as Hp by (by rewrite <- Permutation_middle).
  rewrite Hp in Hnd. apply list.NoDup_cons in Hnd as [Hns Hnd].
  assert (is_Some (signals g !! s)) as [sg Es].
  { destruct Hch as (_ & HF & _). apply (proj1 (list.Forall_forall _ _) HF). apply elem_of_app. right. left. }
  assert (originator sg = orig s) as Eorig.
  { unfold orig. rewrite <- (same_originator this _ _ s HS). unfold originator_of. by rewrite Es. }
  destruct (heap_drop (signals g) this l1 s l2 head _ Hheap Hch) as (h1 & h2 & E1 & E2 & S & C & M & K);
    [intros a Ha; apply elem_of_app; by left|done|].
  unfold drop_signal, at_signal, at_machine. rewrite Es. cbn [rbind tell machines]. rewrite Ed, lookup_insert_eq. cbn [rbind].
  cbn [with_machine tell signals]. rewrite E1. cbn [rbind]. rewrite E2. cbn [rbind].
  eexists. split; [reflexivity|]. cbn [with_inputs input dependant]. split; cbn [with_signals with_machine tell machines signals sink]; try done.
  - exists (decr_count dep (originator sg)). rewrite Ed, insert_insert_eq. split; [done|].
    apply counts_decr. rewrite Eorig. change (orig s :: map orig ((l1 ++ l2) ++ others)) with (map orig (s :: (l1 ++ l2) ++ others)).
    eapply counts_perm; [by apply Permutation_map, Hp|done].
  - by eapply same_signals_trans.
  - intros j k Hj Hk. apply K; [|by apply (Hoth j)]. intros a Ha Hin. apply Hsub in Hin.
    by destruct (other_input_disjoint g0 V this i j k a Hg Hk Hj Ha).
  - apply M. intros a. rewrite Hp, elem_of_cons. split; [|intuition congruence].
    intros Ha. split; [by right|]. by intros ->.
  - intros a Ha. apply Hsub. apply elem_of_app in Ha as [Ha|Ha]; apply elem_of_app; [by left|right; by right].
  - exists (D ++ [s]). cbn [with_signals with_machine tell broadcasts]. split.
    + rewrite Htold, map_app, <- app_assoc. do 2 f_equal. cbn. do 2 f_equal; [done|].
      rewrite <- (same_name this _ _ s HS). unfold name_of. by rewrite Es.
    + rewrite Hl, <- !app_assoc. apply Permutation_app_head. rewrite app_assoc. apply Permutation_cons_append.
Qed.

Lemma drain_spec : forall l fuel g, dropping l g -> (length l <= fuel)%nat ->
  exists g', drain_input fuel g this i (first_of l None) = Ok g' /\ dropping [] g'.
Proof.
  induction l as [|s l IH]; intros fuel g Hd Hf; [destruct fuel; by exists g|].
  destruct fuel as [|fuel]; [cbn in Hf; lia|]. cbn [drain_input first_of].
  destruct (drop_signal_spec [] s l g s Hd eq_refl) as (g1 & -> & Hd1). cbn [rbind app].
  apply IH; [done|cbn in Hf; lia].
Qed.

Lemma orig_of g l s : dropping l g -> s ∈ l -> exists sg, signals g !! s = Some sg /\ originator sg = orig s.
Proof.
  intros Hd Hs. destruct (drop_chained _ _ Hd) as (_ & HF & _).
  destruct (proj1 (list.Forall_forall _ _) HF s Hs) as [sg E]. exists sg. split; [done|].
  unfold orig. rewrite <- (same_originator this _ _ s (drop_same _ _ Hd)). unfold originator_of. by rewrite E.
Qed.

(** The walk: [l1] is behind it, [l2] before it. *)
Lemma purge_spec m n : forall fuel l1 l2 g, dropping (l1 ++ l2) g -> kept orig (Some m) l1 = l1 ->
  (length (l1 ++ l2) <= n)%nat -> (length (l1 ++ l2) * S n + length l2 <= fuel)%nat ->
  exists g', purge_input fuel g this m i (first_of (l1 ++ l2) None) (first_of l2 None) =
      Ok (g', first_of (kept orig (Some m) (l1 ++ l2)) None) /\
    dropping (kept orig (Some m) (l1 ++ l2)) g'.
Proof.
  induction fuel as [|fuel IH]; intros l1 l2 g Hd Hk Hn Hf.
  - destruct l2 as [|s l2]; [|cbn in Hf; lia]. rewrite app_nil_r in *. rewrite Hk. exists g. split; [|done].
    by destruct (first_of l1 None).
  - destruct l2 as [|s l2].
    { rewrite app_nil_r in *. rewrite Hk. exists g. split; [|done]. cbn. done. }
    destruct (first_of (l1 ++ s :: l2) None) as [head|] eqn:Eh; [|by destruct l1].
    cbn [first_of purge_input].
    destruct (orig_of g _ s Hd) as (sg & Es & Eo); [apply elem_of_app; right; left|].
    unfold at_signal. rewrite Es. cbn [rbind]. rewrite Eo. rewrite length_app in *. cbn [length] in *.
    assert (kept orig (Some m) (l1 ++ s :: l2) = kept orig (Some m) l1 ++ kept orig (Some m) (s :: l2)) as Hsplit
      by apply List.filter_app.
    destruct (orig s =? m) eqn:Esm.
    + destruct (drop_signal_spec l1 s l2 g head Hd) as (g1 & -> & Hd1); [by destruct l1|]. cbn [rbind].
      destruct (IH [] (l1 ++ l2) g1 Hd1 eq_refl) as (g2 & E2 & Hd2); [cbn; rewrite length_app; lia|cbn; rewrite length_app; nia|].
      cbn [app] in E2. exists g2.
      assert (kept orig (Some m) (l1 ++ s :: l2) = kept orig (Some m) (l1 ++ l2)) as ->.
      { unfold kept. rewrite !List.filter_app. cbn [List.filter]. by rewrite Esm. }
      by split.
    + unfold get_next. rewrite next_at_ok by (by eexists). cbn [rbind].
      assert (next_f (signals g) this s = first_of l2 None) as ->.
      { destruct (drop_chained _ _ Hd) as (_ & _ & Hl). apply linked_app in Hl as [_ (_ & Hn2 & _)]. exact Hn2. }
      rewrite <- Eh. replace (l1 ++ s :: l2) with ((l1 ++ [s]) ++ l2) in * by (by rewrite <- app_assoc).
      apply IH; [done| | |].
      * unfold kept. rewrite List.filter_app. cbn [List.filter]. rewrite Esm. cbn. f_equal. exact Hk.
      * rewrite !length_app. cbn. lia.
      * rewrite !length_app. cbn. lia.
Qed.
End detach_loop.

(** ** One input *)

Lemma chained_list_at g V x i : graph_ok g V -> chained (signals g) x (list_at (V x) i).
Proof.
  intros Hg. unfold list_at. destruct (mfind (V x) i) as [l|] eqn:E; [by apply (ok_chained _ _ Hg x i)|].
  split; [constructor|]. by split.
Qed.

Lemma dropping_start g V this mc i : graph_ok g V -> machines g !! this = Some mc ->
  dropping g V this mc i (list_at (V this) i) g.
Proof.
  intros Hg Em. pose proof (links_at (V this) i (ok_view _ _ this Hg)) as Hp. split; try done.
  - exists (dependant mc). split; [symmetry; apply insert_id; by destruct mc|].
    eapply counts_perm; [apply Permutation_map, Hp|]. by apply (ok_dependant _ _ Hg).
  - apply same_signals_refl.
  - by apply chained_list_at.
  - intros j k _ Hk. by apply (ok_chained _ _ Hg this j).
  - eapply machine_heap_ext; [|apply (ok_heap _ _ Hg)]. intros a. by rewrite Hp.
  - rewrite <- Hp. apply (ok_nodup _ _ Hg).
  - exists []. by rewrite !app_nil_r.
Qed.

(** The end of the loop: the entry of the input gets its new head. *)
Lemma dropping_end g0 V this mc i l g dep : graph_ok g0 V -> machines g0 !! this = Some mc -> dropping g0 V this mc i l g ->
  machines g = <[this := with_inputs mc (input mc) dep]> (machines g0) ->
  graph_ok (with_machine g this (with_inputs mc (set_head (input mc) i (first_of l None)) dep))
    (view_set V this (put_list (V this) i l)).
Proof.
  intros Hg Em [(dep' & Ed & Hc) HS Hch Hoth Hheap Hnd Hsub Hsink Hset Htold] Ed'.
  assert (dep' = dep) as ->.
  { rewrite Ed in Ed'. apply (f_equal (fun m => m !! this)) in Ed'. rewrite !lookup_insert_eq in Ed'. by injection Ed'. }
  set (g' := with_machine _ _ _).
  assert (machines g' = <[this := with_inputs mc (set_head (input mc) i (first_of l None)) dep]> (machines g0)) as Em'
    by (cbn; by rewrite Ed, insert_insert_eq).
  eapply (graph_ok_put g0 V this mc i l dep g'); try done.
  - intros s Hs. apply (ok_source _ _ Hg this). rewrite (links_at _ i (ok_view _ _ this Hg)). apply elem_of_app. left. by apply Hsub.
  - eapply (acyclic_with_counts g0 V g'); [done|done|done|exact Hc|]. intros s Hs.
    rewrite (links_at _ i (ok_view _ _ this Hg)). apply elem_of_app in Hs as [Hs|Hs]; apply elem_of_app; [left; by apply Hsub|by right].
Qed.

Lemma kept_sub orig m l s : s ∈ kept orig m l -> s ∈ l.
Proof. destruct m; cbn; [by intros [? _]%elem_of_bool_filter|by intros ?%not_elem_of_nil]. Qed.

Lemma list_at_put v i l j : smap_ok v -> list_at (put_list v i l) j = if key_eqb j i then l else list_at v j.
Proof.
  intros Hok. unfold list_at, put_list. destruct l as [|a l].
  - rewrite mfind_merase by done. by destruct (key_eqb j i).
  - rewrite mfind_mset by done. by destruct (key_eqb j i).
Qed.

(** One input of [this] keeps [l], and [D] was taken out. *)
Lemma took_one g V this i l D g' : graph_ok g V -> Permutation (list_at (V this) i) (l ++ D) ->
  broadcasts g' = broadcasts g ++ map (fun s => detached g (this, i, s)) D ->
  took_out g V g' (view_set V this (put_list (V this) i l)) (map (fun s => (this, i, s)) D).
Proof.
  intros Hg Hp Hb. pose proof (ok_view _ _ this Hg) as Hv.
  assert (NoDup (l ++ D)) as Hnd.
  { rewrite <- Hp. pose proof (ok_nodup _ _ Hg this) as Hn. rewrite (links_at _ i Hv) in Hn. by apply list.NoDup_app in Hn as (? & _). }
  apply list.NoDup_app in Hnd as (_ & Hdis & HndD).
  assert (forall x j s, (x, j, s) ∈ map (fun s => (this, i, s)) D <-> x = this /\ j = i /\ s ∈ D) as Hin.
  { intros x j s. rewrite list_elem_of_In, in_map_iff. setoid_rewrite <- list_elem_of_In. split; [intros (? & [= <- <- <-] & ?); done|].
    intros (-> & -> & ?). by exists s. }
  split.
  - by rewrite Hb, map_map.
  - intros x j s. rewrite Hin. unfold view_set. destruct (Z.eqb_spec x this) as [->|Hne]; [|intuition congruence].
    rewrite list_at_put by done. destruct (key_eqb j i) eqn:Eji.
    + apply key_eqb_spec in Eji as ->. rewrite Hp, elem_of_app. specialize (Hdis s). intuition.
    + assert (j <> i) by (intros ->; by rewrite key_eqb_refl in Eji). intuition congruence.
  - intros x j s (-> & -> & Hs)%Hin. rewrite Hp. apply elem_of_app. by right.
  - assert (Inj eq eq (fun s : Z => (this, i, s))) as Hinj by (by intros s s' [= ->]). by apply (NoDup_fmap_2 (fun s : Z => (this, i, s))).
Qed.

Lemma detach_entry_spec g V m this mc i first : graph_ok g V -> machines g !! this = Some mc -> mfind (input mc) i = Some first ->
  exists g' dep, detach_entry m this g (i, first) = Ok g' /\
    graph_ok g' (view_set V this (put_list (V this) i (kept (originator_of (signals g)) m (list_at (V this) i)))) /\
    machines g' = <[this := with_inputs mc (set_head (input mc) i (first_of (kept (originator_of (signals g)) m (list_at (V this) i)) None)) dep]> (machines g) /\
    same_frame g g' /\
    exists D, took_out g V g' (view_set V this (put_list (V this) i (kept (originator_of (signals g)) m (list_at (V this) i)))) D.
Proof.
  intros Hg Em Ei. pose proof (dropping_start g V this mc i Hg Em) as Hd.
  pose proof (head_of_list g V this mc i _ Hg Em eq_refl) as Hfirst. rewrite Ei in Hfirst.
  pose proof (chained_length _ _ _ (chained_list_at g V this i Hg)) as Hlen.
  set (l := list_at (V this) i) in *. set (orig := originator_of (signals g)).
  assert (exists g1, (match m with
      | None => let! g := drain_input (size (signals g)) g this i (Some first) in Ok (g, None)
      | Some m => purge_input (S (size (signals g)) * S (size (signals g))) g this m i (Some first) (Some first)
      end) = Ok (g1, first_of (kept orig m l) None) /\ dropping g V this mc i (kept orig m l) g1) as (g1 & E1 & Hd1).
  { rewrite Hfirst. destruct m as [m|].
    - destruct (purge_spec g V this mc i Hg m (size (signals g)) (S (size (signals g)) * S (size (signals g))) [] l g)
        as (g1 & E & Hd1); [done|done|done|cbn [app length]; nia|]. by exists g1.
    - destruct (drain_spec g V this mc i Hg l (size (signals g)) g Hd Hlen) as (g1 & -> & Hd1). by exists g1. }
  destruct (drop_dep _ _ _ _ _ _ _ Hd1) as (dep & Ed & _).
  unfold detach_entry. rewrite E1. cbn [rbind]. unfold at_machine. rewrite Ed, lookup_insert_eq. cbn [rbind].
  exists (with_machine g1 this (with_inputs mc (set_head (input mc) i (first_of (kept orig m l) None)) dep)), dep.
  split; [done|]. split; [by apply (dropping_end g)|].
  assert (machines (with_machine g1 this (with_inputs mc (set_head (input mc) i (first_of (kept orig m l) None)) dep)) =
    <[this := with_inputs mc (set_head (input mc) i (first_of (kept orig m l) None)) dep]> (machines g)) as Em'
    by (cbn; by rewrite Ed, insert_insert_eq).
  split; [exact Em'|]. destruct Hd1 as [_ HS _ _ _ _ _ Hsink Hset (D & Htold & Hl)]. split; [by eapply (same_frame_inputs g _ this)|].
  eexists. by apply took_one.
Qed.

(** ** All inputs *)

Lemma kept_ext orig orig' m l : (forall s, orig s = orig' s) -> kept orig m l = kept orig' m l.
Proof. intros H. destruct m; [|done]. cbn. apply List.filter_ext. intros s. by rewrite H. Qed.

(** The entries, one after the other. *)
Lemma detach_entries m this orig : forall es g V mc, graph_ok g V -> machines g !! this = Some mc ->
  (forall s, originator_of (signals g) s = orig s) -> NoDup (map fst es) ->
  (forall i a, (i, a) ∈ es -> mfind (input mc) i = Some a) ->
  exists g' V' D, rfold (detach_entry m this) g es = Ok g' /\ graph_ok g' V' /\ same_frame g g' /\ took_out g V g' V' D /\
    (forall x, x <> this -> V' x = V x) /\
    forall i, list_at (V' this) i = if bool_decide (i ∈ map fst es) then kept orig m (list_at (V this) i) else list_at (V this) i.
Proof.
  induction es as [|[i a] es IH]; intros g V mc Hg Em Ho Hnd Hin; cbn [rfold].
  - exists g, V, []. split_and!; [done|done|apply same_frame_refl|by apply took_nothing|done|]. intros i. cbn.
    by rewrite bool_decide_false by apply not_elem_of_nil.
  - cbn [map fst] in Hnd. apply list.NoDup_cons in Hnd as [Hi Hnd].
    destruct (detach_entry_spec g V m this mc i a Hg Em) as (g1 & dep & -> & Hg1 & Em1 & F1 & D1 & T1); [apply Hin; left|].
    cbn [rbind]. pose proof (ok_view _ _ this Hg) as Hv. destruct (ok_inputs _ _ Hg this mc Em) as [Hok _].
    destruct (IH g1 _ (with_inputs mc (set_head (input mc) i (first_of (kept (originator_of (signals g)) m (list_at (V this) i)) None)) dep) Hg1)
      as (g2 & V2 & D2 & -> & Hg2 & F2 & T2 & K2 & L2).
    + by rewrite Em1, lookup_insert_eq.
    + intros s. by rewrite (frame_originator _ _ F1).
    + done.
    + intros j b Hj. cbn. assert (j <> i) as Hne.
      { intros ->. apply Hi. apply list_elem_of_In, in_map_iff. exists (i, b). split; [done|by apply list_elem_of_In]. }
      assert (mfind (input mc) j = Some b) as Hb by (apply Hin; by right).
      destruct (first_of _ None); cbn; [by rewrite mfind_mset, key_eqb_neq|by rewrite mfind_merase, key_eqb_neq].
    + exists g2, V2, (D1 ++ D2). split_and!; [done|done|by eapply same_frame_trans|by eapply took_trans| |].
      * intros x Hx. rewrite K2 by done. unfold view_set. by rewrite (proj2 (Z.eqb_neq x this)).
      * intros j. rewrite L2. unfold view_set. rewrite Z.eqb_refl, !list_at_put by done. cbn [map fst].
        destruct (key_eqb j i) eqn:Eji.
        -- apply key_eqb_spec in Eji as ->. rewrite bool_decide_false, bool_decide_true by (done || left).
           by apply kept_ext.
        -- assert (j <> i) by (intros ->; by rewrite key_eqb_refl in Eji).
           rewrite (bool_decide_ext (j ∈ i :: map fst es) (j ∈ map fst es)); [done|].
           rewrite elem_of_cons. intuition congruence.
Qed.

Lemma kept_nil orig m : kept orig m [] = [].
Proof. by destruct m. Qed.

(** The new render chain changes nothing else. *)
Lemma recalculate_keeps g V : graph_ok g V -> exists g', recalculate_render_chain g = Ok g' /\ graph_ok g' V /\ same_frame g g' /\ chain_ok g' /\
  machines g' = machines g /\ broadcasts g' = broadcasts g.
Proof.
  intros Hg. destruct (recalculate_spec g (acyclic_closed _ (ok_acyclic _ _ Hg)) (ok_sink _ _ Hg)) as (chain & E & Hc).
  eexists. split; [exact E|]. split_and!; [by eapply graph_ok_same| |done|done|done]. split; try done.
  intros x mc Ex. exists (input mc), (dependant mc). by destruct mc.
Qed.

Lemma detach_all_inputs_spec g V m this : graph_ok g V -> exists_in g this ->
  exists g' V' D, detach_all_inputs m g this = Ok g' /\ graph_ok g' V' /\ same_frame g g' /\ took_out g V g' V' D /\ chain_ok g' /\
    (forall x, x <> this -> V' x = V x) /\
    forall i, list_at (V' this) i = kept (originator_of (signals g)) m (list_at (V this) i).
Proof.
  intros Hg [mc Em]. destruct (ok_inputs _ _ Hg this mc Em) as [Hok Hrel].
  destruct (detach_entries m this (originator_of (signals g)) (input mc) g V mc Hg Em) as (g1 & V1 & D & E1 & Hg1 & F1 & T1 & K1 & L1).
  - done.
  - clear -Hok. induction Hok as [|a l Hl IH Ha]; [constructor|]. apply list.NoDup_cons. split; [|done].
    intros Hin. pose proof (proj1 (list.Forall_forall _ _) Ha a Hin) as Hlt. cbv beta in Hlt. by rewrite key_lt_irrefl in Hlt.
  - intros i a Hi. by apply mfind_elem.
  - unfold detach_all_inputs, at_machine. rewrite Em. cbn [rbind]. rewrite E1. cbn [rbind].
    destruct (recalculate_keeps g1 V1 Hg1) as (g2 & E2 & Hg2 & F2 & C2 & _ & B2). exists g2, V1, D.
    split; [done|]. split; [done|]. split; [by eapply same_frame_trans|].
    split; [rewrite <- (app_nil_r D); eapply took_trans; [exact F1|exact T1|by apply took_nothing]|]. split; [done|]. split; [done|].
    intros i. rewrite L1. case_bool_decide as Hi; [done|].
    assert (mfind (input mc) i = None) as Hn.
    { destruct (mfind (input mc) i) eqn:E; [|done]. exfalso. by apply Hi, (mfind_key _ _ _ E). }
    rewrite (head_of_list g V this mc i _ Hg Em eq_refl) in Hn. destruct (list_at (V this) i); [|done]. by rewrite kept_nil.
Qed.

(** ** All outputs *)

(** The links of every machine are those of before, or those without the signals of [m]. *)
Definition purged (orig : Z -> Z) (m : Z) (V V' : Z -> inputs_view) : Prop :=
  forall x i, list_at (V' x) i = list_at (V x) i \/ list_at (V' x) i = kept orig (Some m) (list_at (V x) i).

Lemma kept_twice orig m l : kept orig m (kept orig m l) = kept orig m l.
Proof.
  destruct m as [m|]; [|done]. cbn. induction l as [|a l IH]; [done|]. cbn. destruct (negb (orig a =? m)) eqn:E; [|done].
  cbn. by rewrite E, IH.
Qed.

Lemma purged_trans orig m V1 V2 V3 : purged orig m V1 V2 -> purged orig m V2 V3 -> purged orig m V1 V3.
Proof.
  intros H1 H2 x i. destruct (H1 x i) as [E1|E1], (H2 x i) as [E2|E2]; rewrite E2, E1; auto. right. apply kept_twice.
Qed.

(** Links only go away. *)
Lemma elem_of_links v s : smap_ok v -> s ∈ links v <-> exists i, s ∈ list_at v i.
Proof.
  intros Hok. split.
  - unfold links. intros Hs. apply list_elem_of_In, in_flat_map in Hs as ([i l] & Hi & Hs).
    exists i. unfold list_at. apply list_elem_of_In, mfind_elem in Hi; [|done]. rewrite Hi. cbn. by apply list_elem_of_In.
  - intros [i Hs]. rewrite (links_at v i Hok). apply elem_of_app. by left.
Qed.

Lemma purged_links orig m V V' x s : smap_ok (V x) -> smap_ok (V' x) -> purged orig m V V' -> s ∈ links (V' x) -> s ∈ links (V x).
Proof.
  intros H1 H2 Hp. rewrite !elem_of_links by done. intros [i Hi]. exists i.
  destruct (Hp x i) as [E|E]; rewrite E in Hi; [done|]. by eapply kept_sub.
Qed.

(** The machines that listen to an output. *)
Lemma listeners g V s sg x : graph_ok g V -> signals g !! s = Some sg ->
  x ∈ get_attached_machines sg <-> s ∈ links (V x).
Proof.
  intros Hg E. destruct (proj2 (ok_heap _ _ Hg x) s sg E) as [Hok Hf]. unfold get_attached_machines.
  rewrite <- mfind_in_keys by done. rewrite Hf. case_bool_decide; split; intros Hs; try done; by destruct Hs.
Qed.

(** One listener after the other. *)
Lemma detach_listeners this orig : forall xs g V, graph_ok g V -> (forall s, originator_of (signals g) s = orig s) ->
  (forall x, x ∈ xs -> exists_in g x) ->
  exists g' V' D, rfold (detach_all_inputs (Some this)) g xs = Ok g' /\ graph_ok g' V' /\ same_frame g g' /\ took_out g V g' V' D /\
    purged orig this V V' /\ forall x i, x ∈ xs -> list_at (V' x) i = kept orig (Some this) (list_at (V x) i).
Proof.
  induction xs as [|x xs IH]; intros g V Hg Ho Hex; cbn [rfold].
  - exists g, V, []. split; [done|]. split; [done|]. split; [apply same_frame_refl|]. split; [by apply took_nothing|]. split; [by left|].
    by intros x i ?%not_elem_of_nil.
  - destruct (detach_all_inputs_spec g V (Some this) x Hg) as (g1 & V1 & D1 & -> & Hg1 & F1 & T1 & _ & K1 & L1); [apply Hex; left|].
    cbn [rbind]. destruct (IH g1 V1 Hg1) as (g2 & V2 & D2 & -> & Hg2 & F2 & T2 & P2 & L2).
    { intros s. by rewrite (frame_originator _ _ F1). }
    { intros y Hy. apply (frame_exists _ _ F1), Hex. by right. }
    assert (forall i, list_at (V1 x) i = kept orig (Some this) (list_at (V x) i)) as L1'
      by (intros i; rewrite L1; by apply kept_ext).
    assert (purged orig this V V1) as P1.
    { intros y i. destruct (Z.eq_dec y x) as [->|Hne]; [by right|left; by rewrite K1]. }
    exists g2, V2, (D1 ++ D2). split; [done|]. split; [done|]. split; [by eapply same_frame_trans|]. split; [by eapply took_trans|].
    split; [by eapply purged_trans|]. intros y i Hy. destruct (decide (y ∈ xs)) as [Hin|Hout].
    + rewrite L2 by done. destruct (P1 y i) as [E|E]; rewrite E; [done|]. by rewrite kept_twice.
    + apply elem_of_cons in Hy as [->|Hy]; [|done]. destruct (P2 x i) as [E|E]; rewrite E, L1'; [done|]. by rewrite kept_twice.
Qed.

(** One output after the other: nobody listens to those that are done. *)
Lemma detach_outputs this orig : forall (os : list (string * Z)) g V, graph_ok g V -> (forall s, originator_of (signals g) s = orig s) ->
  (forall n s, (n, s) ∈ os -> is_Some (signals g !! s) /\ orig s = this) ->
  exists g' V' D, rfold (fun g '(_, s) =>
      let! sg := at_signal (signals g) s in
      rfold (detach_all_inputs (Some this)) g (get_attached_machines sg)) g os = Ok g' /\
    graph_ok g' V' /\ same_frame g g' /\ took_out g V g' V' D /\ purged orig this V V' /\
    forall n s x, (n, s) ∈ os -> s ∉ links (V' x).
Proof.
  induction os as [|[n s] os IH]; intros g V Hg Ho Hos; cbn [rfold].
  - exists g, V, []. split; [done|]. split; [done|]. split; [apply same_frame_refl|]. split; [by apply took_nothing|]. split; [by left|].
    by intros n s x ?%not_elem_of_nil.
  - destruct (Hos n s ltac:(left)) as [[sg Es] Horig]. unfold at_signal at 1. rewrite Es. cbn [rbind].
    destruct (detach_listeners this orig (get_attached_machines sg) g V Hg Ho) as (g1 & V1 & D1 & -> & Hg1 & F1 & T1 & P1 & L1).
    { intros x Hx. apply (listeners g V s sg x Hg Es) in Hx. destruct (machines g !! x) as [mx|] eqn:E; [by exists mx|].
      rewrite (ok_absent _ _ Hg x) in Hx; [by apply not_elem_of_nil in Hx|]. unfold exists_in. rewrite E. by intros [? ?]. }
    cbn [rbind]. destruct (IH g1 V1 Hg1) as (g2 & V2 & D2 & -> & Hg2 & F2 & T2 & P2 & L2).
    { intros s'. by rewrite (frame_originator _ _ F1). }
    { intros n' s' Hin. destruct (Hos n' s') as [Hsome Ho']; [by right|]. by rewrite (frame_signals _ _ F1). }
    exists g2, V2, (D1 ++ D2). split; [done|]. split; [done|]. split; [by eapply same_frame_trans|]. split; [by eapply took_trans|].
    split; [by eapply purged_trans|]. intros n' s' x [[= -> ->]|Hin]%elem_of_cons; [|by apply (L2 n')]. intros Hl.
    apply (purged_links orig this V1 V2 x) in Hl; [|by eapply ok_view|by eapply ok_view|done].
    pose proof Hl as Hl0. apply (purged_links orig this V V1 x) in Hl0; [|by eapply ok_view|by eapply ok_view|done].
    apply (listeners g V s sg x Hg Es) in Hl0. apply elem_of_links in Hl as [i Hi]; [|by eapply ok_view].
    rewrite (L1 x i Hl0) in Hi. apply elem_of_bool_filter in Hi as [_ Hi]. by rewrite Horig, Z.eqb_refl in Hi.
Qed.

(** ** Leaving the graph *)

Lemma no_links g V x : graph_ok g V -> (forall i, list_at (V x) i = []) -> V x = [].
Proof.
  intros Hg H. destruct (V x) as [|[i l] v] eqn:E; [done|]. exfalso.
  pose proof (entry_nonempty g V x i Hg) as Hn. specialize (H i). unfold list_at in H. rewrite <- E in H.
  destruct (mfind (V x) i) as [k|] eqn:Ek; cbn in H; [by subst k|].
  rewrite E in Ek. cbn in Ek. by rewrite key_eqb_refl in Ek.
Qed.

Lemma detach_all_outputs_spec g V this : graph_ok g V -> exists_in g this ->
  exists g' V' D, detach_all_outputs g this = Ok g' /\ graph_ok g' V' /\ same_frame g g' /\ took_out g V g' V' D /\ chain_ok g' /\
    forall x i, list_at (V' x) i = kept (originator_of (signals g)) (Some this) (list_at (V x) i).
Proof.
  intros Hg [mc Em]. set (orig := originator_of (signals g)).
  assert (forall n s, (n, s) ∈ output mc -> is_Some (signals g !! s) /\ orig s = this) as Hos.
  { intros n s Hin. apply mfind_elem in Hin; [|by apply (ok_output_keys _ _ Hg this)].
    destruct (ok_output _ _ Hg this mc n s Em Hin) as (sg & E & Ho & _). split; [by exists sg|].
    unfold orig, originator_of. by rewrite E. }
  destruct (detach_outputs this orig (output mc) g V Hg) as (g1 & V1 & D & E1 & Hg1 & F1 & T1 & P1 & L1); [done|done|].
  unfold detach_all_outputs, at_machine. rewrite Em. cbn [rbind]. rewrite E1. cbn [rbind].
  destruct (recalculate_keeps g1 V1 Hg1) as (g2 & E2 & Hg2 & F2 & C2 & _ & B2). exists g2, V1, D.
  split; [done|]. split; [done|]. split; [by eapply same_frame_trans|].
  split; [rewrite <- (app_nil_r D); eapply took_trans; [exact F1|exact T1|by apply took_nothing]|]. split; [done|].
  intros x i. destruct (P1 x i) as [E|E]; [|done]. rewrite E. symmetry. unfold kept.
  assert (forall l, (forall s, s ∈ l -> orig s <> this) -> List.filter (fun s => negb (orig s =? this)) l = l) as Hid.
  { induction l as [|a l IH]; intros Hl; [done|]. cbn. rewrite (proj2 (Z.eqb_neq _ _)) by (apply Hl; left). cbn.
    f_equal. apply IH. intros s Hs. apply Hl. by right. }
  apply Hid. intros s Hs Ho.
  assert (s ∈ links (V1 x)) as Hl by (apply elem_of_links; [by eapply ok_view|exists i; by rewrite E]).
  destruct (ok_source _ _ Hg1 x s Hl) as (m1 & sg & Es & Em1 & Eo1).
  assert (originator sg = this) as Hor.
  { rewrite <- Ho. unfold orig. rewrite <- (frame_originator _ _ F1 s). unfold originator_of. by rewrite Es. }
  rewrite Hor in Em1. destruct (frame_machine _ _ F1 this mc Em) as (inputs & dep & Em2).
  assert (m1 = with_inputs mc inputs dep) as -> by congruence. cbn [output with_inputs] in Eo1.
  apply mfind_elem in Eo1; [|by apply (ok_output_keys _ _ Hg this)]. by apply (L1 _ s x Eo1).
Qed.

Lemma detach_and_destroy_spec g V this : graph_ok g V -> exists_in g this ->
  exists g' V' D, detach_and_destroy g this = Ok g' /\ graph_ok g' V' /\ same_frame g g' /\ took_out g V g' V' D /\ chain_ok g' /\ V' this = [] /\
    forall x i, x <> this -> list_at (V' x) i = kept (originator_of (signals g)) (Some this) (list_at (V x) i).
Proof.
  intros Hg Hex. unfold detach_and_destroy.
  destruct (detach_all_inputs_spec g V None this Hg Hex) as (g1 & V1 & D1 & -> & Hg1 & F1 & T1 & _ & K1 & L1). cbn [rbind].
  destruct (detach_all_outputs_spec g1 V1 this Hg1) as (g2 & V2 & D2 & -> & Hg2 & F2 & T2 & C2 & L2); [by apply (frame_exists _ _ F1)|].
  exists g2, V2, (D1 ++ D2). split; [done|]. split; [done|]. split; [by eapply same_frame_trans|]. split; [by eapply took_trans|]. split; [done|]. split.
  - apply (no_links g2); [done|]. intros i. by rewrite L2, L1.
  - intros x i Hx. rewrite L2, K1 by done. apply kept_ext. intros s. apply (frame_originator _ _ F1).
Qed.

(** C13: A machine that is taken out leaves the graph well-formed and everyone else's links as
    they were: it listens to nobody, nobody listens to it, and every input of the other machines
    keeps the signals of other machines in their order. The loops of [detach_all_inputs] and
    [detach_all_outputs] always end, and every link that goes is told to the listeners once. *)
Theorem detach_and_destroy_isolates g V this : graph_ok g V -> exists_in g this ->
  exists g' V' D, detach_and_destroy g this = Ok g' /\ graph_ok g' V' /\ chain_ok g' /\ V' this = [] /\
    (forall x i, x <> this -> list_at (V' x) i = kept (originator_of (signals g)) (Some this) (list_at (V x) i)) /\
    took_out g V g' V' D.
Proof.
  intros Hg Hex. destruct (detach_and_destroy_spec g V this Hg Hex) as (g' & V' & D & H1 & H2 & _ & H3 & H4 & H5 & H6).
  by exists g', V', D.
Qed.

Lemma detach_and_destroy_isolates_witness : exists g' V', detach_and_destroy ex_linked 1 = Ok g' /\ graph_ok g' V' /\ chain_ok g' /\
  V' 1 = [] /\ list_at (V' 2) "in" = [].
Proof.
  destruct (detach_and_destroy_isolates ex_linked _ 1 ex_linked_ok) as (g' & V' & D & E & Hok & Hc & H1 & H2 & _); [by eexists|].
  exists g', V'. split_and!; [exact E|exact Hok|exact Hc|exact H1|]. rewrite H2 by done. vm_compute. reflexivity.
Defined.
