(* ===== verification/GraphTold.v ===== *)
(** * What the listeners of the machine graph are told

    The notifications of the graph, in order, are a ledger: which machines are registered and
    what is attached to them. Whatever is done to the graph, the ledger agrees with it. *)

From Stdlib Require Import String ZArith Lia List Permutation.
From stdpp Require Import base list gmap numbers option relations sets strings.
From S2P Require Import Prelude DoubleList StdMap MachineClock SignalLinks MachineGraph GraphPaths GraphLinks GraphDetach.
Local Open Scope string_scope.
Local Open Scope list_scope.
Local Open Scope Z_scope.
Local Open Scope vk_scope.

(** A link of a machine: the source, its output, and the input. *)
Abbreviation link_data := (Z * (string * string))%type.

Definition link_of (g : graph) (i : string) (s : Z) : link_data :=
  (originator_of (signals g) s, (name_of (signals g) s, i)).

Definition linked (g : graph) (V : Z -> inputs_view) (x : Z) (t : link_data) : Prop :=
  exists i s, s ∈ list_at (V x) i /\ t = link_of g i s.

Lemma frame_link g g' i s : same_frame g g' -> link_of g' i s = link_of g i s.
Proof. intros F. unfold link_of. by rewrite (frame_originator _ _ F), (frame_name _ _ F). Qed.

(** A link is one signal. *)
Lemma link_inj g V x i s i' s' : graph_ok g V -> s ∈ list_at (V x) i -> s' ∈ list_at (V x) i' ->
  link_of g i s = link_of g i' s' -> i = i' /\ s = s'.
Proof.
  intros Hg Hs Hs' [= H1 H2 ->]. split; [done|]. pose proof (ok_view g V x Hg) as Hv.
  assert (forall i s, s ∈ list_at (V x) i -> exists mc, machines g !! originator_of (signals g) s = Some mc /\
    mfind (output mc) (name_of (signals g) s) = Some s) as Hsrc.
  { intros j a Ha. destruct (ok_source _ _ Hg x a) as (mc & sg & E1 & E2 & E3); [apply elem_of_links; [done|by exists j]|].
    exists mc. unfold originator_of, name_of. by rewrite E1. }
  destruct (Hsrc _ _ Hs) as (mc & E1 & E2), (Hsrc _ _ Hs') as (mc' & E1' & E2'). rewrite H1, H2 in *.
  rewrite E1 in E1'. injection E1' as <-. congruence.
Qed.

Section told.
(** Which machines get an object of their own on the server, and names that its text can hold. *)
Context (shown : Z -> bool) (output_ok input_ok : string -> Prop).

Abbreviation ledger := (gmap Z (list link_data)).

Definition without (t : link_data) (c : list link_data) : list link_data := List.filter (fun t' => negb (bool_decide (t' = t))) c.

(** One notification; those about machines that are not in the ledger change nothing. *)
Definition hear (L : ledger) (b : broadcast) : ledger :=
  match b with
  | MachineRegistered m => if shown m then <[m := []]> L else L
  | MachineUnregistered m => delete m L
  | InputAttached s d o i =>
      match L !! s, L !! d with Some _, Some c => <[d := (s, (o, i)) :: c]> L | _, _ => L end
  | InputDetached s d o i =>
      match L !! s, L !! d with Some _, Some c => <[d := without (s, (o, i)) c]> L | _, _ => L end
  end.

Definition heard (bs : list broadcast) : ledger := fold_left hear bs ∅.

(** What [hear] needs to be faithful: machines are registered once and leave unlinked, links are
    made once and have names. *)
Definition good (L : ledger) (b : broadcast) : Prop :=
  match b with
  | MachineRegistered m => shown m = true -> L !! m = None
  | MachineUnregistered m => (forall c, L !! m = Some c -> c = []) /\ forall x c t, L !! x = Some c -> t ∈ c -> fst t <> m
  | InputAttached s d o i => (output_ok o /\ input_ok i) /\ forall c, L !! d = Some c -> (s, (o, i)) ∉ c
  | InputDetached _ _ o i => output_ok o /\ input_ok i
  end.

Inductive proper : list broadcast -> Prop :=
| proper_nil : proper []
| proper_snoc bs b : proper bs -> good (heard bs) b -> proper (bs ++ [b]).

Lemma heard_snoc bs b : heard (bs ++ [b]) = hear (heard bs) b.
Proof. unfold heard. by rewrite fold_left_app. Qed.

Lemma proper_split bs : proper bs -> forall bs1 b bs2, bs = bs1 ++ b :: bs2 -> good (heard bs1) b.
Proof.
  induction 1 as [|bs b Hp IH Hb]; intros bs1 b' bs2 E; [by destruct bs1|].
  destruct bs2 as [|b2 bs2 _] using rev_ind.
  - apply app_inj_tail in E as [<- <-]. exact Hb.
  - rewrite app_comm_cons, app_assoc in E. apply app_inj_tail in E as [E _]. by apply (IH bs1 b' bs2).
Qed.

Lemma proper_prefix bs2 bs1 : proper (bs1 ++ bs2) -> proper bs1.
Proof.
  induction bs2 as [|b bs2 IH] using rev_ind; [by rewrite app_nil_r|]. rewrite app_assoc. intros H. apply IH.
  inversion H as [E|bs b' Hp Hb E]; [by destruct (bs1 ++ bs2)|]. by apply app_inj_tail in E as [-> _].
Qed.

(** A ledger whose links are between its machines. *)
Record ledger_ok (L : ledger) : Prop := {
  ledger_closed x c t : L !! x = Some c -> t ∈ c -> is_Some (L !! fst t);
  ledger_named x c t : L !! x = Some c -> t ∈ c -> output_ok (fst (snd t)) /\ input_ok (snd (snd t));
  ledger_nodup x c : L !! x = Some c -> NoDup c
}.

Lemma elem_without t c t' : t' ∈ without t c <-> t' ∈ c /\ t' <> t.
Proof. unfold without. rewrite elem_of_bool_filter. by case_bool_decide; intuition. Qed.

Lemma without_nodup t c : NoDup c -> NoDup (without t c).
Proof. apply NoDup_bool_filter. Qed.

Lemma ledger_insert (L : ledger) d c0 c : L !! d = Some c0 -> ledger_ok L -> NoDup c ->
  (forall t, t ∈ c -> t ∈ c0 \/ is_Some (L !! fst t) /\ output_ok (fst (snd t)) /\ input_ok (snd (snd t))) -> ledger_ok (<[d := c]> L).
Proof.
  intros Ed [H1 H2 H3] Hnd Hc.
  assert (forall x, is_Some (L !! x) -> is_Some (<[d := c]> L !! x)) as Hdom.
  { intros x Hx. destruct (Z.eq_dec d x) as [->|Hne]; [rewrite lookup_insert_eq; by eexists|by rewrite lookup_insert_ne]. }
  split; intros x c'; destruct (Z.eq_dec d x) as [<-|Hne]; rewrite ?lookup_insert_eq, ?lookup_insert_ne by done.
  - intros t [= <-] Ht. apply Hdom. destruct (Hc t Ht) as [Ht0|[Ht0 _]]; [by apply (H1 d c0)|done].
  - intros t E Ht. apply Hdom. by apply (H1 x c').
  - intros t [= <-] Ht. destruct (Hc t Ht) as [Ht0|[_ Ht0]]; [by apply (H2 d c0)|done].
  - intros t E Ht. by apply (H2 x c').
  - by intros [= <-].
  - intros E. by apply (H3 x).
Qed.

Lemma hear_ok L b : ledger_ok L -> good L b -> ledger_ok (hear L b).
Proof.
  intros HL Hb. pose proof HL as [H1 H2 H3]. destruct b as [m|m|s d o i|s d o i]; cbn [hear good] in *.
  - destruct (shown m); [|done]. split; intros x c; destruct (Z.eq_dec m x) as [<-|Hne]; rewrite ?lookup_insert_eq, ?lookup_insert_ne by done.
    + intros t [= <-] Ht. by apply not_elem_of_nil in Ht.
    + intros t E Ht. destruct (H1 x c t E Ht) as [c' E']. destruct (Z.eq_dec m (fst t)) as [<-|Hnt]; [rewrite lookup_insert_eq; by eexists|].
      rewrite lookup_insert_ne by done. by exists c'.
    + intros t [= <-] Ht. by apply not_elem_of_nil in Ht.
    + apply H2.
    + intros [= <-]. constructor.
    + apply H3.
  - destruct Hb as [_ Hb]. split; intros x c; (destruct (Z.eq_dec m x) as [<-|Hne]; [by rewrite lookup_delete_eq|rewrite lookup_delete_ne by done]).
    + intros t E Ht. rewrite lookup_delete_ne; [by apply (H1 x c)|]. intros E'. by apply (Hb x c t E Ht).
    + apply H2.
    + apply H3.
  - destruct Hb as [Hn Hf]. destruct (L !! s) as [cs|] eqn:Es; [|done]. destruct (L !! d) as [c|] eqn:Ed; [|done].
    apply (ledger_insert L d c); [done|done|apply list.NoDup_cons; split; [by apply Hf|by apply (H3 d)]|].
    intros t [->|Ht]%elem_of_cons; [|by left]. right. split; [by eexists|done].
  - destruct (L !! s) as [cs|] eqn:Es; [|done]. destruct (L !! d) as [c|] eqn:Ed; [|done].
    apply (ledger_insert L d c); [done|done|by apply without_nodup, (H3 d)|]. intros t [Ht _]%elem_without. by left.
Qed.

Lemma heard_ok bs : proper bs -> ledger_ok (heard bs).
Proof.
  induction 1 as [|bs b Hp IH Hb]; [|rewrite heard_snoc; by apply hear_ok].
  unfold heard. cbn. by split; intros x c; rewrite lookup_empty.
Qed.

(** A link taken away, for machines of the ledger. *)
Lemma hear_detached L g (x : Z) i s y : let L' := hear L (detached g (x, i, s)) in
  match L !! y with
  | None => L' !! y = None
  | Some c => exists c', L' !! y = Some c' /\ (NoDup c -> NoDup c') /\
      forall t, t ∈ c' <-> t ∈ c /\ ~ (is_Some (L !! fst t) /\ y = x /\ t = link_of g i s)
  end.
Proof.
  cbv zeta. cbn [hear detached]. set (o := originator_of (signals g) s). set (t0 := (o, (name_of (signals g) s, i))).
  destruct (L !! o) as [co|] eqn:Eo.
  2:{ destruct (L !! y) as [c|]; [|done]. exists c. split; [done|]. split; [done|]. intros t. split; [|tauto].
      intros Ht. split; [done|]. intros ([? H] & _ & ->). cbn in H. unfold o in Eo. congruence. }
  destruct (L !! x) as [c0|] eqn:Ex.
  2:{ destruct (L !! y) as [c|] eqn:Ey; [|done]. exists c. split; [done|]. split; [done|]. intros t. split; [|tauto].
      intros Ht. split; [done|]. intros (_ & -> & _). congruence. }
  destruct (Z.eq_dec x y) as [->|Hne].
  - rewrite Ex, lookup_insert_eq. exists (without t0 c0). split; [done|]. split; [apply without_nodup|].
    intros t. rewrite elem_without. split; intros [H1 H2]; (split; [done|]).
    + intros (_ & _ & ->). by apply H2.
    + intros ->. apply H2. split; [by exists co|done].
  - rewrite lookup_insert_ne by done. destruct (L !! y) as [c|]; [|done]. exists c. split; [done|]. split; [done|].
    intros t. split; [|tauto]. intros Ht. split; [done|]. by intros (_ & -> & _).
Qed.

(** All the links of [D]. *)
Lemma heard_taken g (D : list (Z * string * Z)) : forall L y, let L' := fold_left hear (map (detached g) D) L in
  match L !! y with
  | None => L' !! y = None
  | Some c => exists c', L' !! y = Some c' /\ (NoDup c -> NoDup c') /\
      forall t, t ∈ c' <-> t ∈ c /\ ~ (is_Some (L !! fst t) /\ exists i s, (y, i, s) ∈ D /\ t = link_of g i s)
  end.
Proof.
  induction D as [|[[x i] s] D IH]; intros L y; cbv zeta.
  - cbn. destruct (L !! y) as [c|]; [|done]. exists c. split; [done|]. split; [done|]. intros t.
    split; [|tauto]. intros Ht. split; [done|]. by intros (_ & j & s & ?%not_elem_of_nil & _).
  - cbn [map fold_left]. specialize (IH (hear L (detached g (x, i, s))) y). cbv zeta in IH.
    assert (forall z, is_Some (hear L (detached g (x, i, s)) !! z) <-> is_Some (L !! z)) as Hdom.
    { intros z. pose proof (hear_detached L g x i s z) as H. cbv zeta in H.
      destruct (L !! z) as [c|]; [destruct H as (c' & -> & _); by split; eexists|by rewrite H]. }
    pose proof (hear_detached L g x i s y) as H1. cbv zeta in H1. destruct (L !! y) as [c|]; [|by rewrite H1 in IH].
    destruct H1 as (c1 & E1 & N1 & M1). rewrite E1 in IH. destruct IH as (c' & E' & N' & M').
    exists c'. split; [done|]. split; [by auto|]. intros t. rewrite M', M1, Hdom. setoid_rewrite elem_of_cons.
    split.
    + intros [[H1 H2] H3]. split; [done|]. intros (Hs & j & a & [[= -> -> ->]|Hin] & ->); [by apply H2|].
      apply H3. split; [done|]. by exists j, a.
    + intros [H1 H2]. split; [split; [done|]|].
      * intros (Hs & -> & ->). apply H2. split; [done|]. exists i, s. split; [by left|done].
      * intros (Hs & j & a & Hin & ->). apply H2. split; [done|]. exists j, a. split; [by right|done].
Qed.

Lemma taken_dom g D L y : is_Some (fold_left hear (map (detached g) D) L !! y) <-> is_Some (L !! y).
Proof.
  pose proof (heard_taken g D L y) as H. cbv zeta in H.
  destruct (L !! y) as [c|]; [destruct H as (c' & -> & _); by split; eexists|by rewrite H].
Qed.
(** ** The ledger agrees with the graph *)

Abbreviation registered g x := (is_Some (mfind (machine_set g) x)).

Record told_ok (g : graph) (V : Z -> inputs_view) : Prop := {
  told_proper : proper (broadcasts g);
  told_set : smap_ok (machine_set g);
  told_known x : is_Some (heard (broadcasts g) !! x) <-> shown x = true /\ registered g x;
  told_links x c : heard (broadcasts g) !! x = Some c -> NoDup c /\ forall t, t ∈ c <-> linked g V x t /\ shown (fst t) = true;
  told_registered x t : linked g V x t -> (shown x = true -> registered g x) /\ (shown (fst t) = true -> registered g (fst t));
  told_named x t : linked g V x t -> output_ok (fst (snd t)) /\ input_ok (snd (snd t))
}.

(** A listener of a signal of its own. *)
Lemma linked_attach g V g' this i s : graph_ok g V -> same_frame g g' ->
  forall x t, linked g' (view_set V this (put_list (V this) i (after_first (list_at (V this) i) s))) x t <->
    linked g V x t \/ x = this /\ t = link_of g i s.
Proof.
  intros Hg F x t. pose proof (ok_view g V this Hg) as Hv. unfold linked, view_set. destruct (Z.eqb_spec x this) as [->|Hne].
  2:{ split; [intros (j & a & Ha & ->); left; exists j, a; split; [done|by apply frame_link]|].
      intros [(j & a & Ha & ->)|[? _]]; [|done]. exists j, a. split; [done|by rewrite (frame_link g g')]. }
  assert (forall a, a ∈ after_first (list_at (V this) i) s <-> a = s \/ a ∈ list_at (V this) i) as Haf.
  { intros a. destruct (list_at (V this) i) as [|b l]; cbn; rewrite !elem_of_cons; [|tauto]. by intuition. }
  split.
  - intros (j & a & Ha & ->). rewrite list_at_put in Ha by done. rewrite (frame_link g g') by done. destruct (key_eqb j i) eqn:E.
    + apply key_eqb_spec in E as ->. apply Haf in Ha as [->|Ha]; [by right|]. left. by exists i, a.
    + left. by exists j, a.
  - intros [(j & a & Ha & ->)|[_ ->]].
    + exists j, a. rewrite list_at_put, (frame_link g g') by done. split; [|done]. destruct (key_eqb j i) eqn:E; [|done].
      apply key_eqb_spec in E as ->. apply Haf. by right.
    + exists i, s. rewrite list_at_put, key_eqb_refl, (frame_link g g') by done. split; [|done]. apply Haf. by left.
Qed.

Lemma told_attach g V g' this m o i s src : graph_ok g V -> told_ok g V -> same_frame g g' ->
  machines g !! m = Some src -> mfind (output src) o = Some s -> s ∉ links (V this) ->
  broadcasts g' = broadcasts g ++ [InputAttached m this o i] ->
  (shown this = true -> registered g this) -> (shown m = true -> registered g m) -> output_ok o -> input_ok i ->
  told_ok g' (view_set V this (put_list (V this) i (after_first (list_at (V this) i) s))).
Proof.
  intros Hg [T1 T2 T3 T4 T5 T6] F Em Eo Hn Hb Hthis Hm Hoo Hii. pose proof (linked_attach g V g' this i s Hg F) as Hl.
  destruct (ok_output _ _ Hg m src o s Em Eo) as (sg & Es & Hos & Hns).
  assert (link_of g i s = (m, (o, i))) as Hlk by (unfold link_of, originator_of, name_of; by rewrite Es, Hos, Hns).
  rewrite Hlk in Hl. set (V' := view_set _ _ _) in *.
  assert (~ linked g V this (m, (o, i))) as Hfresh.
  { intros (j & a & Ha & Hlk'). assert (a ∈ links (V this)) as Hal by (apply elem_of_links; [by eapply ok_view|by exists j]).
    destruct (ok_source _ _ Hg this a Hal) as (mc & ag & E1 & E2 & E3). unfold link_of, originator_of, name_of in Hlk'.
    rewrite E1 in Hlk'. injection Hlk' as -> -> ->. congruence. }
  split; rewrite ?Hb, ?heard_snoc, ?(frame_set _ _ F).
  - apply proper_snoc; [done|]. split; [done|]. intros c Hc Hin. by apply (T4 this c Hc) in Hin as [Hin _].
  - done.
  - intros x. rewrite <- T3. cbn [hear]. destruct (heard (broadcasts g) !! m); [|done]. destruct (heard (broadcasts g) !! this) as [c|] eqn:E; [|done].
    destruct (Z.eq_dec this x) as [->|Hne]; [rewrite lookup_insert_eq, E; by split; eexists|by rewrite lookup_insert_ne].
  - intros x c. cbn [hear].
    assert (heard (broadcasts g) !! x = Some c -> (x = this -> shown m = false) -> NoDup c /\ forall t, t ∈ c <-> linked g' V' x t /\ shown (fst t) = true) as Hsame.
    { intros E Hx. destruct (T4 x c E) as [Hnd Hc]. split; [done|]. intros t. rewrite Hl, Hc. split; [tauto|].
      intros [[Hlt|[-> ->]] Hs]; [done|]. cbn in Hs. by rewrite Hx in Hs. }
    destruct (heard (broadcasts g) !! m) as [cm|] eqn:Ehm.
    2:{ intros E. apply Hsame; [done|]. intros ->. destruct (shown m) eqn:Hsm; [|done].
        assert (is_Some (heard (broadcasts g) !! m)) as [? ?] by (apply T3; auto). congruence. }
    destruct (heard (broadcasts g) !! this) as [ct|] eqn:Eht; [|intros E; apply Hsame; [done|intros ->; congruence]].
    destruct (Z.eq_dec this x) as [<-|Hne]; [|rewrite lookup_insert_ne by done; intros E; apply Hsame; [done|by intros ->]].
    rewrite lookup_insert_eq. intros [= <-]. destruct (T4 this ct Eht) as [Hnd Hc]. split.
    + apply list.NoDup_cons. split; [|done]. by intros [Hin _]%Hc.
    + intros t. rewrite elem_of_cons, Hl, Hc. assert (shown m = true) by (apply T3; by exists cm). split.
      * intros [->|[H1 H2]]; [split; [by right|done]|split; [by left|done]].
      * intros [[H1|[_ ->]] H2]; [by right|by left].
  - intros x t [H|[-> ->]]%Hl; [by apply T5|]. by split.
  - intros x t [H|[-> ->]]%Hl; [by eapply T6|]. by split.
Qed.

(** Links taken out. *)
Lemma linked_took g V g' V' D : graph_ok g V -> same_frame g g' -> took_out g V g' V' D ->
  forall x t, linked g' V' x t <-> linked g V x t /\ ~ exists i s, (x, i, s) ∈ D /\ t = link_of g i s.
Proof.
  intros Hg F [B1 B2 B3 B4] x t. unfold linked. split.
  - intros (i & s & Hs & ->). apply B2 in Hs as [Hs Hd]. rewrite (frame_link g g') by done. split; [by exists i, s|].
    intros (j & a & Hin & Heq). destruct (link_inj g V x i s j a) as [-> ->]; try done. by apply B3.
  - intros [(i & s & Hs & ->) Hn]. exists i, s. rewrite (frame_link g g') by done. split; [|done]. apply B2. split; [done|].
    intros Hin. apply Hn. by exists i, s.
Qed.

Lemma proper_taken g D : (forall x i s, (x, i, s) ∈ D -> output_ok (name_of (signals g) s) /\ input_ok i) ->
  forall bs, proper bs -> proper (bs ++ map (detached g) D).
Proof.
  intros HD bs Hp. induction D as [|[[x i] s] D IH] using rev_ind; [by rewrite app_nil_r|].
  rewrite map_app, app_assoc. apply proper_snoc.
  - apply IH. intros y j a Hin. apply (HD y). apply elem_of_app. by left.
  - cbn [good detached]. apply (HD x). apply elem_of_app. right. left.
Qed.

Lemma told_took g V g' V' D : graph_ok g V -> told_ok g V -> same_frame g g' -> took_out g V g' V' D -> told_ok g' V'.
Proof.
  intros Hg [T1 T2 T3 T4 T5 T6] F Htook. pose proof (linked_took g V g' V' D Hg F Htook) as Hl. destruct Htook as [B1 B2 B3 B4].
  assert (forall y, is_Some (heard (broadcasts g') !! y) <-> is_Some (heard (broadcasts g) !! y)) as Hdom.
  { intros y. rewrite B1. unfold heard. rewrite fold_left_app. apply taken_dom. }
  split; rewrite ?(frame_set _ _ F).
  - rewrite B1. apply proper_taken; [|done]. intros x i s Hin. apply (T6 x (link_of g i s)). exists i, s. split; [by apply B3|done].
  - done.
  - intros x. by rewrite Hdom.
  - intros x c' E'. pose proof (heard_taken g D (heard (broadcasts g)) x) as H. cbv zeta in H.
    assert (heard (broadcasts g') = fold_left hear (map (detached g) D) (heard (broadcasts g))) as Hh by (unfold heard; by rewrite B1, fold_left_app).
    rewrite <- Hh in H. destruct (heard (broadcasts g) !! x) as [c|] eqn:E; [|congruence].
    destruct H as (c1 & E1 & N1 & M1). rewrite E' in E1. injection E1 as <-. destruct (T4 x c E) as [Hnd Hc].
    split; [by apply N1|]. intros t. rewrite M1, Hc, Hl. split.
    + intros [[H1 H2] H3]. split; [split; [done|]|done]. intros Hex. apply H3. split; [|done].
      apply T3. split; [done|]. by apply (T5 x t).
    + intros [[H1 H2] H3]. split; [done|]. intros [_ Hex]. by apply H2.
  - intros x t [H _]%Hl. by apply T5.
  - intros x t [H _]%Hl. by apply (T6 x).
Qed.
(** ** Registering and leaving *)

(** Changes of machines that keep their links. *)
Record same_links (g g' : graph) : Prop := {
  same_machine x : match machines g !! x, machines g' !! x with
    | Some a, Some b => exists t d, b = with_deregistered (with_tight a t) d
    | None, None => True
    | _, _ => False
    end;
  same_heap : signals g' = signals g;
  same_sink s : sink g' = Some s -> sink g = Some s \/ exists_in g s;
  same_told : broadcasts g `prefix_of` broadcasts g'
}.

Lemma same_links_refl g g' : machines g' = machines g -> signals g' = signals g ->
  (forall s, sink g' = Some s -> sink g = Some s \/ exists_in g s) -> broadcasts g `prefix_of` broadcasts g' -> same_links g g'.
Proof.
  intros E1 E2 E3 E4. split; [|done|done|done]. intros x. rewrite E1. destruct (machines g !! x) as [mc|]; [|done].
  exists (tightly_connected mc), (has_been_deregistered mc). by destruct mc.
Qed.

Lemma same_links_update g g' m mc t d : machines g !! m = Some mc ->
  machines g' = <[m := with_deregistered (with_tight mc t) d]> (machines g) -> signals g' = signals g ->
  (forall s, sink g' = Some s -> sink g = Some s \/ exists_in g s) -> broadcasts g `prefix_of` broadcasts g' -> same_links g g'.
Proof.
  intros Em Em' Hs Hk Ht. split; [|done|done|done]. intros x. rewrite Em'. destruct (Z.eq_dec m x) as [->|Hne].
  - rewrite lookup_insert_eq, Em. by exists t, d.
  - rewrite lookup_insert_ne by done. destruct (machines g !! x) as [mx|]; [|done].
    exists (tightly_connected mx), (has_been_deregistered mx). by destruct mx.
Qed.

Lemma same_links_exists g g' x : same_links g g' -> exists_in g' x <-> exists_in g x.
Proof.
  intros [H _ _ _]. specialize (H x). unfold exists_in. destruct (machines g !! x), (machines g' !! x); try done; split; intros _; by eexists.
Qed.

Lemma same_links_machine g g' x mx : same_links g g' -> machines g' !! x = Some mx -> exists mc, machines g !! x = Some mc /\
  input mx = input mc /\ output mx = output mc /\ dependant mx = dependant mc /\ input_descriptor mx = input_descriptor mc.
Proof.
  intros [H _ _ _] E. specialize (H x). rewrite E in H. destruct (machines g !! x) as [mc|]; [|done].
  destruct H as (t & d & ->). by exists mc.
Qed.

Lemma graph_ok_links g V g' : graph_ok g V -> same_links g g' -> graph_ok g' V.
Proof.
  intros Hg Hs. pose proof (fun x => same_links_exists g g' x Hs) as Hex. pose proof (fun x mx => same_links_machine g g' x mx Hs) as Hmc.
  pose proof (same_heap _ _ Hs) as Eh. destruct Hg as [H1 H2 H3 H4 H5 H6 H7 H8 H9 H10 H11]. split; rewrite ?Eh; try done.
  - intros x Hx. apply H1. by rewrite <- Hex.
  - intros x mx (mc & E & -> & _)%Hmc. by apply H2.
  - intros x mx (mc & E & _ & _ & -> & _)%Hmc. by apply H6.
  - intros x s (mc & sg & E1 & E2 & E3)%H7. pose proof (same_machine _ _ Hs (originator sg)) as Hm. rewrite E2 in Hm.
    destruct (machines g' !! originator sg) as [b|] eqn:E; [|done]. destruct Hm as (t & d & ->). eexists _, sg. by rewrite Eh.
  - intros x mx n s (mc & E & _ & -> & _)%Hmc. by apply H8.
  - intros x mx (mc & E & _ & -> & _)%Hmc. by apply (H9 x).
  - apply (acyclic_fewer g); [done|done|]. intros x o (mx & (mc & E & _ & _ & Ed & _)%Hmc & Ho). exists mc. by rewrite <- Ed.
  - intros s Es. apply Hex. destruct (same_sink _ _ Hs s Es) as [E|E]; [by apply H11|done].
Qed.

Lemma linked_links g V g' x t : signals g' = signals g -> linked g' V x t <-> linked g V x t.
Proof. intros E. unfold linked, link_of. by rewrite E. Qed.

Lemma told_links_same g V g' : told_ok g V -> signals g' = signals g -> machine_set g' = machine_set g -> broadcasts g' = broadcasts g -> told_ok g' V.
Proof.
  intros [T1 T2 T3 T4 T5 T6] E1 E2 E3. pose proof (fun x t => linked_links g V g' x t E1) as Hlk.
  split; rewrite ?E2, ?E3; try done; setoid_rewrite Hlk; done.
Qed.

Lemma told_register g V g' m : told_ok g V -> signals g' = signals g -> mfind (machine_set g) m = None ->
  machine_set g' = mset (machine_set g) m tt -> broadcasts g' = broadcasts g ++ [MachineRegistered m] -> told_ok g' V.
Proof.
  intros [T1 T2 T3 T4 T5 T6] E1 Em E2 E3.
  assert (forall x, registered g' x <-> x = m \/ registered g x) as Hreg.
  { intros x. rewrite E2, mfind_mset by done. destruct (key_eqb x m) eqn:E.
    - apply key_eqb_spec in E as ->. split; [by left|by intros _; eexists].
    - split; [by right|]. intros [->|H]; [by rewrite key_eqb_refl in E|done]. }
  assert (shown m = true -> heard (broadcasts g) !! m = None) as Hnone.
  { intros Hm. destruct (heard (broadcasts g) !! m) eqn:E; [|done].
    assert (is_Some (heard (broadcasts g) !! m)) as [_ [? ?]]%T3 by (by eexists). congruence. }
  pose proof (fun x t => linked_links g V g' x t E1) as Hlk.
  split; rewrite ?E3, ?heard_snoc; try setoid_rewrite Hlk; try done.
  - by apply proper_snoc.
  - rewrite E2. by apply mset_ok.
  - intros x. rewrite Hreg. cbn [hear]. destruct (shown m) eqn:Hm.
    + destruct (Z.eq_dec m x) as [->|Hne]; [rewrite lookup_insert_eq; split; [|by eexists]; intros _; by split; [|left]|].
      rewrite lookup_insert_ne, T3 by done. split; [intros [H1 H2]; by split; [|right]|]. intros [H1 [->|H2]]; done.
    + rewrite T3. split; [intros [H1 H2]; by split; [|right]|]. intros [H1 [->|H2]]; [congruence|done].
  - intros x c. cbn [hear]. destruct (shown m) eqn:Hm; [|apply T4]. destruct (Z.eq_dec m x) as [->|Hne].
    + rewrite lookup_insert_eq. intros [= <-]. split; [constructor|]. intros t. split; [by intros ?%not_elem_of_nil|].
      intros [Hl _]. apply T5 in Hl as [Hl _]. destruct (Hl Hm) as [? ?]. congruence.
    + rewrite lookup_insert_ne by done. apply T4.
  - intros x t Hl. destruct (T5 x t Hl) as [H1 H2]. split; intros H; apply Hreg; right; auto.
Qed.

Definition alone (g : graph) (V : Z -> inputs_view) (m : Z) : Prop :=
  forall x t, linked g V x t -> x <> m /\ fst t <> m.

Lemma told_deregister g V g' m : told_ok g V -> alone g V m -> signals g' = signals g ->
  machine_set g' = merase (machine_set g) m -> broadcasts g' = broadcasts g ++ [MachineUnregistered m] -> told_ok g' V.
Proof.
  intros [T1 T2 T3 T4 T5 T6] Ha E1 E2 E3.
  assert (forall x, registered g' x <-> x <> m /\ registered g x) as Hreg.
  { intros x. rewrite E2, mfind_merase by done. destruct (key_eqb x m) eqn:E.
    - apply key_eqb_spec in E as ->. split; [by intros [? ?]|by intros []].
    - split; [|by intros []]. intros H. split; [|done]. intros ->. by rewrite key_eqb_refl in E. }
  pose proof (fun x t => linked_links g V g' x t E1) as Hlk.
  split; rewrite ?E3, ?heard_snoc; try setoid_rewrite Hlk; try done.
  - apply proper_snoc; [done|]. split.
    + intros c Hc. destruct (T4 m c Hc) as [_ H]. destruct c as [|t c]; [done|]. exfalso.
      destruct (proj1 (H t) ltac:(left)) as [Hl _]. by destruct (Ha m t Hl).
    + intros x c t Hc Ht. apply (proj2 (T4 x c Hc)) in Ht as [Hl _]. by apply (Ha x t).
  - rewrite E2. by apply merase_ok.
  - intros x. rewrite Hreg. cbn [hear]. destruct (Z.eq_dec m x) as [->|Hne].
    + rewrite lookup_delete_eq. split; [by intros [? ?]|]. intros (_ & ? & _). done.
    + rewrite lookup_delete_ne, T3 by done. split; [intros [H1 H2]; by split; [|split]|]. by intros (H1 & _ & H2).
  - intros x c. cbn [hear]. destruct (Z.eq_dec m x) as [->|Hne]; [by rewrite lookup_delete_eq|]. rewrite lookup_delete_ne by done. apply T4.
  - intros x t Hl. destruct (T5 x t Hl) as [H1 H2], (Ha x t Hl) as [N1 N2]. split; intros H; apply Hreg; auto.
Qed.
(** ** Whatever is done to the graph *)

Definition well_named (g : graph) : Prop := forall x mc, machines g !! x = Some mc ->
  (forall n s, mfind (output mc) n = Some s -> output_ok n) /\ (forall i des, mfind (input_descriptor mc) i = Some des -> input_ok i).

Record net_ok (g : graph) (V : Z -> inputs_view) : Prop := {
  net_graph : graph_ok g V;
  net_told : told_ok g V;
  net_named : well_named g
}.

Lemma frame_named g g' : same_frame g g' -> well_named g -> well_named g'.
Proof.
  intros F Hw x mx E. destruct (proj1 (frame_exists _ _ F x)) as [mc Em]; [by eexists|].
  destruct (frame_machine _ _ F x mc Em) as (i & d & E'). rewrite E in E'. injection E' as ->. by apply (Hw x mc).
Qed.

Lemma links_named g g' : same_links g g' -> well_named g -> well_named g'.
Proof. intros Hs Hw x mx (mc & E & _ & -> & _ & ->)%(same_links_machine g g'); [|done]. by apply (Hw x). Qed.

Lemma net_took g V g' V' D : net_ok g V -> graph_ok g' V' -> same_frame g g' -> took_out g V g' V' D -> net_ok g' V'.
Proof. intros [H1 H2 H3] Hg' F Ht. split; [done|by apply (told_took g V g' V' D)|by apply (frame_named g)]. Qed.

Lemma net_same g V g' : net_ok g V -> same_links g g' -> machine_set g' = machine_set g -> broadcasts g' = broadcasts g -> net_ok g' V.
Proof. intros [H1 H2 H3] Hs E1 E2. split; [by apply (graph_ok_links g)|apply (told_links_same g); try done; by apply same_heap|by apply (links_named g)]. Qed.

(** Machines and links that go, and none that come. *)
Record fewer (g : graph) (V : Z -> inputs_view) (g' : graph) (V' : Z -> inputs_view) : Prop := {
  fewer_exists x : exists_in g' x <-> exists_in g x;
  fewer_links x t : linked g' V' x t -> linked g V x t;
  fewer_told : broadcasts g `prefix_of` broadcasts g'
}.

Lemma fewer_refl g V : fewer g V g V.
Proof. by split. Qed.

Lemma fewer_trans g1 V1 g2 V2 g3 V3 : fewer g1 V1 g2 V2 -> fewer g2 V2 g3 V3 -> fewer g1 V1 g3 V3.
Proof. intros [A1 A2 A3] [B1 B2 B3]. split; [intros x; by rewrite B1|auto|by etrans]. Qed.

Lemma fewer_same g V g' : same_links g g' -> fewer g V g' V.
Proof. intros Hs. split; [intros x; by apply same_links_exists| |apply Hs]. intros x t Hl. by apply (linked_links g V g' x t (same_heap _ _ Hs)). Qed.

Lemma alone_fewer g V g' V' m : fewer g V g' V' -> alone g V m -> alone g' V' m.
Proof. intros [_ H _] Ha x t Hl. by apply Ha, H. Qed.

(** A machine that was taken out has no links. *)
Lemma destroyed g V m : net_ok g V -> exists_in g m ->
  exists g' V', detach_and_destroy g m = Ok g' /\ net_ok g' V' /\ fewer g V g' V' /\ alone g' V' m.
Proof.
  intros Hn Hm. pose proof (net_graph _ _ Hn) as Hg.
  destruct (detach_and_destroy_spec g V m Hg Hm) as (g' & V' & D & E & Hg' & F & Htook & _ & Hvm & Hk).
  exists g', V'. split; [done|]. split; [by apply (net_took g V g' V' D)|]. pose proof (linked_took g V g' V' D Hg F Htook) as Hl.
  split; [split; [apply F|by intros x t [? _]%Hl|rewrite (took_told _ _ _ _ _ Htook); by eexists]|]. intros x t (i & s & Hs & ->). split.
  - intros ->. rewrite Hvm in Hs. by apply not_elem_of_nil in Hs.
  - destruct (Z.eq_dec x m) as [->|Hne]; [rewrite Hvm in Hs; by apply not_elem_of_nil in Hs|].
    rewrite Hk in Hs by done. apply elem_of_bool_filter in Hs as [_ Hs]. rewrite (frame_link g g') by done. cbn. zbool. congruence.
Qed.

(** The sink that is left is one of before. *)
Lemma deregistered g V m g' e : net_ok g V -> alone g V m -> internal_deregister_machine g m = Ok (g', e) ->
  net_ok g' V /\ same_links g g'.
Proof.
  intros Hn Ha. unfold internal_deregister_machine. destruct (mfind (machine_set g) m) as [u|] eqn:Em; [|intros [= <- _]; split; [done|by apply same_links_refl; try reflexivity; auto]].
  unfold at_machine. cbn [tell machines]. destruct (machines g !! m) as [mc|] eqn:E; [|done]. cbn [rbind].
  assert (mc = with_tight mc (tightly_connected mc)) as Hmc by (by destruct mc).
  assert (forall gs gr g2, gs = None \/ gs = sink g ->
    g2 = with_render (with_set (with_machine (tell g (MachineUnregistered m)) m (with_deregistered mc true)) (merase (machine_set g) m)) gs gr ->
    net_ok g2 V /\ same_links g g2) as Hfin.
  { intros gs gr g2 Hgs ->. assert (same_links g (with_render (with_set (with_machine (tell g (MachineUnregistered m)) m (with_deregistered mc true)) (merase (machine_set g) m)) gs gr)) as Hs.
    { apply (same_links_update g _ m mc (tightly_connected mc) true E); [by rewrite <- Hmc|done| |by eexists]. intros s. cbn. destruct Hgs as [->| ->]; [done|by left]. }
    split; [|exact Hs]. destruct Hn as [H1 H2 H3]. split; [by apply (graph_ok_links g)|by apply (told_deregister g V _ m)|by apply (links_named g)]. }
  cbn [sink with_set with_machine tell]. case_bool_decide as Hsink.
  - unfold internal_unregister_sink. cbn [sink with_set with_machine tell]. rewrite bool_decide_true by done.
    intros [= <- _]. apply (Hfin None []); [by left|done].
  - intros [= <- _]. apply (Hfin (sink g) (render g)); [by right|done].
Qed.

Lemma recalculated_net g V : net_ok g V -> exists g', recalculate_render_chain g = Ok g' /\ net_ok g' V /\ same_links g g'.
Proof.
  intros Hn. destruct (recalculate_spec g (acyclic_closed _ (ok_acyclic _ _ (net_graph _ _ Hn))) (ok_sink _ _ (net_graph _ _ Hn))) as (chain & E & _).
  assert (same_links g (with_render g (sink g) chain)) as Hs by (apply same_links_refl; try reflexivity; auto).
  eexists. split; [exact E|]. split; [by eapply net_same|done].
Qed.
Lemma tight_updated g V m mc t : net_ok g V -> machines g !! m = Some mc ->
  net_ok (with_machine g m (with_tight mc t)) V /\ same_links g (with_machine g m (with_tight mc t)).
Proof.
  intros Hn E. assert (same_links g (with_machine g m (with_tight mc t))) as Hs.
  { apply (same_links_update g _ m mc t (has_been_deregistered mc) E); [by destruct mc|done|by left|done]. }
  split; [by apply (net_same g)|done].
Qed.

Definition keeps_net (destroy : graph -> Z -> outcome) : Prop := forall g V m g' e, net_ok g V -> exists_in g m ->
  destroy g m = Ok (g', e) -> exists V', net_ok g' V' /\ fewer g V g' V'.

Lemma tight_loop_net destroy : keeps_net destroy -> forall steps g V this k g' e, net_ok g V ->
  destroy_tightly_attached_machines destroy steps g this k = Ok (g', e) -> exists V', net_ok g' V' /\ fewer g V g' V'.
Proof.
  intros Hd. induction steps as [|steps IH]; intros g V this [other|] g' e Hn; cbn [destroy_tightly_attached_machines];
    try (intros [= <- _]; exists V; split; [done|apply fewer_refl]); [done|].
  unfold at_machine at 1. destruct (machines g !! other) as [mo|] eqn:Eo; [|done]. cbn [rbind].
  destruct (tight_updated g V other mo (merase (tightly_connected mo) this) Hn Eo) as [Hn1 Hs1]. set (g1 := with_machine _ _ _) in *.
  unfold and_then. destruct (destroy g1 other) as [[g2 e2]|] eqn:E2; [|done]. cbn [rbind].
  destruct (Hd g1 V other g2 e2 Hn1) as (V2 & Hn2 & F2); [apply same_links_exists with g; [done|by exists mo]|done|].
  assert (fewer g V g2 V2) as F by (eapply fewer_trans; [by apply fewer_same|done]).
  destruct e2; [intros [= <- _]; by exists V2|]. unfold at_machine. destruct (machines g2 !! this) as [mt|]; [|done]. cbn [rbind].
  destruct (mfind (tightly_connected mt) other); [|done]. intros H. destruct (IH _ V2 _ _ _ _ Hn2 H) as (V3 & Hn3 & F3).
  exists V3. split; [done|]. by eapply fewer_trans.
Qed.

Lemma disconnect_net fuel : keeps_net (internal_disconnect_and_destroy fuel).
Proof.
  induction fuel as [|fuel IH]; intros g V m g' e Hn Hm; [done|]. cbn [internal_disconnect_and_destroy].
  destruct (destroyed g V m Hn Hm) as (g1 & V1 & -> & Hn1 & F1 & Ha1). cbn [rbind].
  unfold at_machine at 1. destruct (machines g1 !! m) as [mc|] eqn:Em; [|done]. cbn [rbind]. unfold and_then at 1.
  destruct (destroy_tightly_attached_machines _ fuel g1 m _) as [[g2 e2]|] eqn:E2; [|done]. cbn [rbind].
  destruct (tight_loop_net _ IH fuel g1 V1 m _ g2 e2 Hn1 E2) as (V2 & Hn2 & F2).
  assert (fewer g V g2 V2) as F by (by eapply fewer_trans). destruct e2; [intros [= <- _]; by exists V2|].
  pose proof (alone_fewer _ _ _ _ _ F2 Ha1) as Ha2. unfold and_then.
  destruct (internal_deregister_machine g2 m) as [[g3 e3]|] eqn:E3; [|done]. cbn [rbind].
  destruct (deregistered g2 V2 m g3 e3 Hn2 Ha2 E3) as [Hn3 Hs3].
  assert (fewer g V g3 V2) as F' by (eapply fewer_trans; [exact F|by apply fewer_same]). destruct e3; [intros [= <- _]; by exists V2|].
  destruct (recalculated_net g3 V2 Hn3) as (g4 & -> & Hn4 & Hs4). cbn [rbind]. intros [= <- _].
  exists V2. split; [done|]. eapply fewer_trans; [exact F'|by apply fewer_same].
Qed.

(** What other threads have done to the graph, one operation after the other. *)
Inductive net_op : Type :=
| RegisterMachine (m : Z)
| RegisterSink (m : Z)
| TightlyConnect (m other : Z)
| AttachInput (this m : Z) (output_name input_name : string)
| DetachInput (this m : Z) (output_name input_name : string)
| DisconnectAndDestroy (fuel : nat) (m : Z).

Definition do_net_op (g : graph) (op : net_op) : outcome :=
  match op with
  | RegisterMachine m => internal_register_machine g m
  | RegisterSink m => internal_register_sink g m
  | TightlyConnect m other => tightly_connect g m (Some other)
  | AttachInput this m o i => attach_input g this m o i
  | DetachInput this m o i => detach_input g this m o i
  | DisconnectAndDestroy fuel m => internal_disconnect_and_destroy fuel g m
  end.

(** No output is attached twice to one machine, or taken from an input it is not attached to;
    machines with an object of their own are attached while they are registered. *)
Definition net_allowed (g : graph) (op : net_op) : Prop :=
  match op with
  | RegisterMachine _ | TightlyConnect _ _ => True
  | RegisterSink m | DisconnectAndDestroy _ m => exists_in g m
  | AttachInput this m o i => exists_in g this /\ exists_in g m /\
      (shown this = true -> registered g this) /\ (shown m = true -> registered g m) /\
      forall V src s, graph_ok g V -> machines g !! m = Some src -> mfind (output src) o = Some s -> s ∉ links (V this)
  | DetachInput this m o i => forall V, graph_ok g V -> exists src dst des s, machines g !! m = Some src /\ mfind (output src) o = Some s /\
      machines g !! this = Some dst /\ mfind (input_descriptor dst) i = Some des /\ s ∈ list_at (V this) i
  end.

Lemma attach_net g V this m o i g' e : net_ok g V -> net_allowed g (AttachInput this m o i) ->
  internal_attach_input g this (Some m) o i = Ok (g', e) -> exists V', net_ok g' V' /\ broadcasts g `prefix_of` broadcasts g'.
Proof.
  intros [Hg Ht Hw] (Hthis & Hm & Hr1 & Hr2 & Hfresh) E.
  destruct (internal_attach_spec g V this m o i Hg Hthis Hm) as (g1 & e1 & E1 & Hpost); [by intros src s; apply Hfresh|].
  rewrite E in E1. injection E1 as <- <-. destruct e as [msg|]; [destruct Hpost as [-> _]; by exists V; split|].
  destruct Hpost as (s & (src & dst & des & sg & Es & Eo & Et & Ed & _) & Hg' & _ & Hb & F).
  eexists. split; [|rewrite Hb; by eexists]. split; [exact Hg'| |by apply (frame_named g)].
  apply (told_attach g V g' this m o i s src); try done; [by apply (Hfresh V src)|by apply (proj1 (Hw m src Es) o s)|by apply (proj2 (Hw this dst Et) i des)].
Qed.

Lemma detach_net g V this m o i g' e : net_ok g V -> net_allowed g (DetachInput this m o i) ->
  internal_detach_input g this (Some m) o i = Ok (g', e) -> exists V', net_ok g' V' /\ broadcasts g `prefix_of` broadcasts g'.
Proof.
  intros Hn Hall E. pose proof (net_graph _ _ Hn) as Hg. destruct (Hall V Hg) as (src & dst & des & s & Es & Eo & Et & Ed & Hs).
  apply list_elem_of_split in Hs as (l1 & l2 & El).
  destruct (detach_spec_graph g V this m o i src dst s l1 l2 des Hg Es Eo Et Ed El) as (g1 & E1 & Hg1 & _ & Hb & F).
  rewrite E in E1. injection E1 as <- ->. eexists. split; [|rewrite Hb; by eexists]. apply (net_took g V _ _ (map (fun s => (this, i, s)) [s])); [done|exact Hg1|done|].
  apply took_one; [done|rewrite El; rewrite <- Permutation_middle; apply Permutation_cons_append|].
  destruct (ok_output _ _ Hg m src o s Es Eo) as (sg & Esg & Ho & Hnm). rewrite Hb. cbn. unfold originator_of, name_of. by rewrite Esg, Ho, Hnm.
Qed.

Lemma net_step g V op g' e : net_ok g V -> net_allowed g op -> do_net_op g op = Ok (g', e) ->
  exists V', net_ok g' V' /\ broadcasts g `prefix_of` broadcasts g'.
Proof.
  intros Hn Hall. destruct op as [m|m|m other|this m o i|this m o i|fuel m]; cbn [do_net_op].
  - unfold internal_register_machine. destruct (mfind (machine_set g) m) eqn:Em; [intros [= <- _]; by exists V; split|].
    unfold at_machine. destruct (machines g !! m) as [mc|] eqn:E; [|done]. cbn [rbind]. intros [= <- _]. exists V.
    set (g2 := tell _ _). assert (same_links g g2) as Hs.
    { apply (same_links_update g g2 m mc (tightly_connected mc) false E); [by destruct mc|done|by left|by eexists]. }
    split; [|by eexists]. destruct Hn as [H1 H2 H3]. split; [by apply (graph_ok_links g)|by apply (told_register g V g2 m)|by apply (links_named g)].
  - unfold internal_register_sink. destruct (sink g) eqn:Es; intros [= <- _]; exists V; [by split|].
    split; [|done]. apply (net_same g); try done. apply same_links_refl; try done. cbn. intros s [= <-]. by right.
  - unfold tightly_connect. unfold at_machine at 1. destruct (machines g !! m) as [a|] eqn:Ea; [|done]. cbn [rbind].
    destruct (mfind (tightly_connected a) other); [intros [= <- _]; by exists V; split|].
    unfold at_machine at 1. destruct (machines g !! other) as [b|] eqn:Eb; [|done]. cbn [rbind].
    destruct (mfind (tightly_connected b) m); [intros [= <- _]; by exists V; split|].
    destruct (tight_updated g V m a (minsert (tightly_connected a) other tt) Hn Ea) as [Hn1 _]. set (g1 := with_machine g m _) in *.
    unfold at_machine. destruct (machines g1 !! other) as [b'|] eqn:Eb'; [|done]. cbn [rbind]. intros [= <- _].
    exists V. split; [by apply tight_updated|done].
  - unfold attach_input, at_machine. destruct (machines g !! this) as [dst|]; [|done]. cbn [rbind].
    destruct (has_been_deregistered dst); cbn [rbind]; [intros [= <- _]; by exists V; split|].
    destruct (machines g !! m) as [src|]; [|done]. cbn [rbind]. destruct (has_been_deregistered src); [intros [= <- _]; by exists V; split|].
    by apply (attach_net g V).
  - unfold detach_input, at_machine. destruct (machines g !! this) as [dst|]; [|done]. cbn [rbind].
    destruct (has_been_deregistered dst); cbn [rbind]; [intros [= <- _]; by exists V; split|].
    destruct (machines g !! m) as [src|]; [|done]. cbn [rbind]. destruct (has_been_deregistered src); [intros [= <- _]; by exists V; split|].
    by apply (detach_net g V).
  - intros E. destruct (disconnect_net fuel g V m g' e Hn Hall E) as (V' & Hn' & F). exists V'. split; [done|apply F].
Qed.

(** Graphs that operations lead to from machines without links. *)
Inductive net_run : graph -> Prop :=
| net_start g : unlinked g -> well_named g -> machine_set g = [] -> MachineGraph.broadcasts g = [] -> net_run g
| net_next g op g' e : net_run g -> net_allowed g op -> do_net_op g op = Ok (g', e) -> net_run g'.

Lemma net_run_ok g : net_run g -> exists V, net_ok g V.
Proof.
  induction 1 as [g Hu Hw Hset Hb|g op g' e _ [V Hn] Hall E]; [|destruct (net_step g V op g' e Hn Hall E) as (V' & Hn' & _); by exists V'].
  exists (fun _ => []). split; [by apply unlinked_ok| |done].
  assert (forall x t, ~ linked g (fun _ => []) x t) as Hno by (intros x t (i & s & Hs & _); by apply not_elem_of_nil in Hs).
  split; rewrite ?Hset, ?Hb.
  - constructor.
  - apply smap_ok_nil.
  - intros x. unfold heard. cbn. rewrite lookup_empty. split; [by intros [? ?]|]. intros [_ [? ?]]. done.
  - intros x c. unfold heard. cbn. by rewrite lookup_empty.
  - intros x t Hl. by apply Hno in Hl.
  - intros x t Hl. by apply Hno in Hl.
Qed.
End told.
