(* ===== verification/OperationQueue.v ===== *)
(** * The queue of machine operations (machine.cc)

    Threads other than the audio thread change the machine network through operations. Without
    low latency support, or without a sink, an operation runs at once under the lock of the
    machine space; otherwise it is queued and the audio thread runs it after a buffer. The
    operations act on a state [S] and may throw. *)

From Stdlib Require Import String ZArith Lia List.
From stdpp Require Import base list numbers option.
From S2P Require Import Prelude MachineClock.
Local Open Scope string_scope.
Local Open Scope list_scope.
Local Open Scope Z_scope.
Local Open Scope vk_scope.

(** How a callback ends: normally, with a [jException], with another exception. *)
Inductive thrown : Type :=
| Nothing
| JThrown (message : string)
| OtherThrown.

Section operations.
Context {S : Type}.

Definition operation : Type := S -> S * thrown.

(** [synch_object] is the number of the caller that waits, if one does. *)
(* @src src_jni/machine.cc:936-943 MachineOperation *)
Record pending : Type := Pending { callback : operation; synch_object : option nat }.

(** [tupla_p] counts the times the lock was taken; [callers] numbers the callers that wait. *)
Record machine_space : Type := Space {
  has_sink : bool;
  low_latency_mode : bool;
  machine_operation_queue : list pending;
  tupla_p : Z;
  callers : nat;
  network : S
}.

Definition with_lock (m : machine_space) (n : Z) : machine_space :=
  Space (has_sink m) (low_latency_mode m) (machine_operation_queue m) n (callers m) (network m).
Definition with_queue (m : machine_space) (q : list pending) (s : S) : machine_space :=
  Space (has_sink m) (low_latency_mode m) q (tupla_p m) (callers m) s.
Definition with_mode (m : machine_space) (b : bool) : machine_space :=
  Space (has_sink m) b (machine_operation_queue m) (tupla_p m) (callers m) (network m).
Definition with_caller (m : machine_space) : machine_space :=
  Space (has_sink m) (low_latency_mode m) (machine_operation_queue m) (tupla_p m) (Datatypes.S (callers m)) (network m).

(* @src src_jni/machine.cc:2272-2276 Machine::lock_machine_space *)
Definition lock_machine_space (m : machine_space) : machine_space := with_lock m (tupla_p m + 1).

(** One more release than the lock was taken never returns: [while(1)] ends with no fuel. *)
(* @src src_jni/machine.cc:2278-2289 Machine::unlock_machine_space *)
Definition unlock_machine_space (m : machine_space) : result machine_space :=
  if tupla_p m - 1 <? 0 then Err OutOfFuel else Ok (with_lock m (tupla_p m - 1)).

(** What the caller sees: the operation ran and may have thrown, it was queued, or it was queued
    and the caller waits. *)
Inductive reply : Type :=
| Ran (t : thrown)
| Queued
| Waits (caller : nat).

(* @src src_jni/machine.cc:948-991 Machine::machine_operation_enqueue *)
Definition machine_operation_enqueue (op : operation) (do_sync : bool) (m : machine_space) : result (machine_space * reply) :=
  let m := lock_machine_space m in
  if negb (has_sink m) || negb (low_latency_mode m) then
    let '(s, t) := op (network m) in
    let! m := unlock_machine_space (with_queue m (machine_operation_queue m) s) in
    Ok (m, Ran t)
  else
    let mo := Pending op (if do_sync then Some (callers m) else None) in
    let m := with_queue m (machine_operation_queue m ++ [mo]) (network m) in
    let! m := unlock_machine_space m in
    if do_sync then Ok (with_caller m, Waits (callers m)) else Ok (m, Queued).

(** [None] is [exit(0)]. The list is what the waiting callers are told, in order. *)
(* @src src_jni/machine.cc:1003-1044 Machine::machine_operation_dequeue *)
Fixpoint dequeue_from (kount : nat) (q : list pending) (s : S) : option (list pending * S * list (nat * thrown)) :=
  match kount, q with
  | O, _ | _, [] => Some (q, s, [])
  | Datatypes.S kount, mo :: q =>
      let '(s, t) := callback mo s in
      match synch_object mo, t with
      | Some caller, OtherThrown => None
      | Some caller, t =>
          '(q, s, told) ← dequeue_from kount q s;
          Some (q, s, (caller, t) :: told)
      | None, Nothing => dequeue_from kount q s
      | None, _ => None
      end
  end.

Definition operations_per_call : nat := 50.

(* @src src_jni/machine.cc:1003-1044 Machine::machine_operation_dequeue *)
Definition machine_operation_dequeue (m : machine_space) : option (machine_space * list (nat * thrown)) :=
  '(q, s, told) ← dequeue_from operations_per_call (machine_operation_queue m) (network m);
  Some (with_queue m q s, told).

(* @src src_jni/machine.cc:1049-1056 Machine::activate_low_latency_mode *)
Definition activate_low_latency_mode (m : machine_space) : result machine_space :=
  unlock_machine_space (with_mode (lock_machine_space m) true).

(* @src src_jni/machine.cc:1058-1066 Machine::deactivate_low_latency_mode *)
Definition deactivate_low_latency_mode (m : machine_space) : result (option (machine_space * list (nat * thrown))) :=
  match machine_operation_dequeue (with_mode (lock_machine_space m) false) with
  | None => Ok None
  | Some (m, told) => let! m := unlock_machine_space m in Ok (Some (m, told))
  end.

(** Filling the sink returns a status or throws. *)
Definition filler : Type := S -> S * option Z.

(** The status, what callers are told; [None] for an exception that reaches the caller and for
    [exit(0)]. *)
(* @src src_jni/machine.cc:1110-1146 Machine::fill_this_sink *)
Definition fill_this_sink (is_sink : bool) (internal_fill_sink : filler) (not_sink : Z) (m : machine_space)
  : result (option (machine_space * Z * list (nat * thrown))) :=
  if negb is_sink then Ok (Some (m, not_sink, [])) else
  if low_latency_mode m then
    let '(s, retval) := internal_fill_sink (network m) in
    match retval with
    | None => Ok None
    | Some v =>
        Ok ('(m, told) ← machine_operation_dequeue (with_queue m (machine_operation_queue m) s); Some (m, v, told))
    end
  else
    let m := lock_machine_space m in
    let '(s, retval) := internal_fill_sink (network m) in
    let m := with_queue m (machine_operation_queue m) s in
    let! (m, retval) :=
      match retval with
      | None => let! m := unlock_machine_space m in Ok (m, 0)
      | Some v => Ok (m, v)
      end in
    let! m := unlock_machine_space m in
    Ok (Some (m, retval, [])).

(** ** The queue keeps the order *)

(** Operations one after the other, without a queue, and what the synchronous ones threw. *)
Fixpoint direct (ops : list (operation * bool)) (s : S) : S * list thrown :=
  match ops with
  | [] => (s, [])
  | (op, do_sync) :: ops =>
      let '(s, t) := op s in
      let '(s, ts) := direct ops s in
      (s, if (do_sync : bool) then t :: ts else ts)
  end.

(** Only a synchronous operation throws, and only a [jException]. *)
Fixpoint behaves (ops : list (operation * bool)) (s : S) : Prop :=
  match ops with
  | [] => True
  | (op, do_sync) :: ops =>
      match do_sync, snd (op s) with
      | _, Nothing | true, JThrown _ => behaves ops (fst (op s))
      | _, _ => False
      end
  end.

Fixpoint enqueue_all (ops : list (operation * bool)) (m : machine_space) : result (machine_space * list reply) :=
  match ops with
  | [] => Ok (m, [])
  | (op, do_sync) :: ops =>
      let! (m, r) := machine_operation_enqueue op do_sync m in
      let! (m, rs) := enqueue_all ops m in
      Ok (m, r :: rs)
  end.

(** The audio thread after [k] buffers. *)
Fixpoint dequeue_calls (k : nat) (m : machine_space) : option (machine_space * list (nat * thrown)) :=
  match k with
  | O => Some (m, [])
  | Datatypes.S k =>
      '(m, told) ← machine_operation_dequeue m;
      '(m, more) ← dequeue_calls k m;
      Some (m, told ++ more)
  end.

Definition waiting (rs : list reply) : list nat := omap (fun r => match r with Waits c => Some c | _ => None end) rs.

(** The queue that a list of calls leaves, with the callers numbered from [n]. *)
Fixpoint pendings (n : nat) (ops : list (operation * bool)) : list pending :=
  match ops with
  | [] => []
  | (op, true) :: ops => Pending op (Some n) :: pendings (Datatypes.S n) ops
  | (op, false) :: ops => Pending op None :: pendings n ops
  end.

Lemma enqueue_all_spec ops : forall m, has_sink m = true -> low_latency_mode m = true -> 0 <= tupla_p m ->
  exists m' rs, enqueue_all ops m = Ok (m', rs) /\ network m' = network m /\
    machine_operation_queue m' = machine_operation_queue m ++ pendings (callers m) ops /\
    waiting rs = seq (callers m) (length (List.filter snd ops)).
Proof.
  induction ops as [|[op b] ops IH]; intros m Hs Hl Ht.
  - exists m, []. cbn. by rewrite app_nil_r.
  - cbn [enqueue_all]. unfold machine_operation_enqueue. cbn. rewrite Hs, Hl. cbn.
    unfold unlock_machine_space. cbn. rewrite (proj2 (Z.ltb_ge _ _)) by lia. cbn [rbind].
    destruct b; cbn [rbind].
    + destruct (IH (with_caller (with_lock (with_queue (lock_machine_space m) (machine_operation_queue m ++
        [Pending op (Some (callers m))]) (network m)) (tupla_p m + 1 - 1)))) as (m' & rs & -> & Hn & Hq & Hw); [done|done|cbn; lia|].
      cbn [rbind]. exists m', (Waits (callers m) :: rs). split; [done|]. split; [done|]. cbn in *. split.
      * rewrite Hq. by rewrite <- app_assoc.
      * by rewrite <- Hw.
    + destruct (IH (with_lock (with_queue (lock_machine_space m) (machine_operation_queue m ++ [Pending op None])
        (network m)) (tupla_p m + 1 - 1))) as (m' & rs & -> & Hn & Hq & Hw); [done|done|cbn; lia|].
      cbn [rbind]. exists m', (Queued :: rs). split; [done|]. split; [done|]. cbn in *. split; [|done].
      rewrite Hq. by rewrite <- app_assoc.
Qed.

(** Running some of the queue: the operations leave in order. *)
Lemma dequeue_from_spec : forall kount ops n s, behaves ops s ->
  exists n', dequeue_from kount (pendings n ops) s =
    Some (pendings n' (skipn kount ops), fst (direct (firstn kount ops) s),
          zip (seq n (length (List.filter snd (firstn kount ops)))) (snd (direct (firstn kount ops) s))) /\
    n' = (n + length (List.filter snd (firstn kount ops)))%nat /\
    behaves (skipn kount ops) (fst (direct (firstn kount ops) s)).
Proof.
  induction kount as [|kount IH]; intros ops n s Hb.
  - exists n. rewrite take_0, drop_0. cbn. split; [done|]. split; [lia|done].
  - destruct ops as [|[op b] ops].
    { exists n. rewrite take_nil, drop_nil. cbn. split; [done|]. split; [lia|done]. }
    rewrite firstn_cons, skipn_cons. cbn [behaves] in Hb. destruct (op s) as [s1 t] eqn:Eo. cbn [fst snd] in Hb.
    assert (behaves ops s1) as Hb1 by (by destruct b, t).
    destruct b; cbn [pendings dequeue_from callback synch_object skipn firstn direct List.filter snd]; rewrite Eo.
    + destruct (IH ops (Datatypes.S n) s1 Hb1) as (n' & E & Hn & Hbs).
      destruct (direct (firstn kount ops) s1) as [s2 ts] eqn:Ed. cbn [fst snd] in *. exists n'.
      split; [|cbn [length]; split; [lia|done]].
      assert (t <> OtherThrown) as Ht by (by destruct t).
      destruct t; try done; rewrite E; done.
    + destruct (IH ops n s1 Hb1) as (n' & E & Hn & Hbs).
      destruct (direct (firstn kount ops) s1) as [s2 ts] eqn:Ed. cbn [fst snd] in *. exists n'.
      by destruct t.
Qed.

Lemma direct_app ops1 : forall ops2 s, direct (ops1 ++ ops2) s =
  (fst (direct ops2 (fst (direct ops1 s))), snd (direct ops1 s) ++ snd (direct ops2 (fst (direct ops1 s)))).
Proof.
  induction ops1 as [|[op b] ops1 IH]; intros ops2 s; [cbn; by destruct (direct ops2 s)|].
  cbn [app direct]. destruct (op s) as [s1 t]. rewrite IH. destruct (direct ops1 s1) as [s2 ts]. cbn. by destruct b.
Qed.

Lemma direct_length ops : forall s, length (snd (direct ops s)) = length (List.filter snd ops).
Proof.
  induction ops as [|[op b] ops IH]; intros s; [done|]. cbn. destruct (op s) as [s1 t]. specialize (IH s1).
  destruct (direct ops s1) as [s2 ts]. destruct b; cbn in *; by rewrite <- IH.
Qed.

Lemma dequeue_calls_spec : forall k ops n m, machine_operation_queue m = pendings n ops -> behaves ops (network m) ->
  (length ops <= k * operations_per_call)%nat ->
  exists m', dequeue_calls k m = Some (m', zip (seq n (length (List.filter snd ops))) (snd (direct ops (network m)))) /\
    machine_operation_queue m' = [] /\ network m' = fst (direct ops (network m)).
Proof.
  induction k as [|k IH]; intros ops n m Hq Hb Hk.
  - destruct ops; [|cbn in Hk; lia]. by exists m.
  - cbn [dequeue_calls]. unfold machine_operation_dequeue. rewrite Hq.
    destruct (dequeue_from_spec operations_per_call ops n (network m) Hb) as (n' & E & Hn & Hbs). rewrite E. cbn [mbind option_bind].
    set (ops1 := firstn operations_per_call ops) in *. set (ops2 := skipn operations_per_call ops) in *.
    assert (ops = ops1 ++ ops2) as Hops by (symmetry; apply firstn_skipn).
    destruct (IH ops2 n' (with_queue m (pendings n' ops2) (fst (direct ops1 (network m))))) as (m' & E' & Hq' & Hn');
      [reflexivity|exact Hbs|unfold ops2; rewrite length_skipn; lia|]. cbn [mbind option_bind] in *. rewrite E'. cbn [mbind option_bind].
    exists m'. rewrite Hops, direct_app. cbn [fst snd]. split; [|split; [exact Hq'|exact Hn']].
    rewrite List.filter_app, length_app, seq_app, zip_with_app by (by rewrite length_seq, direct_length). by rewrite <- Hn.
Qed.


(** ** Where the locks and the queue fail *)

(** An exception while the sink is filled without low latency support is not survived: the
    lock is released once for the exception and once more after it, which never returns. *)
Theorem fill_exception_hangs (f : filler) not_sink m : low_latency_mode m = false -> tupla_p m = 0 ->
  snd (f (network m)) = None -> fill_this_sink true f not_sink m = Err OutOfFuel.
Proof.
  intros Hl Ht Hf. unfold fill_this_sink. cbn [negb]. rewrite Hl. change (network (lock_machine_space m)) with (network m).
  destruct (f (network m)) as [s r]. cbn in Hf. subst r. unfold unlock_machine_space. cbn. by rewrite Ht.
Qed.

(** Without low latency an operation runs at once. *)
Lemma enqueue_direct op do_sync m : low_latency_mode m = false -> 0 <= tupla_p m ->
  exists m', machine_operation_enqueue op do_sync m = Ok (m', Ran (snd (op (network m)))) /\
    machine_operation_queue m' = machine_operation_queue m /\ network m' = fst (op (network m)).
Proof.
  intros Hl Ht. unfold machine_operation_enqueue. cbn. rewrite Hl, orb_true_r. destruct (op (network m)) as [s t].
  unfold unlock_machine_space. cbn. rewrite (proj2 (Z.ltb_ge _ _)) by lia. eexists. by split.
Qed.

(** Leaving low latency mode runs one round of the queue only: with more than fifty
    operations waiting the others stay queued, and an operation enqueued from then on overtakes them. *)
Theorem deactivate_strands ops n m op do_sync : machine_operation_queue m = pendings n ops -> behaves ops (network m) ->
  (operations_per_call < length ops)%nat -> 0 <= tupla_p m ->
  exists m' told m'', deactivate_low_latency_mode m = Ok (Some (m', told)) /\
    length (machine_operation_queue m') = (length ops - operations_per_call)%nat /\
    machine_operation_enqueue op do_sync m' = Ok (m'', Ran (snd (op (network m')))) /\
    machine_operation_queue m'' = machine_operation_queue m' /\ network m'' = fst (op (network m')).
Proof.
  intros Hq Hb Hlen Ht. assert (0 <= tupla_p m + 1 - 1) as Ht' by lia.
  destruct (dequeue_from_spec operations_per_call ops n (network m) Hb) as (n' & E & _ & _).
  unfold deactivate_low_latency_mode, machine_operation_dequeue.
  cbn [with_mode lock_machine_space with_lock machine_operation_queue network]. rewrite Hq, E. cbn [mbind option_bind].
  unfold unlock_machine_space. cbn [tupla_p with_queue with_mode with_lock lock_machine_space]. rewrite (proj2 (Z.ltb_ge _ _)) by lia. cbn [rbind].
  set (m' := with_lock _ _). destruct (enqueue_direct op do_sync m' eq_refl Ht') as (m'' & E2 & Hq2 & Hn2).
  exists m', (zip (seq n (length (List.filter snd (firstn operations_per_call ops)))) (snd (direct (firstn operations_per_call ops) (network m)))), m''.
  split; [reflexivity|]. split; [|done].
  assert (forall os k, length (pendings k os) = length os) as Hp.
  { induction os as [|[o b] os IH]; intros k; [done|]. by destruct b; cbn; rewrite IH. }
  unfold m'. cbn [machine_operation_queue with_lock with_queue]. by rewrite Hp, length_skipn.
Qed.
End operations.

(** ** Witnesses *)

(** Operations that write down their number; a multiple of three throws. *)
Definition note_op (k : Z) : @operation (list Z) :=
  fun s => (s ++ [k], if k mod 3 =? 0 then JThrown "three" else Nothing).
Definition ex_space (q : list (@pending (list Z))) : machine_space := Space true true q 0 7 [].


Lemma fill_exception_hangs_witness :
  fill_this_sink true (fun s => (s, None)) 5 (Space true false [] 0 0 ([] : list Z)) = Err OutOfFuel.
Proof. apply (fill_exception_hangs (fun s => (s, None)) 5 (Space true false [] 0 0 [])); reflexivity. Defined.

Lemma deactivate_strands_witness :
  exists m' told m'', deactivate_low_latency_mode (ex_space (pendings 0 (repeat (note_op 1, false) 52))) = Ok (Some (m', told)) /\
    length (machine_operation_queue m') = 2%nat /\
    machine_operation_enqueue (note_op 9) false m' = Ok (m'', Ran (JThrown "three")) /\
    machine_operation_queue m'' = machine_operation_queue m' /\ network m'' = fst (note_op 9 (network m')).
Proof.
  apply (deactivate_strands (repeat (note_op 1, false) 52) 0 (ex_space (pendings 0 (repeat (note_op 1, false) 52))) (note_op 9) false).
  - reflexivity.
  - vm_compute. exact I.
  - unfold operations_per_call. cbn. lia.
  - cbn. lia.
Defined.
