(* ===== verification/AsyncOps.v ===== *)
(** * The thread of asynchronous operations (async_operations.cc)

    Threads that must not wait hand functions to a thread that runs them: the notifications of the
    machine graph, and what plugins ask for. An operation travels in an event from a pool that is
    filled once. The steps of all threads interleave; the two queues are third-party and first in,
    first out. *)

From Stdlib Require Import String ZArith Lia List Permutation.
From stdpp Require Import base list numbers option gmap sets.
From S2P Require Import Prelude.
Local Open Scope string_scope.
Local Open Scope list_scope.
Local Open Scope Z_scope.
Local Open Scope vk_scope.

(** What is handed over: the address of an [AsyncOp], or a function. *)
Inductive operation : Type := OperationPointer (op : Z) | OperationFunction (func : Z).

(* @src src_jni/async_operations.cc:42-44 AsyncOperationsThread::AsyncEventType *)
Inductive event_type : Type := aop_pointer | aop_function.

(* @src src_jni/async_operations.cc:37-49 AsyncOperationsThread::AsyncEvent *)
Record event : Type := AsyncEvent { etype : event_type; operation_pointer : Z; efunction : Z }.

(* @src src_jni/async_operations.cc:54-62 AsyncOperationsThread::AsyncEvent::set_operation *)
Definition set_operation (e : event) (o : operation) : event :=
  match o with
  | OperationPointer op => AsyncEvent aop_pointer op (efunction e)
  | OperationFunction func => AsyncEvent aop_function (operation_pointer e) func
  end.

(** What the thread does with an event. *)
(* @src src_jni/async_operations.cc:81-96 AsyncOperationsThread::thread_body *)
Definition operation_of (e : event) : operation :=
  match etype e with aop_pointer => OperationPointer (operation_pointer e) | aop_function => OperationFunction (efunction e) end.

(** [taking] are the threads between taking an event from the pool and pushing it, with the event;
    [working] is the event of the thread, and whether its operation was run. *)
(* @src src_jni/async_operations.cc:71-73 AsyncOperationsThread *)
Record async : Type := Async {
  token_object : option Z;
  free_events : list Z;
  eq : list Z;
  events : gmap Z event;
  taking : list (Z * Z);
  working : option (Z * bool);
  finished : gmap Z Z
}.

Definition not_started : async := Async None [] [] ∅ [] None ∅.

Section thread.
(** How many events the pool holds. *)
Context (capacity : nat).

Definition new_event : event := AsyncEvent aop_pointer 0 0.
Definition all_events : list Z := map Z.of_nat (seq 0 capacity).

(** The token for the first who asks. *)
(* @src src_jni/async_operations.cc:131-147 AsyncOperationsThread::start_me_up *)
Definition start_me_up (st : async) (token : Z) : async :=
  Async (Some token) all_events (eq st) (list_to_map (map (fun a => (a, new_event)) all_events)) (taking st) (working st) (finished st).

(* @src src_jni/async_operations.cc:165-172 AsyncOperations::start_async_operations_thread *)
Definition start_async_operations_thread (st : async) (token : Z) : async * option Z :=
  match token_object st with Some _ => (st, None) | None => (start_me_up st token, Some token) end.

(** Taking an event; [None] where the pool is empty, and the thread tries again. *)
(* @src src_jni/async_operations.cc:103-129 AsyncOperationsThread::queue_event *)
Definition take_event (st : async) (thread : Z) (o : operation) : option async :=
  match free_events st with
  | [] => None
  | ev :: free => e ← events st !! ev;
      Some (Async (token_object st) free (eq st) (<[ev := set_operation e o]> (events st)) ((thread, ev) :: taking st) (working st) (finished st))
  end.

Definition without (thread : Z) (l : list (Z * Z)) : list (Z * Z) := List.filter (fun p => negb (fst p =? thread)) l.

(* @src src_jni/async_operations.cc:103-115 AsyncOperationsThread::queue_event *)
Definition push_event (st : async) (thread ev : Z) : async :=
  Async (token_object st) (free_events st) (eq st ++ [ev]) (events st) (without thread (taking st)) (working st) (finished st).

(** [run_async_operation] and [run_async_function], to the first event taken. *)
(* @src src_jni/async_operations.cc:174-187 AsyncOperations::run_async_operation *)
Definition run_async (this : option Z) (st : async) (thread : Z) (o : operation) : result (option async) :=
  if bool_decide (this = token_object st) then
    match this with None => Err (UndefinedBehaviour "null free_events") | Some _ => Ok (take_event st thread o) end
  else Err YouDontHaveTheToken.

(** *** The thread *)

(* @src src_jni/async_operations.cc:77-79 AsyncOperationsThread::thread_body *)
Definition wait_for_event (st : async) : option async :=
  match working st, eq st with
  | None, ev :: rest => Some (Async (token_object st) (free_events st) rest (events st) (taking st) (Some (ev, false)) (finished st))
  | _, _ => None
  end.

(** The operation, when it has returned. *)
(* @src src_jni/async_operations.cc:81-96 AsyncOperationsThread::thread_body *)
Definition run_operation (st : async) : option (async * operation) :=
  match working st with
  | Some (ev, false) => e ← events st !! ev;
      Some (Async (token_object st) (free_events st) (eq st) (events st) (taking st) (Some (ev, true))
              (match operation_of e with OperationPointer op => <[op := -1]> (finished st) | OperationFunction _ => finished st end), operation_of e)
  | _ => None
  end.

(* @src src_jni/async_operations.cc:98-100 AsyncOperationsThread::thread_body *)
Definition put_back (st : async) : option async :=
  match working st with
  | Some (ev, true) => Some (Async (token_object st) (free_events st ++ [ev]) (eq st) (events st) (taking st) None (finished st))
  | _ => None
  end.

(** ** Steps *)

(** What a step does to the operations: one is queued, when its event is pushed, or was run. *)
Inductive label : Type := Silent | Queued (o : operation) | Ran (o : operation).

(** A step of the thread, and of any thread. *)
Inductive thread_step : async -> label -> async -> Prop :=
| step_wait st st' : wait_for_event st = Some st' -> thread_step st Silent st'
| step_run st st' o : run_operation st = Some (st', o) -> thread_step st (Ran o) st'
| step_put_back st st' : put_back st = Some st' -> thread_step st Silent st'.

Inductive step : async -> label -> async -> Prop :=
| step_start st token : step st Silent (fst (start_async_operations_thread st token))
| step_take st st' this thread o : run_async this st thread o = Ok (Some st') -> thread ∉ map fst (taking st) -> step st Silent st'
| step_push st thread ev e : (thread, ev) ∈ taking st -> events st !! ev = Some e -> step st (Queued (operation_of e)) (push_event st thread ev)
| step_thread st l st' : thread_step st l st' -> step st l st'.

Inductive steps (R : async -> label -> async -> Prop) : async -> list label -> async -> Prop :=
| steps_none st : steps R st [] st
| steps_more st ls st' l st'' : steps R st ls st' -> R st' l st'' -> steps R st (ls ++ [l]) st''.

Definition queued (ls : list label) : list operation := flat_map (fun l => match l with Queued o => [o] | _ => [] end) ls.
Definition ran (ls : list label) : list operation := flat_map (fun l => match l with Ran o => [o] | _ => [] end) ls.

(** ** What holds in between *)

Definition event_operations (st : async) (evs : list Z) : list operation := omap (fun ev => operation_of <$> events st !! ev) evs.

(** The operations that were queued and not run yet. *)
Definition pending (st : async) : list operation :=
  event_operations st (match working st with Some (ev, false) => [ev] | _ => [] end ++ eq st).

(** Where each event is. *)
Definition places (st : async) : list Z :=
  free_events st ++ eq st ++ map snd (taking st) ++ match working st with Some (ev, _) => [ev] | None => [] end.

Record async_ok (st : async) : Prop := {
  ao_places : Permutation (places st) (if token_object st then all_events else []);
  ao_events ev : ev ∈ places st -> is_Some (events st !! ev);
  ao_threads : NoDup (map fst (taking st))
}.

Lemma all_events_nodup : NoDup all_events.
Proof. unfold all_events. apply NoDup_fmap_2; [apply _|]. apply NoDup_ListNoDup, seq_NoDup. Qed.

Lemma places_nodup st : async_ok st -> NoDup (places st).
Proof. intros [H _ _]. rewrite H. destruct (token_object st); [apply all_events_nodup|apply NoDup_nil_2]. Qed.

Lemma operations_same st st' evs : (forall ev, ev ∈ evs -> events st' !! ev = events st !! ev) -> event_operations st' evs = event_operations st evs.
Proof.
  induction evs as [|ev evs IH]; intros H; [done|]. unfold event_operations in *. cbn. rewrite H by left.
  rewrite IH by (intros e He; apply H; by right). done.
Qed.

Lemma without_perm thread ev l : NoDup (map fst l) -> (thread, ev) ∈ l -> Permutation (map snd l) (ev :: map snd (without thread l)) /\ NoDup (map fst (without thread l)).
Proof.
  induction l as [|[t e] l IH]; intros Hnd Hin; [by apply elem_of_nil in Hin|]. cbn in Hnd. apply NoDup_cons in Hnd as [Ht Hnd]. cbn.
  assert (forall l', t ∉ map fst l' -> without t l' = l') as Hsame.
  { clear. induction l' as [|[u e] l' IH]; intros Ht; [done|]. cbn in *. rewrite not_elem_of_cons in Ht. destruct Ht as [Hu Ht].
    destruct (Z.eqb_spec u t); [congruence|]. cbn. fold (without t l'). by rewrite IH. }
  apply elem_of_cons in Hin as [[= -> ->]|Hin].
  - rewrite Z.eqb_refl. cbn. fold (without t l). rewrite Hsame by done. by split.
  - destruct (Z.eqb_spec t thread) as [->|Hne].
    { destruct Ht. apply list_elem_of_In, in_map_iff. exists (thread, ev). by rewrite <- list_elem_of_In. }
    destruct (IH Hnd Hin) as [H1 H2]. cbn. fold (without thread l). split; [rewrite H1; apply perm_swap|]. apply NoDup_cons. split; [|done].
    intros Hx. apply Ht. apply list_elem_of_In, in_map_iff in Hx as ([t' e'] & <- & Hx). apply filter_In in Hx as [Hx _].
    apply list_elem_of_In, in_map_iff. by exists (t', e').
Qed.

Ltac spread := unfold places; cbn [free_events eq taking working token_object events finished map snd fst]; rewrite <- ?app_assoc; cbn [app].

Lemma async_start_ok st token : async_ok st -> async_ok (fst (start_async_operations_thread st token)) /\ pending (fst (start_async_operations_thread st token)) = pending st.
Proof.
  intros Hok. pose proof Hok as [H1 H2 H3]. unfold start_async_operations_thread. destruct (token_object st) eqn:Et; cbn [fst]; [done|].
  apply Permutation_sym, Permutation_nil in H1. unfold places in H1. apply app_eq_nil in H1 as [_ H1]. apply app_eq_nil in H1 as [Heq H1].
  apply app_eq_nil in H1 as [Htk Hw]. destruct (taking st) as [|x l] eqn:Etk; [|done]. destruct (working st) as [[? ?]|] eqn:Ewk; [done|].
  split; [|by unfold pending; cbn; rewrite Heq, Ewk]. unfold start_me_up. rewrite Heq, Etk, Ewk. split; cbn [token_object taking].
  - spread. by rewrite app_nil_r.
  - intros ev. spread. rewrite app_nil_r. intros Hin. exists new_event. cbn. apply elem_of_list_to_map_1'.
    + intros y Hy. apply list_elem_of_In, in_map_iff in Hy as (x & [= _ <-] & _). done.
    + apply list_elem_of_In, in_map_iff. exists ev. by rewrite <- list_elem_of_In.
  - apply NoDup_nil_2.
Qed.

Lemma take_ok st st' thread o : async_ok st -> take_event st thread o = Some st' -> thread ∉ map fst (taking st) -> async_ok st' /\ pending st' = pending st.
Proof.
  intros Hok E Ht. pose proof (places_nodup st Hok) as Hnd. destruct Hok as [H1 H2 H3]. unfold take_event in E.
  destruct (free_events st) as [|ev free] eqn:Ef; [done|]. destruct (events st !! ev) as [e|] eqn:Ee; [|done]. injection E as <-.
  assert (Permutation (places st) (ev :: free ++ eq st ++ map snd (taking st) ++ match working st with Some (w, _) => [w] | None => [] end)) as Hp
    by (unfold places; by rewrite Ef).
  split; [split; cbn [token_object taking]|].
  - rewrite <- H1, Hp. spread. rewrite (app_assoc free). rewrite <- Permutation_middle. by rewrite <- app_assoc.
  - intros ev' Hin. cbn [events]. destruct (decide (ev = ev')) as [->|Hne]; [rewrite lookup_insert_eq; by eexists|].
    rewrite lookup_insert_ne by done. apply H2. rewrite Hp. revert Hin. spread. clear -Hne. set_solver.
  - cbn. apply NoDup_cons. by split.
  - unfold pending. cbn [working eq]. apply operations_same. intros ev' Hin. cbn [events]. apply lookup_insert_ne. intros ->.
    rewrite Hp in Hnd. apply NoDup_cons in Hnd as [Hno _]. apply Hno. revert Hin. clear. destruct (working st) as [[w []]|]; set_solver.
Qed.

Lemma event_operations_app st l1 l2 : event_operations st (l1 ++ l2) = event_operations st l1 ++ event_operations st l2.
Proof. apply omap_app. Qed.

Lemma push_ok st thread ev e : async_ok st -> (thread, ev) ∈ taking st -> events st !! ev = Some e ->
  async_ok (push_event st thread ev) /\ pending (push_event st thread ev) = pending st ++ [operation_of e].
Proof.
  intros [H1 H2 H3] Hin Ee. destruct (without_perm thread ev (taking st) H3 Hin) as [Hp Hnd].
  assert (Permutation (places (push_event st thread ev)) (places st)) as Hsame.
  { unfold push_event. spread. rewrite Hp. cbn [app]. by rewrite <- Permutation_middle. }
  split; [split|].
  - by rewrite Hsame.
  - intros ev'. rewrite Hsame. apply H2.
  - exact Hnd.
  - unfold pending, push_event. cbn [working eq]. rewrite app_assoc. rewrite event_operations_app. f_equal.
    unfold event_operations. cbn. by rewrite Ee.
Qed.

Lemma thread_step_ok st l st' : async_ok st -> thread_step st l st' ->
  async_ok st' /\ pending st = ran [l] ++ pending st' /\ queued [l] = [] /\ taking st' = taking st /\ token_object st' = token_object st /\
  finished st' = match l with Ran (OperationPointer op) => <[op := -1]> (finished st) | _ => finished st end.
Proof.
  intros [H1 H2 H3] Hs. assert (Permutation (places st') (places st) /\ events st' = events st /\ token_object st' = token_object st /\ taking st' = taking st) as (Hp & He & Hto & Htk).
  { destruct Hs as [st st' E|st st' o E|st st' E].
    - unfold wait_for_event in E. destruct (working st) eqn:Ew; [done|]. destruct (eq st) as [|ev rest] eqn:Eq; [done|]. injection E as <-.
      split; [|by split_and!]. spread. rewrite Ew, Eq, app_nil_r. cbn [app]. apply Permutation_app_head. rewrite (app_assoc rest), <- Permutation_cons_append. done.
    - unfold run_operation in E. destruct (working st) as [[ev []]|] eqn:Ew; try done. destruct (events st !! ev) as [e|]; [|done]. injection E as <- <-.
      split; [|by split_and!]. spread. by rewrite Ew.
    - unfold put_back in E. destruct (working st) as [[ev []]|] eqn:Ew; try done. injection E as <-. split; [|by split_and!]. spread. rewrite Ew, app_nil_r.
      apply Permutation_app_head. rewrite (app_assoc (eq st)), <- Permutation_cons_append. done. }
  split; [split|].
  - by rewrite Hp, H1, Hto.
  - intros ev. rewrite Hp, He. apply H2.
  - by rewrite Htk.
  - destruct Hs as [st st' E|st st' o E|st st' E].
    + unfold wait_for_event in E. destruct (working st) eqn:Ew; [done|]. destruct (eq st) as [|ev rest] eqn:Eq; [done|]. injection E as <-.
      unfold pending. rewrite Ew, Eq. by split_and!.
    + unfold run_operation in E. destruct (working st) as [[ev []]|] eqn:Ew; try done. destruct (events st !! ev) as [e|] eqn:Ee; [|done]. injection E as <- <-.
      split; [|split; [done|split; [done|split; [done|by destruct (operation_of e)]]]]. unfold pending. rewrite Ew. cbn [working eq app].
      unfold event_operations, ran. cbn. by rewrite Ee.
    + unfold put_back in E. destruct (working st) as [[ev []]|] eqn:Ew; try done. injection E as <-. unfold pending. rewrite Ew. by split_and!.
Qed.

Lemma async_step_ok st l st' : async_ok st -> step st l st' -> async_ok st' /\ pending st ++ queued [l] = ran [l] ++ pending st' /\
  forall op, finished st !! op = Some (-1) \/ OperationPointer op ∈ ran [l] -> finished st' !! op = Some (-1).
Proof.
  intros Hok Hs. destruct Hs as [st token|st st' this thread o E Ht|st thread ev e Hin Ee|st l st' Hs].
  - destruct (async_start_ok st token Hok) as [H1 H2]. split; [done|]. split; [by rewrite H2, app_nil_r|]. intros op [Hf|?%elem_of_nil]; [|done].
    unfold start_async_operations_thread. by destruct (token_object st).
  - unfold run_async in E. case_bool_decide; [|done]. destruct this; [|done]. injection E as E. destruct (take_ok st st' thread o Hok E Ht) as [H1 H2].
    split; [done|]. split; [by rewrite H2, app_nil_r|]. intros op [Hf|?%elem_of_nil]; [|done]. revert E. unfold take_event.
    destruct (free_events st) as [|ev ?]; [done|]. by destruct (events st !! ev); [intros [= <-]|].
  - destruct (push_ok st thread ev e Hok Hin Ee) as [H1 H2]. split; [done|]. split; [by rewrite H2|]. by intros op [Hf|?%elem_of_nil].
  - destruct (thread_step_ok st l st' Hok Hs) as (H1 & H2 & H3 & _ & _ & H6). split; [done|]. split; [by rewrite H3, app_nil_r|].
    intros op Hop. rewrite H6. destruct l as [| |[p|f]]; cbn in Hop; rewrite ?elem_of_nil, ?list_elem_of_singleton in Hop.
    + destruct Hop; done.
    + destruct Hop; done.
    + destruct (decide (p = op)) as [->|Hne]; [by rewrite lookup_insert_eq|]. rewrite lookup_insert_ne by done. destruct Hop as [|[= ->]]; done.
    + destruct Hop; done.
Qed.

Lemma queued_app ls l : queued (ls ++ l) = queued ls ++ queued l.
Proof. apply flat_map_app. Qed.
Lemma ran_app ls l : ran (ls ++ l) = ran ls ++ ran l.
Proof. apply flat_map_app. Qed.

Lemma async_steps_ok st ls st' : steps step st ls st' -> async_ok st -> async_ok st' /\ pending st ++ queued ls = ran ls ++ pending st' /\
  forall op, finished st !! op = Some (-1) \/ OperationPointer op ∈ ran ls -> finished st' !! op = Some (-1).
Proof.
  induction 1 as [st|st ls st' l st'' _ IH Hs]; intros Hok; [split; [done|]; split; [by rewrite app_nil_r|by intros op [|?%elem_of_nil]]|].
  destruct (IH Hok) as (I1 & I2 & I3). destruct (async_step_ok _ _ _ I1 Hs) as (S1 & S2 & S3). split; [done|]. split.
  - by rewrite queued_app, ran_app, app_assoc, I2, <- !app_assoc, S2.
  - intros op Hop. apply S3. rewrite ran_app, elem_of_app in Hop. destruct Hop as [Hop|[Hop|Hop]]; [left; apply I3; by left|left; apply I3; by right|by right].
Qed.

Lemma steps_front R st l st' ls st'' : R st l st' -> steps R st' ls st'' -> steps R st (l :: ls) st''.
Proof.
  intros Hr. induction 1 as [st'|st' ls st1 l' st2 _ IH Hs]; [exact (steps_more R st [] st l st' (steps_none R st) Hr)|].
  change (l :: ls ++ [l']) with ((l :: ls) ++ [l']). by apply (steps_more R st (l :: ls) st1); [apply IH|].
Qed.

Lemma thread_steps_are st ls st' : steps thread_step st ls st' -> steps step st ls st'.
Proof. induction 1; [constructor|]. by eapply steps_more; [|apply step_thread]. Qed.

(** The thread by itself comes to its end. *)
Lemma drain n : forall st, async_ok st -> List.length (eq st) = n -> working st = None ->
  exists ls st', steps thread_step st ls st' /\ List.length ls = (3 * n)%nat /\ eq st' = [] /\ working st' = None /\ taking st' = taking st.
Proof.
  induction n as [|n IH]; intros st Hok Hn Hw.
  { exists [], st. split; [constructor|]. split; [done|]. split; [by apply length_zero_iff_nil|done]. }
  destruct (eq st) as [|ev rest] eqn:Eq; [done|]. pose proof (ao_events st Hok ev) as [e Ee].
  { unfold places. rewrite Eq. set_solver. }
  pose (st1 := Async (token_object st) (free_events st) rest (events st) (taking st) (Some (ev, false)) (finished st)).
  pose (st2 := Async (token_object st) (free_events st) rest (events st) (taking st) (Some (ev, true))
    (match operation_of e with OperationPointer op => <[op := -1]> (finished st) | OperationFunction _ => finished st end)).
  pose (st3 := Async (token_object st) (free_events st ++ [ev]) rest (events st) (taking st) None (finished st2)).
  assert (thread_step st Silent st1) as S1 by (apply step_wait; unfold wait_for_event; by rewrite Hw, Eq).
  assert (thread_step st1 (Ran (operation_of e)) st2) as S2 by (apply step_run; unfold run_operation; cbn; by rewrite Ee).
  assert (thread_step st2 Silent st3) as S3 by (by apply step_put_back).
  destruct (thread_step_ok _ _ _ Hok S1) as (O1 & _). destruct (thread_step_ok _ _ _ O1 S2) as (O2 & _). destruct (thread_step_ok _ _ _ O2 S3) as (O3 & _).
  destruct (IH st3 O3) as (ls & st' & H1 & H2 & H3); [by injection Hn|done|]. exists (Silent :: Ran (operation_of e) :: Silent :: ls), st'.
  split; [by do 3 (eapply steps_front; [eassumption|])|]. split; [cbn; lia|done].
Qed.

Lemma drain_any st : async_ok st -> exists ls st', steps thread_step st ls st' /\ (List.length ls <= 3 * List.length (eq st) + 2)%nat /\
  eq st' = [] /\ working st' = None /\ taking st' = taking st.
Proof.
  intros Hok. destruct (working st) as [[ev done_]|] eqn:Ew.
  2:{ destruct (drain _ st Hok eq_refl Ew) as (ls & st' & H1 & H2 & H3). exists ls, st'. split; [done|]. split; [lia|done]. }
  assert (forall st, async_ok st -> working st = Some (ev, true) -> exists ls st', steps thread_step st ls st' /\ (List.length ls <= 3 * List.length (eq st) + 1)%nat /\
    eq st' = [] /\ working st' = None /\ taking st' = taking st) as Hlast.
  { clear. intros st Hok Ew. pose (st1 := Async (token_object st) (free_events st ++ [ev]) (eq st) (events st) (taking st) None (finished st)).
    assert (thread_step st Silent st1) as S1 by (apply step_put_back; unfold put_back; by rewrite Ew). destruct (thread_step_ok _ _ _ Hok S1) as (O1 & _).
    destruct (drain _ st1 O1 eq_refl eq_refl) as (ls & st' & H1 & H2 & H3). exists (Silent :: ls), st'. split; [by apply (steps_front _ _ _ st1)|].
    split; [cbn in *; lia|done]. }
  destruct done_; [destruct (Hlast st Hok Ew) as (ls & st' & H1 & H2 & H3); exists ls, st'; split; [done|]; split; [lia|done]|].
  pose proof (ao_events st Hok ev) as [e Ee]; [unfold places; rewrite Ew; set_solver|].
  pose (st1 := Async (token_object st) (free_events st) (eq st) (events st) (taking st) (Some (ev, true))
    (match operation_of e with OperationPointer op => <[op := -1]> (finished st) | OperationFunction _ => finished st end)).
  assert (thread_step st (Ran (operation_of e)) st1) as S1 by (apply step_run; unfold run_operation; by rewrite Ew, Ee).
  destruct (thread_step_ok _ _ _ Hok S1) as (O1 & _). destruct (Hlast st1 O1 eq_refl) as (ls & st' & H1 & H2 & H3).
  exists (Ran (operation_of e) :: ls), st'. split; [by apply (steps_front _ _ _ st1)|]. split; [cbn in *; lia|done].
Qed.

End thread.

(** ** Witness: two threads, and a pool of two events *)

Definition ex_events (n : nat) : option async :=
  let st0 := fst (start_async_operations_thread 2 not_started 9) in
  st1 ← take_event st0 1 (OperationPointer 70); st2 ← take_event st1 2 (OperationFunction 8);
  match n with 1%nat => Some st1 | 2%nat => Some st2 | 3%nat => Some (push_event st2 2 1) | _ => Some (push_event (push_event st2 2 1) 1 0) end.

Definition ex_labels : list label := [Silent; Silent; Silent; Queued (OperationFunction 8); Queued (OperationPointer 70)].

