(* ===== verification/GlobalControl.v ===== *)
(** * Playback control over the remote interface (class [GlobalControlObject], remote_interface.cc)

    The server's object has no members of its own: it acts on the machines' transport and
    tells every client; the client's keeps what it was told, and tells its listeners. *)

From Stdlib Require Import ZArith Lia Ascii String List Sorted Permutation.
From stdpp Require Import base list strings numbers option.
From S2P Require Import Prelude CxxString StdMap Serialize Message Sequence RemoteContext Arpeggiator Scales MachineClock.
Local Open Scope string_scope.
Local Open Scope list_scope.
Local Open Scope Z_scope.
Local Open Scope vk_scope.

(** ** Handlers that send *)

(** What a handler sends one after the other, until something throws. *)
Fixpoint sends (outs : list (result (target * pairs))) : list (target * pairs) * option exn :=
  match outs with
  | [] => ([], None)
  | Err e :: _ => ([], Some e)
  | Ok out :: outs => let '(rest, thrown) := sends outs in (out :: rest, thrown)
  end.

Definition then_sends {A} (a : A) (outs : list (result (target * pairs))) : A * list (target * pairs) * option exn :=
  let '(outs, thrown) := sends outs in (a, outs, thrown).

(* @src src_jni/remote_interface.cc:453-480 BaseObject::send_object_message *)
Definition send_object_message (objid : Z) (values : pairs) : result (target * pairs) :=
  let! m := build (("id", to_string objid) :: values) in Ok (Everyone, m).

(** [acquire_reply], the values, and [src->deliver_message]. *)
Definition send_reply (msg : view) (values : pairs) : result (target * pairs) :=
  let! m := reply_with msg values in Ok (Sender, m).

(** ** Names separated by colons, or by another character *)

Definition list_text (delim : ascii) (names : list string) : string := fold_right (fun n s => (n ++ String delim s)%string) "" names.
Abbreviation join_names := (list_text ":").

(** [getline] until the end of the stream or an empty name; what follows the last delimiter is
    not a name. *)
(* @src src_jni/remote_interface.cc:910-922 GlobalControlObject::parse_serialized_arp_patterns *)
Fixpoint parse_list (delim : ascii) (fuel : nat) (text : string) : result (list string) :=
  match split_at delim text with
  | (_, None) => Ok []
  | (name, Some rest) =>
      if String.eqb name "" then Ok []
      else match fuel with
           | O => Err OutOfFuel
           | S fuel => let! names := parse_list delim fuel rest in Ok (name :: names)
           end
  end.
Abbreviation parse_names := (parse_list ":").

(* @src src_jni/machine_sequencer.cc:997-1008 build_arpeggio_pattern_id_list *)
Definition arpeggio_pattern_id_list : list string :=
  map (fun k => ("built-in #" ++ to_string (Z.of_nat k))%string) (List.seq 0 (Z.to_nat MAX_BUILTIN_ARP_PATTERNS)).

(** ** The server *)

(** The static members of [Machine] the object works on. *)
(* @src src_jni/machine.hh:730-747 Machine *)
Record control : Type := Control { machines : transport; record_file_name : string }.

Definition with_machines (c : control) (t : transport) : control := Control t (record_file_name c).

(* @src src_jni/remote_interface.hh:144-144 __FCT_GLOBALCONTROLOBJECT *)
Definition FCT_GLOBALCONTROLOBJECT : string := "GloCtrlObj".

Definition truth (b : bool) : string := if b then "true" else "false".

(* @src src_jni/remote_interface.cc:1107-1112 GlobalControlObject::serialize *)
Definition control_serialize (c : control) : pairs :=
  [("bpm", to_string (bpm (machines c))); ("lpb", to_string (lpb (machines c)));
   ("is_playing", truth (is_playing (machines c))); ("is_recording", truth (is_recording (machines c)))].

(** A setter of the transport, then what it reads back, to everyone and to the sender. *)
(* @src src_jni/remote_interface.cc:1021-1057 GlobalControlObject::process_message_server *)
Definition set_and_tell (objid : Z) (c : control) (msg : view) (key done sync : string)
    (set : Z -> result transport_op) (get : transport -> Z) : control * list (target * pairs) * option exn :=
  match get_int msg key with
  | Err e => (c, [], Some e)
  | Ok new =>
      match set new with
      | Err e => (c, [], Some e)
      | Ok op =>
          let c := with_machines c (op (machines c)) in
          let new := get (machines c) in
          then_sends c [send_object_message objid [("command", done); (key, to_string new)]; send_reply msg [(sync, to_string new)]]
      end
  end.

(* @src src_jni/remote_interface.cc:955-1061 GlobalControlObject::process_message_server *)
Definition control_server (objid : Z) (c : control) (msg : view) : control * list (target * pairs) * option exn :=
  let t := machines c in
  match msg "command" with
  | Err e => (c, [], Some e)
  | Ok command =>
      if String.eqb command "get_arp_patterns" then then_sends c [send_reply msg [("arp_patterns", join_names arpeggio_pattern_id_list)]]
      else if String.eqb command "is_it_playing" then then_sends c [send_reply msg [("playing", truth (is_playing t))]]
      else if String.eqb command "play" then then_sends (with_machines c (play t)) [send_object_message objid [("command", "play")]]
      else if String.eqb command "stop" then then_sends (with_machines c (stop t)) [send_object_message objid [("command", "stop")]]
      else if String.eqb command "rewind" then (with_machines c (rewind t), [], None)
      else if String.eqb command "set_rec_state" then
        match msg "state" with
        | Err e => (c, [], Some e)
        | Ok state =>
            let isrec := String.eqb state "true" in
            then_sends (with_machines c (set_record_state isrec t)) [send_object_message objid [("command", if isrec then "dorecord" else "dontrecord")]]
        end
      else if String.eqb command "is_it_recording" then then_sends c [send_reply msg [("recording", truth (is_recording t))]]
      else if String.eqb command "get_rec_fname" then then_sends c [send_reply msg [("fname", record_file_name c)]]
      else if String.eqb command "set_bpm" then set_and_tell objid c msg "bpm" "bpmset" "bpmsync" set_bpm bpm
      else if String.eqb command "set_lpb" then set_and_tell objid c msg "lpb" "lpbset" "lpbsync" set_lpb lpb
      else (c, [], None)
  end.

(** The callback the constructor registers with the machines: the line that plays. *)
(* @src src_jni/remote_interface.cc:939-951 GlobalControlObject::GlobalControlObject *)
Definition periodic_update (objid row : Z) : result (target * pairs) :=
  send_object_message objid [("command", "nrplaying"); ("nrow", to_string row)].

(** ** The client *)

(** [heard] is what the registered listeners have been called with, in order. *)
Inductive playback_call : Type :=
| PlaybackStateChanged (is_playing : bool)
| RecordingStateChanged (is_recording : bool)
| PeriodicPlaybackUpdate (row : Z).

(* @src src_jni/remote_interface.hh:804-805 GlobalControlObject *)
Record control_copy : Type := ControlCopy {
  copy_bpm : Z;
  copy_lpb : Z;
  copy_playing : bool;
  copy_recording : bool;
  heard : list playback_call
}.

Definition with_playing (c : control_copy) (b : bool) : control_copy :=
  ControlCopy (copy_bpm c) (copy_lpb c) b (copy_recording c) (heard c ++ [PlaybackStateChanged b]).
Definition with_recording (c : control_copy) (b : bool) : control_copy :=
  ControlCopy (copy_bpm c) (copy_lpb c) (copy_playing c) b (heard c ++ [RecordingStateChanged b]).

(* @src src_jni/remote_interface.cc:924-937 GlobalControlObject::GlobalControlObject *)
Definition new_control_copy (msg : view) : result control_copy :=
  let! b := get_int msg "bpm" in
  let! l := get_int msg "lpb" in
  let! playing := msg "is_playing" in
  let! recording := msg "is_recording" in
  let p := String.eqb playing "true" in
  let r := String.eqb recording "true" in
  Ok (ControlCopy b l p r [PlaybackStateChanged p; RecordingStateChanged r]).

(* @src src_jni/remote_interface.cc:893-898 GlobalControlObjectFactory::create *)
Definition create_control_copy (factory_type : string) (msg : view) : option (result control_copy) :=
  if String.eqb factory_type FCT_GLOBALCONTROLOBJECT then Some (new_control_copy msg) else None.

(* @src src_jni/remote_interface.cc:1063-1096 GlobalControlObject::process_message_client *)
Definition control_client (c : control_copy) (msg : view) : result control_copy :=
  let! command := msg "command" in
  if String.eqb command "nrplaying" then
    let! new_row := get_int msg "nrow" in
    Ok (ControlCopy (copy_bpm c) (copy_lpb c) (copy_playing c) (copy_recording c) (heard c ++ [PeriodicPlaybackUpdate new_row]))
  else if String.eqb command "play" then Ok (with_playing c true)
  else if String.eqb command "stop" then Ok (with_playing c false)
  else if String.eqb command "dorecord" then Ok (with_recording c true)
  else if String.eqb command "dontrecord" then Ok (with_recording c false)
  else if String.eqb command "bpmset" then
    let! b := get_int msg "bpm" in Ok (ControlCopy b (copy_lpb c) (copy_playing c) (copy_recording c) (heard c))
  else if String.eqb command "lpbset" then
    let! l := get_int msg "lpb" in Ok (ControlCopy (copy_bpm c) l (copy_playing c) (copy_recording c) (heard c))
  else Ok c.

(** The client's questions, and what it makes of the reply ([None]: the connection was lost). *)
(* @src src_jni/remote_interface.cc:1118-1136 GlobalControlObject::get_pad_arpeggio_patterns *)
Definition get_pad_arpeggio_patterns (reply_message : option view) : result (list string) :=
  match reply_message with
  | Some m => let! text := m "arp_patterns" in parse_names (String.length text) text
  | None => Err (JException "Server reply interrupted.")
  end.

(* @src src_jni/remote_interface.cc:1138-1154 GlobalControlObject::is_it_playing *)
Definition is_it_playing (reply_message : option view) : result bool :=
  match reply_message with
  | Some m => let! p := m "playing" in Ok (String.eqb p "true")
  | None => Ok false
  end.

(* @src src_jni/remote_interface.cc:1189-1205 GlobalControlObject::get_record_state *)
Definition get_record_state (reply_message : option view) : result bool :=
  match reply_message with
  | Some m => let! r := m "recording" in Ok (String.eqb r "true")
  | None => Ok false
  end.

(* @src src_jni/remote_interface.cc:1207-1222 GlobalControlObject::get_record_file_name *)
Definition get_record_file_name (reply_message : option view) : result string :=
  match reply_message with
  | Some m => m "fname"
  | None => Ok ""
  end.

(** What the client's other members send. *)
Inductive control_request : Type :=
| AskPlay | AskStop | AskRewind | AskRecord (do_record : bool) | AskBpm (b : Z) | AskLpb (l : Z).

(* @src src_jni/remote_interface.cc:1156-1264 GlobalControlObject *)
Definition request_values (r : control_request) : pairs :=
  match r with
  | AskPlay => [("command", "play")]
  | AskStop => [("command", "stop")]
  | AskRewind => [("command", "rewind")]
  | AskRecord do_record => [("command", "set_rec_state"); ("state", truth do_record)]
  | AskBpm b => [("command", "set_bpm"); ("bpm", to_string b)]
  | AskLpb l => [("command", "set_lpb"); ("lpb", to_string l)]
  end.

#[export] Instance control_object : RemoteObject control control_copy := {
  type_name _ := FCT_GLOBALCONTROLOBJECT;
  serialize := control_serialize;
  process_message_server := control_server;
  create_and_register := create_control_copy;
  process_message_client := control_client
}.

(** ** What is sent arrives *)

Lemma sends_ok xs : forall outs, sends xs = (outs, None) -> xs = map Ok outs.
Proof.
  induction xs as [|[out|e] xs IH]; intros outs; cbn [sends]; [by intros [= <-]| |done].
  destruct (sends xs) as [rest thrown]. intros [= <- ->]. cbn. by rewrite (IH rest).
Qed.

Lemma send_object_inv objid values out : send_object_message objid values = Ok out -> out = (Everyone, ("id", to_string objid) :: values).
Proof. unfold send_object_message. intros H. inv_bind H. apply build_inv in Hx as [-> _]. by injection H as <-. Qed.

Lemma send_reply_inv msg values out : send_reply msg values = Ok out ->
  exists repid, msg "repid" = Ok repid /\ out = (Sender, ("id", to_string MSG_REPLY) :: ("repid", repid) :: values).
Proof.
  unfold send_reply, reply_with. intros H. inv_bind H. inv_bind Hx. apply build_inv in Hx as [-> _]. injection H as <-. by eexists.
Qed.

(** What could be sent held no separator. *)
Lemma send_object_legal objid values out : send_object_message objid values = Ok out -> Forall legal values.
Proof.
  unfold send_object_message. intros H. inv_bind H. apply build_inv in Hx as [_ Hall]. by apply List.Forall_cons_iff in Hall as [_ Hall].
Qed.

Lemma send_reply_legal msg values out : send_reply msg values = Ok out -> Forall legal values.
Proof.
  unfold send_reply, reply_with. intros H. inv_bind H. inv_bind Hx. apply build_inv in Hx as [_ Hall].
  do 2 apply List.Forall_cons_iff in Hall as [_ Hall]. done.
Qed.

Definition asks_properly (msg : view) : Prop := forall r, msg "repid" = Ok r -> exists n, in_i32 n /\ r = to_string n.

Lemma addressed_broadcast objid values : 0 <= objid < 2^31 -> Forall good_pair values -> NoDup ("id" :: map fst values) ->
  addressed objid (Everyone, ("id", to_string objid) :: values).
Proof.
  intros Hid Hall Hnd. split; cbn [fst snd].
  - split; [|exact Hnd]. constructor; [by apply good_number; repeat split|done].
  - apply received_number; [unfold in_i32; lia|done].
Qed.

Lemma addressed_reply objid n values : in_i32 n -> Forall good_pair values -> NoDup ("id" :: "repid" :: map fst values) ->
  addressed objid (Sender, ("id", to_string MSG_REPLY) :: ("repid", to_string n) :: values).
Proof.
  intros Hn Hall Hnd. split; cbn [fst snd].
  - split; [|exact Hnd]. do 2 (constructor; [by apply good_number; repeat split|]). done.
  - split; [by apply received_number|]. by rewrite (received_number _ "repid" n).
Qed.

(** A reply is addressed, and no copy sees it. *)
Lemma reply_addressed objid msg k v out : asks_properly msg -> good_pair (k, v) -> k <> "id" -> k <> "repid" ->
  send_reply msg [(k, v)] = Ok out -> addressed objid out /\ broadcasts [out] = [].
Proof.
  intros Hask Hg H1 H2 (r & Hr & ->)%send_reply_inv. destruct (Hask r Hr) as (n & Hn & ->). split; [|done].
  apply addressed_reply; [done|by constructor|]. cbn.
  apply list.NoDup_cons. split; [|apply list.NoDup_cons; split; [|apply NoDup_singleton]].
  - rewrite !elem_of_cons, elem_of_nil. intros [H|[H|[]]]; congruence.
  - rewrite !elem_of_cons, elem_of_nil. intros [H|[]]; congruence.
Qed.

(** ** Copies stay equal *)

Record control_mirrors (c : control) (k : control_copy) : Prop := {
  cm_bpm : copy_bpm k = bpm (machines c);
  cm_lpb : copy_lpb k = lpb (machines c);
  cm_playing : copy_playing k = is_playing (machines c);
  cm_recording : copy_recording k = is_recording (machines c)
}.

Definition control_announceable (c : control) : Prop := in_i32 (bpm (machines c)) /\ in_i32 (lpb (machines c)).

Definition control_understood (c : control) (msg : view) : Prop := asks_properly msg /\ wire_text (record_file_name c).

(** What a request does to a copy. *)
Definition follows_control (objid : Z) (c' : control) (outs : list (target * pairs)) (c : control) : Prop :=
  Forall (addressed objid) outs /\ forall k, control_mirrors c k -> exists k',
    rfold (fun k m => control_client k (received m)) k (broadcasts outs) = Ok k' /\ control_mirrors c' k'.

Ltac good_pairs := repeat (apply List.Forall_cons; [by repeat split|]); apply List.Forall_nil.

Lemma truth_wire b : wire_text (truth b).
Proof. by destruct b. Qed.

Lemma then_sends_one {A} (a a' : A) x outs : then_sends a [x] = (a', outs, None) -> a' = a /\ exists out, x = Ok out /\ outs = [out].
Proof. unfold then_sends. cbn [sends]. destruct x as [out|]; [|done]. intros [= <- <-]. split; [done|by eexists]. Qed.

Lemma follows_reply objid c c' msg k v outs : asks_properly msg -> good_pair (k, v) -> k <> "id" -> k <> "repid" ->
  then_sends c [send_reply msg [(k, v)]] = (c', outs, None) -> follows_control objid c' outs c.
Proof.
  intros Hask Hg H1 H2 [-> (out & Hr & ->)]%then_sends_one. destruct (reply_addressed objid msg k v out) as [Ha Hb]; try done.
  split; [by constructor|]. intros copy Hm. rewrite Hb. by exists copy.
Qed.

Lemma follows_broadcast objid c c1 c' values outs : 0 <= objid < 2^31 -> Forall good_pair values -> NoDup ("id" :: map fst values) ->
  (forall k, control_mirrors c k -> exists k', control_client k (received (("id", to_string objid) :: values)) = Ok k' /\ control_mirrors c1 k') ->
  then_sends c1 [send_object_message objid values] = (c', outs, None) -> follows_control objid c' outs c.
Proof.
  intros Hid Hg Hnd Hf [-> (out & ->%send_object_inv & ->)]%then_sends_one. split; [constructor; [by apply addressed_broadcast|constructor]|].
  intros k Hm. destruct (Hf k Hm) as (k' & Hk' & Hm'). exists k'. cbn. by rewrite Hk'.
Qed.

Lemma wire_text_app s t : wire_text s -> wire_text t -> wire_text (s ++ t)%string.
Proof. intros (A1 & A2 & A3) (B1 & B2 & B3). unfold wire_text. by rewrite nul_free_app, !contains_app, A1, A2, A3, B1, B2, B3. Qed.

Lemma list_text_wire delim names : wire_text (String delim "") -> Forall wire_text names -> wire_text (list_text delim names).
Proof.
  intros Hd. induction 1 as [|n names Hn _ IH]; [by repeat split|]. cbn [list_text fold_right].
  apply wire_text_app; [done|]. by apply (wire_text_app (String delim "")).
Qed.

Lemma join_names_wire names : Forall wire_text names -> wire_text (join_names names).
Proof. by apply list_text_wire. Qed.

Lemma set_and_tell_follows objid c c' msg key done sync set get outs put :
  0 <= objid < 2^31 -> asks_properly msg -> good_key key -> wire_text done -> good_key sync ->
  key <> "id" -> key <> "command" -> sync <> "id" -> sync <> "repid" ->
  (forall new op, set new = Ok op -> in_i32 (get (op (machines c)))) ->
  (forall new op k, set new = Ok op -> control_mirrors c k -> control_mirrors (with_machines c (op (machines c))) (put k (get (op (machines c))))) ->
  (forall k n, in_i32 n -> control_client k (received [("id", to_string objid); ("command", done); (key, to_string n)]) = Ok (put k n)) ->
  set_and_tell objid c msg key done sync set get = (c', outs, None) -> follows_control objid c' outs c.
Proof.
  intros Hid Hask Hkey Hdone Hsync N1 N2 N3 N4 Hrange Hput Hclient. unfold set_and_tell.
  destruct (get_int msg key) as [new|]; [|discriminate]. destruct (set new) as [op|] eqn:Es; [|discriminate].
  pose proof (Hrange new op Es) as Hn. unfold then_sends. cbv zeta.
  destruct (sends _) as [outs1 thrown] eqn:E. intros [= <- <- ->]. apply sends_ok in E.
  destruct outs1 as [|o1 [|o2 [|]]]; try discriminate E. injection E as E1 E2. apply send_object_inv in E1 as ->.
  destruct (reply_addressed objid msg sync (to_string (get (op (machines c)))) o2) as [Ha Hb]; try done; [by apply good_number|].
  split.
  - constructor; [|by constructor]. apply addressed_broadcast; [done| |].
    + constructor; [by repeat split; destruct Hdone as (? & ? & ?)|]. constructor; [by apply good_number|constructor].
    + cbn. apply list.NoDup_cons. split; [rewrite !elem_of_cons, elem_of_nil; intros [H|[H|[]]]; congruence|].
      apply list.NoDup_cons. split; [rewrite elem_of_cons, elem_of_nil; intros [H|[]]; congruence|apply NoDup_singleton].
  - intros k Hm. exists (put k (get (op (machines c)))). split; [|by eapply Hput].
    change (broadcasts _) with ([("id", to_string objid); ("command", done); (key, to_string (get (op (machines c))))] :: broadcasts [o2]).
    cbn [rfold]. rewrite Hclient by done. by rewrite Hb.
Qed.

Lemma control_follows objid c msg c' outs : 0 <= objid < 2^31 -> control_understood c msg ->
  control_server objid c msg = (c', outs, None) -> follows_control objid c' outs c.
Proof.
  intros Hid [Hask Hname]. unfold control_server. destruct (msg "command") as [command|]; [|discriminate].
  assert (Hsame : (c, [], @None exn) = (c', outs, None) -> follows_control objid c' outs c).
  { intros [= <- <-]. split; [constructor|]. intros k Hm. by exists k. }
  repeat match goal with |- (if String.eqb command ?s then _ else _) = _ -> _ => destruct (String.eqb command s) end.
  - by apply follows_reply.
  - apply follows_reply; try done. by destruct (is_playing (machines c)).
  - apply follows_broadcast; [done|good_pairs|nodup_keys|]. intros k [H1 H2 H3 H4]. eexists. split; [reflexivity|by split].
  - apply follows_broadcast; [done|good_pairs|nodup_keys|]. intros k [H1 H2 H3 H4]. eexists. split; [reflexivity|by split].
  - intros [= <- <-]. split; [constructor|]. intros k [H1 H2 H3 H4]. exists k. by split.
  - destruct (msg "state") as [state|]; [|discriminate]. destruct (String.eqb state "true").
    + apply follows_broadcast; [done|good_pairs|nodup_keys|]. intros k [H1 H2 H3 H4]. eexists. split; [reflexivity|by split].
    + apply follows_broadcast; [done|good_pairs|nodup_keys|]. intros k [H1 H2 H3 H4]. eexists. split; [reflexivity|by split].
  - apply follows_reply; try done. by destruct (is_recording (machines c)).
  - apply follows_reply; try done.
  - apply (set_and_tell_follows objid c c' msg "bpm" "bpmset" "bpmsync" set_bpm bpm outs
      (fun k n => ControlCopy n (copy_lpb k) (copy_playing k) (copy_recording k) (heard k))); try done.
    + intros new op. unfold set_bpm. case_if; [done|]. intros [= <-]. zbool. cbn. unfold in_i32. lia.
    + intros new op k. unfold set_bpm. case_if; [done|]. intros [= <-] [H1 H2 H3 H4]. by split.
    + intros k n Hn. unfold control_client. cbn -[get_int]. by rewrite (received_number _ "bpm" n).
  - apply (set_and_tell_follows objid c c' msg "lpb" "lpbset" "lpbsync" set_lpb lpb outs
      (fun k n => ControlCopy (copy_bpm k) n (copy_playing k) (copy_recording k) (heard k))); try done.
    + intros new op. unfold set_lpb. case_if; [done|]. intros [= <-]. zbool. cbn. unfold in_i32. lia.
    + intros new op k. unfold set_lpb. case_if; [done|]. intros [= <-] [H1 H2 H3 H4]. by split.
    + intros k n Hn. unfold control_client. cbn -[get_int]. by rewrite (received_number _ "lpb" n).
  - exact Hsame.
Qed.

#[export] Program Instance control_replicated : ReplicatedObject control control_copy := {
  obj_mirrors := control_mirrors;
  announceable := control_announceable;
  understood := control_understood
}.
Next Obligation. discriminate. Qed.
Next Obligation.
  intros objid c _. split; [|cbn; nodup_keys].
  do 2 (constructor; [by apply good_number; repeat split|]). constructor; [by repeat split|].
  do 2 (constructor; [by apply good_number; repeat split|]). do 2 (constructor; [by split; [repeat split|apply truth_wire]|]). constructor.
Qed.
Next Obligation.
  intros objid c [H1 H2]. exists (ControlCopy (bpm (machines c)) (lpb (machines c)) (is_playing (machines c)) (is_recording (machines c))
    [PlaybackStateChanged (is_playing (machines c)); RecordingStateChanged (is_recording (machines c))]). split; [|by split].
  cbn [create_and_register type_name control_object]. unfold create_control_copy. rewrite String.eqb_refl. f_equal.
  unfold new_control_copy. rewrite (received_number _ "bpm" (bpm (machines c))) by done. cbn [rbind].
  rewrite (received_number _ "lpb" (lpb (machines c))) by done. cbn [rbind]. unfold received. cbn.
  by destruct (is_playing (machines c)), (is_recording (machines c)).
Qed.
Next Obligation. intros objid c msg c' outs Hid Hu Hp. by apply (control_follows objid c msg). Qed.

(** ** What the client's members do *)

Lemma parse_listed delim names : Forall (fun n => contains delim n = false /\ n <> "") names -> forall fuel, (List.length names <= fuel)%nat ->
  parse_list delim fuel (list_text delim names) = Ok names.
Proof.
  induction 1 as [|n names [Hc Hn] _ IH]; intros fuel Hf; [by destruct fuel|].
  destruct fuel as [|fuel]; cbn [List.length] in Hf; [lia|]. cbn [list_text fold_right parse_list]. fold (list_text delim names).
  rewrite split_at_app by done. rewrite (proj2 (String.eqb_neq _ _)) by done. by rewrite IH by lia.
Qed.

Lemma list_text_length delim names : (List.length names <= String.length (list_text delim names))%nat.
Proof.
  induction names as [|n names IH]; [done|]. cbn [list_text fold_right List.length]. fold (list_text delim names).
  rewrite string_length_app. cbn. lia.
Qed.

(** The request as it arrives; those for the tempo ask for a reply. *)
Definition request_message (objid n : Z) (r : control_request) : pairs :=
  ("id", to_string objid) :: request_values r ++
  match r with AskBpm _ | AskLpb _ => [("repid", to_string n)] | _ => [] end.

Definition effect (r : control_request) : result transport_op :=
  match r with
  | AskPlay => Ok play
  | AskStop => Ok stop
  | AskRewind => Ok rewind
  | AskRecord do_record => Ok (set_record_state do_record)
  | AskBpm b => set_bpm b
  | AskLpb l => set_lpb l
  end.

Definition request_in_range (r : control_request) : Prop :=
  match r with AskBpm z | AskLpb z => in_i32 z | _ => True end.

Lemma request_asks_properly objid n r : in_i32 n -> asks_properly (received (request_message objid n r)).
Proof.
  intros Hn x. unfold received, request_message.
  destruct r; cbn; try discriminate; intros [= <-]; exists n; (split; [done|by destruct (to_string_wire n) as [_ ->]]).
Qed.

Lemma send_built values : deliverable values -> build values = Ok values.
Proof. apply build_deliverable. Qed.

(** A tempo request as it arrives. *)
Lemma set_and_tell_done objid c msg n key done sync set get new op : 0 <= objid < 2^31 -> in_i32 n ->
  msg "repid" = Ok (to_string n) -> get_int msg key = Ok new -> set new = Ok op ->
  good_key key -> wire_text done -> good_key sync -> key <> "id" -> key <> "command" -> sync <> "id" -> sync <> "repid" ->
  exists outs, set_and_tell objid c msg key done sync set get = (with_machines c (op (machines c)), outs, None).
Proof.
  intros Hid Hn Hr Hg Hs Hk Hd Hsy N1 N2 N3 N4. unfold set_and_tell. rewrite Hg, Hs. unfold then_sends, send_object_message, send_reply.
  destruct (reply_with_received msg n sync (to_string (get (op (machines c))))) as (r & Hr' & _); try done; [apply to_string_wire|apply to_string_nonempty|].
  cbn [machines with_machines]. rewrite Hr'. rewrite send_built.
  - cbn. by eexists.
  - apply (addressed_broadcast objid [("command", done); (key, to_string (get (op (machines c))))]); [done| |].
    + constructor; [by repeat split; destruct Hd as (? & ? & ?)|]. constructor; [by apply good_number|constructor].
    + cbn. apply list.NoDup_cons. split; [rewrite !elem_of_cons, elem_of_nil; intros [H|[H|[]]]; congruence|].
      apply list.NoDup_cons. split; [rewrite elem_of_cons, elem_of_nil; intros [H|[]]; congruence|apply NoDup_singleton].
Qed.

Lemma tempo_carried_out objid n c msg key done sync set get v : 0 <= objid < 2^31 -> in_i32 n ->
  control_server objid c msg = set_and_tell objid c msg key done sync set get -> get_int msg key = Ok v -> msg "repid" = Ok (to_string n) ->
  good_key key -> wire_text done -> good_key sync -> key <> "id" -> key <> "command" -> sync <> "id" -> sync <> "repid" ->
  (forall c' outs, control_server objid c msg = (c', outs, None) -> follows_control objid c' outs c) ->
  match set v with
  | Ok op => exists outs, control_server objid c msg = (with_machines c (op (machines c)), outs, None) /\
      follows_control objid (with_machines c (op (machines c))) outs c
  | Err e => control_server objid c msg = (c, [], Some e)
  end.
Proof.
  intros Hid Hn E Hg Hr H1 H2 H3 N1 N2 N3 N4 Hf. destruct (set v) as [op|e] eqn:Es.
  - destruct (set_and_tell_done objid c msg n key done sync set get v op) as [outs Ho]; try done.
    exists outs. rewrite E. split; [done|]. apply Hf. by rewrite E.
  - rewrite E. unfold set_and_tell. by rewrite Hg, Es.
Qed.

(** C32: A client's request to play, stop, rewind, record or change the tempo does to the transport
    what the machine's own operation does, and every client's copy follows; a tempo out of its
    range changes nothing and is an exception, for which the server drops the client. *)
Theorem request_carried_out objid n c r : 0 <= objid < 2^31 -> in_i32 n -> request_in_range r -> wire_text (record_file_name c) ->
  match effect r with
  | Ok op => exists outs, control_server objid c (received (request_message objid n r)) = (with_machines c (op (machines c)), outs, None) /\
      follows_control objid (with_machines c (op (machines c))) outs c
  | Err e => control_server objid c (received (request_message objid n r)) = (c, [], Some e)
  end.
Proof.
  intros Hid Hn Hr Hname. pose proof (request_asks_properly objid n r Hn) as Hask.
  assert (Hf : forall c' outs, control_server objid c (received (request_message objid n r)) = (c', outs, None) -> follows_control objid c' outs c)
    by (intros; by eapply control_follows).
  assert (Hb : forall values, Forall good_pair values -> NoDup ("id" :: map fst values) ->
    send_object_message objid values = Ok (Everyone, ("id", to_string objid) :: values)).
  { intros values H1 H2. unfold send_object_message. rewrite send_built; [done|]. by apply addressed_broadcast. }
  destruct r as [| | |[]|b|l]; cbn [effect].
  1-5: eexists; (split; [unfold control_server; cbn [received]; unfold received; cbn; unfold then_sends; rewrite ?Hb by (good_pairs || nodup_keys); reflexivity|]); apply Hf;
    unfold control_server, received; cbn; unfold then_sends; rewrite ?Hb by (good_pairs || nodup_keys); reflexivity.
  - apply (tempo_carried_out objid n c _ "bpm" "bpmset" "bpmsync" set_bpm bpm b); try done;
      [by apply received_number|unfold received; cbn; by destruct (to_string_wire n) as [_ ->]].
  - apply (tempo_carried_out objid n c _ "lpb" "lpbset" "lpbsync" set_lpb lpb l); try done;
      [by apply received_number|unfold received; cbn; by destruct (to_string_wire n) as [_ ->]].
Qed.

(** A question, as it arrives. *)
Definition question (objid n : Z) (command : string) : view :=
  received [("id", to_string objid); ("command", command); ("repid", to_string n)].

Lemma answer_sent objid n c k v command : in_i32 n -> good_key k -> k <> "id" -> k <> "repid" -> wire_text v -> v <> "" ->
  control_server objid c (question objid n command) = then_sends c [send_reply (question objid n command) [(k, v)]] ->
  exists r, control_server objid c (question objid n command) = (c, [(Sender, r)], None) /\ deliverable r /\ received r k = Ok v.
Proof.
  intros Hn Hk H1 H2 Hv Hne ->. destruct (reply_with_received (question objid n command) n k v) as (r & Hr & Hd & Hv'); try done.
  - unfold question, received. cbn. by destruct (to_string_wire n) as [_ ->].
  - exists r. unfold then_sends, send_reply. by rewrite Hr.
Qed.

(** The client's questions get the truth: the names of the built-in arpeggio patterns, whether
    the machines play and record, and the name of the record file; nothing changes. *)
Theorem questions_answered objid n c : in_i32 n -> wire_text (record_file_name c) -> record_file_name c <> "" ->
  exists r1 r2 r3 r4,
    control_server objid c (question objid n "get_arp_patterns") = (c, [(Sender, r1)], None) /\
    control_server objid c (question objid n "is_it_playing") = (c, [(Sender, r2)], None) /\
    control_server objid c (question objid n "is_it_recording") = (c, [(Sender, r3)], None) /\
    control_server objid c (question objid n "get_rec_fname") = (c, [(Sender, r4)], None) /\
    Forall deliverable [r1; r2; r3; r4] /\
    get_pad_arpeggio_patterns (Some (received r1)) = Ok arpeggio_pattern_id_list /\
    GlobalControl.is_it_playing (Some (received r2)) = Ok (is_playing (machines c)) /\
    get_record_state (Some (received r3)) = Ok (is_recording (machines c)) /\
    get_record_file_name (Some (received r4)) = Ok (record_file_name c).
Proof.
  intros Hn Hname Hne.
  destruct (answer_sent objid n c "arp_patterns" (join_names arpeggio_pattern_id_list) "get_arp_patterns") as (r1 & E1 & D1 & V1); try done.
  destruct (answer_sent objid n c "playing" (truth (is_playing (machines c))) "is_it_playing") as (r2 & E2 & D2 & V2);
    try done; [apply truth_wire|by destruct (is_playing _)|].
  destruct (answer_sent objid n c "recording" (truth (is_recording (machines c))) "is_it_recording") as (r3 & E3 & D3 & V3);
    try done; [apply truth_wire|by destruct (is_recording _)|].
  destruct (answer_sent objid n c "fname" (record_file_name c) "get_rec_fname") as (r4 & E4 & D4 & V4); try done.
  exists r1, r2, r3, r4. split_and!; try done; [repeat (apply List.Forall_cons; [done|]); constructor| | |].
  - unfold get_pad_arpeggio_patterns. rewrite V1. cbn [rbind]. apply (parse_listed ":"); [|vm_compute; lia].
    repeat (constructor; [done|]). constructor.
  - unfold GlobalControl.is_it_playing. rewrite V2. by destruct (is_playing _).
  - unfold get_record_state. rewrite V3. by destruct (is_recording _).
Qed.

(** ** Witnesses *)

Definition ex_control : control := Control initial_transport "record.wav".

Lemma request_carried_out_witness :
  (exists outs, control_server 1 ex_control (received (request_message 1 0 (AskBpm 90))) =
     (Control (with_tempo initial_transport 0 90 4) "record.wav", outs, None) /\
     follows_control 1 (Control (with_tempo initial_transport 0 90 4) "record.wav") outs ex_control) /\
  control_server 1 ex_control (received (request_message 1 0 (AskBpm 300))) = (ex_control, [], Some ParameterOutOfSpec).
Proof.
  split.
  - apply (request_carried_out 1 0 ex_control (AskBpm 90)); (by repeat split) || (unfold in_i32; cbn; lia).
  - apply (request_carried_out 1 0 ex_control (AskBpm 300)); (by repeat split) || (unfold in_i32; cbn; lia).
Defined.

Lemma questions_answered_witness : exists r1 r2 r3 r4,
  control_server 1 ex_control (question 1 3 "get_arp_patterns") = (ex_control, [(Sender, r1)], None) /\
  control_server 1 ex_control (question 1 3 "is_it_playing") = (ex_control, [(Sender, r2)], None) /\
  control_server 1 ex_control (question 1 3 "is_it_recording") = (ex_control, [(Sender, r3)], None) /\
  control_server 1 ex_control (question 1 3 "get_rec_fname") = (ex_control, [(Sender, r4)], None) /\
  Forall deliverable [r1; r2; r3; r4] /\
  get_pad_arpeggio_patterns (Some (received r1)) = Ok arpeggio_pattern_id_list /\
  GlobalControl.is_it_playing (Some (received r2)) = Ok false /\
  get_record_state (Some (received r3)) = Ok false /\
  get_record_file_name (Some (received r4)) = Ok "record.wav".
Proof. apply (questions_answered 1 3 ex_control); [unfold in_i32; lia|by repeat split|done]. Defined.
