(* ===== verification/SampleBank.v ===== *)
(** * Sample banks over the remote interface (class [SampleBank], remote_interface.cc)

    The server loads sample files into numbered slots (the static signals of signal.cc) and
    tells the clients the names; the samples themselves are not modelled. *)

From Stdlib Require Import ZArith Lia Ascii String List Sorted Permutation.
From stdpp Require Import base list strings numbers option.
From S2P Require Import Prelude CxxString StdMap Serialize Message Sequence RemoteContext Scales GlobalControl.
Local Open Scope string_scope.
Local Open Scope list_scope.
Local Open Scope Z_scope.
Local Open Scope vk_scope.

(** ** Loading a file *)

(** What the loader makes of a file: an exception, no memory for it, or a signal. *)
Inductive file_outcome : Type := FileRefused | NoMemory | FileLoaded.

(** The text after the last slash ([rfind] of the slash, plus one). *)
(* @src src_jni/wavloader.cc:352-358 WavLoader::load_static_signal *)
Fixpoint basename (fname : string) : string :=
  match fname with
  | EmptyString => EmptyString
  | String c rest => if contains "/" fname then basename rest else fname
  end.

Section loading.
Context (file : string -> file_outcome).

(** The names of the static signals by slot. *)
(* @src src_jni/signal.cc:747-786 StaticSignal::replace_signal *)
Definition replace_signal (index : Z) (name : string) (signals : smap Z string) : smap Z string :=
  mset (merase signals index) index name.

(* @src src_jni/wavloader.cc:350-399 WavLoader::load_static_signal *)
Definition load_static_signal (fname : string) (only_preview : bool) (static_index : Z) (signals : smap Z string) : option (smap Z string) :=
  match file fname with
  | FileRefused => None
  | NoMemory => Some signals
  | FileLoaded => Some (if only_preview then signals else replace_signal static_index (basename fname) signals)
  end.

(** [WavLoader] is the one loader there is; what it throws is shown to the user. *)
(* @src src_jni/signal.cc:229-254 StaticSignalLoader::internal_load_signal *)
Definition load_signal (index : Z) (file_path : string) (signals : smap Z string) : smap Z string :=
  default signals (load_static_signal file_path (index =? -1) index signals).

(** [strncpy] into 128 bytes. *)
Definition slot_text (name : string) : string := substring 0 127 (c_str name).

(* @src src_jni/signal.cc:270-291 StaticSignalLoader::get_signal_name_for_slot *)
Definition get_signal_name_for_slot (signals : smap Z string) (index : Z) : result string :=
  match mfind signals index with
  | Some name => Ok (slot_text name)
  | None => Err (JException "No signal loaded at specified slot.")
  end.

(** ** The server *)

(** [signals] is the static member of [StaticSignal]. *)
(* @src src_jni/remote_interface.hh:818-820 SampleBank *)
Record bank : Type := Bank { bank_name : string; sample_names : smap Z string; signals : smap Z string }.

(* @src src_jni/remote_interface.cc:1357-1363 SampleBank::SampleBank *)
Definition new_bank (signals : smap Z string) : bank := Bank "<global>" signals signals.

(* @src src_jni/remote_interface.cc:1365-1369 SampleBank::serderize_samplebank *)
Definition bank_content : Serializable (string * smap Z string) :=
  fields_pair string_serializable (map_serializable int_serializable string_serializable).

(* @src src_jni/remote_interface.cc:1461-1465 SampleBank::serialize *)
Definition bank_serialize (b : bank) : pairs := [("content", write_one bank_content (bank_name b, sample_names b))].

(* @src src_jni/remote_interface.cc:1413-1445 SampleBank::process_message_server *)
Definition bank_server (objid : Z) (b : bank) (msg : view) : bank * list (target * pairs) * option exn :=
  match msg "command" with
  | Err e => (b, [], Some e)
  | Ok command =>
      if String.eqb command "loads" then
        match (let! i := get_int msg "index" in let! path := msg "path" in Ok (i, path)) with
        | Err e => (b, [], Some e)
        | Ok (bank_index, path) =>
            let b := Bank (bank_name b) (sample_names b) (load_signal bank_index path (signals b)) in
            match get_signal_name_for_slot (signals b) bank_index with
            | Err e => (b, [], Some e)
            | Ok new_name =>
                then_sends b
                  [send_object_message objid
                     [("command", "setname"); ("ignored", bank_name b); ("name", new_name); ("index", to_string bank_index)];
                   send_reply msg [("name", new_name)]]
            end
        end
      else (b, [], None)
  end.

(** ** The client *)

Record bank_copy : Type := BankCopy { copy_bank : string; copy_samples : smap Z string }.

(* @src src_jni/remote_interface.cc:1348-1354 SampleBank::SampleBank *)
Definition new_bank_copy (msg : view) : result bank_copy :=
  let! content := msg "content" in
  let! (name, samples) := read_one bank_content content in
  Ok (BankCopy name samples).

(* @src src_jni/remote_interface.hh:146-146 __FCT_SAMPLEBANK *)
Definition FCT_SAMPLEBANK : string := "SampleBank".

(* @src src_jni/remote_interface.cc:1323-1335 SampleBankFactory::create *)
Definition create_bank_copy (factory_type : string) (msg : view) : option (result bank_copy) :=
  if String.eqb factory_type FCT_SAMPLEBANK then Some (new_bank_copy msg) else None.

(* @src src_jni/remote_interface.cc:1447-1459 SampleBank::process_message_client *)
Definition bank_client (k : bank_copy) (msg : view) : result bank_copy :=
  let! command := msg "command" in
  if String.eqb command "setname" then
    let! new_name := msg "name" in
    let! bank_index := get_int msg "index" in
    Ok (BankCopy (copy_bank k) (mset (copy_samples k) bank_index new_name))
  else Ok k.

(* @src src_jni/remote_interface.cc:1375-1383 SampleBank::get_sample_name *)
Definition get_sample_name (k : bank_copy) (bank_index : Z) : result string :=
  match mfind (copy_samples k) bank_index with
  | Some name => Ok name
  | None => Err (JException "No sample loaded at that position in the bank.")
  end.

(** What [load_sample] sends, and what it does with the reply. *)
(* @src src_jni/remote_interface.cc:1391-1396 SampleBank::load_sample *)
Definition load_request (bank_index : Z) (serverside_file_path : string) : pairs :=
  [("command", "loads"); ("index", to_string bank_index); ("path", serverside_file_path)].

(* @src src_jni/remote_interface.cc:1385-1409 SampleBank::load_sample *)
Definition load_answered (k : bank_copy) (bank_index : Z) (reply_message : option view) : result bank_copy :=
  match reply_message with
  | None => Ok k
  | Some m => let! new_name := m "name" in Ok (BankCopy (copy_bank k) (mset (copy_samples k) bank_index new_name))
  end.

(** The banks of the client by name, each an object or gone. *)
(* @src src_jni/remote_interface.cc:1483-1497 SampleBank::get_bank *)
Definition get_bank (clientside_samplebanks : smap string (option Z)) (name : string) : result Z :=
  let name := if String.eqb name "" then "<global>" else name in
  match mfind clientside_samplebanks name with
  | Some (Some sb) => Ok sb
  | _ => Err (JException "No sample bank that is matching the queried name exists.")
  end.

(** The loop of [on_delete] does not advance. *)
(* @src src_jni/remote_interface.cc:1467-1481 SampleBank::on_delete *)
Fixpoint bank_on_delete (fuel : nat) (this : Z) (clientside_samplebanks : smap string (option Z)) : result (smap string (option Z)) :=
  match clientside_samplebanks with
  | [] => Ok []
  | (name, sb) :: _ =>
      if bool_decide (sb = Some this) then Ok (merase clientside_samplebanks name)
      else match fuel with
           | O => Err OutOfFuel
           | S fuel => bank_on_delete fuel this clientside_samplebanks
           end
  end.

#[export] Instance bank_object : RemoteObject bank bank_copy := {
  type_name _ := FCT_SAMPLEBANK;
  serialize := bank_serialize;
  process_message_server := bank_server;
  create_and_register := create_bank_copy;
  process_message_client := bank_client
}.

(** ** Copies stay equal *)

Definition names_ok (m : smap Z string) : Prop :=
  smap_ok m /\ forall i n, mfind m i = Some n -> in_i32 i /\ text_ok n /\ (String.length n <= 127)%nat.

Definition path_ok (path : string) : Prop :=
  nul_free path = true /\ basename path <> "" /\ (String.length (basename path) <= 127)%nat.

Definition bank_mirrors (b : bank) (k : bank_copy) : Prop := copy_bank k = bank_name b /\ copy_samples k = signals b.

(** The names a new client gets are those of the start of the server. *)
Definition bank_announceable (b : bank) : Prop :=
  text_ok (bank_name b) /\ names_ok (sample_names b) /\ signals b = sample_names b.

Definition bank_understood (b : bank) (msg : view) : Prop :=
  asks_properly msg /\ wire_text (bank_name b) /\ names_ok (signals b) /\ forall path, msg "path" = Ok path -> path_ok path.

Lemma basename_nul_free path : nul_free path = true -> nul_free (basename path) = true.
Proof.
  induction path as [|c path IH]; [done|]. cbn [basename]. destruct (contains "/" (String c path)); [|done].
  intros H. apply IH. cbn in H. by apply andb_prop in H as [_ H].
Qed.

Lemma substring_all n s : (String.length s <= n)%nat -> substring 0 n s = s.
Proof. revert s. induction n as [|n IH]; intros [|c s] H; cbn in *; try done; [lia|]. f_equal. apply IH. lia. Qed.

Lemma slot_text_id name : text_ok name -> (String.length name <= 127)%nat -> slot_text name = name.
Proof. intros [H _] Hl. unfold slot_text. rewrite c_str_nul_free by done. by apply substring_all. Qed.

(** Loading changes the slot it is asked to, if any. *)
Lemma load_signal_slot i path m : names_ok m -> in_i32 i -> path_ok path ->
  names_ok (load_signal i path m) /\ forall j, j <> i -> mfind (load_signal i path m) j = mfind m j.
Proof.
  intros [Hok Hm] Hi (Hp1 & Hp2 & Hp3). unfold load_signal, load_static_signal.
  destruct (file path); [done|done|]. destruct (i =? -1); [done|]. cbn [default from_option Datatypes.id]. unfold replace_signal. split.
  - split; [by apply mset_ok, merase_ok|]. intros j n. rewrite mfind_mset, mfind_merase by auto with vk.
    destruct (key_eqb j i) eqn:E; [|apply Hm]. apply key_eqb_spec in E as ->. intros [= <-].
    split; [done|]. split; [|done]. split; [by apply basename_nul_free|done].
  - intros j Hj. rewrite mfind_mset, mfind_merase by auto with vk. by rewrite key_eqb_neq.
Qed.

Lemma mset_slot (m m' : smap Z string) i n : smap_ok m -> smap_ok m' -> mfind m' i = Some n ->
  (forall j, j <> i -> mfind m' j = mfind m j) -> mset m i n = m'.
Proof.
  intros H1 H2 Hi Hj. apply smap_ext; [by apply mset_ok|done|]. intros j. rewrite mfind_mset by done.
  destruct (key_eqb j i) eqn:E; [by apply key_eqb_spec in E as ->|]. symmetry. apply Hj. intros ->. by rewrite key_eqb_refl in E.
Qed.

Lemma bank_follows objid b msg b' outs : 0 <= objid < 2^31 -> bank_understood b msg -> bank_server objid b msg = (b', outs, None) ->
  Forall (addressed objid) outs /\ forall k, bank_mirrors b k -> exists k',
    rfold (fun k m => bank_client k (received m)) k (broadcasts outs) = Ok k' /\ bank_mirrors b' k'.
Proof.
  intros Hid (Hask & Hname & Hsigs & Hpath). unfold bank_server. destruct (msg "command") as [command|]; [|discriminate].
  destruct (String.eqb command "loads"); [|intros [= <- <-]; split; [constructor|]; intros k Hm; by exists k].
  destruct (get_int msg "index") as [i|] eqn:Ei; cbn [rbind]; [|discriminate]. destruct (msg "path") as [path|] eqn:Ep; cbn [rbind]; [|discriminate].
  assert (Hi : in_i32 i) by (unfold get_int, rmap in Ei; inv_bind Ei; injection Ei as <-; apply stoi_range).
  destruct (load_signal_slot i path (signals b) Hsigs Hi (Hpath path eq_refl)) as [[Hok' Hnames] Hother].
  unfold get_signal_name_for_slot. cbn [signals bank_name]. destruct (mfind (load_signal i path (signals b)) i) as [name|] eqn:En; [|discriminate].
  destruct (Hnames i name En) as (_ & Ht & Hl). rewrite slot_text_id by done. pose proof Ht as [Hn Hne].
  unfold then_sends. destruct (sends _) as [os thrown] eqn:E. intros [= <- <- ->]. apply sends_ok in E.
  destruct os as [|o1 [|o2 [|]]]; try discriminate E. injection E as E1 E2.
  assert (Hw : wire_text name).
  { apply send_object_legal in E1. do 2 apply List.Forall_cons_iff in E1 as [_ E1]. apply List.Forall_cons_iff in E1 as [[_ [? ?]] _]. by split. }
  apply send_object_inv in E1 as ->.
  destruct (reply_addressed objid msg "name" name o2) as [Ha Hb]; try done.
  split.
  - constructor; [|by constructor]. apply addressed_broadcast; [done| |cbn; nodup_keys].
    do 3 (constructor; [by split; [repeat split|]|]). constructor; [by apply good_number; repeat split|constructor].
  - intros k [H1 H2]. exists (BankCopy (copy_bank k) (mset (copy_samples k) i name)). split.
    + change (broadcasts _) with ([("id", to_string objid); ("command", "setname"); ("ignored", bank_name b); ("name", name); ("index", to_string i)] :: broadcasts [o2]).
      rewrite Hb. cbn [rfold]. set (m := received _).
      assert (Hc : m "command" = Ok "setname") by done. assert (Hv : m "name" = Ok (wire_value name)) by done.
      assert (Hx : get_int m "index" = Ok i) by (by apply received_number).
      unfold bank_client. rewrite Hc. cbn [rbind]. change (String.eqb "setname" "setname") with true. cbv iota.
      rewrite Hv, Hx. cbn [rbind]. unfold wire_value. by rewrite (proj2 (String.eqb_neq _ _)).
    + split; [done|]. cbn [copy_samples signals]. rewrite H2. apply mset_slot; [apply Hsigs|done|done|done].
Qed.

Lemma bank_content_ok b : text_ok (bank_name b) -> names_ok (sample_names b) -> ser_ok (Serializable := bank_content) (bank_name b, sample_names b).
Proof.
  intros Ht [Hok Hm]. split; [exact Ht|]. split; [exact Hok|]. apply List.Forall_forall. intros [i n] Hin.
  apply list_elem_of_In, mfind_elem in Hin; [|done]. destruct (Hm i n Hin) as (Hi & Hn & _). by split.
Qed.

#[export] Program Instance bank_replicated : ReplicatedObject bank bank_copy := {
  obj_mirrors := bank_mirrors;
  announceable := bank_announceable;
  understood := bank_understood
}.
Next Obligation. discriminate. Qed.
Next Obligation.
  intros objid b (Ht & Hn & _). split; [|cbn; nodup_keys].
  do 2 (constructor; [by apply good_number; repeat split|]). constructor; [by repeat split|]. constructor; [|constructor].
  split; [by repeat split|]. apply write_one_wire. by apply bank_content_ok.
Qed.
Next Obligation.
  intros objid b (Ht & Hn & Hs). exists (BankCopy (bank_name b) (sample_names b)). split; [|by split].
  cbn [create_and_register type_name bank_object]. unfold create_bank_copy. rewrite String.eqb_refl. f_equal.
  pose proof (bank_content_ok b Ht Hn) as Hc. destruct (write_one_wire bank_content _ Hc) as [_ Hne].
  unfold new_bank_copy, received. cbn -[write_one read_one]. unfold wire_value. rewrite (proj2 (String.eqb_neq _ _)) by exact Hne. cbn [rbind].
  by rewrite (read_write_one bank_content _ Hc).
Qed.
Next Obligation. intros objid b msg b' outs Hid Hu Hp. by apply (bank_follows objid b msg). Qed.
End loading.

(** ** What goes wrong *)

(** C40: A client that connects after samples were loaded gets the names of the server's start:
    the server tells its clients of a new name but does not keep it, so that the bank of the
    new client has none of the samples loaded since. *)
Theorem late_client_old_names file objid b msg b' outs thrown : text_ok (bank_name b) -> names_ok (sample_names b) ->
  bank_server file objid b msg = (b', outs, thrown) ->
  new_bank_copy (received (create_object_message (H := bank_object file) objid b')) = Ok (BankCopy (bank_name b) (sample_names b)).
Proof.
  intros Ht Hn Hp. assert (bank_name b' = bank_name b /\ sample_names b' = sample_names b) as [E1 E2].
  { unfold bank_server, then_sends in Hp. destruct (msg "command"); [|by injection Hp as <- _ _].
    destruct (String.eqb _ _); [|by injection Hp as <- _ _]. destruct (rbind _ _) as [[i path]|]; [|by injection Hp as <- _ _].
    destruct (get_signal_name_for_slot _ _); [|by injection Hp as <- _ _]. destruct (sends _). by injection Hp as <- _ _. }
  destruct (announce_mirrors (Obj := bank) (H := bank_object file) (ReplicatedObject := bank_replicated file) objid (Bank (bank_name b') (sample_names b') (sample_names b'))) as (k & Hk & H1 & H2).
  { rewrite E1, E2. by split_and!. }
  cbn [create_and_register type_name bank_object] in Hk. unfold create_bank_copy in Hk. rewrite String.eqb_refl in Hk. injection Hk as Hk.
  destruct k as [k1 k2]. cbn in H1, H2. subst k1 k2. rewrite <- E1, <- E2. exact Hk.
Qed.

(** [on_delete] does not return when another bank comes first in the map. *)
Lemma on_delete_hangs this name sb rest : sb <> Some this -> forall fuel, bank_on_delete fuel this ((name, sb) :: rest) = Err OutOfFuel.
Proof.
  intros H fuel. induction fuel as [|fuel IH]; cbn [bank_on_delete]; rewrite bool_decide_false by done; [done|exact IH].
Qed.

(** ** Witnesses *)

Definition ex_files (path : string) : file_outcome := FileLoaded.
Definition ex_bank : bank := new_bank [(0, "snare.wav")].
Definition ex_load : view := received ([("id", "2")] ++ load_request 3 "/sdcard/kick.wav" ++ [("repid", "5")]).

Lemma late_client_old_names_witness :
  let '(b', outs, thrown) := bank_server ex_files 2 ex_bank ex_load in
  thrown = None /\ signals b' = [(0, "snare.wav"); (3, "kick.wav")] /\
  new_bank_copy (received (create_object_message (H := bank_object ex_files) 2 b')) = Ok (BankCopy "<global>" [(0, "snare.wav")]).
Proof.
  destruct (bank_server ex_files 2 ex_bank ex_load) as [[b' outs] thrown] eqn:E.
  pose proof (late_client_old_names ex_files 2 ex_bank ex_load b' outs thrown) as H.
  split; [by vm_compute in E; injection E|]. split; [by vm_compute in E; injection E as <-|]. apply H; [by split| |exact E].
  split; [apply smap_ok_cons; split; [by intros ? ? ?%elem_of_nil|apply smap_ok_nil]|].
  intros i n. cbn. destruct (key_eqb i 0) eqn:Ek; [|done]. intros [= <-]. apply key_eqb_spec in Ek as ->.
  split; [unfold in_i32; lia|]. split; [by split|cbn; lia].
Defined.
