(* ===== verification/HandleList.v ===== *)
(** * The list of machine types over the remote interface (class [HandleList], remote_interface.cc)

    The server tells the clients the handles of the plugins it can instantiate, each with a
    hint; a client asks for an instance by its handle. *)

From Stdlib Require Import ZArith Lia Ascii String List Sorted Permutation.
From stdpp Require Import base list strings numbers option.
From S2P Require Import Prelude CxxString StdMap Serialize Message Sequence RemoteContext Scales GlobalControl.
Local Open Scope string_scope.
Local Open Scope list_scope.
Local Open Scope Z_scope.
Local Open Scope vk_scope.

(** [handles] are the plugins found at the start with their hints (the map [name2handle] of
    dynamic_machine.cc). [instance] is what loading a plugin makes of a handle and a position:
    the name of the new machine, if there is one. *)
Section handles.
Context (instance : string -> string -> string -> option string).

(** ** The server *)

(** The set of handles is that of the map's keys; each has its hint. *)
(* @src src_jni/dynamic_machine.cc:752-760 DynamicMachine::Handle::get_handle_set *)
Definition get_handle_set (handles : smap string string) : list string := map fst handles.

Definition hint_key (handle : string) : string := ("hint_" ++ handle)%string.
Definition hint_pair (h : string * string) : string * string := (hint_key (fst h), snd h).

(* @src src_jni/remote_interface.cc:815-827 HandleList::serialize *)
Definition handles_serialize (handles : smap string string) : pairs :=
  map hint_pair handles ++ [("handles", join_names (get_handle_set handles))].

(** What the new machine itself tells the clients comes from its own object. *)
(* @src src_jni/remote_interface.cc:791-808 HandleList::process_message_server *)
Definition handles_server (objid : Z) (handles : smap string string) (msg : view) : smap string string * list (target * pairs) * option exn :=
  match msg "command" with
  | Err e => (handles, [], Some e)
  | Ok command =>
      if String.eqb command "instance" then
        match (let! h := msg "handle" in let! x := msg "xpos" in let! y := msg "ypos" in Ok (h, x, y)) with
        | Err e => (handles, [], Some e)
        | Ok (new_m_handle, xpos, ypos) =>
            then_sends handles [send_reply msg (match instance new_m_handle xpos ypos with Some name => [("name", name)] | None => [] end)]
        end
      else (handles, [], None)
  end.

(** ** The client *)

(* @src src_jni/remote_interface.cc:776-784 HandleList::HandleList *)
Fixpoint read_hints (msg : view) (handles : list string) (handle2hint : smap string string) : result (smap string string) :=
  match handles with
  | [] => Ok handle2hint
  | h :: handles => let! hint := msg (hint_key h) in read_hints msg handles (mset handle2hint h hint)
  end.

(** The names are cut from the text as the hints are read. *)
(* @src src_jni/remote_interface.cc:771-785 HandleList::HandleList *)
Definition new_handles_copy (msg : view) : result (smap string string) :=
  let! text := msg "handles" in
  let! names := parse_names (String.length text) text in
  read_hints msg names [].

(* @src src_jni/remote_interface.hh:143-143 __FCT_HANDLELIST *)
Definition FCT_HANDLELIST : string := "HandleList".

(* @src src_jni/remote_interface.cc:753-759 HandleListFactory::create *)
Definition create_handles_copy (factory_type : string) (msg : view) : option (result (smap string string)) :=
  if String.eqb factory_type FCT_HANDLELIST then Some (new_handles_copy msg) else None.

(** What [create_instance] makes of the reply. *)
(* @src src_jni/remote_interface.cc:849-879 HandleList::create_instance *)
Definition instance_created (reply_message : option view) : result string :=
  match reply_message with
  | None => Err (JException "Context not connected.")
  | Some m => match m "name" with Ok name => Ok name | Err _ => Err (JException "Server failed to create the machine.") end
  end.

#[export] Instance handles_object : RemoteObject (smap string string) (smap string string) := {
  type_name _ := FCT_HANDLELIST;
  serialize := handles_serialize;
  process_message_server := handles_server;
  create_and_register := create_handles_copy;
  process_message_client k _ := Ok k
}.

(** ** Copies stay equal *)

Definition handles_ok (handles : smap string string) : Prop :=
  smap_ok handles /\ forall h hint, (h, hint) ∈ handles -> good_key h /\ contains ":" h = false /\ wire_text hint /\ hint <> "".

Definition handles_understood (handles : smap string string) (msg : view) : Prop :=
  asks_properly msg /\ forall h x y name, instance h x y = Some name -> nul_free name = true.

Lemma hint_key_inj h h' : hint_key h = hint_key h' -> h = h'.
Proof. unfold hint_key. cbn. by intros [= H]. Qed.

Lemma hint_keys_nodup handles l : smap_ok handles -> (forall h, hint_key h ∉ l) -> NoDup l ->
  NoDup (map fst (map hint_pair handles) ++ l).
Proof.
  intros Hok Hl Hnd. rewrite map_map. cbn. induction handles as [|[h hint] handles IH]; [done|].
  apply smap_ok_cons in Hok as [Hlt Hok]. cbn. apply list.NoDup_cons. split; [|by apply IH].
  rewrite elem_of_app. intros [Hin|Hin]; [|by apply (Hl h)].
  apply list_elem_of_In, in_map_iff in Hin as ([h' hint'] & Heq & Hin). cbn in Heq. apply hint_key_inj in Heq as ->.
  apply list_elem_of_In in Hin. specialize (Hlt _ _ Hin). by rewrite key_lt_irrefl in Hlt.
Qed.

Lemma announced_handles objid handles : handles_ok handles -> deliverable (create_object_message objid handles).
Proof.
  intros [Hok Hall]. unfold create_object_message, add_create_object_header. cbn [type_name serialize handles_object]. split.
  - do 2 (constructor; [by apply good_number; repeat split|]). constructor; [by repeat split|]. apply Forall_app. split.
    + apply List.Forall_forall. intros p Hp. apply in_map_iff in Hp as ([h hint] & <- & Hin). apply list_elem_of_In in Hin.
      destruct (Hall h hint Hin) as ([(H1 & H2 & H3) Hne] & _ & Hh & _). split; [|done]. split; [|by destruct h].
      cbn. unfold hint_key. by repeat split; rewrite ?nul_free_app, ?contains_app.
    + constructor; [|constructor]. split; [by repeat split|]. apply join_names_wire. apply List.Forall_forall. intros h Hh.
      apply in_map_iff in Hh as ([h' hint] & <- & Hin). apply list_elem_of_In in Hin. by destruct (Hall h' hint Hin) as ([? _] & _).
  - cbn [map fst app]. unfold handles_serialize. rewrite map_app.
    change (NoDup (["id"; "new_objid"; "factory"] ++ map fst (map hint_pair handles) ++ ["handles"])).
    rewrite Permutation_app_comm, <- app_assoc. apply hint_keys_nodup; [done| |nodup_keys].
    intros h. cbn [app]. rewrite !elem_of_cons, elem_of_nil. unfold hint_key. cbn. intros [H|[H|[H|[H|[]]]]]; discriminate H.
Qed.

Lemma lookup_kv_elem kvs k v : NoDup (map fst kvs) -> (k, v) ∈ kvs -> lookup_kv kvs k = Some v.
Proof.
  unfold lookup_kv. induction kvs as [|[k0 v0] kvs IH]; intros Hnd Hin; [by apply not_elem_of_nil in Hin|].
  cbn in Hnd. apply list.NoDup_cons in Hnd as [Hk0 Hnd]. apply elem_of_cons in Hin as [[= <- <-]|Hin].
  - cbn. by rewrite String.eqb_refl.
  - cbn. destruct (String.eqb_spec k0 k) as [->|]; [|by apply IH].
    exfalso. apply Hk0. apply list_elem_of_In, in_map_iff. exists (k, v). split; [done|]. by apply list_elem_of_In.
Qed.

Lemma read_hints_all msg handles : forall acc, smap_ok (acc ++ handles) ->
  (forall h hint, (h, hint) ∈ handles -> msg (hint_key h) = Ok hint) -> read_hints msg (map fst handles) acc = Ok (acc ++ handles).
Proof.
  induction handles as [|[h hint] handles IH]; intros acc Hok Hm; [by rewrite app_nil_r|].
  cbn [map fst read_hints]. rewrite (Hm h hint) by left. cbn [rbind].
  assert (Hlt : mset acc h hint = acc ++ [(h, hint)]).
  { apply mset_append. intros k v Hin. apply smap_ok_app in Hok as [_ Hlt]. apply (Hlt k v h hint); [done|by left]. }
  rewrite Hlt, IH; [by rewrite <- app_assoc|by rewrite <- app_assoc|]. intros h' hint' Hin. apply Hm. by right.
Qed.

#[export] Program Instance handles_replicated : ReplicatedObject (smap string string) (smap string string) := {
  obj_mirrors handles copy := copy = handles;
  announceable := handles_ok;
  understood := handles_understood
}.
Next Obligation. discriminate. Qed.
Next Obligation. apply announced_handles. Qed.
Next Obligation.
  intros objid handles Hok. exists handles. split; [|done]. pose proof (announced_handles objid handles Hok) as [_ Hnd]. destruct Hok as [Hok Hall].
  cbn [create_and_register type_name handles_object]. unfold create_handles_copy. rewrite String.eqb_refl. f_equal.
  set (kvs := create_object_message objid handles) in *.
  assert (Hget : forall k v, (k, v) ∈ kvs -> received kvs k = Ok (wire_value v)) by (intros k v Hin; unfold received; by rewrite (lookup_kv_elem _ _ _ Hnd Hin)).
  assert (Hnames : received kvs "handles" = Ok (wire_value (join_names (map fst handles)))).
  { apply Hget. do 3 right. apply elem_of_app. right. left. }
  assert (Hhints : forall h hint, (h, hint) ∈ handles -> received kvs (hint_key h) = Ok hint).
  { intros h hint Hin. rewrite (Hget _ hint); [|do 3 right; apply elem_of_app; left; apply list_elem_of_In, in_map_iff; exists (h, hint); split; [done|by apply list_elem_of_In]].
    unfold wire_value. destruct (Hall h hint Hin) as (_ & _ & _ & Hne). by rewrite (proj2 (String.eqb_neq _ _)). }
  assert (Hparse : forall text, text = wire_value (join_names (map fst handles)) -> parse_names (String.length text) text = Ok (map fst handles)).
  { intros text ->. unfold wire_value. destruct (String.eqb_spec (join_names (map fst handles)) "") as [He|_].
    - destruct handles as [|[[|c h] hint] handles]; [done|discriminate He|discriminate He].
    - apply parse_listed; [|apply list_text_length]. apply List.Forall_forall. intros h Hh.
      apply in_map_iff in Hh as ([h' hint] & <- & Hin). apply list_elem_of_In in Hin. by destruct (Hall h' hint Hin) as ([_ Hne] & Hc & _). }
  unfold new_handles_copy. rewrite Hnames. cbn [rbind]. rewrite (Hparse _ eq_refl). cbn [rbind]. by apply (read_hints_all _ handles []).
Qed.
Next Obligation.
  intros objid handles msg handles' outs Hid [Hask Hname]. cbn [process_message_server handles_object]. unfold handles_server.
  destruct (msg "command") as [command|]; [|discriminate].
  destruct (String.eqb command "instance"); [|intros [= <- <-]; split; [constructor|]; intros copy ->; by exists handles].
  destruct (rbind _ _) as [[[h x] y]|]; [|discriminate]. intros [-> (out & Hr & ->)]%then_sends_one.
  assert (addressed objid out /\ broadcasts [out] = []) as [Ha Hb].
  { destruct (instance h x y) as [name|] eqn:Ei.
    - apply (reply_addressed objid msg "name" name); try done. split; [by repeat split|]. split; [by eapply Hname|].
      apply send_reply_legal in Hr. by apply List.Forall_cons_iff in Hr as [[_ ?] _].
    - apply send_reply_inv in Hr as (r & Hr & ->). destruct (Hask r Hr) as (n & Hn & ->). split; [|done].
      apply addressed_reply; [done|constructor|cbn; nodup_keys]. }
  split; [by constructor|]. intros copy ->. exists handles. by rewrite Hb.
Qed.
End handles.
