(* ===== verification/ServiceObjects.v ===== *)
(** * A server with objects of several types

    The contexts of RemoteContext.v keep objects of any type that a factory makes. Here the
    interface and its laws are given for the sum of two types, so that the theorems hold for
    the server that [create_service_objects] starts: the list of machine types, playback
    control, the sample bank, and the sequences made later. *)

From Stdlib Require Import ZArith Lia Ascii String List Sorted Permutation.
From stdpp Require Import base list strings numbers option.
From S2P Require Import Prelude CxxString StdMap Common Serialize Message Sequence RemoteContext SequenceObject Arpeggiator Scales MachineClock GlobalControl SampleBank HandleList.
Local Open Scope string_scope.
Local Open Scope list_scope.
Local Open Scope Z_scope.
Local Open Scope vk_scope.

Section either.
Context {A CA B CB : Type} `{RA : ReplicatedObject A CA} `{RB : ReplicatedObject B CB}.

Definition either_server (objid : Z) (o : A + B) (msg : view) : (A + B) * list (target * pairs) * option exn :=
  match o with
  | inl a => let '(a, outs, thrown) := process_message_server objid a msg in (inl a, outs, thrown)
  | inr b => let '(b, outs, thrown) := process_message_server objid b msg in (inr b, outs, thrown)
  end.

(** The factories by their names. *)
Definition either_create (factory_type : string) (msg : view) : option (result (CA + CB)) :=
  match create_and_register (Obj := A) (Copy := CA) factory_type msg with
  | Some r => Some (rmap inl r)
  | None => rmap inr <$> create_and_register (Obj := B) (Copy := CB) factory_type msg
  end.

Definition either_client (k : CA + CB) (msg : view) : result (CA + CB) :=
  match k with
  | inl k => rmap inl (process_message_client (Obj := A) k msg)
  | inr k => rmap inr (process_message_client (Obj := B) k msg)
  end.

Definition either_object : RemoteObject (A + B) (CA + CB) := {|
  type_name o := match o with inl a => type_name a | inr b => type_name b end;
  RemoteContext.serialize o := match o with inl a => RemoteContext.serialize a | inr b => RemoteContext.serialize b end;
  RemoteContext.process_message_server := either_server;
  create_and_register := either_create;
  RemoteContext.process_message_client := either_client
|}.

(** No factory of the first type takes the name of the second. *)
Context (names_differ : forall b msg, create_and_register (Obj := A) (Copy := CA) (type_name (Copy := CB) (b : B)) msg = None).

Definition either_mirrors (o : A + B) (k : CA + CB) : Prop :=
  match o, k with
  | inl a, inl k => obj_mirrors a k
  | inr b, inr k => obj_mirrors b k
  | _, _ => False
  end.

Lemma rfold_inl msgs : forall k, rfold (fun o m => either_client o (received m)) (inl k) msgs =
  rmap inl (rfold (fun o m => process_message_client (Obj := A) o (received m)) k msgs).
Proof.
  induction msgs as [|m msgs IH]; intros k; [done|]. cbn [rfold either_client].
  destruct (process_message_client k (received m)); [apply IH|done].
Qed.

Lemma rfold_inr msgs : forall k, rfold (fun o m => either_client o (received m)) (inr k) msgs =
  rmap inr (rfold (fun o m => process_message_client (Obj := B) o (received m)) k msgs).
Proof.
  induction msgs as [|m msgs IH]; intros k; [done|]. cbn [rfold either_client].
  destruct (process_message_client k (received m)); [apply IH|done].
Qed.

Program Definition either_replicated : @ReplicatedObject (A + B) (CA + CB) either_object := {|
  obj_mirrors := either_mirrors;
  announceable o := match o with inl a => announceable (Copy := CA) a | inr b => announceable (Copy := CB) b end;
  understood o msg := match o with inl a => understood (Copy := CA) a msg | inr b => understood (Copy := CB) b msg end
|}.
Next Obligation. intros [a|b]; cbn; apply type_name_nonempty. Qed.
Next Obligation. intros objid [a|b] Ho; cbn in *; [by apply (announce_deliverable objid a)|by apply (announce_deliverable objid b)]. Qed.
Next Obligation.
  intros objid [a|b] Ho.
  - destruct (announce_mirrors objid a Ho) as (k & Hk & Hm). exists (inl k). split; [|exact Hm].
    change (either_create (type_name a) (received (create_object_message objid a)) = Some (Ok (inl k))).
    unfold either_create. by rewrite Hk.
  - destruct (announce_mirrors objid b Ho) as (k & Hk & Hm). exists (inr k). split; [|exact Hm].
    change (either_create (type_name b) (received (create_object_message objid b)) = Some (Ok (inr k))).
    unfold either_create. by rewrite names_differ, Hk.
Qed.
Next Obligation.
  intros objid [a|b] msg o' outs Hid Hu Hp; cbn in *.
  - destruct (process_message_server objid a msg) as [[a' outs1] thrown] eqn:E. injection Hp as <- <- ->.
    destruct (request_mirrors objid a msg a' outs1 Hid Hu E) as [Hall Hf]. split; [done|]. intros [k|k]; [|done]. intros Hm.
    destruct (Hf k Hm) as (k' & Hk' & Hm'). exists (inl k'). rewrite rfold_inl, Hk'. done.
  - destruct (process_message_server objid b msg) as [[b' outs1] thrown] eqn:E. injection Hp as <- <- ->.
    destruct (request_mirrors objid b msg b' outs1 Hid Hu E) as [Hall Hf]. split; [done|]. intros [k|k]; [done|]. intros Hm.
    destruct (Hf k Hm) as (k' & Hk' & Hm'). exists (inr k'). rewrite rfold_inr, Hk'. done.
Qed.

(** What is done to an object of either type. *)
Definition either_handle (handle_a : RemoteContext.handler A) (handle_b : RemoteContext.handler B) : RemoteContext.handler (A + B) := fun objid o msg =>
  match o with
  | inl a => let '(a, outs, thrown) := handle_a objid a msg in (inl a, outs, thrown)
  | inr b => let '(b, outs, thrown) := handle_b objid b msg in (inr b, outs, thrown)
  end.

Lemma either_followed_left objid (a a' : A) outs : followed (Copy := CA) objid a a' outs ->
  followed (H0 := either_replicated) objid (inl a : A + B) (inl a') outs.
Proof.
  intros [Hall Hf]. split; [exact Hall|]. intros [k|k]; [|done]. intros Hm. destruct (Hf k Hm) as (k' & Hk' & Hm').
  exists (inl k'). split; [|exact Hm']. cbn [RemoteContext.process_message_client either_object]. by rewrite rfold_inl, Hk'.
Qed.
End either.

(** ** The server's objects *)

Section service.
Context (instance : string -> string -> string -> option string) (file : string -> file_outcome).

Definition service : Type := (smap string string + (control + (bank + server)))%type.
Definition service_copy : Type := (smap string string + (control_copy + (bank_copy + sequence)))%type.

Definition banks_object : RemoteObject (bank + server) (bank_copy + sequence) :=
  either_object (H := bank_object file) (H0 := sequence_object).
Definition banks_replicated : @ReplicatedObject _ _ banks_object :=
  either_replicated (RA := bank_replicated file) (RB := sequence_replicated) (fun _ _ => eq_refl).

Definition controls_object : RemoteObject (control + (bank + server)) (control_copy + (bank_copy + sequence)) :=
  either_object (H := control_object) (H0 := banks_object).
Definition controls_replicated : @ReplicatedObject _ _ controls_object.
Proof. refine (either_replicated (RA := control_replicated) (RB := banks_replicated) _). by intros [b|b] msg. Defined.

#[export] Instance service_object : RemoteObject service service_copy :=
  either_object (H := handles_object instance) (H0 := controls_object).
#[export] Instance service_replicated : ReplicatedObject service service_copy.
Proof. refine (either_replicated (RA := handles_replicated instance) (RB := controls_replicated) _). by intros [c|[b|b]] msg. Defined.

(** What a copy shows of its object. *)
Definition shows (o : service) (k : service_copy) : Prop :=
  match o, k with
  | inl handles, inl k => k = handles
  | inr (inl c), inr (inl k) => control_mirrors c k
  | inr (inr (inl b)), inr (inr (inl k)) => bank_mirrors b k
  | inr (inr (inr s)), inr (inr (inr k)) => mirrors (Sequence.seq s) k
  | _, _ => False
  end.

Lemma shows_mirrors (o : service) (k : service_copy) : obj_mirrors o k -> shows o k.
Proof. by destruct o as [h|[c|[b|s]]], k as [h'|[c'|[b'|s']]]. Qed.


Lemma receive_replicable (st : remote_server service) agent kvs objid o : get_int (received kvs) "id" = Ok objid ->
  mfind (all_objects st) objid = Some o -> understood (Copy := service_copy) o (received kvs) ->
  snd (process_message_server (Copy := service_copy) objid o (received kvs)) = None ->
  replicable (Copy := service_copy) st (Receive agent (received kvs)).
Proof.
  intros Hid Ho Hu Hp. split; [apply received_view|]. intros objid' o' Hid' _ Ho'. rewrite Hid in Hid'. injection Hid' as <-.
  rewrite Ho in Ho'. injection Ho' as <-. destruct (process_message_server _ _ _) as [[o' outs] thrown]. left. by split.
Qed.
End service.

(** ** Witness: a client that sets the tempo and loads a sample *)

Definition ex_instance (handle xpos ypos : string) : option string := Some handle.
Definition ex_handles : smap string string := [("delay", "effect"); ("synth", "generator")].

Notation ex_service_event := (event (Obj := service)).
Definition ex_make (o : service) : ex_service_event := Create (fun _ => o) (fun o => (o, None)).
Definition ex_bpm : pairs := request_message 1 0 (AskBpm 90).
Definition ex_sample : pairs := ("id", "2") :: load_request 3 "/sdcard/kick.wav" ++ [("repid", to_string 1)].

Definition ex_service_events : list ex_service_event :=
  [ex_make (inl ex_handles); ex_make (inr (inl ex_control)); ex_make (inr (inr (inl ex_bank)));
   Accept; Receive 0 (received ex_bpm); Receive 0 (received ex_sample)].

Definition ex_service (n : nat) : remote_server service :=
  match rfold (server_step (H := service_object ex_instance ex_files)) new_server (take n ex_service_events) with
  | Ok st => st
  | Err _ => new_server
  end.

Lemma ex_bank_ok : bank_announceable ex_bank.
Proof.
  split; [by split|]. split; [|done]. split; [apply smap_ok_cons; split; [by intros ? ? ?%elem_of_nil|apply smap_ok_nil]|].
  intros i n. cbn. destruct (key_eqb i 0) eqn:Ek; [|done]. intros [= <-]. apply key_eqb_spec in Ek as ->.
  split; [unfold in_i32; lia|]. split; [by split|cbn; lia].
Qed.

Lemma ex_handles_ok : handles_ok ex_handles.
Proof.
  split.
  - apply smap_ok_cons. split; [by intros ? ? [[= -> ->]|?%elem_of_nil]%elem_of_cons|].
    apply smap_ok_cons. split; [by intros ? ? ?%elem_of_nil|apply smap_ok_nil].
  - intros h hint [[= -> ->]|[[= -> ->]|?%elem_of_nil]%elem_of_cons]%elem_of_cons; by repeat split.
Qed.

Lemma ex_asks_properly k v kvs n : in_i32 n -> lookup_kv ((k, v) :: kvs) "repid" = Some (to_string n) -> asks_properly (received ((k, v) :: kvs)).
Proof.
  intros Hn Hl r. unfold received. rewrite Hl. intros [= <-]. exists n. split; [done|]. by destruct (to_string_wire n) as [_ ->].
Qed.

Notation ex_run st := (server_run (H0 := service_replicated ex_instance ex_files) st).

Lemma ex_service_run n : (n <= 6)%nat -> ex_run (ex_service n).
Proof.
  assert (Hmake : forall st o st', ex_run st -> announceable (ReplicatedObject := service_replicated ex_instance ex_files) o ->
    last_obj_id st + 1 < 2^31 -> server_step (H := service_object ex_instance ex_files) st (ex_make o) = Ok st' -> ex_run st').
  { intros st o st' Hst Ho Hl Hs. by eapply (run_step _ (ex_make o)). }
  assert (H0 : ex_run (ex_service 0)) by constructor.
  assert (H1 : ex_run (ex_service 1))
    by (apply (Hmake _ (inl ex_handles) _ H0); [exact ex_handles_ok|done|vm_compute; reflexivity]).
  assert (H2 : ex_run (ex_service 2)).
  { apply (Hmake _ (inr (inl ex_control)) _ H1); [|done|vm_compute; reflexivity]. split; unfold in_i32; cbn; lia. }
  assert (H3 : ex_run (ex_service 3))
    by (apply (Hmake _ (inr (inr (inl ex_bank))) _ H2); [exact ex_bank_ok|done|vm_compute; reflexivity]).
  assert (H4 : ex_run (ex_service 4)).
  { apply (run_step _ Accept (ex_service 4) H3); [|vm_compute; reflexivity].
    constructor; [exact ex_handles_ok|]. constructor; [split; unfold in_i32; cbn; lia|]. constructor; [exact ex_bank_ok|constructor]. }
  assert (H5 : ex_run (ex_service 5)).
  { apply (run_step _ (Receive 0 (received ex_bpm)) (ex_service 5) H4); [|vm_compute; reflexivity].
    apply (receive_replicable _ _ _ _ ex_bpm 1 (inr (inl ex_control))); [by vm_compute|by vm_compute| |by vm_compute].
    split; [|by repeat split]. apply (ex_asks_properly _ _ _ 0); [unfold in_i32; lia|done]. }
  assert (H6 : ex_run (ex_service 6)).
  { apply (run_step _ (Receive 0 (received ex_sample)) (ex_service 6) H5); [|vm_compute; reflexivity].
    apply (receive_replicable _ _ _ _ ex_sample 2 (inr (inr (inl ex_bank)))); [by vm_compute|by vm_compute| |by vm_compute].
    split; [apply (ex_asks_properly _ _ _ 1); [unfold in_i32; lia|done]|]. split; [by repeat split|]. split; [apply ex_bank_ok|].
    intros path [= <-]. split; [done|]. split; [done|]. cbn. lia. }
  intros Hn. destruct n as [|[|[|[|[|[|[|n]]]]]]]; [exact H0|exact H1|exact H2|exact H3|exact H4|exact H5|exact H6|lia].
Qed.

