(* ===== verification/SequencerLoop.v ===== *)
(** * Loops of the machine sequencer (class [MachineSequencer::Loop], machine_sequencer.cc)

    A loop is a doubly linked list of notes in the order of their start, with the notes that
    sound during playback in sixteen slots. Notes are addresses on a heap: the list, the slots
    and the playback pointer share them. *)

From Stdlib Require Import String ZArith Lia List Permutation.
From stdpp Require Import base list gmap numbers option.
From S2P Require Import Prelude DoubleList PadTime.
Local Open Scope string_scope.
Local Open Scope list_scope.
Local Open Scope Z_scope.
Local Open Scope vk_scope.

(** [ticks2off] is not initialised by the constructors; it is read only after
    [process_note_on] set it. *)
(* @src src_jni/machine_sequencer.hh:111-135 MachineSequencer::NoteEntry *)
Record note_entry : Type := NoteEntry {
  channel : Z;
  program : Z;
  velocity : Z;
  note : Z;
  on_at : Z;
  note_length : Z;
  prev : option Z;
  next : option Z;
  ticks2off : Z
}.

Definition with_links (n : note_entry) (p x : option Z) : note_entry :=
  NoteEntry (channel n) (program n) (velocity n) (note n) (on_at n) (note_length n) p x (ticks2off n).
Definition with_ticks2off (n : note_entry) (t : Z) : note_entry :=
  NoteEntry (channel n) (program n) (velocity n) (note n) (on_at n) (note_length n) (prev n) (next n) t.

(* @src src_jni/machine_sequencer.cc:60-64 MachineSequencer::NoteEntry::NoteEntry *)
Definition new_note : note_entry := NoteEntry 0 0 0x7f 0 (-1) (-1) None None 0.

(* @src src_jni/machine_sequencer.cc:69-76 MachineSequencer::NoteEntry::set_to *)
Definition set_to (n original : note_entry) : note_entry :=
  NoteEntry (Z.land (channel original) 0x0f) (Z.land (program original) 0x7f) (Z.land (velocity original) 0x7f)
    (Z.land (note original) 0x7f) (on_at original) (note_length original) (prev n) (next n) (ticks2off n).

(* @src src_jni/machine_sequencer.cc:56-58 MachineSequencer::NoteEntry::NoteEntry *)
Definition copy_note (original : note_entry) : note_entry := set_to (with_links new_note None None) original.

Abbreviation note_heap := (gmap Z note_entry).

(** The heap and the next fresh address. *)
Record note_memory : Type := NoteMemory { notes : note_heap; next_address : Z }.

Definition at_note (h : note_heap) (a : Z) : result note_entry :=
  match h !! a with Some n => Ok n | None => Err (UndefinedBehaviour "dangling NoteEntry pointer") end.
Definition put_next (h : note_heap) (a : Z) (x : option Z) : result note_heap :=
  let! n := at_note h a in Ok (<[a := with_links n (prev n) x]> h).
Definition put_prev (h : note_heap) (a : Z) (p : option Z) : result note_heap :=
  let! n := at_note h a in Ok (<[a := with_links n p (next n)]> h).

Definition new_entry (m : note_memory) (n : note_entry) : note_memory * Z :=
  (NoteMemory (<[next_address m := n]> (notes m)) (next_address m + 1), next_address m).
Definition delete_entry (m : note_memory) (a : Z) : result note_memory :=
  let! _ := at_note (notes m) a in Ok (NoteMemory (base.delete a (notes m)) (next_address m)).
Definition with_notes (m : note_memory) (h : note_heap) : note_memory := NoteMemory h (next_address m).

Definition MAX_ACTIVE_NOTES : nat := 16.

(* @src src_jni/machine_sequencer.hh:148-157 MachineSequencer::Loop *)
Record loop : Type := Loop {
  loop_position : Z;
  first_note : option Z;
  next_note_to_play : option Z;
  active_note : list (option Z)
}.

Definition with_first (l : loop) (n : option Z) : loop := Loop (loop_position l) n (next_note_to_play l) (active_note l).
Definition with_play (l : loop) (n : option Z) : loop := Loop (loop_position l) (first_note l) n (active_note l).
Definition with_active (l : loop) (a : list (option Z)) : loop := Loop (loop_position l) (first_note l) (next_note_to_play l) a.

(** [loop_position] is not initialised. *)
(* @src src_jni/machine_sequencer.cc:136-142 MachineSequencer::Loop::Loop *)
Definition new_loop (position : Z) : loop := Loop position None None (repeat None MAX_ACTIVE_NOTES).

(** ** Editing *)

(** The walk of [internal_insert_note]: the heap and the first note. *)
(* @src src_jni/machine_sequencer.cc:310-338 MachineSequencer::Loop::internal_insert_note *)
Fixpoint insert_from (fuel : nat) (h : note_heap) (head : option Z) (new_one crnt : Z) : result (note_heap * option Z) :=
  match fuel with
  | O => Err OutOfFuel
  | S fuel =>
      let! c := at_note h crnt in
      let! n := at_note h new_one in
      if on_at n <? on_at c then
        let! h := put_prev h new_one (prev c) in
        let! h := put_next h new_one (Some crnt) in
        let! c := at_note h crnt in
        let! (h, head) :=
          match prev c with
          | Some p => let! h := put_next h p (Some new_one) in Ok (h, head)
          | None => Ok (h, Some new_one)
          end in
        let! h := put_prev h crnt (Some new_one) in
        Ok (h, head)
      else
        match next c with
        | None =>
            let! h := put_next h crnt (Some new_one) in
            let! h := put_prev h new_one (Some crnt) in
            let! h := put_next h new_one None in
            Ok (h, head)
        | Some x => insert_from fuel h head new_one x
        end
  end.

(* @src src_jni/machine_sequencer.cc:307-345 MachineSequencer::Loop::internal_insert_note *)
Definition internal_insert_note (h : note_heap) (l : loop) (new_one : Z) : result (note_heap * loop) :=
  match first_note l with
  | Some crnt => let! (h, head) := insert_from (size h) h (first_note l) new_one crnt in Ok (h, with_first l head)
  | None =>
      let! h := put_next h new_one None in
      let! h := put_prev h new_one None in
      Ok (h, with_first l (Some new_one))
  end.

(** The note that was found keeps its links. *)
(* @src src_jni/machine_sequencer.cc:233-252 MachineSequencer::Loop::internal_delete_note *)
Fixpoint delete_from (fuel : nat) (h : note_heap) (l : loop) (net : Z) (crnt : option Z) : result (note_heap * loop * option Z) :=
  match crnt with
  | None => Ok (h, l, None)
  | Some a =>
      match fuel with
      | O => Err OutOfFuel
      | S fuel =>
          let! c := at_note h a in
          if a =? net then
            let l := if bool_decide (next_note_to_play l = Some a) then with_play l (next c) else l in
            let! h := match prev c with Some p => put_next h p (next c) | None => Ok h end in
            let! c := at_note h a in
            let! h := match next c with Some x => put_prev h x (prev c) | None => Ok h end in
            let! c := at_note h a in
            let l := if bool_decide (first_note l = Some a) then with_first l (next c) else l in
            Ok (h, l, Some a)
          else delete_from fuel h l net (next c)
      end
  end.

(* @src src_jni/machine_sequencer.cc:232-252 MachineSequencer::Loop::internal_delete_note *)
Definition internal_delete_note (h : note_heap) (l : loop) (net : Z) : result (note_heap * loop * option Z) :=
  delete_from (size h) h l net (first_note l).

(* @src src_jni/machine_sequencer.cc:254-272 MachineSequencer::Loop::note_delete *)
Definition note_delete (m : note_memory) (l : loop) (net : Z) : result (note_memory * loop) :=
  let! (h, l, deletable) := internal_delete_note (notes m) l net in
  let m := with_notes m h in
  let! m := match deletable with Some a => delete_entry m a | None => Ok m end in
  Ok (m, l).

(* @src src_jni/machine_sequencer.cc:277-284 MachineSequencer::Loop::internal_update_note *)
Fixpoint update_from (fuel : nat) (h : note_heap) (original : Z) (new_entry : note_entry) (crnt : option Z) : result note_heap :=
  match crnt with
  | None => Ok h
  | Some a =>
      match fuel with
      | O => Err OutOfFuel
      | S fuel =>
          let! c := at_note h a in
          if a =? original then Ok (<[a := set_to c new_entry]> h) else update_from fuel h original new_entry (next c)
      end
  end.

(* @src src_jni/machine_sequencer.cc:287-305 MachineSequencer::Loop::note_update *)
Definition note_update (m : note_memory) (l : loop) (original : Z) (new_entry : note_entry) : result note_memory :=
  let! h := update_from (size (notes m)) (notes m) original new_entry (first_note l) in Ok (with_notes m h).

(* @src src_jni/machine_sequencer.cc:347-366 MachineSequencer::Loop::note_insert *)
Definition note_insert (m : note_memory) (l : loop) (n : note_entry) : result (note_memory * loop * Z) :=
  let (m, a) := new_entry m (copy_note n) in
  let! (h, l) := internal_insert_note (notes m) l a in
  Ok (with_notes m h, l, a).

(** Playback goes on from the notes that were taken away. *)
(* @src src_jni/machine_sequencer.cc:368-372 MachineSequencer::Loop::internal_clear *)
Definition internal_clear (l : loop) : loop * option Z := (with_first l None, first_note l).

(* @src src_jni/machine_sequencer.cc:390-394 MachineSequencer::Loop::clear_loop *)
Fixpoint delete_notes (fuel : nat) (m : note_memory) (a : option Z) : result note_memory :=
  match a with
  | None => Ok m
  | Some a =>
      match fuel with
      | O => Err OutOfFuel
      | S fuel =>
          let! n := at_note (notes m) a in
          let! m := delete_entry m a in
          delete_notes fuel m (next n)
      end
  end.

(* @src src_jni/machine_sequencer.cc:374-395 MachineSequencer::Loop::clear_loop *)
Definition clear_loop (m : note_memory) (l : loop) : result (note_memory * loop) :=
  let (l, notes_to_delete) := internal_clear l in
  let! m := delete_notes (size (notes m)) m notes_to_delete in
  Ok (m, l).

(* @src src_jni/machine_sequencer.cc:400-405 MachineSequencer::Loop::internal_insert_notes *)
Fixpoint insert_notes (fuel : nat) (h : note_heap) (l : loop) (tmp : option Z) : result (note_heap * loop) :=
  match tmp with
  | None => Ok (h, l)
  | Some crnt =>
      match fuel with
      | O => Err OutOfFuel
      | S fuel =>
          let! c := at_note h crnt in
          let! (h, l) := internal_insert_note h l crnt in
          insert_notes fuel h l (next c)
      end
  end.

(* @src src_jni/machine_sequencer.cc:397-407 MachineSequencer::Loop::internal_insert_notes *)
Definition internal_insert_notes (h : note_heap) (l : loop) (new_notes : option Z) : result (note_heap * loop * option Z) :=
  let (l, notes_to_delete) := internal_clear l in
  let! (h, l) := insert_notes (size h) h l new_notes in
  Ok (h, l, notes_to_delete).

(** The clones, the first and the last of them. *)
(* @src src_jni/machine_sequencer.cc:421-434 MachineSequencer::Loop::copy_loop *)
Fixpoint clone_notes (fuel : nat) (m : note_memory) (new_ones clone original : option Z) : result (note_memory * option Z) :=
  match original with
  | None => Ok (m, new_ones)
  | Some o =>
      match fuel with
      | O => Err OutOfFuel
      | S fuel =>
          let! n := at_note (notes m) o in
          let (m, a) := new_entry m (copy_note n) in
          let! (m, new_ones) :=
            match clone with
            | None => Ok (m, Some a)
            | Some c =>
                let! h := put_next (notes m) c (Some a) in
                let! h := put_prev h a (Some c) in
                let! h := put_next h a None in
                Ok (with_notes m h, new_ones)
            end in
          let! n := at_note (notes m) o in
          clone_notes fuel m new_ones (Some a) (next n)
      end
  end.

(* @src src_jni/machine_sequencer.cc:409-448 MachineSequencer::Loop::copy_loop *)
Definition copy_loop (m : note_memory) (l src : loop) : result (note_memory * loop) :=
  let! (m, new_ones) := clone_notes (size (notes m)) m None None (first_note src) in
  let! (h, l, notes_to_delete) := internal_insert_notes (notes m) l new_ones in
  let m := with_notes m h in
  let! m := delete_notes (size (notes m)) m notes_to_delete in
  Ok (m, l).

(** ** Playback *)

Inductive loop_call : Type :=
| LoopNoteOn (note velocity channel : Z)
| LoopNoteOff (note velocity channel : Z).

(* @src src_jni/machine_sequencer.cc:170-173 MachineSequencer::Loop::start_to_play *)
Definition start_to_play (l : loop) : loop := Loop 0 (first_note l) (first_note l) (active_note l).

(** The first free slot takes the note. *)
(* @src src_jni/machine_sequencer.cc:175-183 MachineSequencer::Loop::activate_note *)
Fixpoint activate_note (slots : list (option Z)) (n : Z) : list (option Z) * bool :=
  match slots with
  | [] => ([], false)
  | None :: slots => (Some n :: slots, true)
  | Some a :: slots => let '(slots, done) := activate_note slots n in (Some a :: slots, done)
  end.

(* @src src_jni/machine_sequencer.cc:185-192 MachineSequencer::Loop::deactivate_note *)
Fixpoint deactivate_note (slots : list (option Z)) (n : Z) : list (option Z) :=
  match slots with
  | [] => []
  | s :: slots => if bool_decide (s = Some n) then None :: slots else s :: deactivate_note slots n
  end.

(** [sounds] is [is_playing && !mute]. *)
(* @src src_jni/machine_sequencer.cc:194-205 MachineSequencer::Loop::process_note_on *)
Fixpoint process_note_on (fuel : nat) (sounds : bool) (h : note_heap) (l : loop) : result (note_heap * loop * list loop_call) :=
  match next_note_to_play l with
  | None => Ok (h, l, [])
  | Some a =>
      let! n := at_note h a in
      if on_at n =? loop_position l then
        match fuel with
        | O => Err OutOfFuel
        | S fuel =>
            let '(slots, activated) := if sounds then activate_note (active_note l) a else (active_note l, false) in
            let out := if activated : bool then [LoopNoteOn (note n) (velocity n) (channel n)] else [] in
            let h := if activated then <[a := with_ticks2off n (i32 (note_length n + 1))]> h else h in
            let! (h, l, more) := process_note_on fuel sounds h (with_play (with_active l slots) (next n)) in
            Ok (h, l, out ++ more)
        end
      else Ok (h, l, [])
  end.

(** The slots from [k] on, for [todo] slots. *)
(* @src src_jni/machine_sequencer.cc:207-219 MachineSequencer::Loop::process_note_off *)
Fixpoint note_off_from (todo : nat) (k : nat) (h : note_heap) (l : loop) : result (note_heap * loop * list loop_call) :=
  match todo with
  | O => Ok (h, l, [])
  | S todo =>
      let! s := load (active_note l) (Z.of_nat k) in
      match s with
      | None => note_off_from todo (S k) h l
      | Some a =>
          let! n := at_note h a in
          if 0 <? ticks2off n then note_off_from todo (S k) (<[a := with_ticks2off n (ticks2off n - 1)]> h) l
          else
            let! (h, l, more) := note_off_from todo (S k) h (with_active l (deactivate_note (active_note l) a)) in
            Ok (h, l, LoopNoteOff (note n) 0x80 (channel n) :: more)
      end
  end.

(* @src src_jni/machine_sequencer.cc:207-219 MachineSequencer::Loop::process_note_off *)
Definition process_note_off (h : note_heap) (l : loop) : result (note_heap * loop * list loop_call) :=
  note_off_from MAX_ACTIVE_NOTES 0 h l.

(* @src src_jni/machine_sequencer.cc:221-226 MachineSequencer::Loop::process *)
Definition process (sounds : bool) (h : note_heap) (l : loop) : result (note_heap * loop * list loop_call) :=
  let! (h, l, on) := process_note_on (size h) sounds h l in
  let! (h, l, off) := process_note_off h l in
  Ok (h, Loop (i32 (loop_position l + 1)) (first_note l) (next_note_to_play l) (active_note l), on ++ off).
