(* ===== verification/LoopNotes.v ===== *)
(** * The notes of a loop as a list

    [notes_chain] relates the pointers of a loop to a list of notes; inserting a note is a
    stable ordered insertion into that list, deleting one takes it out. *)

From Stdlib Require Import String ZArith Lia List Permutation.
From stdpp Require Import base list gmap numbers option.
From S2P Require Import Prelude DoubleList PadTime SequencerLoop.
Local Open Scope string_scope.
Local Open Scope list_scope.
Local Open Scope Z_scope.
Local Open Scope vk_scope.

Definition next_f (h : note_heap) (a : Z) : option Z := n ← h !! a; next n.
Definition prev_f (h : note_heap) (a : Z) : option Z := n ← h !! a; prev n.

Definition notes_chain (h : note_heap) (head : option Z) (l : list Z) : Prop :=
  head = first_of l None /\ NoDup l /\ Forall (fun a => is_Some (h !! a)) l /\ linked (next_f h) (prev_f h) None l None.

Definition start_of (h : note_heap) (a : Z) : Z := match h !! a with Some n => on_at n | None => 0 end.

(** Only links change. *)
Definition links_only (h h' : note_heap) : Prop :=
  forall a, match h !! a with
            | Some n => exists p x, h' !! a = Some (with_links n p x)
            | None => h' !! a = None
            end.

Lemma note_links_refl h : links_only h h.
Proof. intros a. destruct (h !! a) as [n|]; [|done]. exists (prev n), (next n). by destruct n. Qed.

Lemma note_links_trans h1 h2 h3 : links_only h1 h2 -> links_only h2 h3 -> links_only h1 h3.
Proof.
  intros H1 H2 a. specialize (H1 a). specialize (H2 a). destruct (h1 !! a) as [n|]; [|by rewrite H1 in H2].
  destruct H1 as (p & x & E). rewrite E in H2. destruct H2 as (p' & x' & E'). by exists p', x'.
Qed.

Lemma note_links_some h h' a : links_only h h' -> is_Some (h' !! a) <-> is_Some (h !! a).
Proof. intros H. specialize (H a). destruct (h !! a); [destruct H as (p & x & ->); by split; eexists|by rewrite H]. Qed.

Lemma note_links_start h h' a : links_only h h' -> start_of h' a = start_of h a.
Proof. intros H. specialize (H a). unfold start_of. destruct (h !! a); [by destruct H as (p & x & ->)|by rewrite H]. Qed.

Lemma note_put_next h a x : is_Some (h !! a) -> exists h', put_next h a x = Ok h' /\ links_only h h' /\
  (forall b, next_f h' b = if b =? a then x else next_f h b) /\ (forall b, prev_f h' b = prev_f h b).
Proof.
  intros [n E]. unfold put_next, at_note. rewrite E. eexists. split; [reflexivity|]. unfold next_f, prev_f.
  split; [|split]; intros b; (destruct (Z.eqb_spec b a) as [->|Hne]; [rewrite ?E, !lookup_insert_eq|rewrite !lookup_insert_ne by done]); try done.
  - by exists (prev n), x.
  - apply (note_links_refl h b).
Qed.

Lemma note_put_prev h a p : is_Some (h !! a) -> exists h', put_prev h a p = Ok h' /\ links_only h h' /\
  (forall b, prev_f h' b = if b =? a then p else prev_f h b) /\ (forall b, next_f h' b = next_f h b).
Proof.
  intros [n E]. unfold put_prev, at_note. rewrite E. eexists. split; [reflexivity|]. unfold next_f, prev_f.
  split; [|split]; intros b; (destruct (Z.eqb_spec b a) as [->|Hne]; [rewrite ?E, !lookup_insert_eq|rewrite !lookup_insert_ne by done]); try done.
  - by exists p, (next n).
  - apply (note_links_refl h b).
Qed.

Lemma notes_chain_size h head l : notes_chain h head l -> (length l <= size h)%nat.
Proof.
  intros (_ & Hnd & HF & _). rewrite <- (size_list_to_set (C:=gset Z) l Hnd), <- (size_dom h).
  apply subseteq_size. intros a Ha%elem_of_list_to_set. apply elem_of_dom. by apply (proj1 (list.Forall_forall _ _) HF).
Qed.

Lemma at_note_ok h a : is_Some (h !! a) -> exists n, h !! a = Some n /\ at_note h a = Ok n /\ next n = next_f h a /\
  prev n = prev_f h a /\ on_at n = start_of h a.
Proof. intros [n E]. exists n. unfold at_note, next_f, prev_f, start_of. by rewrite E. Qed.

(** ** Insertion *)

(** The new note goes before [top]. *)
Lemma insert_here fuel h l1 top l2 a : notes_chain h (first_of (l1 ++ top :: l2) None) (l1 ++ top :: l2) ->
  is_Some (h !! a) -> a ∉ l1 ++ top :: l2 -> start_of h a <? start_of h top = true ->
  exists h', insert_from (S fuel) h (first_of (l1 ++ top :: l2) None) a top = Ok (h', first_of (l1 ++ a :: top :: l2) None) /\
    links_only h h' /\ notes_chain h' (first_of (l1 ++ a :: top :: l2) None) (l1 ++ a :: top :: l2).
Proof.
  intros (_ & Hnd & HF & Hl) Ha Hn Hlt. pose proof Hl as Hl0. apply linked_app in Hl0 as [_ (Hpv & Hnx & _)].
  pose proof HF as HF0. apply Forall_app in HF as [HF1 [Ht HF2]%list.Forall_cons].
  apply not_elem_of_app in Hn as [Hn1 [Hn2 Hn3]%not_elem_of_cons].
  destruct (at_note_ok h top Ht) as (c & Ec & Ac & Cn & Cp & Cs). destruct (at_note_ok h a Ha) as (n & En & An & _ & _ & Cs').
  cbn [insert_from]. rewrite Ac, An. cbn [rbind]. rewrite Cs, Cs', Hlt.
  destruct (note_put_prev h a (prev c) Ha) as (h1 & -> & R1 & P1 & X1). cbn [rbind].
  destruct (note_put_next h1 a (Some top)) as (h2 & -> & R2 & X2 & P2); [by apply (note_links_some h)|]. cbn [rbind].
  pose proof (note_links_trans _ _ _ R1 R2) as R12.
  destruct (at_note_ok h2 top) as (c2 & Ec2 & Ac2 & _ & Cp2 & _); [by apply (note_links_some h)|]. rewrite Ac2. cbn [rbind].
  assert (prev c2 = last_of None l1) as -> by (by rewrite Cp2, P2, P1, (proj2 (Z.eqb_neq top a)) by congruence).
  assert (prev c = last_of None l1) as Hpc by (by rewrite Cp). rewrite Hpc in P1.
  assert (exists h3, match last_of None l1 with
      | Some p => let! h := put_next h2 p (Some a) in Ok (h, first_of (l1 ++ top :: l2) None)
      | None => Ok (h2, Some a) end = Ok (h3, first_of (l1 ++ a :: top :: l2) None) /\ links_only h h3 /\
    (forall b, prev_f h3 b = prev_f h2 b) /\
    forall b, next_f h3 b = if bool_decide (last_of None l1 = Some b) then Some a else next_f h2 b) as (h3 & -> & R3 & P3 & X3).
  { destruct (last_of None l1) as [p|] eqn:El.
    - assert (p ∈ l1) as Hp by (by apply last_of_in in El as [?|?]).
      destruct (note_put_next h2 p (Some a)) as (h3 & -> & R3 & X3 & P3).
      { apply (note_links_some h); [done|]. by apply (proj1 (list.Forall_forall _ _) HF1). }
      cbn [rbind]. exists h3. split; [by destruct l1|]. split; [by eapply note_links_trans|]. split; [done|].
      intros b. rewrite X3. case_bool_decide as D; [injection D as ->; by rewrite Z.eqb_refl|].
      rewrite (proj2 (Z.eqb_neq b p)); [done|congruence].
    - exists h2. destruct l1 as [|b l1]; [|exfalso; clear -El; revert b El; induction l1 as [|c l1 IH]; intros b El; [done|by apply (IH c)]].
      by split_and!. }
  cbn [rbind]. destruct (note_put_prev h3 top (Some a)) as (h4 & -> & R4 & P4 & X4); [by apply (note_links_some h)|].
  cbn [rbind]. pose proof (note_links_trans _ _ _ R3 R4) as R04. exists h4. split; [done|]. split; [done|].
  assert (NoDup (l1 ++ a :: top :: l2)) as Hnd'.
  { rewrite <- Permutation_middle. apply list.NoDup_cons. split; [|done]. apply not_elem_of_app. split; [done|].
    by apply not_elem_of_cons. }
  assert (top ∉ l1) as Htop by (intros Hin; apply list.NoDup_app in Hnd as (_ & Hd & _); apply (Hd top Hin); left).
  split; [done|]. split; [done|]. split.
  - eapply list.Forall_impl; [|intros b; by apply (note_links_some h)]. apply Forall_app in HF0 as [F1 F2].
    apply Forall_app. split; [done|]. by constructor.
  - eapply linked_with; [exact Hnd'|exact Hl| | | |].
    + intros b Hb. assert (b <> a) by (intros ->; apply elem_of_app in Hb as [|[|]%elem_of_cons]; congruence).
      by rewrite X4, X3, X2, X1, (proj2 (Z.eqb_neq b a)).
    + intros b Hb. assert (b <> a) by (intros ->; apply elem_of_app in Hb as [|[|]%elem_of_cons]; congruence).
      rewrite P4, P3, P2, P1, (proj2 (Z.eqb_neq b a)) by done. cbn [first_of].
      destruct (Z.eqb_spec b top) as [->|Hbt]; [by rewrite bool_decide_true|]. rewrite bool_decide_false; [done|congruence].
    + rewrite X4, X3, X2, Z.eqb_refl. rewrite bool_decide_false; [done|].
      intros [?|Hin]%last_of_in; done.
    + rewrite P4, P3, P2, P1, Z.eqb_refl. by rewrite (proj2 (Z.eqb_neq a top)) by congruence.
Qed.

(** The new note goes behind the last one. *)
Lemma insert_behind h l1 top a : notes_chain h (first_of (l1 ++ [top]) None) (l1 ++ [top]) ->
  is_Some (h !! a) -> a ∉ l1 ++ [top] ->
  exists h', (let! h := put_next h top (Some a) in
              let! h := put_prev h a (Some top) in
              let! h := put_next h a None in
              Ok (h, first_of (l1 ++ [top]) None)) = Ok (h', first_of (l1 ++ [top; a]) None) /\
    links_only h h' /\ notes_chain h' (first_of (l1 ++ [top; a]) None) (l1 ++ [top; a]).
Proof.
  intros (_ & Hnd & HF & Hl) Ha Hn. pose proof HF as HF0. apply Forall_app in HF as [HF1 [Ht _]%list.Forall_cons].
  pose proof Hn as Hn0. apply not_elem_of_app in Hn as [Hn1 [Hn2 _]%not_elem_of_cons].
  destruct (note_put_next h top (Some a) Ht) as (h1 & -> & R1 & X1 & P1). cbn [rbind].
  destruct (note_put_prev h1 a (Some top)) as (h2 & -> & R2 & P2 & X2); [by apply (note_links_some h)|]. cbn [rbind].
  pose proof (note_links_trans _ _ _ R1 R2) as R12.
  destruct (note_put_next h2 a None) as (h3 & -> & R3 & X3 & P3); [by apply (note_links_some h)|]. cbn [rbind].
  pose proof (note_links_trans _ _ _ R12 R3) as R03.
  exists h3. split; [by destruct l1|]. split; [done|]. split; [done|].
  replace (l1 ++ [top; a]) with ((l1 ++ [top]) ++ [a]) by (by rewrite <- app_assoc). split; [|split].
  - apply list.NoDup_app. split_and!; [done| |apply list.NoDup_singleton]. intros b Hb ->%list_elem_of_singleton. done.
  - apply Forall_app. split; [|by apply list.Forall_singleton, (note_links_some h)].
    eapply list.Forall_impl; [exact HF0|]. intros b. by apply (note_links_some h).
  - eapply linked_with; [|rewrite app_nil_r; exact Hl| | | |]; rewrite ?app_nil_r.
    + apply list.NoDup_app. split_and!; [done| |apply list.NoDup_singleton]. intros b Hb ->%list_elem_of_singleton. done.
    + intros b Hb. assert (b <> a) by (by intros ->). rewrite X3, X2, X1, (proj2 (Z.eqb_neq b a)), last_of_snoc by done.
      destruct (Z.eqb_spec b top) as [->|Hbt]; [by rewrite bool_decide_true|]. rewrite bool_decide_false; [done|congruence].
    + intros b Hb. assert (b <> a) by (by intros ->). by rewrite P3, P2, P1, (proj2 (Z.eqb_neq b a)).
    + by rewrite X3, Z.eqb_refl.
    + by rewrite P3, P2, Z.eqb_refl, last_of_snoc.
Qed.

Lemma insert_from_spec a : forall l2 l1 top h fuel, (length l2 < fuel)%nat ->
  notes_chain h (first_of (l1 ++ top :: l2) None) (l1 ++ top :: l2) -> is_Some (h !! a) -> a ∉ l1 ++ top :: l2 ->
  exists h', insert_from fuel h (first_of (l1 ++ top :: l2) None) a top =
      Ok (h', first_of (l1 ++ ordered_insert (start_of h) a (top :: l2)) None) /\
    links_only h h' /\
    notes_chain h' (first_of (l1 ++ ordered_insert (start_of h) a (top :: l2)) None) (l1 ++ ordered_insert (start_of h) a (top :: l2)).
Proof.
  induction l2 as [|x l2 IH]; intros l1 top h [|fuel] Hf Hc Ha Hn; try (cbn in Hf; lia); cbn [ordered_insert];
    destruct (start_of h a <? start_of h top) eqn:Elt; try (by apply insert_here).
  - destruct Hc as (Hh & Hnd & HF & Hl). pose proof HF as HF0. apply Forall_app in HF0 as [_ [Ht _]%list.Forall_cons].
    destruct (at_note_ok h top Ht) as (c & Ec & Ac & Cn & Cp & Cs). destruct (at_note_ok h a Ha) as (n & En & An & _ & _ & Cs').
    cbn [insert_from]. rewrite Ac, An. cbn [rbind]. rewrite Cs, Cs', Elt.
    pose proof Hl as Hl0. apply linked_app in Hl0 as [_ (_ & Hnx & _)]. rewrite Cn, Hnx. cbn [first_of]. by apply insert_behind.
  - pose proof Hc as (Hh & Hnd & HF & Hl). pose proof HF as HF0. apply Forall_app in HF0 as [_ [Ht _]%list.Forall_cons].
    destruct (at_note_ok h top Ht) as (c & Ec & Ac & Cn & Cp & Cs). destruct (at_note_ok h a Ha) as (n & En & An & _ & _ & Cs').
    cbn [insert_from]. rewrite Ac, An. cbn [rbind]. rewrite Cs, Cs', Elt.
    pose proof Hl as Hl0. apply linked_app in Hl0 as [_ (_ & Hnx & _)]. rewrite Cn, Hnx.
    destruct (IH (l1 ++ [top]) x h fuel) as (h' & E & R & C); [cbn in Hf; lia|by rewrite <- app_assoc|done|by rewrite <- app_assoc|].
    rewrite <- (app_assoc l1 [top] (ordered_insert (start_of h) a (x :: l2))) in E, C.
    rewrite <- (app_assoc l1 [top] (x :: l2)) in E. cbn [app first_of] in E, C. exists h'. by split_and!.
Qed.

(** Inserting a note into the list of a loop. *)
Lemma insert_note_spec h l ns a : notes_chain h (first_note l) ns -> is_Some (h !! a) -> a ∉ ns ->
  exists h', internal_insert_note h l a = Ok (h', with_first l (first_of (ordered_insert (start_of h) a ns) None)) /\
    links_only h h' /\ notes_chain h' (first_of (ordered_insert (start_of h) a ns) None) (ordered_insert (start_of h) a ns).
Proof.
  intros Hc Ha Hn. pose proof (notes_chain_size _ _ _ Hc) as Hsize. destruct Hc as (Hh & Hc). unfold internal_insert_note. rewrite Hh.
  destruct ns as [|top ns]; cbn [first_of].
  - destruct (note_put_next h a None Ha) as (h1 & -> & R1 & X1 & P1). cbn [rbind].
    destruct (note_put_prev h1 a None) as (h2 & -> & R2 & P2 & X2); [by apply (note_links_some h)|]. cbn [rbind].
    pose proof (note_links_trans _ _ _ R1 R2) as R. exists h2. split; [done|]. split; [done|]. split; [done|].
    split; [apply list.NoDup_singleton|]. split; [by apply list.Forall_singleton, (note_links_some h)|].
    cbn. by rewrite P2, X2, X1, Z.eqb_refl.
  - destruct (insert_from_spec a ns [] top h (size h)) as (h' & E & R & C); [cbn in Hsize; lia|done|done|done|].
    cbn [app first_of] in E. rewrite E. cbn [rbind]. by exists h'.
Qed.

(** C21: [internal_insert_note] is a stable ordered insertion: the pointers stand for the list with
    the new note behind all that start no later, no field of any note but its links changes,
    and a list that is in order stays in order. *)
Theorem insert_note_refines h l ns a : notes_chain h (first_note l) ns -> is_Some (h !! a) -> a ∉ ns ->
  exists h' l', internal_insert_note h l a = Ok (h', l') /\ links_only h h' /\
    notes_chain h' (first_note l') (ordered_insert (start_of h) a ns) /\
    (sorted_by (start_of h) ns -> sorted_by (start_of h') (ordered_insert (start_of h) a ns)).
Proof.
  intros Hc Ha Hn. destruct (insert_note_spec h l ns a Hc Ha Hn) as (h' & E & R & C).
  do 2 eexists. split; [exact E|]. split; [done|]. split; [exact C|]. intros Hs.
  apply (ordered_insert_sorted _ a) in Hs. apply (sorted_by_same (start_of h)); [|done].
  intros b. by apply note_links_start.
Qed.

(** ** Deletion *)

(** The playback pointer moves on when its note goes. *)
Definition after_delete (l : loop) (a : Z) (head following : option Z) : loop :=
  Loop (loop_position l) head (if bool_decide (next_note_to_play l = Some a) then following else next_note_to_play l) (active_note l).

Lemma delete_here fuel h l l1 a l2 : notes_chain h (first_note l) (l1 ++ a :: l2) ->
  exists h', delete_from (S fuel) h l a (Some a) = Ok (h', after_delete l a (first_of (l1 ++ l2) None) (first_of l2 None), Some a) /\
    links_only h h' /\ notes_chain h' (first_of (l1 ++ l2) None) (l1 ++ l2).
Proof.
  intros (Hh & Hnd & HF & Hl). pose proof Hl as Hl0. apply linked_app in Hl0 as [_ (Hpv & Hnx & _)].
  change (match l2 with [] => None | b :: _ => Some b end) with (first_of l2 None) in Hnx.
  pose proof HF as HF0. apply Forall_app in HF as [HF1 [Ha HF2]%list.Forall_cons].
  pose proof Hnd as Hnd0. apply list.NoDup_app in Hnd0 as (N1 & N2 & [N3 N4]%list.NoDup_cons).
  assert (forall b, last_of None l1 = Some b -> b ∈ l1 /\ b <> a) as Hlast.
  { intros b [?|Hb]%last_of_in; [done|]. split; [done|]. intros ->. apply (N2 a Hb). by left. }
  assert (forall b, first_of l2 None = Some b -> b ∈ l2 /\ b <> a) as Hfirst.
  { intros b Hb. destruct l2 as [|c l2]; [done|]. injection Hb as ->. split; [by left|]. intros ->. apply N3. by left. }
  destruct (at_note_ok h a Ha) as (c & Ec & Ac & Cn & Cp & _). cbn [delete_from]. rewrite Ac. cbn [rbind]. rewrite Z.eqb_refl.
  rewrite Cn, Cp, Hpv, Hnx.
  assert (exists h1, match last_of None l1 with Some p => put_next h p (first_of l2 None) | None => Ok h end = Ok h1 /\
    links_only h h1 /\ (forall b, prev_f h1 b = prev_f h b) /\
    forall b, next_f h1 b = if bool_decide (last_of None l1 = Some b) then first_of l2 None else next_f h b) as (h1 & -> & R1 & P1 & X1).
  { destruct (last_of None l1) as [p|] eqn:E.
    - destruct (note_put_next h p (first_of l2 None)) as (h1 & -> & R & X & P);
        [by apply (proj1 (list.Forall_forall _ _) HF1), Hlast|].
      exists h1. split_and!; try done. intros b. rewrite X. case_bool_decide as D; [injection D as ->; by rewrite Z.eqb_refl|].
      rewrite (proj2 (Z.eqb_neq b p)); [done|congruence].
    - exists h. split_and!; try done. apply note_links_refl. }
  cbn [rbind]. destruct (at_note_ok h1 a) as (c1 & _ & A1 & C1n & C1p & _); [by apply (note_links_some h)|]. rewrite A1. cbn [rbind].
  rewrite C1n, C1p, X1, P1, Hpv, Hnx. rewrite (bool_decide_false (last_of None l1 = Some a)) by (intros E; by apply Hlast in E as [_ E]).
  assert (exists h2, match first_of l2 None with Some n => put_prev h1 n (last_of None l1) | None => Ok h1 end = Ok h2 /\
    links_only h h2 /\ (forall b, next_f h2 b = next_f h1 b) /\
    forall b, prev_f h2 b = if bool_decide (first_of l2 None = Some b) then last_of None l1 else prev_f h b) as (h2 & -> & R2 & X2 & P2).
  { destruct (first_of l2 None) as [n|] eqn:E.
    - destruct (note_put_prev h1 n (last_of None l1)) as (h2 & -> & R & P & X).
      { apply (note_links_some h); [done|]. by apply (proj1 (list.Forall_forall _ _) HF2), Hfirst. }
      exists h2. split_and!; try done; [by eapply note_links_trans|]. intros b. rewrite P, P1.
      case_bool_decide as D; [injection D as ->; by rewrite Z.eqb_refl|]. rewrite (proj2 (Z.eqb_neq b n)); [done|congruence].
    - by exists h1. }
  cbn [rbind]. destruct (at_note_ok h2 a) as (c2 & _ & A2 & C2n & _); [by apply (note_links_some h)|]. rewrite A2. cbn [rbind].
  rewrite C2n, X2, X1, Hnx. rewrite (bool_decide_false (last_of None l1 = Some a)) by (intros E; by apply Hlast in E as [_ E]).
  exists h2. split; [|split; [done|split; [done|split; [|split]]]].
  - unfold after_delete. destruct l as [pos first play slots]. cbn in Hh |- *. subst first.
    assert (forall r, (if bool_decide (first_of (l1 ++ a :: l2) None = Some a) then first_of l2 None else r) =
      if bool_decide (first_of (l1 ++ a :: l2) None = Some a) then first_of (l1 ++ l2) None else r) as Hhead.
    { intros r. case_bool_decide as D; [|done]. destruct l1 as [|b l1]; [done|]. injection D as ->. exfalso.
      apply (N2 a ltac:(left)). by left. }
    assert (first_of (l1 ++ a :: l2) None <> Some a -> first_of (l1 ++ a :: l2) None = first_of (l1 ++ l2) None) as Hother
      by (by destruct l1).
    specialize (Hhead (first_of (l1 ++ a :: l2) None)).
    destruct (bool_decide_reflect (play = Some a)); cbn; destruct (bool_decide_reflect (first_of (l1 ++ a :: l2) None = Some a)) as [D|D];
      cbn; rewrite ?Hhead; try (by rewrite Hother); done.
  - apply list.NoDup_app. split_and!; [done| |done]. intros b Hb Hb2. apply (N2 b Hb). by right.
  - eapply list.Forall_impl; [by apply Forall_app_2|]. intros b. by apply (note_links_some h).
  - eapply linked_without; [exact Hnd|exact Hl| |]; intros b Hb; [by rewrite X2, X1|by rewrite P2].
Qed.

Lemma delete_from_spec h l a l2 : forall l1b l1a fuel, notes_chain h (first_note l) (l1a ++ l1b ++ a :: l2) -> (length l1b < fuel)%nat ->
  exists h', delete_from fuel h l a (first_of (l1b ++ [a]) None) =
      Ok (h', after_delete l a (first_of (l1a ++ l1b ++ l2) None) (first_of l2 None), Some a) /\
    links_only h h' /\ notes_chain h' (first_of (l1a ++ l1b ++ l2) None) (l1a ++ l1b ++ l2).
Proof.
  induction l1b as [|b l1b IH]; intros l1a fuel Hc Hf; (destruct fuel as [|fuel]; [lia|]); cbn [app first_of] in *.
  - by apply delete_here.
  - destruct Hc as (Hh & Hnd & HF & Hl).
    assert (a <> b) as Hab.
    { intros <-. apply list.NoDup_app in Hnd as (_ & _ & [Hn _]%list.NoDup_cons). apply Hn, elem_of_app. right. by left. }
    assert (is_Some (h !! b)) as Hb by (by apply Forall_app in HF as [_ [Hb _]%list.Forall_cons]).
    destruct (at_note_ok h b Hb) as (c & _ & Ac & Cn & _). cbn [delete_from]. rewrite Ac. cbn [rbind].
    rewrite (proj2 (Z.eqb_neq b a)), Cn by congruence.
    pose proof Hl as Hl'. apply linked_app in Hl' as [_ (_ & Hnx & _)]. rewrite Hnx.
    assert (match l1b ++ a :: l2 with [] => None | b :: _ => Some b end = first_of (l1b ++ [a]) None) as -> by (by destruct l1b).
    assert (forall l3, l1a ++ b :: l3 = (l1a ++ [b]) ++ l3) as Hsh by (intros l3; by rewrite <- app_assoc).
    rewrite (Hsh (l1b ++ l2)). apply IH; [|cbn in Hf; lia]. rewrite <- Hsh. by split.
Qed.

(** Deleting a note of a loop takes it out of the list, moves the playback pointer past it,
    and releases its memory; the other notes keep their order and their fields. *)
Theorem delete_note_refines m l l1 a l2 : notes_chain (notes m) (first_note l) (l1 ++ a :: l2) ->
  exists m', note_delete m l a = Ok (m', after_delete l a (first_of (l1 ++ l2) None) (first_of l2 None)) /\
    notes_chain (notes m') (first_of (l1 ++ l2) None) (l1 ++ l2) /\ notes m' !! a = None /\
    forall b, b <> a -> start_of (notes m') b = start_of (notes m) b.
Proof.
  intros Hc. pose proof (notes_chain_size _ _ _ Hc) as Hsize. rewrite length_app in Hsize. cbn in Hsize.
  destruct (delete_from_spec (notes m) l a l2 l1 [] (size (notes m))) as (h' & E & R & C); [done|lia|]. cbn [app] in *.
  pose proof Hc as (Hh & Hnd & HF & _). unfold note_delete, internal_delete_note. rewrite Hh.
  assert (first_of (l1 ++ a :: l2) None = first_of (l1 ++ [a]) None) as -> by (by destruct l1). rewrite E. cbn [rbind].
  assert (is_Some (h' !! a)) as Ha.
  { apply (note_links_some (notes m)); [done|]. by apply Forall_app in HF as [_ [Ha _]%list.Forall_cons]. }
  destruct (at_note_ok h' a Ha) as (c & _ & Ac & _). unfold delete_entry. cbn [notes with_notes]. rewrite Ac. cbn [rbind].
  eexists. split; [reflexivity|]. cbn [notes].
  assert (a ∉ l1 ++ l2) as Hn by (rewrite <- Permutation_middle in Hnd; by apply list.NoDup_cons in Hnd as [? _]).
  destruct C as (_ & C1 & C2 & C3). split; [|split].
  - split; [done|]. split; [done|]. split.
    + apply list.Forall_forall. intros b Hb. rewrite lookup_delete_ne by (by intros ->). by apply (proj1 (list.Forall_forall _ _) C2).
    + eapply linked_ext; [|exact C3]. intros b Hb. unfold next_f, prev_f. by rewrite lookup_delete_ne by (by intros ->).
  - apply lookup_delete_eq.
  - intros b Hb. rewrite <- (note_links_start (notes m) h' b R). unfold start_of. by rewrite lookup_delete_ne by congruence.
Qed.

(** ** Examples *)

(** Notes at tick 0 and 4 in the list, one at tick 4 to be inserted. *)
Definition ex_notes : note_heap :=
  <[1 := NoteEntry 0 0 100 60 0 2 None (Some 2) 0]> (<[2 := NoteEntry 0 0 90 64 4 3 (Some 1) None 0]>
    (<[3 := NoteEntry 1 0 80 67 4 0 None None 0]> ∅)).
Definition ex_loop : loop := with_first (new_loop 0) (Some 1).

Lemma ex_chain : notes_chain ex_notes (first_note ex_loop) [1; 2].
Proof.
  split; [done|]. split; [by apply base.NoDup_ListNoDup; repeat constructor; cbn; intuition|].
  split; [repeat constructor; by eexists|]. by cbn.
Qed.

Lemma insert_note_refines_witness : exists h' l', internal_insert_note ex_notes ex_loop 3 = Ok (h', l') /\ links_only ex_notes h' /\
  notes_chain h' (first_note l') [1; 2; 3] /\ (sorted_by (start_of ex_notes) [1; 2] -> sorted_by (start_of h') [1; 2; 3]).
Proof.
  apply (insert_note_refines ex_notes ex_loop [1; 2] 3); [exact ex_chain|by eexists|].
  rewrite !not_elem_of_cons. split_and!; [done|done|apply not_elem_of_nil].
Defined.

Lemma delete_note_refines_witness : exists m', note_delete (NoteMemory ex_notes 4) ex_loop 1 = Ok (m', after_delete ex_loop 1 (Some 2) (Some 2)) /\
  notes_chain (notes m') (Some 2) [2] /\ notes m' !! 1 = None /\ forall b, b <> 1 -> start_of (notes m') b = start_of ex_notes b.
Proof. exact (delete_note_refines (NoteMemory ex_notes 4) ex_loop [] 1 [2] ex_chain). Defined.
