(* ===== verification/LoopPlay.v ===== *)
(** * Playing a loop

    From [start_to_play] on every tick of [process] begins the notes that start at it and ends
    those that are over, as long as no more than sixteen sound. *)

From Stdlib Require Import String ZArith Lia List Permutation Sorted.
From stdpp Require Import base list gmap numbers option sorting.
From S2P Require Import Prelude DoubleList PadTime SequencerLoop LoopNotes.
Local Open Scope string_scope.
Local Open Scope list_scope.
Local Open Scope Z_scope.
Local Open Scope vk_scope.

(** ** The slots *)

Fixpoint held (slots : list (option Z)) : list Z :=
  match slots with [] => [] | Some a :: slots => a :: held slots | None :: slots => held slots end.

Lemma held_slots_app s1 s2 : held (s1 ++ s2) = held s1 ++ held s2.
Proof. induction s1 as [|[a|] s1 IH]; cbn; [done| |done]. by rewrite IH. Qed.

Lemma held_in a slots : a ∈ held slots <-> Some a ∈ slots.
Proof. induction slots as [|[b|] slots IH]; cbn; set_solver. Qed.

Lemma activate_free n slots : (length (held slots) < length slots)%nat ->
  exists slots', activate_note slots n = (slots', true) /\ length slots' = length slots /\ Permutation (held slots') (n :: held slots).
Proof.
  induction slots as [|[a|] slots IH]; cbn; intros H; [lia| |].
  - destruct IH as (slots' & -> & Hl & Hp); [lia|]. eexists. split; [reflexivity|]. cbn. split; [lia|].
    change (Permutation (a :: held slots') (n :: a :: held slots)). rewrite Hp. apply perm_swap.
  - eexists. split; [reflexivity|]. done.
Qed.

Lemma deactivate_slot a pre rest : a ∉ held pre -> deactivate_note (pre ++ Some a :: rest) a = pre ++ None :: rest.
Proof.
  induction pre as [|[b|] pre IH]; cbn; intros H.
  - by rewrite bool_decide_true.
  - apply not_elem_of_cons in H as [H1 H2]. rewrite bool_decide_false by congruence. by rewrite IH.
  - rewrite bool_decide_false by done. by rewrite IH.
Qed.

(** ** Ending notes *)

Definition ticks_of (h : note_heap) (a : Z) : Z := match h !! a with Some n => ticks2off n | None => 0 end.
Definition off_call (h : note_heap) (a : Z) : loop_call :=
  match h !! a with Some n => LoopNoteOff (note n) 0x80 (channel n) | None => LoopNoteOff 0 0 0 end.
Definition on_call (h : note_heap) (a : Z) : loop_call :=
  match h !! a with Some n => LoopNoteOn (note n) (velocity n) (channel n) | None => LoopNoteOn 0 0 0 end.

(** What a round does to a slot. *)
Definition after_tick (h : note_heap) (s : option Z) : option Z :=
  match s with Some a => if 0 <? ticks_of h a then Some a else None | None => None end.
Definition ended (h : note_heap) (slots : list (option Z)) : list Z :=
  List.filter (fun a => negb (0 <? ticks_of h a)) (held slots).

(** Only the counters differ. *)
Definition same_notes (h h' : note_heap) : Prop :=
  forall a, match h !! a with
            | Some n => exists t, h' !! a = Some (with_ticks2off n t)
            | None => h' !! a = None
            end.

Lemma same_notes_refl h : same_notes h h.
Proof. intros a. destruct (h !! a) as [n|]; [|done]. exists (ticks2off n). by destruct n. Qed.

Lemma same_notes_trans h1 h2 h3 : same_notes h1 h2 -> same_notes h2 h3 -> same_notes h1 h3.
Proof.
  intros H1 H2 a. specialize (H1 a). specialize (H2 a). destruct (h1 !! a) as [n|]; [|by rewrite H1 in H2].
  destruct H1 as (t & E). rewrite E in H2. destruct H2 as (t' & E'). by exists t'.
Qed.

Lemma same_notes_insert h a n t : h !! a = Some n -> same_notes h (<[a := with_ticks2off n t]> h).
Proof.
  intros E b. destruct (Z.eq_dec a b) as [->|Hne]; [rewrite E, lookup_insert_eq; by exists t|].
  rewrite lookup_insert_ne by done. apply (same_notes_refl h b).
Qed.

Lemma same_calls h h' a : same_notes h h' -> on_call h' a = on_call h a /\ off_call h' a = off_call h a /\
  start_of h' a = start_of h a /\ next_f h' a = next_f h a /\ (is_Some (h' !! a) <-> is_Some (h !! a)).
Proof.
  intros H. specialize (H a). unfold on_call, off_call, start_of, next_f. destruct (h !! a) as [n|]; [|by rewrite H].
  destruct H as (t & ->). cbn. repeat split; by eexists.
Qed.

Lemma note_off_round : forall rest pre h l, active_note l = pre ++ rest -> NoDup (held (pre ++ rest)) ->
  (forall a, a ∈ held rest -> is_Some (h !! a)) ->
  exists h', note_off_from (length rest) (length pre) h l =
      Ok (h', with_active l (pre ++ map (after_tick h) rest), map (off_call h) (ended h rest)) /\
    same_notes h h' /\
    forall a, ticks_of h' a = if bool_decide (a ∈ held rest) && (0 <? ticks_of h a) then ticks_of h a - 1 else ticks_of h a.
Proof.
  induction rest as [|s rest IH]; intros pre h l Hl Hnd Hex; cbn [note_off_from length].
  - exists h. split; [|split; [apply same_notes_refl|done]]. cbn. do 3 f_equal. rewrite <- Hl. by destruct l.
  - assert (load (active_note l) (Z.of_nat (length pre)) = Ok s) as ->.
    { rewrite Hl. by apply load_app_cons. }
    cbn [rbind]. destruct s as [a|].
    + assert (held (pre ++ Some a :: rest) = held pre ++ a :: held rest) as Hheld by (by rewrite held_slots_app).
      rewrite Hheld in Hnd. pose proof Hnd as Hnd0. apply list.NoDup_app in Hnd0 as (N1 & N2 & [N3 N4]%list.NoDup_cons).
      destruct (Hex a ltac:(left)) as [n En].
      assert (ticks_of h a = ticks2off n) as Ht by (unfold ticks_of; by rewrite En).
      unfold at_note. rewrite En. cbn [rbind]. rewrite <- Ht. cbn [map after_tick ended held].
      destruct (0 <? ticks_of h a) eqn:E0.
      * set (h1 := <[a := with_ticks2off n (ticks_of h a - 1)]> h).
        assert (forall b, ticks_of h1 b = if b =? a then ticks_of h a - 1 else ticks_of h b) as Ht1.
        { intros b. unfold h1, ticks_of at 1. destruct (Z.eqb_spec b a) as [->|Hne]; [by rewrite lookup_insert_eq|].
          by rewrite lookup_insert_ne. }
        assert (same_notes h h1) as HS1 by (by apply same_notes_insert).
        destruct (IH (pre ++ [Some a]) h1 l) as (h' & E & HS & HT).
        { rewrite Hl. by rewrite <- app_assoc. }
        { rewrite <- app_assoc. cbn. by rewrite Hheld. }
        { intros b Hb. apply (same_calls h h1 b HS1). apply Hex. by right. }
        rewrite length_app in E. cbn [length] in E. replace (length pre + 1)%nat with (S (length pre)) in E by lia. rewrite E.
        assert (forall b, b ∈ held rest -> b <> a) as Hba by (intros b Hb ->; done).
        exists h'. split; [|split; [by eapply same_notes_trans|]].
        -- assert (map (after_tick h1) rest = map (after_tick h) rest) as ->.
           { apply map_ext_in. intros [b|] Hb; [|done]. cbn. rewrite Ht1, (proj2 (Z.eqb_neq b a)); [done|].
             by apply Hba, held_in, list_elem_of_In. }
           assert (ended h1 rest = ended h rest) as ->.
           { apply filter_ext_in. intros b Hb. rewrite Ht1, (proj2 (Z.eqb_neq b a)); [done|]. by apply Hba, list_elem_of_In. }
           rewrite (map_ext (off_call h1) (off_call h)) by (intros b; by destruct (same_calls h h1 b HS1) as (_ & -> & _)).
           unfold ended. cbn [held List.filter after_tick]. by rewrite E0, <- app_assoc.
        -- intros b. rewrite HT, Ht1. destruct (Z.eqb_spec b a) as [->|Hne].
           ++ rewrite bool_decide_false by done. cbn. rewrite bool_decide_true by left. by rewrite E0.
           ++ rewrite (bool_decide_ext (b ∈ a :: held rest) (b ∈ held rest)); [done|]. rewrite elem_of_cons. intuition.
      * destruct (IH (pre ++ [None]) h (with_active l (deactivate_note (active_note l) a))) as (h' & E & HS & HT).
        { cbn. rewrite Hl, deactivate_slot, <- app_assoc; [done|]. intros Hin. apply (N2 a Hin). by left. }
        { rewrite <- app_assoc, held_slots_app. cbn. apply list.NoDup_app. split_and!; [done| |done].
          intros b Hb Hb2. apply (N2 b Hb). by right. }
        { intros b Hb. apply Hex. by right. }
        rewrite length_app in E. cbn [length] in E. replace (length pre + 1)%nat with (S (length pre)) in E by lia. rewrite E. cbn [rbind].
        exists h'. split; [|split; [done|]].
        -- unfold ended. cbn [held List.filter after_tick]. rewrite E0, <- app_assoc. cbn [negb map app].
           unfold off_call at 2. by rewrite En.
        -- intros b. rewrite HT. destruct (Z.eqb_spec b a) as [->|Hne].
           ++ rewrite bool_decide_false by done. cbn. rewrite bool_decide_true by left. by rewrite E0.
           ++ rewrite (bool_decide_ext (b ∈ a :: held rest) (b ∈ held rest)); [done|]. rewrite elem_of_cons. intuition.
    + assert (held (pre ++ None :: rest) = held pre ++ held rest) as Hheld by (by rewrite held_slots_app). rewrite Hheld in Hnd.
      destruct (IH (pre ++ [None]) h l) as (h' & E & HS & HT).
      { rewrite Hl. by rewrite <- app_assoc. }
      { rewrite <- app_assoc. cbn. by rewrite Hheld. }
      { done. }
      rewrite length_app in E. cbn [length] in E. replace (length pre + 1)%nat with (S (length pre)) in E by lia.
      exists h'. split; [|split; [done|exact HT]]. rewrite E. cbn. by rewrite <- app_assoc.
Qed.

Lemma held_after_tick h slots : held (map (after_tick h) slots) = List.filter (fun a => 0 <? ticks_of h a) (held slots).
Proof. induction slots as [|[a|] slots IH]; cbn; [done| |done]. destruct (0 <? ticks_of h a); cbn; by rewrite IH. Qed.

(** ** Beginning notes *)

Definition length_of (h : note_heap) (a : Z) : Z := match h !! a with Some n => note_length n | None => 0 end.

Lemma linked_same h h' : same_notes h h' -> forall l b, linked (next_f h) (prev_f h) b l None -> linked (next_f h') (prev_f h') b l None.
Proof.
  intros H l b. apply linked_ext. intros a _. split; [by apply (same_calls h h' a H)|].
  specialize (H a). unfold prev_f. destruct (h !! a) as [n|]; [by destruct H as (t & ->)|by rewrite H].
Qed.

Lemma same_length h h' a : same_notes h h' -> length_of h' a = length_of h a.
Proof. intros H. specialize (H a). unfold length_of. destruct (h !! a); [by destruct H as (t & ->)|by rewrite H]. Qed.

(** The notes [here] start at the position of the loop, the first of [later] does not. *)
Lemma note_on_run : forall here later fuel h l b, next_note_to_play l = first_of (here ++ later) None ->
  linked (next_f h) (prev_f h) b (here ++ later) None -> NoDup here -> Forall (fun a => is_Some (h !! a)) (here ++ later) ->
  Forall (fun a => start_of h a = loop_position l) here -> from_option (fun a => start_of h a <> loop_position l) True (first_of later None) ->
  (length here <= fuel)%nat -> (length (held (active_note l)) + length here <= length (active_note l))%nat ->
  exists h' slots', process_note_on fuel true h l =
      Ok (h', with_play (with_active l slots') (first_of later None), map (on_call h) here) /\
    same_notes h h' /\ length slots' = length (active_note l) /\ Permutation (held slots') (here ++ held (active_note l)) /\
    forall a, ticks_of h' a = if bool_decide (a ∈ here) then i32 (length_of h a + 1) else ticks_of h a.
Proof.
  induction here as [|a here IH]; intros later fuel h l b Hplay Hl Hnd HF Hs Hlater Hfuel Hfree; cbn [app first_of] in *.
  - exists h, (active_note l). split; [|split_and!; try done; apply same_notes_refl].
    destruct later as [|c later]; cbn [first_of] in *.
    + destruct fuel; cbn; rewrite Hplay; by destruct l; cbn in Hplay |- *; subst.
    + apply list.Forall_cons in HF as [Hc _]. destruct (at_note_ok h c Hc) as (n & _ & Ac & _ & _ & Cs). cbn in Hlater.
      destruct fuel; cbn; rewrite Hplay, Ac; cbn [rbind]; rewrite Cs, (proj2 (Z.eqb_neq _ _)) by done; by destruct l; cbn in Hplay |- *; subst.
  - destruct fuel as [|fuel]; [cbn in Hfuel; lia|]. cbn in Hfuel, Hfree.
    apply list.Forall_cons in HF as [Ha HF]. apply list.Forall_cons in Hs as [Hsa Hs]. apply list.NoDup_cons in Hnd as [Hna Hnd].
    pose proof Hl as (_ & Hnx & Hl').
    destruct (at_note_ok h a Ha) as (n & En & Ac & Cn & _ & Cs). cbn [process_note_on]. rewrite Hplay, Ac. cbn [rbind].
    rewrite Cs, Hsa, Z.eqb_refl.
    destruct (activate_free a (active_note l)) as (slots & -> & Hlen & Hp); [lia|]. cbn [rbind].
    set (h1 := <[a := with_ticks2off n (i32 (note_length n + 1))]> h).
    assert (same_notes h h1) as HS1 by (by apply same_notes_insert). pose proof (fun c => same_calls h h1 c HS1) as HC1.
    destruct (IH later fuel h1 (with_play (with_active l slots) (next n)) (Some a)) as (h' & slots' & E & HS & Hlen' & Hp' & HT).
    { cbn [next_note_to_play with_play]. rewrite Cn, Hnx. by destruct (here ++ later). }
    { by eapply linked_same. }
    { done. }
    { eapply list.Forall_impl; [exact HF|]. intros c Hc. by apply HC1. }
    { eapply list.Forall_impl; [exact Hs|]. intros c Hc. destruct (HC1 c) as (_ & _ & -> & _). exact Hc. }
    { destruct later as [|c later]; [done|]. cbn in Hlater |- *. destruct (HC1 c) as (_ & _ & -> & _). exact Hlater. }
    { lia. }
    { cbn [active_note with_play with_active]. rewrite Hp. cbn. lia. }
    rewrite E. cbn [rbind]. exists h', slots'. cbn [active_note with_play with_active] in *. split; [|split; [|split; [|split]]].
    + cbn [map app]. rewrite (map_ext (on_call h1) (on_call h)) by (intros c; by apply HC1). unfold on_call at 2. by rewrite En.
    + by eapply same_notes_trans.
    + lia.
    + rewrite Hp', Hp. cbn. symmetry. apply Permutation_middle.
    + intros c. rewrite HT, (same_length h h1 c HS1). destruct (Z.eq_dec c a) as [->|Hne].
      * rewrite bool_decide_false by done. rewrite bool_decide_true by left. unfold h1, ticks_of, length_of. by rewrite lookup_insert_eq, En.
      * rewrite (bool_decide_ext (c ∈ a :: here) (c ∈ here)) by (rewrite elem_of_cons; intuition).
        unfold h1, ticks_of. by rewrite lookup_insert_ne by congruence.
Qed.

(** ** A tick *)

(** The tick at which a note is over. *)
Definition end_of (h : note_heap) (a : Z) : Z := start_of h a + length_of h a + 1.

Definition starting (h : note_heap) (t : Z) (ns : list Z) : list Z := List.filter (fun a => start_of h a =? t) ns.
Definition ending (h : note_heap) (t : Z) (ns : list Z) : list Z := List.filter (fun a => end_of h a =? t) ns.
Definition sounding (h : note_heap) (t : Z) (ns : list Z) : list Z :=
  List.filter (fun a => (start_of h a <=? t) && (t <=? end_of h a)) ns.
Definition held_over (h : note_heap) (t : Z) (ns : list Z) : list Z :=
  List.filter (fun a => (start_of h a <? t) && (t <=? end_of h a)) ns.
Definition to_come (h : note_heap) (t : Z) (ns : list Z) : list Z := List.filter (fun a => t <=? start_of h a) ns.

(** A loop whose notes can be played: in order, of sane lengths, and no more than sixteen
    sounding together. *)
Record playable (h : note_heap) (head : option Z) (ns : list Z) : Prop := {
  play_chain : notes_chain h head ns;
  play_sorted : sorted_by (start_of h) ns;
  play_range : Forall (fun a => 0 <= start_of h a < 2^30 /\ -1 <= length_of h a < 2^30) ns;
  play_voices : forall t, (length (sounding h t ns) <= MAX_ACTIVE_NOTES)%nat
}.

(** Before the tick [t] of the loop [l] of [h0]. *)
Record before_tick (h0 : note_heap) (ns : list Z) (t : Z) (h : note_heap) (l : loop) : Prop := {
  bt_notes : same_notes h0 h;
  bt_position : loop_position l = t;
  bt_next : next_note_to_play l = first_of (to_come h0 t ns) None;
  bt_slots : length (active_note l) = MAX_ACTIVE_NOTES;
  bt_held : Permutation (held (active_note l)) (held_over h0 t ns);
  bt_ticks : forall a, a ∈ held_over h0 t ns -> ticks_of h a = end_of h0 a - t
}.

Lemma filter_false {A} (f : A -> bool) l : Forall (fun a => f a = false) l -> List.filter f l = [].
Proof. induction 1 as [|a l Ha _ IH]; cbn; [done|]. by rewrite Ha. Qed.

Lemma filter_true {A} (f : A -> bool) l : Forall (fun a => f a = true) l -> List.filter f l = l.
Proof. induction 1 as [|a l Ha _ IH]; cbn; [done|]. by rewrite Ha, IH. Qed.

(** The notes in order, cut at the tick. *)
Lemma sorted_cut h t ns : sorted_by (start_of h) ns ->
  ns = List.filter (fun a => start_of h a <? t) ns ++ to_come h t ns.
Proof.
  induction ns as [|a ns IH]; intros Hs; [done|]. apply sorted_by_cons in Hs as [Ha Hs]. unfold to_come in *. cbn [List.filter].
  destruct (Z.ltb_spec (start_of h a) t) as [Hlt|Hge].
  - rewrite (proj2 (Z.leb_gt t _)) by done. cbn. f_equal. by apply IH.
  - rewrite (proj2 (Z.leb_le t _)) by done. rewrite filter_false.
    + cbn. f_equal. symmetry. apply filter_true. eapply list.Forall_impl; [exact Ha|]. cbn. intros b Hb. apply Z.leb_le. lia.
    + eapply list.Forall_impl; [exact Ha|]. cbn. intros b Hb. apply Z.ltb_ge. lia.
Qed.

Lemma to_come_cut h t ns : sorted_by (start_of h) ns -> to_come h t ns = starting h t ns ++ to_come h (t + 1) ns.
Proof.
  induction ns as [|a ns IH]; intros Hs; [done|]. apply sorted_by_cons in Hs as [Ha Hs]. unfold to_come, starting in *. cbn [List.filter].
  destruct (Z.eqb_spec (start_of h a) t) as [He|Hne].
  - rewrite (proj2 (Z.leb_le t _)), (proj2 (Z.leb_gt (t + 1) _)) by lia. cbn. f_equal. by apply IH.
  - destruct (Z.leb_spec t (start_of h a)) as [Hle|Hgt].
    + rewrite (proj2 (Z.leb_le (t + 1) _)) by lia. rewrite IH by done. rewrite (filter_false (fun a => start_of h a =? t)); [done|].
      eapply list.Forall_impl; [exact Ha|]. cbn. intros b Hb. apply Z.eqb_neq. lia.
    + rewrite (proj2 (Z.leb_gt (t + 1) _)) by lia. by apply IH.
Qed.

Lemma filter_filter_ext {A} (f g k : A -> bool) l : Forall (fun a => f a && g a = k a) l -> List.filter g (List.filter f l) = List.filter k l.
Proof. induction 1 as [|a l Ha _ IH]; cbn; [done|]. rewrite <- Ha. destruct (f a); cbn; [|done]. destruct (g a); by rewrite IH. Qed.

(** The notes that sound are those that go on and those that begin. *)
Lemma sounding_split h t ns : Forall (fun a => -1 <= length_of h a) ns ->
  Permutation (starting h t ns ++ held_over h t ns) (sounding h t ns).
Proof.
  unfold starting, held_over, sounding. induction 1 as [|a ns Ha _ IH]; [done|]. cbn [List.filter].
  assert (end_of h a = start_of h a + length_of h a + 1) as He0 by done. destruct (Z.eqb_spec (start_of h a) t) as [He|Hne].
  - rewrite (proj2 (Z.ltb_ge _ t)), (proj2 (Z.leb_le (start_of h a) t)), (proj2 (Z.leb_le t (end_of h a))) by lia. cbn. by apply perm_skip.
  - destruct (Z.ltb_spec (start_of h a) t) as [Hlt|Hge].
    + rewrite (proj2 (Z.leb_le (start_of h a) t)) by lia. cbn [andb]. destruct (t <=? end_of h a); [|done]. rewrite <- Permutation_middle. by apply perm_skip.
    + rewrite (proj2 (Z.leb_gt (start_of h a) t)) by lia. done.
Qed.

Lemma filter_perm {A} (f : A -> bool) l l' : Permutation l l' -> Permutation (List.filter f l) (List.filter f l').
Proof.
  induction 1 as [|a l l' _ IH|a b l|l1 l2 l3 _ IH1 _ IH2]; cbn; [done| | |by etransitivity].
  - destruct (f a); [by apply perm_skip|done].
  - destruct (f a), (f b); try done. apply perm_swap.
Qed.

(** Between the two rounds of the tick [t]. *)
Record in_tick (h0 : note_heap) (ns : list Z) (t : Z) (h : note_heap) (l : loop) : Prop := {
  it_notes : same_notes h0 h;
  it_position : loop_position l = t;
  it_next : next_note_to_play l = first_of (to_come h0 (t + 1) ns) None;
  it_slots : length (active_note l) = MAX_ACTIVE_NOTES;
  it_held : Permutation (held (active_note l)) (sounding h0 t ns);
  it_ticks : forall a, a ∈ held (active_note l) -> ticks_of h a = end_of h0 a - t
}.

Lemma elem_filter (f : Z -> bool) (l : list Z) a : a ∈ List.filter f l <-> a ∈ l /\ f a = true.
Proof. rewrite !list_elem_of_In. apply filter_In. Qed.

Lemma playable_here h head ns h' : notes_chain h head ns -> same_notes h h' -> notes_chain h' head ns.
Proof.
  intros (Hh & Hnd & HF & Hl) HS. split_and!; [done|done| |by eapply linked_same].
  eapply list.Forall_impl; [exact HF|]. intros a. by apply (same_calls h h' a HS).
Qed.

Lemma tick_on h0 head ns t h l : playable h0 head ns -> before_tick h0 ns t h l ->
  exists h' l', process_note_on (size h) true h l = Ok (h', l', map (on_call h0) (starting h0 t ns)) /\ in_tick h0 ns t h' l'.
Proof.
  intros [Hc Hs Hr Hv] [HS Hpos Hnext Hslots Hheld Hticks]. pose proof (playable_here _ _ _ _ Hc HS) as (Hh & Hnd & HF & Hl).
  pose proof (fun a => same_calls h0 h a HS) as HC. pose proof (to_come_cut h0 t ns Hs) as Hcut. specialize (Hv t).
  pose proof (sounding_split h0 t ns ltac:(eapply list.Forall_impl; [exact Hr|]; cbn; lia)) as Hsound.
  assert (forall a, a ∈ starting h0 t ns -> a ∈ ns /\ start_of h0 a = t) as Hst.
  { intros a [Ha E]%elem_filter. split; [done|lia]. }
  destruct (note_on_run (starting h0 t ns) (to_come h0 (t + 1) ns) (size h) h l (last_of None (List.filter (fun a => start_of h0 a <? t) ns)))
    as (h1 & slots & E1 & HS1 & Hlen1 & Hp1 & HT1).
  { by rewrite <- Hcut. }
  { rewrite <- Hcut. rewrite (sorted_cut h0 t ns Hs) in Hl. by apply linked_app in Hl as [_ Hl]. }
  { by apply base.NoDup_ListNoDup, List.NoDup_filter, base.NoDup_ListNoDup. }
  { rewrite <- Hcut. apply list.Forall_forall. intros a [Ha _]%elem_filter. by apply (proj1 (list.Forall_forall _ _) HF). }
  { apply list.Forall_forall. intros a Ha. rewrite Hpos. destruct (HC a) as (_ & _ & -> & _). by apply Hst. }
  { destruct (to_come h0 (t + 1) ns) as [|c later] eqn:E; [done|]. cbn. destruct (HC c) as (_ & _ & -> & _). rewrite Hpos.
    assert (c ∈ to_come h0 (t + 1) ns) as [_ Hc']%elem_filter by (rewrite E; left). lia. }
  { etransitivity; [apply filter_length_le|by eapply notes_chain_size]. }
  { rewrite Hslots, Hheld, Nat.add_comm, <- length_app. by rewrite Hsound. }
  do 2 eexists. split; [by rewrite E1, (map_ext (on_call h) (on_call h0)) by (intros a; apply HC)|].
  rewrite Hheld in Hp1. constructor; cbn [loop_position next_note_to_play active_note with_active with_play].
  - by eapply same_notes_trans.
  - done.
  - done.
  - by rewrite Hlen1.
  - by rewrite Hp1.
  - intros a Ha. rewrite Hp1 in Ha. rewrite HT1. case_bool_decide as D.
    + apply Hst in D as [D1 D2]. rewrite (same_length h0 h a HS), i32_id; [unfold end_of; lia|].
      apply (proj1 (list.Forall_forall _ _) Hr) in D1. unfold in_i32. lia.
    + apply Hticks. by apply elem_of_app in Ha as [?|?].
Qed.

Lemma tick_off h0 head ns t h l : playable h0 head ns -> in_tick h0 ns t h l -> 0 <= t < 2^31 - 1 ->
  exists h' slots offs, process_note_off h l = Ok (h', with_active l slots, offs) /\
    Permutation offs (map (off_call h0) (ending h0 t ns)) /\
    before_tick h0 ns (t + 1) h' (Loop (i32 (t + 1)) (first_note l) (next_note_to_play l) slots).
Proof.
  intros [Hc Hs Hr Hv] [HS Hpos Hnext Hslots Hheld Hticks] Ht. pose proof (fun a => same_calls h0 h a HS) as HC.
  assert (Forall (fun a => -1 <= length_of h0 a) ns) as Hlen by (eapply list.Forall_impl; [exact Hr|]; cbn; intros a Ha; lia).
  destruct (note_off_round (active_note l) [] h l) as (h2 & E2 & HS2 & HT2).
  { done. }
  { cbn [app]. rewrite Hheld. apply base.NoDup_ListNoDup, List.NoDup_filter, base.NoDup_ListNoDup. apply Hc. }
  { intros a Ha. rewrite Hheld in Ha. apply elem_filter in Ha as [Ha _]. apply HC.
    destruct Hc as (_ & _ & HF & _). by apply (proj1 (list.Forall_forall _ _) HF). }
  cbn [length app] in E2. rewrite Hslots in E2. do 3 eexists. split; [exact E2|]. split.
  - rewrite (map_ext (off_call h) (off_call h0)) by (intros a; by destruct (HC a) as (_ & -> & _)). apply Permutation_map.
    unfold ended. rewrite (filter_ext_in _ (fun a => negb (t <? end_of h0 a)))
      by (intros a Ha; rewrite Hticks by (by apply list_elem_of_In); f_equal; zbool; lia).
    rewrite (filter_perm _ _ _ Hheld). unfold sounding, ending.
    rewrite (filter_filter_ext _ _ (fun a => end_of h0 a =? t)); [done|].
    eapply list.Forall_impl; [exact Hlen|]. cbn. intros a Ha. unfold end_of. zbool; lia.
  - assert (Permutation (held (map (after_tick h) (active_note l))) (held_over h0 (t + 1) ns)) as Hheld'.
    { rewrite held_after_tick.
      rewrite (filter_ext_in _ (fun a => t <? end_of h0 a)) by (intros a Ha; rewrite Hticks by (by apply list_elem_of_In); zbool; lia).
      rewrite (filter_perm _ _ _ Hheld). unfold sounding, held_over.
      rewrite (filter_filter_ext _ _ (fun a => (start_of h0 a <? t + 1) && (t + 1 <=? end_of h0 a))); [done|].
      eapply list.Forall_impl; [exact Hlen|]. cbn. intros a Ha. unfold end_of. zbool; lia. }
    constructor; cbn [loop_position next_note_to_play active_note]; [by eapply same_notes_trans|by apply i32_id; unfold in_i32; lia|done| |done|].
    + by rewrite length_map.
    + intros a Ha. rewrite <- Hheld', held_after_tick in Ha. apply elem_filter in Ha as [Ha Hb].
      rewrite HT2, Hb, bool_decide_true by done. cbn. rewrite Hticks by done. lia.
Qed.

Lemma process_tick h0 head ns t h l : playable h0 head ns -> before_tick h0 ns t h l -> 0 <= t < 2^31 - 1 ->
  exists h' l' offs, process true h l = Ok (h', l', map (on_call h0) (starting h0 t ns) ++ offs) /\
    Permutation offs (map (off_call h0) (ending h0 t ns)) /\ before_tick h0 ns (t + 1) h' l'.
Proof.
  intros Hp Hb Ht. destruct (tick_on _ _ _ _ _ _ Hp Hb) as (h1 & l1 & E1 & H1).
  destruct (tick_off _ _ _ _ _ _ Hp H1 Ht) as (h2 & slots & offs & E2 & Hoffs & H2).
  unfold process. rewrite E1. cbn [rbind]. rewrite E2. cbn [rbind loop_position first_note next_note_to_play active_note with_active].
  rewrite (it_position _ _ _ _ _ H1). by do 3 eexists.
Qed.

(** ** A run *)

(** [n] ticks, with what each of them plays. *)
Fixpoint play_ticks (n : nat) (sounds : bool) (h : note_heap) (l : loop) : result (note_heap * loop * list (list loop_call)) :=
  match n with
  | O => Ok (h, l, [])
  | S n =>
      let! (h, l, out) := process sounds h l in
      let! (h, l, outs) := play_ticks n sounds h l in
      Ok (h, l, out :: outs)
  end.

(** What a tick is to play. *)
Definition tick_plays (h : note_heap) (ns : list Z) (t : Z) (out : list loop_call) : Prop :=
  exists offs, out = map (on_call h) (starting h t ns) ++ offs /\ Permutation offs (map (off_call h) (ending h t ns)).

Lemma play_run h0 head ns : playable h0 head ns -> forall n t h l, before_tick h0 ns t h l -> 0 <= t -> t + Z.of_nat n < 2^31 ->
  exists h' l' outs, play_ticks n true h l = Ok (h', l', outs) /\ length outs = n /\
    (forall k out, outs !! k = Some out -> tick_plays h0 ns (t + Z.of_nat k) out) /\ before_tick h0 ns (t + Z.of_nat n) h' l'.
Proof.
  intros Hp n. induction n as [|n IH]; intros t h l Hb H0 Hn.
  - exists h, l, []. split_and!; [done|done|done|]. by rewrite Z.add_0_r.
  - destruct (process_tick _ _ _ _ _ _ Hp Hb) as (h1 & l1 & offs & E1 & Hoffs & Hb1); [lia|].
    destruct (IH _ _ _ Hb1) as (h2 & l2 & outs & E2 & Hl & Houts & Hb2); [lia|lia|].
    cbn [play_ticks]. rewrite E1. cbn [rbind]. rewrite E2. cbn [rbind]. do 3 eexists. split; [reflexivity|]. split; [cbn; lia|].
    split; [|by replace (t + Z.of_nat (S n)) with (t + 1 + Z.of_nat n) by lia].
    intros [|k] out; cbn.
    + intros [= <-]. rewrite Z.add_0_r. by exists offs.
    + intros H. replace (t + Z.of_nat (S k)) with (t + 1 + Z.of_nat k) by lia. by apply Houts.
Qed.

Lemma start_before h l ns : playable h (first_note l) ns -> active_note l = repeat None MAX_ACTIVE_NOTES ->
  before_tick h ns 0 h (start_to_play l).
Proof.
  intros [(Hh & _) Hs Hr _] Hslots.
  assert (held_over h 0 ns = []) as Hheld.
  { apply filter_false. eapply list.Forall_impl; [exact Hr|]. cbn. intros a Ha. zbool; lia. }
  constructor; cbn [start_to_play loop_position next_note_to_play active_note].
  - apply same_notes_refl.
  - done.
  - rewrite Hh. unfold to_come. rewrite filter_true; [done|]. eapply list.Forall_impl; [exact Hr|]. cbn. intros a Ha. lia.
  - by rewrite Hslots.
  - by rewrite Hheld, Hslots.
  - intros a Ha. rewrite Hheld in Ha. by apply list_elem_of_In in Ha.
Qed.


(** ** Examples *)

Lemma ex_playable : playable ex_notes (first_note ex_loop) [1; 2].
Proof.
  constructor.
  - exact ex_chain.
  - apply sorted_by_cons. split; [repeat constructor; done|]. apply sorted_by_cons. split; [constructor|apply sorted_by_nil].
  - rewrite !list.Forall_cons. by split_and!.
  - intros t. etransitivity; [apply filter_length_le|]. cbn. unfold MAX_ACTIVE_NOTES. lia.
Qed.

