(* ===== verification/LoopStore.v ===== *)
(** * The loops of a sequencer and their order (machine_sequencer.cc)

    A machine sequencer owns a store of loops and a sequence that says, line by line, which
    loop starts there. The length of the sequences is shared by all sequencers. *)

From Stdlib Require Import String ZArith Lia List Permutation.
From stdpp Require Import base list gmap numbers option.
From S2P Require Import Prelude SequencerLoop.
Local Open Scope string_scope.
Local Open Scope list_scope.
Local Open Scope Z_scope.
Local Open Scope vk_scope.

(* @src src_jni/machine_sequencer.hh:57-57 NOTE_NOT_SET *)
Definition NOTE_NOT_SET : Z := -1.
(* @src src_jni/machine_sequencer.hh:61-61 MACHINE_SEQUENCER_INITIAL_SEQUENCE_LENGTH *)
Definition INITIAL_SEQUENCE_LENGTH : Z := 16.

(** The members of a sequencer that hold its loops; the arrays have [loop_store_size] and
    [loop_sequence_length] elements, and a loop is its address. *)
(* @src src_jni/machine_sequencer.hh:279-311 MachineSequencer *)
Record sequencer : Type := Sequencer {
  current_loop : option Z;
  loop_store : list (option Z);
  last_free_loop_store_position : Z;
  loop_sequence : list Z
}.

Definition with_store (s : sequencer) (store : list (option Z)) (last : Z) : sequencer :=
  Sequencer (current_loop s) store last (loop_sequence s).
Definition with_sequence (s : sequencer) (sequence : list Z) : sequencer :=
  Sequencer (current_loop s) (loop_store s) (last_free_loop_store_position s) sequence.
Definition with_loop_playing (s : sequencer) (l : option Z) : sequencer :=
  Sequencer l (loop_store s) (last_free_loop_store_position s) (loop_sequence s).

(** All sequencers, their loops, and the statics of the class; [machine2sequencer] in the order
    of its keys. *)
Record sequencers : Type := Sequencers {
  sequence_length : Z;
  machine2sequencer : list (Z * Z);
  sequencer_at : gmap Z sequencer;
  loops : gmap Z loop;
  next_loop : Z
}.

Definition with_sequencers (w : sequencers) (m : gmap Z sequencer) : sequencers :=
  Sequencers (sequence_length w) (machine2sequencer w) m (loops w) (next_loop w).

Definition the_sequencer (w : sequencers) (a : Z) : result sequencer :=
  match sequencer_at w !! a with Some s => Ok s | None => Err (UndefinedBehaviour "dangling MachineSequencer pointer") end.
Definition put_sequencer (w : sequencers) (a : Z) (s : sequencer) : sequencers := with_sequencers w (<[a := s]> (sequencer_at w)).

(** A handler that throws keeps what it changed before. *)
Definition outcome (A : Type) : Type := sequencers * result A.

(** ** The sequence *)

(* @src src_jni/machine_sequencer.cc:528-534 MachineSequencer::internal_get_loop_id_at *)
Definition internal_get_loop_id_at (s : sequencer) (position : Z) : result Z :=
  if negb ((0 <=? position) && (position <? Z.of_nat (length (loop_sequence s)))) then Ok NOTE_NOT_SET
  else load (loop_sequence s) position.

(* @src src_jni/machine_sequencer.cc:536-541 MachineSequencer::internal_get_loop_ids_at *)
Fixpoint internal_get_loop_ids_at (s : sequencer) (position_vector : list Z) : result (list Z) :=
  match position_vector with
  | [] => Ok []
  | p :: ps =>
      let! x := internal_get_loop_id_at s p in
      let! xs := internal_get_loop_ids_at s ps in
      Ok (x :: xs)
  end.

(* @src src_jni/machine_sequencer.cc:592-610 MachineSequencer::prep_empty_loop_sequence *)
Definition prep_empty_loop_sequence (sequence_length : Z) (s : sequencer) : sequencer :=
  with_sequence s (repeat NOTE_NOT_SET (Z.to_nat sequence_length)).

(* @src src_jni/machine_sequencer.cc:1423-1450 MachineSequencer::refresh_length *)
Definition refresh_length (sequence_length : Z) (s : sequencer) : sequencer :=
  let old := Z.of_nat (length (loop_sequence s)) in
  if sequence_length <=? old then s
  else
    let mid_term := if sequence_length <? old then sequence_length else old in
    with_sequence s (take (Z.to_nat mid_term) (loop_sequence s) ++ repeat NOTE_NOT_SET (Z.to_nat (sequence_length - mid_term))).

(* @src src_jni/machine_sequencer.cc:1638-1650 MachineSequencer::set_sequence_length *)
Definition set_sequence_length (w : sequencers) (newv : Z) : result sequencers :=
  rfold (fun w k => let! s := the_sequencer w (snd k) in Ok (put_sequencer w (snd k) (refresh_length newv s)))
    (Sequencers newv (machine2sequencer w) (sequencer_at w) (loops w) (next_loop w)) (machine2sequencer w).

(** The loop with an id, [None] where there is none: the test of [internal_set_loop_id_at] and
    of [get_loop]. *)
Definition loop_of (s : sequencer) (id : Z) : option Z :=
  if (0 <=? id) && (id <? Z.of_nat (length (loop_store s))) then mjoin (loop_store s !! Z.to_nat id) else None.

(** The sequence grows before the loop id is checked. *)
(* @src src_jni/machine_sequencer.cc:543-562 MachineSequencer::internal_set_loop_id_at *)
Definition internal_set_loop_id_at (w : sequencers) (this position loop_id : Z) : outcome unit :=
  if position <? 0 then (w, Err ParameterOutOfSpec)
  else
    match
      let! s := the_sequencer w this in
      if negb ((0 <=? position) && (position <? Z.of_nat (length (loop_sequence s)))) then
        if i32 (position + 16) =? position + 16 then
          let! w := set_sequence_length w (position + 16) in
          let! s := the_sequencer w this in
          Ok (put_sequencer w this (refresh_length (sequence_length w) s))
        else Err (UndefinedBehaviour "signed overflow")
      else Ok w
    with
    | Err e => (w, Err e)
    | Ok w =>
        match
          let! s := the_sequencer w this in
          if negb (loop_id =? NOTE_NOT_SET) && bool_decide (loop_of s loop_id = None) then Err ParameterOutOfSpec
          else
            let! sequence := store (loop_sequence s) position loop_id in
            Ok (put_sequencer w this (with_sequence s sequence))
        with
        | Ok w => (w, Ok tt)
        | Err e => (w, Err e)
        end
    end.

(** ** The store *)

(* @src src_jni/machine_sequencer.cc:1404-1421 MachineSequencer::double_loop_store *)
Definition double_loop_store (s : sequencer) : sequencer :=
  with_store s (loop_store s ++ repeat None (length (loop_store s))) (last_free_loop_store_position s).

(** The first free place of a store, its length if there is none. *)
(* @src src_jni/machine_sequencer.cc:571-578 MachineSequencer::internal_add_new_loop *)
Fixpoint first_free (store : list (option Z)) : nat :=
  match store with [] => O | None :: _ => O | Some _ :: store => S (first_free store) end.

(** [position] is what [new Loop] leaves in [loop_position]. *)
(* @src src_jni/machine_sequencer.cc:564-590 MachineSequencer::internal_add_new_loop *)
Definition internal_add_new_loop (position : Z) (w : sequencers) (this : Z) : result (sequencers * Z) :=
  let! s := the_sequencer w this in
  if last_free_loop_store_position s =? 100 then Err NoFreeLoopsAvailable
  else
    let a := next_loop w in
    let k := first_free (loop_store s) in
    let s := if (k <? length (loop_store s))%nat then s else double_loop_store s in
    let! store := store (loop_store s) (Z.of_nat k) (Some a) in
    Ok (Sequencers (sequence_length w) (machine2sequencer w)
          (<[this := with_store s store (Z.of_nat k + 1)]> (sequencer_at w)) (<[a := new_loop position]> (loops w)) (a + 1),
        Z.of_nat k).

(* @src src_jni/machine_sequencer.cc:929-933 MachineSequencer::delete_loop *)
Definition renumber (id entry : Z) : Z :=
  let entry := if entry =? id then NOTE_NOT_SET else entry in
  if id <? entry then entry - 1 else entry.

(** [store[k] = store[k + 1]] for [todo] elements from [k] on. *)
(* @src src_jni/machine_sequencer.cc:936-938 MachineSequencer::delete_loop *)
Fixpoint shift_down (todo : nat) (st : list (option Z)) (k : Z) : result (list (option Z)) :=
  match todo with
  | O => Ok st
  | S todo =>
      let! x := load st (k + 1) in
      let! st := store st k x in
      shift_down todo st (k + 1)
  end.

(** Neither [id] nor [current_loop] is looked at, and the loop itself stays in memory. *)
(* @src src_jni/machine_sequencer.cc:914-943 MachineSequencer::delete_loop *)
Definition delete_loop (s : sequencer) (id : Z) : result sequencer :=
  let sequence := map (renumber id) (loop_sequence s) in
  let! st := shift_down (Z.to_nat (Z.of_nat (length (loop_store s)) - 1 - id)) (loop_store s) id in
  Ok (Sequencer (current_loop s) st (i32 (last_free_loop_store_position s - 1)) sequence).

(* @src src_jni/machine_sequencer.cc:884-886 MachineSequencer::get_nr_of_loops *)
Definition get_nr_of_loops (s : sequencer) : Z := last_free_loop_store_position s.

(* @src src_jni/machine_sequencer.cc:854-882 MachineSequencer::get_loop *)
Definition get_loop (s : sequencer) (loop_id : Z) : result Z :=
  match loop_of s loop_id with Some l => Ok l | None => Err NoSuchLoop end.

(* @src src_jni/machine_sequencer.cc:785-804 MachineSequencer::get_loop_id_at *)
Definition get_loop_id_at (s : sequencer) (position : Z) : result Z := internal_get_loop_id_at s position.

(** The handlers run as machine operations; an exception they throw is handed to the caller. *)
(* @src src_jni/machine_sequencer.cc:826-852 MachineSequencer::set_loop_id_at *)
Definition set_loop_id_at (w : sequencers) (this position loop_id : Z) : outcome unit := internal_set_loop_id_at w this position loop_id.

(* @src src_jni/machine_sequencer.cc:888-912 MachineSequencer::add_new_loop *)
Definition add_new_loop (position : Z) (w : sequencers) (this : Z) : result (sequencers * Z) := internal_add_new_loop position w this.

(** ** Creation *)

(** The loops of a new sequencer; its pad, controller envelopes and signals are elsewhere. *)
(* @src src_jni/machine_sequencer.cc:1373-1402 MachineSequencer::MachineSequencer *)
Definition new_sequencer (position : Z) (w : sequencers) (this : Z) : result sequencers :=
  let s := Sequencer None (repeat None (Z.to_nat INITIAL_SEQUENCE_LENGTH)) 0 [] in
  let w := put_sequencer w this (prep_empty_loop_sequence (sequence_length w) s) in
  let! (w, _) := internal_add_new_loop position w this in
  Ok w.

(** [machine2sequencer[sibling] = mseq], the machines in the order of their addresses. *)
Fixpoint map_sibling (m : list (Z * Z)) (sibling mseq : Z) : list (Z * Z) :=
  match m with
  | [] => [(sibling, mseq)]
  | (k, x) :: m =>
      if sibling <? k then (sibling, mseq) :: (k, x) :: m
      else if sibling =? k then (k, mseq) :: m
      else (k, x) :: map_sibling m sibling mseq
  end.

(** The attachment to the machine is that of the machine graph. *)
(* @src src_jni/machine_sequencer.cc:1723-1783 MachineSequencer::create_sequencer_for_machine *)
Definition create_sequencer_for_machine (position : Z) (w : sequencers) (sibling mseq : Z) : result sequencers :=
  if existsb (fun k => fst k =? sibling) (machine2sequencer w)
  then Err (JException "Trying to create MachineSequencer for a machine that already has one!")
  else
    let! w := new_sequencer position w mseq in
    Ok (Sequencers (sequence_length w) (map_sibling (machine2sequencer w) sibling mseq) (sequencer_at w) (loops w) (next_loop w)).
