(* ===== verification/LoopOrder.v ===== *)
(** * What the loop store and the sequence of a sequencer promise

    Every line of a sequence that names a loop names one that exists, whatever the order of the
    requests; setting a line changes that line only; the store is a list of loops, of which
    [delete_loop] removes one unless the store is full. *)

From Stdlib Require Import String ZArith Lia List Permutation.
From stdpp Require Import base list gmap numbers option.
From S2P Require Import Prelude SequencerLoop LoopStore.
Local Open Scope string_scope.
Local Open Scope list_scope.
Local Open Scope Z_scope.
Local Open Scope vk_scope.

(** ** The sequence as a function of the line *)

Definition id_at (s : sequencer) (p : Z) : Z :=
  if 0 <=? p then default NOTE_NOT_SET (loop_sequence s !! Z.to_nat p) else NOTE_NOT_SET.

Lemma get_id_at s p : internal_get_loop_id_at s p = Ok (id_at s p).
Proof.
  unfold internal_get_loop_id_at, id_at. destruct (Z.leb_spec 0 p) as [H|H]; [|done]. cbn.
  destruct (Z.ltb_spec p (Z.of_nat (length (loop_sequence s)))) as [Hlt|Hge]; cbn.
  - destruct (load_in (loop_sequence s) p) as (x & -> & ->); [lia|done].
  - by rewrite lookup_ge_None_2 by lia.
Qed.

(** The loop that starts at a line. *)
Definition loop_at (s : sequencer) (p : Z) : option Z := loop_of s (id_at s p).

Lemma refresh_id_at n s p : id_at (refresh_length n s) p = id_at s p.
Proof.
  unfold refresh_length. destruct (Z.leb_spec n (Z.of_nat (length (loop_sequence s)))) as [Hn|Hn]; [done|].
  unfold id_at. destruct (Z.leb_spec 0 p) as [H|H]; [|done]. cbn [loop_sequence with_sequence]. rewrite (proj2 (Z.ltb_ge n (Z.of_nat (length (loop_sequence s))))) by lia.
  rewrite take_ge by lia. destruct (decide (Z.to_nat p < length (loop_sequence s))%nat) as [Hlt|Hge].
  - by rewrite lookup_app_l.
  - rewrite lookup_app_r by lia. rewrite (lookup_ge_None_2 (loop_sequence s)) by lia.
    destruct (repeat _ _ !! _) as [x|] eqn:E; [|done].
    apply list_elem_of_lookup_2, list_elem_of_In, repeat_spec in E. by subst.
Qed.

Lemma refresh_loop_of n s e : loop_of (refresh_length n s) e = loop_of s e.
Proof. unfold refresh_length. by case_if. Qed.

Lemma refresh_length_is n s : Z.of_nat (length (loop_sequence (refresh_length n s))) = Z.max n (Z.of_nat (length (loop_sequence s))).
Proof.
  unfold refresh_length. case_if; zbool; [lia|]. cbn [loop_sequence with_sequence].
  rewrite (proj2 (Z.ltb_ge n (Z.of_nat (length (loop_sequence s))))) by lia.
  rewrite length_app, length_take, repeat_length. lia.
Qed.

(** ** Well-formed sequencers *)

Record sequencer_ok (ls : gmap Z loop) (s : sequencer) : Prop := {
  so_store : (0 < length (loop_store s))%nat;
  so_loops : forall l, Some l ∈ loop_store s -> is_Some (ls !! l);
  so_current : forall l, current_loop s = Some l -> is_Some (ls !! l);
  so_sequence : Forall (fun e => e = NOTE_NOT_SET \/ is_Some (loop_of s e)) (loop_sequence s)
}.

Record sequencers_ok (w : sequencers) : Prop := {
  wo_registered : forall k, k ∈ machine2sequencer w -> is_Some (sequencer_at w !! snd k);
  wo_fresh : forall l, next_loop w <= l -> loops w !! l = None;
  wo_all : forall a s, sequencer_at w !! a = Some s -> sequencer_ok (loops w) s
}.

Lemma loop_of_store s e l : loop_of s e = Some l -> Some l ∈ loop_store s.
Proof.
  unfold loop_of. destruct (_ && _); [|done]. destruct (loop_store s !! Z.to_nat e) as [x|] eqn:E; cbn; [|done].
  intros ->. by eapply list_elem_of_lookup_2.
Qed.

(** A line that names a loop names one that exists. *)
Lemma sequencer_ok_at ls s p : sequencer_ok ls s ->
  id_at s p = NOTE_NOT_SET \/ exists l, loop_at s p = Some l /\ is_Some (ls !! l).
Proof.
  intros [_ Hl _ Hs]. unfold loop_at, id_at. destruct (0 <=? p); [|by left].
  destruct (loop_sequence s !! Z.to_nat p) as [e|] eqn:E; [|by left]. cbn.
  apply list_elem_of_lookup_2 in E. apply (proj1 (list.Forall_forall _ _) Hs) in E as [->|[l He]]; [by left|right].
  exists l. split; [done|]. by eapply Hl, loop_of_store.
Qed.

Lemma refresh_ok ls n s : sequencer_ok ls s -> sequencer_ok ls (refresh_length n s).
Proof.
  intros [H1 H2 H3 H4]. unfold refresh_length. case_if; [done|]. constructor; try done. cbn [loop_sequence with_sequence].
  apply Forall_app. split; [by apply Forall_take|]. apply list.Forall_forall. intros e He. left.
  by apply list_elem_of_In, repeat_spec in He.
Qed.

Lemma put_still w a s b : is_Some (sequencer_at w !! b) -> is_Some (sequencer_at (put_sequencer w a s) !! b).
Proof.
  intros H. cbn. destruct (decide (b = a)) as [->|Hne]; [rewrite lookup_insert_eq; by eexists|by rewrite lookup_insert_ne by congruence].
Qed.

Lemma put_ok w a s : sequencers_ok w -> sequencer_ok (loops w) s -> sequencers_ok (put_sequencer w a s).
Proof.
  intros [O1 O2 O3] Hs. constructor; [|done|].
  - intros k Hk. by apply put_still, O1.
  - intros b s2. cbn. destruct (decide (b = a)) as [->|Hne]; [rewrite lookup_insert_eq; by intros [= <-]|].
    rewrite lookup_insert_ne by congruence. apply O3.
Qed.

(** [w'] is [w] with some sequences lengthened to [n]. *)
Record lengthened (n : Z) (w w' : sequencers) : Prop := {
  le_ok : sequencers_ok w';
  le_loops : loops w' = loops w;
  le_next : next_loop w' = next_loop w;
  le_registered : machine2sequencer w' = machine2sequencer w;
  le_sequencers : forall a s, sequencer_at w !! a = Some s -> sequencer_at w' !! a = Some s \/ sequencer_at w' !! a = Some (refresh_length n s)
}.

Lemma refresh_twice n s : refresh_length n (refresh_length n s) = refresh_length n s.
Proof. pose proof (refresh_length_is n s). unfold refresh_length at 1. by rewrite (proj2 (Z.leb_le _ _)) by lia. Qed.

Lemma refresh_one n w a s : sequencers_ok w -> sequencer_at w !! a = Some s -> lengthened n w (put_sequencer w a (refresh_length n s)).
Proof.
  intros Hok Es. constructor; try done; [by eapply put_ok, refresh_ok, wo_all|].
  intros b s'. cbn. destruct (decide (b = a)) as [->|Hne].
  - rewrite lookup_insert_eq, Es. intros [= <-]. by right.
  - rewrite lookup_insert_ne by congruence. by left.
Qed.

Lemma lengthened_trans n w1 w2 w3 : lengthened n w1 w2 -> lengthened n w2 w3 -> lengthened n w1 w3.
Proof.
  intros [A1 A2 A3 A4 A5] [B1 B2 B3 B4 B5]. constructor; [done|congruence..|].
  intros a s [E|E]%A5; apply B5 in E; [done|right]. rewrite refresh_twice in E. by destruct E.
Qed.

Lemma refresh_all n ks : forall w, sequencers_ok w -> (forall k, k ∈ ks -> is_Some (sequencer_at w !! snd k)) ->
  exists w', rfold (fun (w : sequencers) (k : Z * Z) => let! s := the_sequencer w (snd k) in Ok (put_sequencer w (snd k) (refresh_length n s))) w ks =
      Ok w' /\ lengthened n w w' /\ sequence_length w' = sequence_length w.
Proof.
  induction ks as [|k ks IH]; intros w Hok Hks; cbn [rfold].
  - exists w. split; [done|]. split; [|done]. constructor; try done. by left.
  - destruct (Hks k ltac:(left)) as [s Es]. unfold the_sequencer at 1. rewrite Es. cbn [rbind].
    pose proof (refresh_one n w (snd k) s Hok Es) as H1.
    destruct (IH (put_sequencer w (snd k) (refresh_length n s))) as (w' & -> & H2 & H3); [apply H1| |].
    + intros k' Hk'. destruct (Hks k' ltac:(by right)) as [s' Es']. apply (le_sequencers _ _ _ H1) in Es' as [E|E]; by eexists.
    + exists w'. split; [done|]. split; [by eapply lengthened_trans|done].
Qed.

Lemma set_length_ok n w : sequencers_ok w -> exists w', set_sequence_length w n = Ok w' /\ lengthened n w w' /\ sequence_length w' = n.
Proof.
  intros Hok. unfold set_sequence_length. set (w0 := Sequencers n (machine2sequencer w) (sequencer_at w) (loops w) (next_loop w)).
  assert (sequencers_ok w0) as H0 by (destruct Hok as [O1 O2 O3]; by constructor).
  destruct (refresh_all n (machine2sequencer w) w0) as (w' & E & [H1 H2 H3 H4 H5] & H6); [done|apply Hok|].
  exists w'. by split_and!.
Qed.

(** ** Setting a line *)

(** [w'] is [w] but for what its sequencer [this] has at line [p]. *)
Definition same_but_line (w w' : sequencers) (this p : Z) (at_p : sequencer -> Z) : Prop :=
  forall a s, sequencer_at w !! a = Some s -> exists s', sequencer_at w' !! a = Some s' /\
    current_loop s' = current_loop s /\ loop_store s' = loop_store s /\
    last_free_loop_store_position s' = last_free_loop_store_position s /\
    forall q, id_at s' q = if (a =? this) && (q =? p) then at_p s else id_at s q.

Lemma grown n w w' this p : lengthened n w w' -> same_but_line w w' this p (fun s => id_at s p).
Proof.
  intros H a s Es. destruct (le_sequencers _ _ _ H a s Es) as [E|E]; eexists; (split; [exact E|]); split_and!; try done.
  - intros q. destruct (Z.eqb_spec q p) as [->|_]; [|by rewrite andb_false_r]. by case_if.
  - unfold refresh_length. by case_if.
  - unfold refresh_length. by case_if.
  - unfold refresh_length. by case_if.
  - intros q. rewrite refresh_id_at. destruct (Z.eqb_spec q p) as [->|_]; [|by rewrite andb_false_r]. by case_if.
Qed.

(** The sequence reaches the line. *)
Lemma grow_spec w this s p : sequencers_ok w -> sequencer_at w !! this = Some s -> 0 <= p < 2^31 - 16 ->
  exists w1 s1, (if negb ((0 <=? p) && (p <? Z.of_nat (length (loop_sequence s)))) then
        if i32 (p + 16) =? p + 16 then
          let! w := set_sequence_length w (p + 16) in
          let! s := the_sequencer w this in
          Ok (put_sequencer w this (refresh_length (sequence_length w) s))
        else Err (UndefinedBehaviour "signed overflow")
      else Ok w) = Ok w1 /\
    lengthened (p + 16) w w1 /\ sequencer_at w1 !! this = Some s1 /\ p < Z.of_nat (length (loop_sequence s1)) /\
    loop_store s1 = loop_store s.
Proof.
  intros Hok Es Hp. rewrite (proj2 (Z.leb_le 0 p)) by lia. destruct (Z.ltb_spec p (Z.of_nat (length (loop_sequence s)))) as [Hlt|Hge]; cbn [andb negb].
  - exists w, s. split; [done|]. split; [|done]. constructor; try done. by left.
  - rewrite i32_id, Z.eqb_refl by (unfold in_i32; lia). destruct (set_length_ok (p + 16) w Hok) as (w1 & -> & H1 & Hn). cbn [rbind].
    destruct (le_sequencers _ _ _ H1 this s Es) as [E|E]; unfold the_sequencer; rewrite E; cbn [rbind]; rewrite Hn.
    + eexists _, (refresh_length (p + 16) s). split; [reflexivity|].
      pose proof (refresh_one (p + 16) w1 this s (le_ok _ _ _ H1) E) as H2. split; [by eapply lengthened_trans|].
      split; [cbn; by rewrite lookup_insert_eq|]. pose proof (refresh_length_is (p + 16) s). split; [lia|]. unfold refresh_length. by case_if.
    + eexists _, (refresh_length (p + 16) s). rewrite refresh_twice. split; [reflexivity|].
      pose proof (refresh_one (p + 16) w1 this _ (le_ok _ _ _ H1) E) as H2. rewrite refresh_twice in H2. split; [by eapply lengthened_trans|].
      split; [cbn; by rewrite lookup_insert_eq|]. pose proof (refresh_length_is (p + 16) s). split; [lia|]. unfold refresh_length. by case_if.
Qed.

Lemma put_line_ok w this s p id sequence : sequencers_ok w -> sequencer_at w !! this = Some s ->
  store (loop_sequence s) p id = Ok sequence -> id = NOTE_NOT_SET \/ is_Some (loop_of s id) ->
  sequencers_ok (put_sequencer w this (with_sequence s sequence)) /\
  same_but_line w (put_sequencer w this (with_sequence s sequence)) this p (fun _ => id).
Proof.
  intros Hok Es [Hp ->]%store_ok_inv Hid. split.
  - apply put_ok; [done|]. destruct (wo_all _ Hok _ _ Es) as [H1 H2 H3 H4]. constructor; try done.
    cbn [loop_sequence with_sequence]. by apply Forall_insert.
  - intros a s' Es'. cbn. destruct (Z.eqb_spec a this) as [->|Hne].
    + rewrite lookup_insert_eq. rewrite Es in Es'. injection Es' as <-. eexists. split; [reflexivity|]. split_and!; try done.
      intros q. unfold id_at. cbn [loop_sequence with_sequence andb]. destruct (Z.eqb_spec q p) as [->|Hqp].
      * rewrite (proj2 (Z.leb_le 0 p)) by lia. by rewrite list_lookup_insert_eq by lia.
      * destruct (Z.leb_spec 0 q); [|done]. by rewrite list_lookup_insert_ne by lia.
    + rewrite lookup_insert_ne by congruence. exists s'. by split_and!.
Qed.

Lemma set_line_ok w this s p id : sequencers_ok w -> sequencer_at w !! this = Some s -> 0 <= p < 2^31 - 16 ->
  exists w', sequencers_ok w' /\ loops w' = loops w /\ next_loop w' = next_loop w /\
    if (id =? NOTE_NOT_SET) || bool_decide (is_Some (loop_of s id))
    then internal_set_loop_id_at w this p id = (w', Ok tt) /\ same_but_line w w' this p (fun _ => id)
    else internal_set_loop_id_at w this p id = (w', Err ParameterOutOfSpec) /\ same_but_line w w' this p (fun s => id_at s p).
Proof.
  intros Hok Es Hp. destruct (grow_spec w this s p Hok Es Hp) as (w1 & s1 & E1 & H1 & Es1 & Hlen & Hstore).
  assert (internal_set_loop_id_at w this p id =
    match (if negb (id =? NOTE_NOT_SET) && bool_decide (loop_of s id = None) then Err ParameterOutOfSpec
           else let! sequence := store (loop_sequence s1) p id in Ok (put_sequencer w1 this (with_sequence s1 sequence)))
    with Ok w => (w, Ok tt) | Err e => (w1, Err e) end) as ->.
  { unfold internal_set_loop_id_at. rewrite (proj2 (Z.ltb_ge p 0)) by lia. unfold the_sequencer at 1. rewrite Es. cbn [rbind]. rewrite E1.
    unfold the_sequencer. rewrite Es1. cbn [rbind]. unfold loop_of. by rewrite Hstore. }
  pose proof (grown _ _ _ this p H1) as Hg.
  destruct (Z.eqb_spec id NOTE_NOT_SET) as [Hid|Hid]; cbn [negb andb orb]; [|destruct (loop_of s id) as [l|] eqn:El].
  3: { rewrite (bool_decide_true (None = None)), (bool_decide_false (is_Some None)) by (done || by intros [? ?]). exists w1. split; [apply H1|]. split; [apply H1|]. split; [apply H1|]. by split. }
  2: rewrite (bool_decide_false (Some l = None)), (bool_decide_true (is_Some (Some l))) by (done || by eexists).
  all: rewrite store_in by lia; cbn [rbind].
  all: destruct (put_line_ok w1 this s1 p id (<[Z.to_nat p:=id]> (loop_sequence s1)) (le_ok _ _ _ H1) Es1) as [Hok' Hs];
    [by apply store_in; lia| |].
  1: by left.
  2: right; unfold loop_of in *; rewrite Hstore, El; by eexists.
  all: eexists; split; [exact Hok'|]; split; [apply H1|]; split; [apply H1|]; split; [reflexivity|].
  all: intros a s' Es'; destruct (Hg a s' Es') as (s2 & Es2 & C1 & C2 & C3 & C4); destruct (Hs a s2 Es2) as (s3 & Es3 & D1 & D2 & D3 & D4).
  all: exists s3; split_and!; [done|congruence..|]; intros q; rewrite D4, C4; by destruct ((a =? this) && (q =? p)) eqn:E.
Qed.

(** ** Adding a loop *)

Lemma first_free_split st : exists l rest, st = map Some l ++ rest /\ length l = first_free st /\
  match rest with [] => True | x :: _ => x = None end.
Proof.
  induction st as [|[a|] st (l & rest & -> & Hl & Hr)]; [by exists [], []| |by eexists [], _].
  exists (a :: l), rest. cbn. by rewrite Hl.
Qed.

Definition with_store_of (w : sequencers) (this : Z) (s : sequencer) (position : Z) : sequencers :=
  Sequencers (sequence_length w) (machine2sequencer w) (<[this := s]> (sequencer_at w))
    (<[next_loop w := new_loop position]> (loops w)) (next_loop w + 1).

(** The place and the store it is put in. *)
Definition added (s : sequencer) (a : Z) : sequencer :=
  with_store s (<[first_free (loop_store s) := Some a]>
    (if (first_free (loop_store s) <? length (loop_store s))%nat then loop_store s else loop_store s ++ repeat None (length (loop_store s))))
    (Z.of_nat (first_free (loop_store s)) + 1).

Lemma add_is position w this s : sequencer_at w !! this = Some s -> (0 < length (loop_store s))%nat ->
  internal_add_new_loop position w this =
    if last_free_loop_store_position s =? 100 then Err NoFreeLoopsAvailable
    else Ok (with_store_of w this (added s (next_loop w)) position, Z.of_nat (first_free (loop_store s))).
Proof.
  intros Es Hpos. unfold internal_add_new_loop, the_sequencer. rewrite Es. cbn [rbind]. case_if; [done|].
  destruct (first_free_split (loop_store s)) as (l & rest & Est & Hl & _).
  assert (length l <= length (loop_store s))%nat as Hle by (rewrite Est, length_app, length_map; lia). rewrite Hl in Hle.
  unfold with_store_of, added. destruct (Nat.ltb_spec (first_free (loop_store s)) (length (loop_store s))) as [Hlt|Hge].
  - rewrite store_in by lia. cbn [rbind]. by rewrite Nat2Z.id.
  - cbn [double_loop_store loop_store with_store]. rewrite store_in by (rewrite length_app, repeat_length; lia). cbn [rbind].
    by rewrite Nat2Z.id.
Qed.

Lemma added_loop_of s a e : (0 < length (loop_store s))%nat ->
  loop_of (added s a) e = if e =? Z.of_nat (first_free (loop_store s)) then Some a else loop_of s e.
Proof.
  intros Hpos. destruct (first_free_split (loop_store s)) as (l & rest & E & Hl & Hr). unfold added, loop_of. cbn [loop_store with_store].
  rewrite <- Hl, E. rewrite length_app, length_map. destruct (Nat.ltb_spec (length l) (length l + length rest)) as [Hlt|Hge].
  - rewrite length_insert, length_app, length_map. destruct (Z.eqb_spec e (Z.of_nat (length l))) as [->|Hne].
    + rewrite (proj2 (Z.leb_le _ _)), (proj2 (Z.ltb_lt _ _)) by lia. cbn [andb]. rewrite Nat2Z.id.
      rewrite list_lookup_insert_eq by (rewrite length_app, length_map; lia). done.
    + destruct (Z.leb_spec 0 e); [|done]. cbn [andb]. case_if; [|done]. by rewrite list_lookup_insert_ne by lia.
  - assert (rest = []) as -> by (by destruct rest; cbn in *; [|lia]). rewrite E, length_app, length_map in Hpos. cbn [length] in *.
    rewrite app_nil_r, length_insert, length_app, repeat_length, length_map.
    destruct (Z.eqb_spec e (Z.of_nat (length l))) as [->|Hne].
    + rewrite (proj2 (Z.leb_le _ _)), (proj2 (Z.ltb_lt _ _)) by lia. cbn [andb]. rewrite Nat2Z.id.
      rewrite list_lookup_insert_eq by (rewrite length_app, repeat_length, length_map; lia). done.
    + destruct (Z.leb_spec 0 e); [|done]. cbn [andb]. rewrite list_lookup_insert_ne by lia.
      destruct (Z.ltb_spec e (Z.of_nat (length l + 0))) as [Hlt'|Hge'].
      * rewrite (proj2 (Z.ltb_lt _ _)) by lia. by rewrite lookup_app_l by (rewrite length_map; lia).
      * case_if; [|done]. rewrite lookup_app_r by (rewrite length_map; lia).
        destruct (repeat None _ !! _) as [x|] eqn:Ex; [|done]. apply list_elem_of_lookup_2, list_elem_of_In, repeat_spec in Ex. by subst.
Qed.

Lemma free_place_empty s : loop_of s (Z.of_nat (first_free (loop_store s))) = None.
Proof.
  destruct (first_free_split (loop_store s)) as (l & rest & E & Hl & Hr). unfold loop_of. rewrite <- Hl, Nat2Z.id. case_if; [|done].
  rewrite E, lookup_app_r by (rewrite length_map; lia). rewrite length_map, Nat.sub_diag. destruct rest as [|x rest]; [done|]. cbn. by subst.
Qed.

Lemma add_ok position w this s : sequencers_ok w -> sequencer_at w !! this = Some s ->
  sequencers_ok (with_store_of w this (added s (next_loop w)) position).
Proof.
  intros [O1 O2 O3] Es. pose proof (O3 _ _ Es) as [H1 H2 H3 H4].
  assert (forall l, is_Some (loops w !! l) -> is_Some (<[next_loop w := new_loop position]> (loops w) !! l)) as Hkeep.
  { intros l Hl. destruct (decide (l = next_loop w)) as [->|Hne]; [rewrite lookup_insert_eq; by eexists|by rewrite lookup_insert_ne by congruence]. }
  constructor; cbn.
  - intros k Hk. destruct (decide (snd k = this)) as [->|Hne]; [rewrite lookup_insert_eq; by eexists|].
    rewrite lookup_insert_ne by congruence. by apply O1.
  - intros l Hl. rewrite lookup_insert_ne by lia. apply O2. lia.
  - intros b s'. destruct (decide (b = this)) as [->|Hne].
    + rewrite lookup_insert_eq. intros [= <-]. constructor.
      * unfold added. cbn [loop_store with_store]. rewrite length_insert. case_if; [|rewrite length_app]; lia.
      * intros l. unfold added. cbn [loop_store with_store].
        intros Hl. apply list_elem_of_lookup_1 in Hl as [i Hi]. apply list_lookup_insert_Some in Hi as [(-> & [= <-] & _)|(_ & Hi)].
        { rewrite lookup_insert_eq. by eexists. }
        apply Hkeep, H2. apply list_elem_of_lookup_2 in Hi. destruct (_ <? _)%nat; [done|]. apply elem_of_app in Hi as [Hi|Hi]; [done|].
        by apply list_elem_of_In, repeat_spec in Hi.
      * intros l Hl. by apply Hkeep, H3.
      * eapply list.Forall_impl; [exact H4|]. cbn. intros e [He|He]; [by left|right]. rewrite added_loop_of by done.
        case_if; [by eexists|done].
    + rewrite lookup_insert_ne by congruence. intros Es'. destruct (O3 _ _ Es') as [G1 G2 G3 G4].
      constructor; [done|intros l Hl; by apply Hkeep, G2|intros l Hl; by apply Hkeep, G3|done].
Qed.

(** ** Deleting a loop *)

Lemma shift_down_app rest : forall x pre, shift_down (length rest) (pre ++ x :: rest) (Z.of_nat (length pre)) =
  Ok (pre ++ rest ++ [List.last (x :: rest) None]).
Proof.
  induction rest as [|y rest IH]; intros x pre; cbn [shift_down length]; [done|].
  replace (pre ++ x :: y :: rest) with ((pre ++ [x]) ++ y :: rest) by (by rewrite <- app_assoc).
  rewrite load_app_cons by (rewrite length_app; cbn; lia). cbn [rbind]. rewrite <- app_assoc. cbn [app].
  rewrite store_app_cons by done. cbn [rbind].
  replace (pre ++ y :: y :: rest) with ((pre ++ [y]) ++ y :: rest) by (by rewrite <- app_assoc).
  replace (Z.of_nat (length pre) + 1) with (Z.of_nat (length (pre ++ [y]))) by (rewrite length_app; cbn; lia).
  rewrite IH. by rewrite <- app_assoc.
Qed.

(** A place of the store splits it. *)
Lemma delete_is s pre x rest : loop_store s = pre ++ x :: rest ->
  delete_loop s (Z.of_nat (length pre)) =
    Ok (Sequencer (current_loop s) (pre ++ rest ++ [List.last (x :: rest) None]) (i32 (last_free_loop_store_position s - 1))
          (map (renumber (Z.of_nat (length pre))) (loop_sequence s))).
Proof.
  intros E. unfold delete_loop. rewrite E, length_app. cbn [length].
  replace (Z.to_nat _) with (length rest) by lia. by rewrite shift_down_app.
Qed.

Lemma delete_past s id : Z.of_nat (length (loop_store s)) <= id ->
  delete_loop s id = Ok (Sequencer (current_loop s) (loop_store s) (i32 (last_free_loop_store_position s - 1)) (map (renumber id) (loop_sequence s))).
Proof. intros H. unfold delete_loop. by replace (Z.to_nat _) with O by lia. Qed.

(** [delete_loop] at any place that is not negative. *)
Lemma delete_total s id : 0 <= id -> exists st, length st = length (loop_store s) /\
  delete_loop s id = Ok (Sequencer (current_loop s) st (i32 (last_free_loop_store_position s - 1)) (map (renumber id) (loop_sequence s))) /\
  (forall l, Some l ∈ st -> Some l ∈ loop_store s) /\
  (forall e s', loop_store s' = st -> 0 <= e < id -> loop_of s' e = loop_of s e) /\
  (forall e s', loop_store s' = st -> id < e < Z.of_nat (length (loop_store s)) -> loop_of s' (e - 1) = loop_of s e).
Proof.
  intros H0. destruct (Z.ltb_spec id (Z.of_nat (length (loop_store s)))) as [Hlt|Hge].
  - pose proof (list_lookup_lookup_total_lt (loop_store s) (Z.to_nat id) ltac:(lia)) as Hx.
    pose proof (take_drop_middle _ _ _ Hx) as E. symmetry in E. revert E.
    set (pre := take (Z.to_nat id) (loop_store s)). set (x := loop_store s !!! Z.to_nat id). set (rest := drop (S (Z.to_nat id)) (loop_store s)).
    intros E. assert (length pre = Z.to_nat id) as Hpre by (unfold pre; rewrite length_take; lia).
    exists (pre ++ rest ++ [List.last (x :: rest) None]). pose proof (delete_is s pre x rest E) as Hd.
    replace (Z.of_nat (length pre)) with id in Hd by lia. rewrite E in Hlt |- *. rewrite !length_app in *. cbn [length] in *.
    split; [lia|]. split; [exact Hd|]. split; [|split].
    + intros l [Hl|[Hl|Hl]%elem_of_app]%elem_of_app; apply elem_of_app; [by left|right; by right|right].
      apply list_elem_of_singleton in Hl. rewrite Hl. apply list_elem_of_In. destruct rest as [|y rest]; [by left|].
      right. clear. revert y. induction rest as [|z rest IH]; intros y; [by left|right; apply IH].
    + intros e s' Es' He. unfold loop_of. rewrite Es', E, !length_app. cbn [length]. rewrite (proj2 (Z.leb_le 0 e)) by lia. cbn [andb].
      rewrite !(proj2 (Z.ltb_lt e _)) by lia. by rewrite !lookup_app_l by lia.
    + intros e s' Es' He. unfold loop_of. rewrite Es', E, !length_app. cbn [length].
      rewrite !(proj2 (Z.leb_le 0 _)) by lia. cbn [andb]. rewrite (proj2 (Z.ltb_lt (e - 1) _)), (proj2 (Z.ltb_lt e _)) by lia.
      rewrite !(lookup_app_r pre) by lia. rewrite lookup_app_l by lia.
      replace (Z.to_nat e - length pre)%nat with (S (Z.to_nat (e - 1) - length pre)) by lia. done.
  - exists (loop_store s). split; [done|]. split; [by apply delete_past|]. split; [done|]. split.
    + intros e s' Es' He. unfold loop_of. by rewrite Es'.
    + intros e s' Es' He. lia.
Qed.

Lemma delete_ok ls s id : sequencer_ok ls s -> 0 <= id -> exists s', delete_loop s id = Ok s' /\ sequencer_ok ls s'.
Proof.
  intros [H1 H2 H3 H4] H0. destruct (delete_total s id H0) as (st & Hlen & E & Hin & Hlo & Hhi). eexists. split; [exact E|].
  constructor; cbn [loop_store loop_sequence current_loop]; [lia|intros l Hl; by apply H2, Hin|done|].
  apply List.Forall_map. eapply list.Forall_impl; [exact H4|]. intros e He. cbn. unfold renumber.
  destruct (Z.eqb_spec e id) as [->|Hne]; [left; by rewrite (proj2 (Z.ltb_ge _ _)) by (unfold NOTE_NOT_SET; lia)|].
  destruct He as [->|He]; [left; by rewrite (proj2 (Z.ltb_ge _ _)) by (unfold NOTE_NOT_SET; lia)|].
  assert (0 <= e < Z.of_nat (length (loop_store s))) as Hb.
  { destruct He as [l He]. unfold loop_of in He. destruct (Z.leb_spec 0 e), (Z.ltb_spec e (Z.of_nat (length (loop_store s)))); try done; lia. }
  right. destruct (Z.ltb_spec id e) as [Hlt|Hge].
  - rewrite (Hhi e) by (done || lia). done.
  - rewrite (Hlo e) by (done || lia). done.
Qed.

(** ** Requests in any order *)

(** What threads ask of the sequencers; an exception goes back to the thread that asked. *)
Inductive loop_request : Type :=
| SetLoopIdAt (this position loop_id : Z)
| AddNewLoop (this garbage : Z)
| DeleteLoop (this id : Z)
| CreateSequencer (sibling mseq garbage : Z).

Definition handle (w : sequencers) (r : loop_request) : result sequencers :=
  match r with
  | SetLoopIdAt this position loop_id =>
      match set_loop_id_at w this position loop_id with
      | (w', Ok _) | (w', Err ParameterOutOfSpec) => Ok w'
      | (_, Err e) => Err e
      end
  | AddNewLoop this garbage =>
      match add_new_loop garbage w this with
      | Ok (w', _) => Ok w'
      | Err NoFreeLoopsAvailable => Ok w
      | Err e => Err e
      end
  | DeleteLoop this id => let! s := the_sequencer w this in let! s := delete_loop s id in Ok (put_sequencer w this s)
  | CreateSequencer sibling mseq garbage =>
      match create_sequencer_for_machine garbage w sibling mseq with
      | Ok w' => Ok w'
      | Err (JException _) => Ok w
      | Err e => Err e
      end
  end.

(** The caller's obligations: an existing sequencer, a line the sequence can be lengthened to,
    and an id that is not negative; a new sequencer has an address of its own. *)
Definition acceptable (w : sequencers) (r : loop_request) : Prop :=
  match r with
  | SetLoopIdAt this position _ => is_Some (sequencer_at w !! this) /\ position < 2^31 - 16
  | AddNewLoop this _ => is_Some (sequencer_at w !! this)
  | DeleteLoop this id => is_Some (sequencer_at w !! this) /\ 0 <= id
  | CreateSequencer _ mseq _ => sequencer_at w !! mseq = None
  end.

Fixpoint acceptable_run (w : sequencers) (rs : list loop_request) : Prop :=
  match rs with
  | [] => True
  | r :: rs => acceptable w r /\ match handle w r with Ok w' => acceptable_run w' rs | Err _ => True end
  end.

Lemma map_sibling_in k m sibling mseq : k ∈ map_sibling m sibling mseq -> k ∈ m \/ k = (sibling, mseq).
Proof.
  induction m as [|[k' x] m IH]; cbn; [set_solver|]. destruct (Z.ltb_spec sibling k'); [set_solver|].
  destruct (Z.eqb_spec sibling k') as [->|]; set_solver.
Qed.

Lemma handle_ok w r : sequencers_ok w -> acceptable w r -> exists w', handle w r = Ok w' /\ sequencers_ok w'.
Proof.
  intros Hok. destruct r as [this position loop_id|this garbage|this id|sibling mseq garbage]; cbn [acceptable handle].
  - intros ([s Es] & Hp). unfold set_loop_id_at. destruct (Z.ltb_spec position 0) as [Hneg|Hpos].
    + exists w. split; [|done]. unfold internal_set_loop_id_at. by rewrite (proj2 (Z.ltb_lt position 0)).
    + destruct (set_line_ok w this s position loop_id Hok Es ltac:(lia)) as (w' & Hok' & _ & _ & H).
      destruct (_ || _); destruct H as [-> H]; by exists w'.
  - intros [s Es]. unfold add_new_loop. rewrite (add_is garbage w this s Es) by (by eapply so_store, wo_all). case_if.
    + by exists w.
    + eexists. split; [reflexivity|]. by apply add_ok.
  - intros ([s Es] & H0). unfold the_sequencer. rewrite Es. cbn [rbind].
    destruct (delete_ok (loops w) s id) as (s' & -> & Hs'); [by eapply wo_all|done|]. cbn [rbind]. eexists. split; [reflexivity|].
    by apply put_ok.
  - intros Hnew. unfold create_sequencer_for_machine, new_sequencer. case_if; [by exists w|].
    set (s0 := prep_empty_loop_sequence _ _). set (w0 := put_sequencer w mseq s0).
    assert (sequencers_ok w0) as Hok0.
    { apply put_ok; [done|]. constructor; cbn [s0 loop_store prep_empty_loop_sequence with_sequence current_loop loop_sequence].
      - rewrite repeat_length. unfold INITIAL_SEQUENCE_LENGTH. lia.
      - intros l Hl. by apply list_elem_of_In, repeat_spec in Hl.
      - done.
      - apply list.Forall_forall. intros e He. left. by apply list_elem_of_In, repeat_spec in He. }
    assert (sequencer_at w0 !! mseq = Some s0) as Es0 by (cbn; by rewrite lookup_insert_eq).
    rewrite (add_is garbage w0 mseq s0 Es0) by exact (so_store _ _ (wo_all _ Hok0 _ _ Es0)). cbn [rbind last_free_loop_store_position s0 prep_empty_loop_sequence with_sequence].
    rewrite (proj2 (Z.eqb_neq 0 100)) by lia. cbn [rbind]. eexists. split; [reflexivity|].
    pose proof (add_ok garbage w0 mseq s0 Hok0 Es0) as [O1 O2 O3]. constructor; [|exact O2|exact O3].
    intros k Hk. apply map_sibling_in in Hk as [Hk| ->]; [by apply O1|]. cbn. rewrite lookup_insert_eq. by eexists.
Qed.


(** [set_loop_id_at] with the id of a loop of the sequencer, or none, changes that line of
    that sequencer and no other line of any sequencer, though all sequences may have grown;
    with any other id it throws and no line changes. *)
Theorem set_line_only w this s p id : sequencers_ok w -> sequencer_at w !! this = Some s -> 0 <= p < 2^31 - 16 ->
  exists w', sequencers_ok w' /\
    if (id =? NOTE_NOT_SET) || bool_decide (is_Some (loop_of s id))
    then set_loop_id_at w this p id = (w', Ok tt) /\ same_but_line w w' this p (fun _ => id)
    else set_loop_id_at w this p id = (w', Err ParameterOutOfSpec) /\ same_but_line w w' this p (fun s => id_at s p).
Proof. intros H1 H2 H3. destruct (set_line_ok w this s p id H1 H2 H3) as (w' & Hok & _ & _ & H). by exists w'. Qed.

(** ** The store as a list *)

(** The loops of the sequencer, in the order of their ids, with [free] places left. *)
Record stands_for (s : sequencer) (ls : list Z) (free : nat) : Prop := {
  sf_store : loop_store s = map Some ls ++ repeat None free;
  sf_last : last_free_loop_store_position s = Z.of_nat (length ls);
  sf_bound : (length ls <= 100)%nat
}.

Lemma stands_loop_of s ls free e : stands_for s ls free -> loop_of s e = if 0 <=? e then ls !! Z.to_nat e else None.
Proof.
  intros [H _ _]. unfold loop_of. rewrite H, length_app, length_map, repeat_length. destruct (Z.leb_spec 0 e); [|done]. cbn [andb].
  destruct (decide (Z.to_nat e < length ls)%nat) as [Hlt|Hge].
  - rewrite (proj2 (Z.ltb_lt e _)) by lia. rewrite lookup_app_l by (rewrite length_map; lia).
    change (map Some ls) with (Some <$> ls). rewrite list_lookup_fmap. by destruct (ls !! Z.to_nat e).
  - rewrite (lookup_ge_None_2 ls) by lia. case_if; [|done]. rewrite lookup_app_r by (rewrite length_map; lia).
    destruct (repeat None _ !! _) as [x|] eqn:Ex; [|done]. apply list_elem_of_lookup_2, list_elem_of_In, repeat_spec in Ex. by subst.
Qed.

Lemma first_free_is l k : first_free (map Some l ++ repeat None k) = length l.
Proof. induction l as [|a l IH]; cbn; [by destruct k|]. by rewrite IH. Qed.


Lemma renumber_at id s s' q : 0 <= id -> loop_sequence s' = map (renumber id) (loop_sequence s) -> id_at s' q = renumber id (id_at s q).
Proof.
  intros H0 E. assert (renumber id NOTE_NOT_SET = NOTE_NOT_SET) as Hn.
  { unfold renumber, NOTE_NOT_SET. rewrite (proj2 (Z.eqb_neq _ _)) by lia. by rewrite (proj2 (Z.ltb_ge _ _)) by lia. }
  unfold id_at. destruct (0 <=? q); [|done]. rewrite E. change (map (renumber id)) with (fmap (M:=list) (renumber id)).
  rewrite list_lookup_fmap. by destruct (loop_sequence s !! Z.to_nat q).
Qed.

(** C31: While the store has a free place, [delete_loop] takes one loop out of the list: the ids
    above move down, the lines that had the loop become empty, and all other lines go on to
    start the loops they started before. *)
Theorem delete_loop_removes ls s l1 l l2 free : sequencer_ok ls s -> stands_for s (l1 ++ l :: l2) (S free) ->
  exists s', delete_loop s (Z.of_nat (length l1)) = Ok s' /\ stands_for s' (l1 ++ l2) (S (S free)) /\
    forall q, loop_at s' q = if id_at s q =? Z.of_nat (length l1) then None else loop_at s q.
Proof.
  intros [_ _ _ Hseq] Hsf. pose proof Hsf as [H1 H2 H3]. rewrite map_app, <- app_assoc in H1. cbn [map app] in H1.
  pose proof (delete_is s (map Some l1) (Some l) (map Some l2 ++ repeat None (S free)) H1) as E. rewrite length_map in E.
  rewrite length_app in H2, H3. cbn [length] in H2, H3.
  assert (List.last (Some l :: map Some l2 ++ repeat None (S free)) None = None) as Hlast.
  { change (S free) with (1 + free)%nat. rewrite Nat.add_comm, repeat_app. cbn [repeat]. rewrite app_assoc, app_comm_cons. apply last_last. }
  rewrite Hlast in E. eexists. split; [exact E|].
  match goal with |- stands_for ?t _ _ /\ _ => set (s' := t) end.
  assert (stands_for s' (l1 ++ l2) (S (S free))) as Hsf'.
  { constructor; cbn [s' loop_store last_free_loop_store_position].
    - rewrite map_app, <- !app_assoc. do 2 f_equal. change (S (S free)) with (2 + free)%nat. rewrite (Nat.add_comm 2), repeat_app.
      change (S free) with (1 + free)%nat. rewrite (Nat.add_comm 1), repeat_app, <- app_assoc. done.
    - rewrite H2, i32_id by (unfold in_i32; lia). rewrite length_app. lia.
    - rewrite length_app. lia. }
  split; [done|]. intros q. unfold loop_at. rewrite (renumber_at (Z.of_nat (length l1)) s s' q) by (done || lia).
  rewrite (stands_loop_of _ _ _ _ Hsf'), (stands_loop_of _ _ _ _ Hsf). unfold renumber.
  destruct (Z.eqb_spec (id_at s q) (Z.of_nat (length l1))) as [He|Hne].
  { by rewrite (proj2 (Z.ltb_ge _ _)) by (unfold NOTE_NOT_SET; lia). }
  destruct (Z.ltb_spec (Z.of_nat (length l1)) (id_at s q)) as [Hlt|Hge].
  - rewrite !(proj2 (Z.leb_le 0 _)) by lia. rewrite !lookup_app_r by lia.
    by replace (Z.to_nat (id_at s q) - length l1)%nat with (S (Z.to_nat (id_at s q - 1) - length l1)) by lia.
  - destruct (Z.leb_spec 0 (id_at s q)); [|done]. by rewrite !lookup_app_l by lia.
Qed.

(** When the store is full, [delete_loop] leaves the last loop under two ids, so that what is
    drawn into one of them shows in the other, and the next loop gets an id that is not the
    number of loops: [get_nr_of_loops] is one too many from then on. *)
Theorem delete_from_full_store w this s ls l garbage : sequencers_ok w -> sequencer_at w !! this = Some s ->
  stands_for s (ls ++ [l]) 0 -> (1 < length (ls ++ [l]) <= 99)%nat ->
  exists s' w' s2, delete_loop s 0 = Ok s' /\ loop_of s' (Z.of_nat (length ls)) = Some l /\ loop_of s' (Z.of_nat (length ls) - 1) = Some l /\
    add_new_loop garbage (put_sequencer w this s') this = Ok (w', Z.of_nat (length ls) + 1) /\
    sequencer_at w' !! this = Some s2 /\ get_nr_of_loops s2 = Z.of_nat (length ls) + 2.
Proof.
  intros Hok Es [H1 H2 _] Hlen. rewrite length_app in Hlen, H2. cbn [length] in Hlen, H2. cbn [repeat] in H1. rewrite app_nil_r in H1.
  destruct ls as [|a ls]; [cbn in Hlen; lia|]. cbn [map app length] in *. rewrite map_app in H1. cbn [map] in H1.
  pose proof (delete_is s [] (Some a) (map Some ls ++ [Some l]) H1) as E. cbn [app length] in E.
  rewrite app_comm_cons, last_last, <- app_assoc in E. cbn [app] in E.
  match type of E with _ = Ok ?t => set (s' := t) in E end.
  assert (loop_store s' = map Some (ls ++ [l; l])) as Hst by (by rewrite map_app).
  assert (forall e, 0 <= e -> loop_of s' e = (ls ++ [l; l]) !! Z.to_nat e) as Hloop.
  { intros e He. unfold loop_of. rewrite Hst, length_map. rewrite (proj2 (Z.leb_le 0 e)) by lia. cbn [andb].
    change (map Some) with (fmap (M:=list) (@Some Z)). rewrite list_lookup_fmap.
    destruct (Z.ltb_spec e (Z.of_nat (length (ls ++ [l; l])))); [by destruct ((ls ++ [l; l]) !! Z.to_nat e)|]. by rewrite (lookup_ge_None_2 (ls ++ [l; l])) by lia. }
  assert (first_free (loop_store s') = S (S (length ls))) as Hff.
  { rewrite Hst, <- (app_nil_r (map _ _)). change (@nil (option Z)) with (repeat (@None Z) 0). rewrite first_free_is, length_app. cbn. lia. }
  assert (sequencer_at (put_sequencer w this s') !! this = Some s') as Es' by (cbn; by rewrite lookup_insert_eq).
  exists s'. do 2 eexists. split; [exact E|]. split; [|split; [|split; [|split]]].
  - rewrite Hloop, lookup_app_r by lia. by replace (Z.to_nat _ - _)%nat with 1%nat by lia.
  - rewrite Hloop, lookup_app_r by lia. by replace (Z.to_nat _ - _)%nat with 0%nat by lia.
  - unfold add_new_loop. rewrite (add_is garbage _ this s' Es') by (rewrite Hst, length_map, length_app; cbn; lia).
    rewrite Hff. cbn [s' last_free_loop_store_position]. rewrite H2, i32_id by (unfold in_i32; lia).
    rewrite (proj2 (Z.eqb_neq _ _)) by lia. do 2 f_equal. lia.
  - cbn. by rewrite lookup_insert_eq.
  - unfold get_nr_of_loops, added. cbn [last_free_loop_store_position with_store]. rewrite Hff. lia.
Qed.

(** ** Examples *)

(** No sequencer yet. *)
Definition no_sequencers : sequencers := Sequencers INITIAL_SEQUENCE_LENGTH [] ∅ ∅ 0.

(** A sequencer with [n] loops and [free] places, and the sequence 1, -, 0. *)
Definition ex_sequencer (n free : nat) : sequencer :=
  Sequencer None (map Some (map Z.of_nat (seq 0 n)) ++ repeat None free) (Z.of_nat n) [1; NOTE_NOT_SET; 0].
Definition ex_loops (n : nat) : gmap Z loop := list_to_map (map (fun k => (Z.of_nat k, new_loop 0)) (seq 0 n)).
Definition ex_world (n free : nat) : sequencers :=
  Sequencers 3 [(9, 5)] {[ 5 := ex_sequencer n free ]} (ex_loops n) (Z.of_nat n).

Lemma ex_stands n free : (n <= 100)%nat -> stands_for (ex_sequencer n free) (map Z.of_nat (seq 0 n)) free.
Proof. intros H. constructor; [done|by rewrite length_map, length_seq|by rewrite length_map, length_seq]. Qed.

Lemma ex_loops_some n l : 0 <= l < Z.of_nat n -> ex_loops n !! l = Some (new_loop 0).
Proof.
  intros H. unfold ex_loops. apply elem_of_list_to_map_1.
  - change (map ?f ?l) with (f <$> l). rewrite <- list_fmap_compose.
    apply NoDup_fmap_2_strong; [intros a b _ _; cbn; lia|]. apply base.NoDup_ListNoDup, List.seq_NoDup.
  - apply list_elem_of_In, in_map_iff. exists (Z.to_nat l). split; [f_equal; lia|]. apply in_seq. lia.
Qed.

Lemma ex_world_ok n free : (2 <= n <= 100)%nat -> sequencers_ok (ex_world n free).
Proof.
  intros Hn. pose proof (ex_stands n free ltac:(lia)) as Hs. constructor; cbn.
  - intros k ->%list_elem_of_singleton. cbn. by eexists.
  - intros l Hl. apply not_elem_of_list_to_map_1. intros Hin.
    change (map ?f ?l) with (f <$> l) in Hin. rewrite <- list_fmap_compose in Hin.
    apply list_elem_of_In, in_map_iff in Hin as (k & <- & Hk). apply in_seq in Hk. cbn in *. lia.
  - intros a s Ha. apply lookup_singleton_Some in Ha as [_ <-]. constructor; cbn [ex_sequencer loop_store current_loop loop_sequence].
    + rewrite length_app, !length_map, length_seq. lia.
    + intros l [Hl|Hl]%elem_of_app; [|by apply list_elem_of_In, repeat_spec in Hl].
      apply list_elem_of_In, in_map_iff in Hl as (l' & [= ->] & Hl). apply in_map_iff in Hl as (k & <- & Hk). apply in_seq in Hk.
      rewrite ex_loops_some by lia. by eexists.
    + done.
    + rewrite !list.Forall_cons. assert (forall e, 0 <= e < Z.of_nat n -> is_Some (loop_of (ex_sequencer n free) e)) as H.
      { intros e He. rewrite (stands_loop_of _ _ _ e Hs), (proj2 (Z.leb_le 0 e)) by lia. apply lookup_lt_is_Some_2.
        rewrite length_map, length_seq. lia. }
      split_and!; [right; apply H; lia|by left|right; apply H; lia|constructor].
Qed.

Definition ex_requests : list loop_request :=
  [CreateSequencer 9 5 0; AddNewLoop 5 0; SetLoopIdAt 5 40 1; SetLoopIdAt 5 3 7; SetLoopIdAt 5 0 0; DeleteLoop 5 0].


Lemma set_line_only_witness : exists w', sequencers_ok w' /\ set_loop_id_at (ex_world 2 14) 5 20 1 = (w', Ok tt) /\
  same_but_line (ex_world 2 14) w' 5 20 (fun _ => 1).
Proof.
  destruct (set_line_only (ex_world 2 14) 5 (ex_sequencer 2 14) 20 1) as (w' & H1 & H2); [apply ex_world_ok; lia|done|lia|].
  exists w'. split; [exact H1|exact H2].
Defined.


Lemma delete_loop_removes_witness : exists s', delete_loop (ex_sequencer 2 14) 0 = Ok s' /\ stands_for s' [1] 15 /\
  forall q, loop_at s' q = if id_at (ex_sequencer 2 14) q =? 0 then None else loop_at (ex_sequencer 2 14) q.
Proof.
  apply (delete_loop_removes (ex_loops 2) (ex_sequencer 2 14) [] 0 [1] 13); [|apply (ex_stands 2); lia].
  apply (wo_all _ (ex_world_ok 2 14 ltac:(lia)) 5). done.
Defined.

Lemma delete_from_full_store_witness : exists s' w' s2, delete_loop (ex_sequencer 16 0) 0 = Ok s' /\
  loop_of s' 15 = Some 15 /\ loop_of s' 14 = Some 15 /\ add_new_loop 0 (put_sequencer (ex_world 16 0) 5 s') 5 = Ok (w', 16) /\
  sequencer_at w' !! 5 = Some s2 /\ get_nr_of_loops s2 = 17.
Proof.
  apply (delete_from_full_store (ex_world 16 0) 5 (ex_sequencer 16 0) (map Z.of_nat (seq 0 15)) 15 0);
    [apply ex_world_ok; lia|done|apply (ex_stands 16); lia|cbn; lia].
Defined.
