(* ===== verification/SequenceExport.v ===== *)
(** * Writing a sequence to a MIDI file (machine_sequencer.cc)

    [export_sequence2midi_file] steps through the lines of a sequence, writes the notes of the
    loops as they start, and keeps those that sound in a map from the line at which they are
    to end. The copies of the notes in that map, chained by their [next] pointers, belong to
    the export alone: a chain is the list of its notes. *)

From Stdlib Require Import String ZArith Lia List Permutation.
From stdpp Require Import base list gmap numbers option.
From S2P Require Import Prelude MidiExport CxxString StdMap PadTime Arpeggiator SequencerLoop LoopStore.
Local Open Scope string_scope.
Local Open Scope list_scope.
Local Open Scope Z_scope.
Local Open Scope vk_scope.

(** The variables of the loop; [written_ops] is what was pushed to the chunk. *)
(* @src src_jni/machine_sequencer.cc:1521-1530 MachineSequencer::export_sequence2midi_file *)
Record exporting : Type := Exporting {
  l_s : Z;
  l_p : Z;
  last_p : Z;
  highest_off_p : Z;
  ndata : option Z;
  notes_to_off : smap Z (list note_entry);
  dropped : bool;
  written_ops : list push_op
}.

Definition start_export : exporting := Exporting 0 0 0 (-1) None [] true [].

Definition with_ndata (e : exporting) (start position : Z) (n : option Z) : exporting :=
  Exporting start position (last_p e) (highest_off_p e) n (notes_to_off e) (dropped e) (written_ops e).
Definition next_line (e : exporting) : exporting :=
  Exporting (l_s e) (i32 (l_p e + 1)) (last_p e) (highest_off_p e) (ndata e) (notes_to_off e) (dropped e) (written_ops e).
Definition without_off (e : exporting) (p : Z) : exporting :=
  Exporting (l_s e) (l_p e) (last_p e) (highest_off_p e) (ndata e) (merase (notes_to_off e) p) (dropped e) (written_ops e).

(** The message for the note [n] at the line [s_p]; [status] is 0x90 or 0x80. *)
(* @src src_jni/machine_sequencer.cc:1571-1576 MachineSequencer::export_sequence2midi_file *)
Definition push_note (status s_p : Z) (n : note_entry) (e : exporting) : exporting :=
  let offset := u32 ((s_p - last_p e) * MACHINE_TICKS_PER_LINE) in
  Exporting (l_s e) (l_p e) s_p (highest_off_p e) (ndata e) (notes_to_off e) (dropped e)
    (written_ops e ++ [PushVar32 offset; Push8 (Z.lor status (Z.land 0x0f (channel n))); Push8 (note n); Push8 (velocity n)]).

(** A note that starts. *)
(* @src src_jni/machine_sequencer.cc:1542-1576 MachineSequencer::export_sequence2midi_file *)
Definition start_note (s_p : Z) (n : note_entry) (e : exporting) : exporting :=
  let new_one := copy_note n in
  let off_position := i32 (l_s e + PAD_TIME_LINE (on_at n) + note_length n + 1) in
  let chain := new_one :: default [] (mfind (notes_to_off e) off_position) in
  push_note 0x90 s_p new_one
    (Exporting (l_s e) (l_p e) (last_p e) (if highest_off_p e <? off_position then off_position else highest_off_p e)
       (next n) (mset (notes_to_off e) off_position chain) false (written_ops e)).

(* @src src_jni/machine_sequencer.cc:1540-1579 MachineSequencer::export_sequence2midi_file *)
Fixpoint export_notes (fuel : nat) (h : note_heap) (s_p : Z) (e : exporting) : result exporting :=
  match ndata e with
  | None => Ok e
  | Some a =>
      let! n := at_note h a in
      if on_at n <=? PAD_TIME (l_p e) 0 then
        match fuel with
        | O => Err OutOfFuel
        | S fuel => export_notes fuel h s_p (start_note s_p n e)
        end
      else Ok e
  end.

(* @src src_jni/machine_sequencer.cc:1581-1597 MachineSequencer::export_sequence2midi_file *)
Definition export_offs (s_p : Z) (e : exporting) : exporting :=
  match mfind (notes_to_off e) s_p with
  | None => e
  | Some tip => fold_left (fun e n => push_note 0x80 s_p n e) tip (without_off e s_p)
  end.

(** A line of the sequence. *)
(* @src src_jni/machine_sequencer.cc:1533-1597 MachineSequencer::export_sequence2midi_file *)
Definition export_line (m : note_heap) (w : sequencers) (s : sequencer) (s_p : Z) (e : exporting) : result exporting :=
  let! e :=
    if s_p <? Z.of_nat (length (loop_sequence s)) then
      let! id := load (loop_sequence s) s_p in
      if id =? NOTE_NOT_SET then Ok e
      else
        let! x := load (loop_store s) id in
        match l ← x; loops w !! l with
        | None => Err (UndefinedBehaviour "dangling or null Loop pointer")
        | Some l => Ok (with_ndata e s_p 0 (first_note l))
        end
    else Ok e in
  let! e := export_notes (size m) m s_p e in
  Ok (next_line (export_offs s_p e)).

(* @src src_jni/machine_sequencer.cc:1532-1598 MachineSequencer::export_sequence2midi_file *)
Fixpoint export_lines (fuel : nat) (m : note_heap) (w : sequencers) (s : sequencer) (s_p : Z) (e : exporting) : result exporting :=
  if (s_p <? Z.of_nat (length (loop_sequence s))) || (s_p <? highest_off_p e) then
    match fuel with
    | O => Err OutOfFuel
    | S fuel =>
        let! e := export_line m w s s_p e in
        export_lines fuel m w s (s_p + 1) e
    end
  else Ok e.

(** How many lines after the start of its loop a note can end. *)
Definition note_span (n : note_entry) : Z := PAD_TIME_LINE (on_at n) + note_length n + 1.
Definition reach (m : note_heap) : Z := map_fold (fun _ n z => Z.max (note_span n) z) 0 m.

(** Lines the export can step through: the sequence, and the span of a note from its last line. *)
Definition export_fuel (m : note_heap) (s : sequencer) : nat := length (loop_sequence s) + Z.to_nat (reach m).

(* @src src_jni/machine_sequencer.cc:1511-1514 MachineSequencer::export_sequence2midi_file *)
Definition track_name (sibling_name : list Z) : list push_op :=
  [PushVar32 0; Push8 0xff; Push8 0x03; PushString sibling_name].

(* @src src_jni/machine_sequencer.cc:1600-1604 MachineSequencer::export_sequence2midi_file *)
Definition end_of_track : list push_op := [PushVar32 0; Push8 0xff; Push8 0x2f; PushVar32 0].

(** [target->append_new_chunk("MTrk")] and the pushes to it; true if the track has notes. *)
(* @src src_jni/machine_sequencer.cc:1504-1609 MachineSequencer::export_sequence2midi_file *)
Definition export_sequence2midi_file (sibling_name : list Z) (m : note_heap) (w : sequencers) (s : sequencer) (target : midi_file) :
    result (midi_file * bool) :=
  let midi_chunk := new_chunk 77 84 114 107 in
  let! midi_chunk := rfold run_push midi_chunk (track_name sibling_name) in
  let! e := export_lines (export_fuel m s) m w s 0 start_export in
  let! midi_chunk := rfold run_push midi_chunk (written_ops e) in
  let! midi_chunk := rfold run_push midi_chunk end_of_track in
  let midi_chunk := if dropped e then drop midi_chunk else midi_chunk in
  Ok (MidiFile (contained target ++ [midi_chunk]) (was_finalized target), negb (dropped e)).

(* @src src_jni/machine_sequencer.cc:1499-1501 MachineSequencer::export_loops2midi_file *)
Definition export_loops2midi_file : Z := 0.

(** [bpm] is what [Machine::get_bpm] returns; it divides. *)
(* @src src_jni/machine_sequencer.cc:1452-1496 MachineSequencer::write_MIDI_info_track *)
Definition write_MIDI_info_track (bpm : Z) (target : midi_file) : result midi_file :=
  if bpm =? 0 then Err (UndefinedBehaviour "division by zero")
  else
    let msPerQuarterNote := u32 (c_div 60000000 bpm) in
    let! midi_chunk := rfold run_push (new_chunk 77 84 114 107)
      ([PushVar32 0; Push8 0xff; Push8 0x02; PushString (map byte_of (list_ascii_of_string "Copyrighted Material"))] ++
       [PushVar32 0; Push8 0xff; Push8 0x07; PushString (map byte_of (list_ascii_of_string "Created by SATAN for Android"))] ++
       [PushVar32 0; Push8 0xff; Push8 0x51; PushVar32 3;
        Push8 (u8 (Z.shiftr (Z.land msPerQuarterNote 0xff0000) 16)); Push8 (u8 (Z.shiftr (Z.land msPerQuarterNote 0x00ff00) 8));
        Push8 (u8 (Z.land msPerQuarterNote 0x0000ff))] ++
       [PushVar32 0; Push8 0xff; Push8 0x58; PushVar32 4; Push8 0x02; Push8 0x04; Push8 0x24; Push8 0x08] ++
       [PushVar32 0; Push8 0xff; Push8 0x2f; PushVar32 0]) in
    Ok (MidiFile (contained target ++ [midi_chunk]) (was_finalized target)).

(** The tracks of all sequencers and how many they are; [sibling_name] gives the member of a
    sequencer. *)
(* @src src_jni/machine_sequencer.cc:1879-1890 MachineSequencer::export2MIDI *)
Fixpoint export_tracks (just_loops : bool) (sibling_name : Z -> list Z) (m : note_heap) (w : sequencers) (ks : list (Z * Z))
    (target : midi_file) (nr_of_tracks : Z) : result (midi_file * Z) :=
  match ks with
  | [] => Ok (target, nr_of_tracks)
  | k :: ks =>
      let! s := the_sequencer w (snd k) in
      let! (target, tracks) :=
        if just_loops then Ok (target, export_loops2midi_file)
        else let! (target, kept) := export_sequence2midi_file (sibling_name (snd k)) m w s target in Ok (target, if kept : bool then 1 else 0) in
      export_tracks just_loops sibling_name m w ks target (Z.land (nr_of_tracks + tracks) 0xffff)
  end.

(** The header is the first chunk, and gets its content last. The result is the file on disk. *)
(* @src src_jni/machine_sequencer.cc:1852-1911 MachineSequencer::export2MIDI *)
Definition export2MIDI (os_write : list Z -> Z) (fd : Z) (just_loops : bool) (bpm lpb : Z) (sibling_name : Z -> list Z) (m : note_heap) (w : sequencers) :
    result (list Z) :=
  let header := new_chunk 77 84 104 100 in
  let! target := write_MIDI_info_track bpm (MidiFile [] false) in
  let! (target, nr_of_tracks) := export_tracks just_loops sibling_name m w (machine2sequencer w) target 1 in
  let! header := rfold run_push header [Push16 1; Push16 nr_of_tracks; Push16 (u32 (MACHINE_TICKS_PER_LINE * lpb))] in
  let! (_, file) := finalize_file os_write fd (MidiFile (header :: contained target) (was_finalized target)) in
  Ok file.
