(* ===== verification/SequenceTrack.v ===== *)
(** * What a sequence looks like in the MIDI file

    The notes of the loops begin and end in the track that [export_sequence2midi_file] writes;
    when, and which do not end. *)

From Stdlib Require Import String ZArith Lia List Permutation.
From stdpp Require Import base list gmap numbers option.
From S2P Require Import Prelude MidiExport StdMap PadTime Arpeggiator DoubleList SequencerLoop LoopNotes LoopPlay LoopStore LoopOrder SequenceExport.
Local Open Scope string_scope.
Local Open Scope list_scope.
Local Open Scope Z_scope.
Local Open Scope vk_scope.

(** ** Reading a track *)

(** A message at its time in ticks. *)
Record track_event : Type := TrackEvent { ev_time : Z; ev_status : Z; ev_note : Z; ev_velocity : Z }.

Fixpoint track_events (time : Z) (ops : list push_op) : list track_event :=
  match ops with
  | PushVar32 d :: Push8 status :: Push8 n :: Push8 v :: ops => TrackEvent (time + d) status n v :: track_events (time + d) ops
  | _ => []
  end.

(** A note in the file. *)
Record sounded : Type := Sounded { at_line : Z; off_line : Z; the_note : note_entry }.

Definition event_of (status line : Z) (n : note_entry) : track_event :=
  TrackEvent (MACHINE_TICKS_PER_LINE * line) (Z.lor status (Z.land 0x0f (channel n))) (note n) (velocity n).
Definition on_event (x : sounded) : track_event := event_of 0x90 (at_line x) (the_note x).
Definition off_event (x : sounded) : track_event := event_of 0x80 (off_line x) (the_note x).
Definition is_on (e : track_event) : bool := 0x90 <=? ev_status e.
Definition is_off (e : track_event) : bool := negb (is_on e).

(** The pushes of a message. *)
Definition quad (q : Z * Z * Z * Z) : list push_op :=
  let '(d, status, n, v) := q in [PushVar32 d; Push8 status; Push8 n; Push8 v].
Fixpoint events_of (time : Z) (qs : list (Z * Z * Z * Z)) : list track_event :=
  match qs with
  | [] => []
  | (d, status, n, v) :: qs => TrackEvent (time + d) status n v :: events_of (time + d) qs
  end.
Definition ends_at (time : Z) (qs : list (Z * Z * Z * Z)) : Z := fold_left (fun t q => t + q.1.1.1) qs time.

Lemma track_quads qs : forall time, track_events time (concat (map quad qs)) = events_of time qs.
Proof. induction qs as [|[[[d st] n] v] qs IH]; intros time; cbn; [done|]. by rewrite IH. Qed.

Lemma events_of_app qs1 qs2 : forall time, events_of time (qs1 ++ qs2) = events_of time qs1 ++ events_of (ends_at time qs1) qs2.
Proof. induction qs1 as [|[[[d st] n] v] qs1 IH]; intros time; cbn; [done|]. by rewrite IH. Qed.

(** ** The state of the export *)

Definition last_off (started : list sounded) : Z := fold_right (fun x z => Z.max (off_line x) z) (-1) started.

(** [started] are the notes begun so far; those due before the line [s_p] have ended, those due
    at it or later are in the map. *)
Record export_inv (s_p : Z) (e : exporting) (started : list sounded) (qs : list (Z * Z * Z * Z)) : Prop := {
  ei_ops : written_ops e = concat (map quad qs);
  ei_last : ends_at 0 qs = MACHINE_TICKS_PER_LINE * last_p e;
  ei_past : 0 <= last_p e <= s_p;
  ei_on : List.filter is_on (events_of 0 qs) = map on_event started;
  ei_off : Permutation (List.filter is_off (events_of 0 qs)) (map off_event (List.filter (fun x => off_line x <? s_p) started));
  ei_map_ok : smap_ok (notes_to_off e);
  ei_map : forall q, s_p <= q -> Permutation (default [] (mfind (notes_to_off e) q)) (map the_note (List.filter (fun x => off_line x =? q) started));
  ei_high : highest_off_p e = last_off started;
  ei_dropped : dropped e = bool_decide (started = [])
}.

Lemma start_export_inv : export_inv 0 start_export [] [].
Proof. constructor; try done. constructor. Qed.

Lemma status_on c : is_on (TrackEvent 0 (Z.lor 0x90 (Z.land 0x0f c)) 0 0) = true /\ is_on (TrackEvent 0 (Z.lor 0x80 (Z.land 0x0f c)) 0 0) = false.
Proof.
  unfold is_on. cbn [ev_status]. rewrite (Z.land_comm 0x0f c). change 0x0f with (Z.ones 4). rewrite Z.land_ones by lia.
  pose proof (Z.mod_pos_bound c (2^4) ltac:(lia)) as H. change (2^4) with 16 in *.
  change 0x90 with (16 * 9). change 0x80 with (16 * 8). rewrite !lor_low by lia. split; zbool; lia.
Qed.

Lemma event_on status line n : status = 0x90 \/ status = 0x80 -> is_on (event_of status line n) = (status =? 0x90).
Proof. intros [->| ->]; [apply (proj1 (status_on (channel n)))|apply (proj2 (status_on (channel n)))]. Qed.

(** A message at the line [s_p]. *)
Lemma push_note_quads status s_p n e qs : written_ops e = concat (map quad qs) -> ends_at 0 qs = MACHINE_TICKS_PER_LINE * last_p e ->
  0 <= last_p e <= s_p -> s_p < 2^27 -> exists q, written_ops (push_note status s_p n e) = concat (map quad (qs ++ [q])) /\
    ends_at 0 (qs ++ [q]) = MACHINE_TICKS_PER_LINE * s_p /\ events_of 0 (qs ++ [q]) = events_of 0 qs ++ [event_of status s_p n].
Proof.
  intros E Ht Hp Hs. exists (u32 ((s_p - last_p e) * MACHINE_TICKS_PER_LINE), Z.lor status (Z.land 0x0f (channel n)), note n, velocity n).
  unfold MACHINE_TICKS_PER_LINE in *. rewrite u32_id by (unfold in_u32; lia). split; [|split].
  - cbn [push_note written_ops]. rewrite E, map_app, concat_app. unfold MACHINE_TICKS_PER_LINE. rewrite u32_id by (unfold in_u32; lia). done.
  - unfold ends_at in *. rewrite fold_left_app. cbn. lia.
  - rewrite events_of_app, Ht. unfold event_of, MACHINE_TICKS_PER_LINE. cbn. do 3 f_equal. lia.
Qed.

Lemma last_off_snoc started x : last_off (started ++ [x]) = Z.max (last_off started) (Z.max (off_line x) (-1)).
Proof. unfold last_off. induction started as [|y started IH]; cbn; [lia|]. rewrite IH. lia. Qed.

Lemma last_off_low started : -1 <= last_off started.
Proof. unfold last_off. induction started; cbn; lia. Qed.

(** [note_on] of a note that is to end at [off_line], not before this line. *)
Lemma start_note_inv s_p n e started qs off : export_inv s_p e started qs -> s_p < 2^27 ->
  off = i32 (l_s e + PAD_TIME_LINE (on_at n) + note_length n + 1) -> s_p <= off ->
  exists q, export_inv s_p (start_note s_p n e) (started ++ [Sounded s_p off (copy_note n)]) (qs ++ [q]).
Proof.
  intros [H1 H2 H3 H4 H5 H6 H7 H8 H9] Hs Hoff Hx. unfold start_note. rewrite <- Hoff. clear Hoff.
  match goal with |- context [push_note _ _ _ ?t] => set (e1 := t) end.
  destruct (push_note_quads 0x90 s_p (copy_note n) e1 qs H1 H2 H3 Hs) as (q & Q1 & Q2 & Q3).
  exists q. constructor; try (cbn [push_note last_p]; lia); try done.
  - rewrite Q3, List.filter_app, H4, map_app. cbn [List.filter]. rewrite event_on by by left. done.
  - rewrite Q3, List.filter_app. cbn [List.filter]. unfold is_off. rewrite event_on by by left. cbn [Z.eqb Pos.eqb negb].
    rewrite app_nil_r. rewrite List.filter_app. cbn [List.filter off_line]. rewrite (proj2 (Z.ltb_ge _ _)) by done. by rewrite app_nil_r.
  - cbn. by apply mset_ok.
  - intros p Hp. cbn [push_note notes_to_off e1]. rewrite mfind_mset by done. rewrite List.filter_app, map_app. cbn [List.filter].
    cbn [off_line]. destruct (Z.eqb_spec off p) as [<-|Hne].
    + rewrite key_eqb_refl. cbn [default map]. rewrite H7 by done. cbn. by rewrite <- Permutation_cons_append.
    + rewrite key_eqb_neq by congruence. rewrite app_nil_r. by apply H7.
  - cbn [push_note highest_off_p e1]. rewrite last_off_snoc, H8. cbn [off_line]. pose proof (last_off_low started).
    destruct (Z.ltb_spec (last_off started) off); lia.
  - cbn [push_note dropped e1]. rewrite bool_decide_false; [done|]. by destruct started.
Qed.

Lemma push_offs_inv tip : forall s_p e qs, written_ops e = concat (map quad qs) -> ends_at 0 qs = MACHINE_TICKS_PER_LINE * last_p e ->
  0 <= last_p e <= s_p -> s_p < 2^27 -> exists qs' e', fold_left (fun e n => push_note 0x80 s_p n e) tip e = e' /\
    written_ops e' = concat (map quad qs') /\ ends_at 0 qs' = MACHINE_TICKS_PER_LINE * last_p e' /\ 0 <= last_p e' <= s_p /\
    events_of 0 qs' = events_of 0 qs ++ map (event_of 0x80 s_p) tip /\
    l_s e' = l_s e /\ l_p e' = l_p e /\ highest_off_p e' = highest_off_p e /\ ndata e' = ndata e /\
    notes_to_off e' = notes_to_off e /\ dropped e' = dropped e.
Proof.
  induction tip as [|n tip IH]; intros s_p e qs H1 H2 H3 Hs; cbn [fold_left].
  - exists qs, e. rewrite app_nil_r. by split_and!; try lia.
  - destruct (push_note_quads 0x80 s_p n e qs H1 H2 H3 Hs) as (q & Q1 & Q2 & Q3).
    destruct (IH s_p (push_note 0x80 s_p n e) (qs ++ [q])) as (qs' & e' & E & R1 & R2 & R3 & R4 & R); [done|done|cbn; lia|done|].
    exists qs', e'. split; [done|]. split; [done|]. split; [done|]. split; [done|]. split; [|exact R].
    rewrite R4, Q3, <- app_assoc. done.
Qed.

Lemma filter_split {A} (f g k : A -> bool) l : (forall a, k a = f a || g a) -> (forall a, f a && g a = false) ->
  Permutation (List.filter k l) (List.filter f l ++ List.filter g l).
Proof.
  intros H1 H2. induction l as [|a l IH]; cbn; [done|]. rewrite H1. specialize (H2 a). destruct (f a), (g a); cbn; try done.
  - by rewrite IH.
  - rewrite IH. apply Permutation_middle.
Qed.

(** The notes due at a line end there. *)
Lemma export_offs_inv s_p e started qs : export_inv s_p e started qs -> s_p < 2^27 ->
  exists qs', export_inv (s_p + 1) (export_offs s_p e) started qs' /\
    l_s (export_offs s_p e) = l_s e /\ l_p (export_offs s_p e) = l_p e /\ ndata (export_offs s_p e) = ndata e.
Proof.
  intros [H1 H2 H3 H4 H5 H6 H7 H8 H9] Hs. unfold export_offs.
  assert (Permutation (List.filter (fun x => off_line x <? s_p + 1) started)
    (List.filter (fun x => off_line x <? s_p) started ++ List.filter (fun x => off_line x =? s_p) started)) as Hcut.
  { apply filter_split; intros x; zbool; lia. }
  pose proof (H7 s_p ltac:(lia)) as Hnow. destruct (mfind (notes_to_off e) s_p) as [tip|] eqn:Etip; cbn [default] in Hnow.
  - destruct (push_offs_inv tip s_p (without_off e s_p) qs) as (qs' & e' & -> & R1 & R2 & R3 & R4 & R5 & R6 & R7 & R8 & R9 & R10); [done..|].
    exists qs'. split; [|done]. constructor; try done; try lia.
    + rewrite R4, List.filter_app, H4. rewrite <- app_nil_r. f_equal. apply filter_false. apply List.Forall_map. apply list.Forall_forall.
      intros n _. by rewrite event_on by by right.
    + rewrite R4, List.filter_app, Hcut, map_app. apply Permutation_app; [done|].
      rewrite filter_true by (apply List.Forall_map, list.Forall_forall; intros n _; unfold is_off; by rewrite event_on by by right).
      rewrite Hnow, map_map.
      rewrite (map_ext_in _ off_event); [done|]. intros x Hx. apply filter_In in Hx as [_ Hx]. unfold off_event. zbool. by subst.
    + rewrite R9. cbn. by apply merase_ok.
    + intros q Hq. rewrite R9. cbn [notes_to_off without_off]. rewrite mfind_merase by done. rewrite key_eqb_neq by lia. apply H7. lia.
    + by rewrite R7.
    + by rewrite R10.
  - exists qs. split; [|done]. constructor; try done; try lia.
    + rewrite Hcut, map_app. destruct (List.filter (fun x => off_line x =? s_p) started); cbn; [by rewrite app_nil_r|].
      by apply Permutation_nil_cons in Hnow.
    + intros q Hq. apply H7. lia.
Qed.

(** ** The notes of a line *)

(** Sequencers whose loops are lists of notes in order, with times that fit. *)
Record exportable (m : note_heap) (w : sequencers) (s : sequencer) (notes_of : Z -> list Z) : Prop := {
  xp_sequencer : sequencer_ok (loops w) s;
  xp_length : Z.of_nat (length (loop_sequence s)) < 2^24;
  xp_chain : forall l lp, Some l ∈ loop_store s -> loops w !! l = Some lp -> notes_chain m (first_note lp) (notes_of l);
  xp_sorted : forall l, Some l ∈ loop_store s -> sorted_by (start_of m) (notes_of l);
  xp_range : forall l a, Some l ∈ loop_store s -> a ∈ notes_of l -> 0 <= start_of m a < 2^25 /\ 0 <= length_of m a < 2^24
}.

(** The line of the loop at which a note is written, rounded up. *)
Definition line_up (t : Z) : Z := (t + 15) / 16.

(** [x] is a note of the loop that the sequence starts at line [start]. *)
Definition exported_from (m : note_heap) (s : sequencer) (notes_of : Z -> list Z) (x : sounded) : Prop :=
  exists start l a n, loop_at s start = Some l /\ a ∈ notes_of l /\ m !! a = Some n /\
    x = Sounded (start + line_up (on_at n)) (start + note_span n) (copy_note n).

Lemma loop_at_line s start l : loop_at s start = Some l -> 0 <= start < Z.of_nat (length (loop_sequence s)) /\ Some l ∈ loop_store s.
Proof.
  intros H. split; [|by eapply loop_of_store]. unfold loop_at, id_at in H. destruct (Z.leb_spec 0 start); [|done].
  destruct (loop_sequence s !! Z.to_nat start) as [id|] eqn:E; [|done]. apply lookup_lt_Some in E. lia.
Qed.

(** The notes [todo] of the loop that plays are still to come at the line [s_p]. *)
Record following (m : note_heap) (s : sequencer) (notes_of : Z -> list Z) (s_p : Z) (e : exporting) (todo : list Z) : Prop := {
  fo_position : l_p e = s_p - l_s e;
  fo_start : 0 <= l_s e <= s_p;
  fo_next : ndata e = first_of todo None;
  fo_loop : todo = [] \/ exists l pre, loop_at s (l_s e) = Some l /\ notes_of l = pre ++ todo;
  fo_later : Forall (fun a => 16 * (l_p e - 1) < start_of m a) todo
}.

Section Lines.
Context (m : note_heap) (w : sequencers) (s : sequencer) (notes_of : Z -> list Z) (Hex : exportable m w s notes_of).

Lemma line_note s_p e a todo : following m s notes_of s_p e (a :: todo) -> exists l n, loop_at s (l_s e) = Some l /\ a ∈ notes_of l /\
  m !! a = Some n /\ next n = first_of todo None /\ 0 <= on_at n < 2^25 /\ 0 <= note_length n < 2^25 /\
  Forall (fun b => on_at n <= start_of m b) todo.
Proof.
  intros [_ _ _ [?|(l & pre & Hl & Hpre)] _]; [done|]. pose proof (loop_at_line _ _ _ Hl) as [_ Hin].
  destruct (so_loops _ _ (xp_sequencer _ _ _ _ Hex) l Hin) as [lp Hlp].
  pose proof (xp_chain _ _ _ _ Hex l lp Hin Hlp) as (_ & _ & HF & Hlink). pose proof (xp_sorted _ _ _ _ Hex l Hin) as Hs.
  assert (a ∈ notes_of l) as Ha by (rewrite Hpre; apply elem_of_app; right; left).
  pose proof (xp_range _ _ _ _ Hex l a Hin Ha) as Hr. pose proof (proj1 (list.Forall_forall _ _) HF a Ha) as [n En].
  rewrite Hpre in Hlink, Hs. apply linked_app in Hlink as [_ (_ & Hnx & _)]. apply sorted_by_app in Hs as (_ & Hs & _).
  apply sorted_by_cons in Hs as [Hs _]. unfold next_f, start_of, length_of in *. rewrite En in *. cbn in Hnx.
  exists l, n. split_and!; try done; try lia; by destruct todo.
Qed.

Lemma export_notes_run todo : forall fuel s_p e started qs, following m s notes_of s_p e todo -> export_inv s_p e started qs ->
  s_p < 2^26 -> (length todo <= fuel)%nat ->
  exists e' now later qs', export_notes fuel m s_p e = Ok e' /\ following m s notes_of s_p e' later /\
    export_inv s_p e' (started ++ now) qs' /\ Forall (exported_from m s notes_of) now /\
    Forall (fun a => 16 * l_p e' < start_of m a) later.
Proof.
  induction todo as [|a todo IH]; intros fuel s_p e started qs Hf Hi Hs Hfuel.
  - pose proof (fo_next _ _ _ _ _ _ Hf) as Hn. exists e, [], [], qs. rewrite app_nil_r. split_and!; [|done|done|done|done].
    destruct fuel; cbn; by rewrite Hn.
  - destruct (line_note _ _ _ _ Hf) as (l & n & Hl & Ha & En & Hnx & Hon & Hlen & Hsort). destruct Hf as [F1 F2 F3 F4 F5].
    pose proof (loop_at_line _ _ _ Hl) as [Hline Hin].
    assert (start_of m a = on_at n) as Hsa by (unfold start_of; by rewrite En).
    apply list.Forall_cons in F5 as [Fa F5]. rewrite Hsa in Fa.
    assert (PAD_TIME (l_p e) 0 = 16 * l_p e) as Hpt by (rewrite PAD_TIME_value by lia; lia).
    assert (export_notes fuel m s_p e = if on_at n <=? 16 * l_p e then
        match fuel with O => Err OutOfFuel | S fuel => export_notes fuel m s_p (start_note s_p n e) end else Ok e) as ->.
    { destruct fuel; cbn [export_notes]; rewrite F3; cbn [first_of]; unfold at_note; rewrite En; cbn [rbind]; by rewrite Hpt. }
    destruct (Z.leb_spec (on_at n) (16 * l_p e)) as [Hle|Hgt].
    + destruct fuel as [|fuel]; [cbn in Hfuel; lia|].
      assert (Hpl : 16 * PAD_TIME_LINE (on_at n) <= on_at n < 16 * PAD_TIME_LINE (on_at n) + 16).
      { unfold PAD_TIME_LINE, BITS_PER_LINE. rewrite Z.shiftr_div_pow2 by lia. change (2^4) with 16.
        pose proof (Z.mul_div_le (on_at n) 16). pose proof (Z.mul_succ_div_gt (on_at n) 16). lia. }
      assert (line_up (on_at n) = l_p e) as Hup.
      { unfold line_up. symmetry. apply (Z.div_unique _ _ _ (on_at n + 15 - 16 * l_p e)); lia. }
      set (x := Sounded s_p (l_s e + note_span n) (copy_note n)).
      destruct (start_note_inv s_p n e started qs (off_line x) Hi) as (q & Hi'); [lia| |cbn; unfold note_span; lia|].
      { cbn. unfold note_span. rewrite i32_id by (unfold in_i32; lia). lia. }
      destruct (IH fuel s_p (start_note s_p n e) (started ++ [x]) (qs ++ [q])) as (e' & now & later & qs' & E & Hf' & Hi'' & Hnow & Hlater);
        [|done|done|cbn in Hfuel; lia|].
      { constructor; cbn [start_note push_note l_p l_s ndata]; try done. destruct F4 as [?|(l' & pre & Hl' & Hpre)]; [done|].
        right. exists l', (pre ++ [a]). by rewrite <- app_assoc. }
      exists e', (x :: now), later, qs'. split; [done|]. split; [done|]. rewrite <- app_assoc in Hi''. split; [done|]. split; [|done].
      apply list.Forall_cons. split; [|done]. exists (l_s e), l, a, n. split_and!; [done|done|done|].
      unfold x. f_equal. lia.
    + exists e, [], (a :: todo), qs. rewrite app_nil_r. split; [done|]. split; [|split; [done|split; [done|]]].
      * constructor; try done. apply list.Forall_cons. by rewrite Hsa.
      * apply list.Forall_cons. rewrite Hsa. split; [done|]. eapply list.Forall_impl; [exact Hsort|]. cbn. lia.
Qed.

(** ** The lines *)

Lemma follow_length s_p e todo : following m s notes_of s_p e todo -> (length todo <= size m)%nat.
Proof.
  intros [_ _ _ [->|(l & pre & Hl & Hpre)] _]; [cbn; lia|]. pose proof (loop_at_line _ _ _ Hl) as [_ Hin].
  destruct (so_loops _ _ (xp_sequencer _ _ _ _ Hex) l Hin) as [lp Hlp].
  pose proof (notes_chain_size _ _ _ (xp_chain _ _ _ _ Hex l lp Hin Hlp)) as H. rewrite Hpre, length_app in H. lia.
Qed.

Lemma export_line_run s_p e todo started qs : following m s notes_of s_p e todo -> export_inv s_p e started qs ->
  0 <= s_p < 2^26 -> exists e' later now qs', export_line m w s s_p e = Ok e' /\ following m s notes_of (s_p + 1) e' later /\
    export_inv (s_p + 1) e' (started ++ now) qs' /\ Forall (exported_from m s notes_of) now.
Proof.
  intros Hf Hi Hs. unfold export_line.
  assert (exists e0 todo0, (if s_p <? Z.of_nat (length (loop_sequence s)) then
      let! id := load (loop_sequence s) s_p in
      if id =? NOTE_NOT_SET then Ok e
      else
        let! x := load (loop_store s) id in
        match l ← x; loops w !! l with
        | None => Err (UndefinedBehaviour "dangling or null Loop pointer")
        | Some l => Ok (with_ndata e s_p 0 (first_note l))
        end
    else Ok e) = Ok e0 /\ following m s notes_of s_p e0 todo0 /\ export_inv s_p e0 started qs) as (e0 & todo0 & -> & Hf0 & Hi0).
  { destruct (Z.ltb_spec s_p (Z.of_nat (length (loop_sequence s)))) as [Hlt|Hge]; [|by exists e, todo].
    destruct (load_in (loop_sequence s) s_p) as (id & -> & Eid); [lia|]. cbn [rbind].
    destruct (Z.eqb_spec id NOTE_NOT_SET) as [Hid|Hid]; [by exists e, todo|].
    assert (id_at s s_p = id) as Hat by (unfold id_at; rewrite (proj2 (Z.leb_le 0 s_p)) by lia; by rewrite Eid).
    destruct (sequencer_ok_at (loops w) s s_p (xp_sequencer _ _ _ _ Hex)) as [?|(l & Hl & lp & Hlp)]; [congruence|].
    pose proof (loop_at_line _ _ _ Hl) as [_ Hin]. unfold loop_at in Hl. rewrite Hat in Hl. pose proof Hl as Hload. unfold loop_of in Hload.
    destruct (Z.leb_spec 0 id) as [H0|H0]; [|done]. destruct (Z.ltb_spec id (Z.of_nat (length (loop_store s)))) as [H1|H1]; [|done].
    destruct (load_in (loop_store s) id) as (x & -> & Ex); [lia|]. cbn [rbind]. cbn [andb] in Hload. rewrite Ex in Hload. cbn in Hload. subst x.
    cbn. rewrite Hlp. exists (with_ndata e s_p 0 (first_note lp)), (notes_of l). split; [done|].
    pose proof (xp_chain _ _ _ _ Hex l lp Hin Hlp) as (Hfirst & _). split; [|by destruct Hi; constructor].
    constructor; cbn [with_ndata l_p l_s ndata]; try lia; try done.
    - right. exists l, []. split; [|done]. unfold loop_at. by rewrite Hat.
    - apply list.Forall_forall. intros a Ha. pose proof (xp_range _ _ _ _ Hex l a Hin Ha). lia. }
  cbn [rbind]. destruct (export_notes_run todo0 (size m) s_p e0 started qs Hf0 Hi0) as (e1 & now & later & qs1 & -> & Hf1 & Hi1 & Hnow & Hlater);
    [lia|by eapply follow_length|]. cbn [rbind].
  destruct (export_offs_inv s_p e1 (started ++ now) qs1 Hi1 ltac:(lia)) as (qs2 & Hi2 & G1 & G2 & G3).
  destruct Hf1 as [F1 F2 F3 F4 F5].
  eexists _, later, now, qs2. split; [reflexivity|]. split; [|split; [|done]].
  - assert (i32 (l_p e1 + 1) = l_p e1 + 1) as Hi32 by (apply i32_id; unfold in_i32; lia).
    constructor; cbn [next_line l_p l_s ndata]; rewrite ?G1, ?G2, ?G3, ?Hi32; try done; try lia.
    eapply list.Forall_impl; [exact Hlater|]. cbn. lia.
  - by destruct Hi2; constructor.
Qed.
End Lines.

Lemma reach_spec m : 0 <= reach m /\ forall a n, m !! a = Some n -> note_span n <= reach m.
Proof.
  unfold reach. apply (map_fold_weak_ind (fun z m => 0 <= z /\ forall a n, m !! a = Some n -> note_span n <= z)).
  - split; [lia|]. intros a n H. by rewrite lookup_empty in H.
  - intros a n m' z _ [H0 H]. split; [lia|]. intros b n' E. destruct (decide (a = b)) as [->|Hne].
    + rewrite lookup_insert_eq in E. injection E as ->. lia.
    + rewrite lookup_insert_ne in E by done. specialize (H b n' E). lia.
Qed.

Lemma exported_off m w s notes_of x : exportable m w s notes_of -> exported_from m s notes_of x ->
  off_line x <= Z.of_nat (length (loop_sequence s)) + reach m - 1 /\ off_line x < 2^26.
Proof.
  intros Hex (start & l & a & n & Hl & Ha & En & ->). cbn [off_line]. pose proof (loop_at_line _ _ _ Hl) as [Hline Hin].
  pose proof (proj2 (reach_spec m) a n En). pose proof (xp_range _ _ _ _ Hex l a Hin Ha) as Hr. pose proof (xp_length _ _ _ _ Hex).
  unfold start_of, length_of in Hr. rewrite En in Hr. split; [lia|]. unfold note_span, PAD_TIME_LINE, BITS_PER_LINE in *.
  rewrite Z.shiftr_div_pow2 in * by lia. change (2^4) with 16 in *. pose proof (Z.mul_div_le (on_at n) 16). lia.
Qed.

Lemma last_off_bound started b : -1 <= b -> Forall (fun x => off_line x <= b) started -> last_off started <= b.
Proof. intros Hb. unfold last_off. induction 1 as [|x started Hx _ IH]; cbn; lia. Qed.

Lemma last_off_app l1 l2 : last_off (l1 ++ l2) = Z.max (last_off l1) (last_off l2).
Proof.
  induction l1 as [|x l1 IH]; cbn [app]; [pose proof (last_off_low l2); unfold last_off at 2; cbn; lia|].
  unfold last_off in *. cbn. rewrite IH. lia.
Qed.

Lemma export_lines_run m w s notes_of : exportable m w s notes_of -> forall fuel s_p e todo started qs,
  following m s notes_of s_p e todo -> export_inv s_p e started qs -> Forall (exported_from m s notes_of) started ->
  0 <= s_p <= Z.max (Z.of_nat (length (loop_sequence s))) (last_off started) ->
  Z.of_nat (length (loop_sequence s)) + reach m - s_p <= Z.of_nat fuel ->
  exists e' started' qs', export_lines fuel m w s s_p e = Ok e' /\ Forall (exported_from m s notes_of) started' /\
    export_inv (Z.max (Z.of_nat (length (loop_sequence s))) (last_off started')) e' started' qs'.
Proof.
  intros Hex. pose proof (proj1 (reach_spec m)) as Hr0. pose proof (xp_length _ _ _ _ Hex) as Hlen.
  induction fuel as [|fuel IH]; intros s_p e todo started qs Hf Hi Hst Hsp Hfuel.
  all: assert (last_off started <= Z.of_nat (length (loop_sequence s)) + reach m /\ last_off started < 2^26) as [Hoff Hoff2].
  1, 3: split; [apply last_off_bound; [lia|]|enough (last_off started <= 2^26 - 1) by lia; apply last_off_bound; [lia|]];
    (eapply list.Forall_impl; [exact Hst|]); intros x Hx; destruct (exported_off m w s notes_of x Hex Hx); lia.
  all: cbn [export_lines]; rewrite (ei_high _ _ _ _ Hi).
  all: destruct (Z.ltb_spec s_p (Z.of_nat (length (loop_sequence s)))) as [H1|H1]; destruct (Z.ltb_spec s_p (last_off started)) as [H2|H2]; cbn [orb].
  all: try lia.
  all: try (exists e, started, qs; split; [done|split; [done|]]; by replace (Z.max _ _) with s_p by lia).
  all: destruct (export_line_run m w s notes_of Hex s_p e todo started qs Hf Hi ltac:(lia)) as (e' & later & now & qs' & -> & Hf' & Hi' & Hnow);
    cbn [rbind]; apply (IH (s_p + 1) e' later (started ++ now) qs' Hf' Hi');
    [by apply Forall_app|rewrite last_off_app; lia|lia].
Qed.

(** The export of the lines, from the start. *)
Lemma export_run m w s notes_of : exportable m w s notes_of ->
  exists e started qs, export_lines (export_fuel m s) m w s 0 start_export = Ok e /\ Forall (exported_from m s notes_of) started /\
    export_inv (Z.max (Z.of_nat (length (loop_sequence s))) (last_off started)) e started qs.
Proof.
  intros Hex. pose proof (proj1 (reach_spec m)) as Hr0.
  apply (export_lines_run m w s notes_of Hex _ 0 start_export [] [] []).
  - constructor; try done. by left.
  - exact start_export_inv.
  - constructor.
  - cbn. lia.
  - unfold export_fuel. lia.
Qed.

(** The track a sequence is exported to. The export ends; the notes it begins are notes of
    loops the sequence starts, each at the line its start rounds up to; each is ended once, its
    [length] counted in lines after the line it starts in, except those that are due at the very
    end of the track ([stop]), which are never ended. *)
Theorem exported_track m w s notes_of : exportable m w s notes_of ->
  exists e started, export_lines (export_fuel m s) m w s 0 start_export = Ok e /\
    Forall (exported_from m s notes_of) started /\
    List.filter is_on (track_events 0 (written_ops e)) = map on_event started /\
    let stop := Z.max (Z.of_nat (length (loop_sequence s))) (last_off started) in
    Permutation (List.filter is_off (track_events 0 (written_ops e))) (map off_event (List.filter (fun x => off_line x <? stop) started)).
Proof.
  intros Hex. destruct (export_run m w s notes_of Hex) as (e & started & qs & E & Hst & [H1 _ _ H4 H5 _ _ _ _]).
  exists e, started. rewrite H1, track_quads. by split_and!.
Qed.

(** Exporting a sequence never leaves a buffer or follows a bad pointer: the file gets one more
    chunk, whose content is the name of the track, the messages and the end of the track; it is
    dropped exactly when no note was begun. *)
Theorem export_sequence_chunk name m w s notes_of target : exportable m w s notes_of ->
  exists e c, export_lines (export_fuel m s) m w s 0 start_export = Ok e /\
    export_sequence2midi_file name m w s target = Ok (MidiFile (contained target ++ [c]) (was_finalized target), negb (was_dropped c)) /\
    payload c = concat (map op_bytes (track_name name ++ written_ops e ++ end_of_track)) /\
    chunk_ok c /\ (was_dropped c = true <-> track_events 0 (written_ops e) = []).
Proof.
  intros Hex. destruct (export_run m w s notes_of Hex) as (e & started & qs & E & Hst & [H1 _ _ H4 H5 _ _ _ H9]).
  destruct (run_pushes_spec (track_name name) (new_chunk 77 84 114 107) (new_chunk_ok 77 84 114 107)) as (c1 & E1 & K1 & W1 & D1).
  destruct (run_pushes_spec (written_ops e) c1 K1) as (c2 & E2 & K2 & W2 & D2).
  destruct (run_pushes_spec end_of_track c2 K2) as (c3 & E3 & K3 & W3 & D3).
  exists e, (if dropped e then drop c3 else c3). split; [done|]. unfold export_sequence2midi_file. rewrite E1. cbn [rbind]. rewrite E. cbn [rbind].
  rewrite E2. cbn [rbind]. rewrite E3. cbn [rbind].
  assert (was_dropped (if dropped e then drop c3 else c3) = dropped e) as Hd by (cbn in D1; destruct (dropped e); cbn; [done|congruence]). rewrite Hd.
  split; [done|]. split; [|split].
  - unfold payload. replace (written (if dropped e then drop c3 else c3)) with (written c3) by (by destruct (dropped e)).
    rewrite W3, W2, W1, !map_app, !concat_app, <- !app_assoc. done.
  - by destruct (dropped e).
  - rewrite H9, bool_decide_eq_true, H1, track_quads. split.
    + intros ->. cbn in H4, H5. apply Permutation_sym, Permutation_nil in H5. destruct (events_of 0 qs) as [|ev evs]; [done|].
      cbn in H4, H5. unfold is_off in H5. destruct (is_on ev); cbn in *; done.
    + intros Hnil. rewrite Hnil in H4. symmetry in H4. by apply map_eq_nil in H4.
Qed.

(** ** The whole file *)

Definition track_type : list Z := [77; 84; 114; 107].

Lemma pushed_chunk h0 h1 h2 h3 ops : exists c, rfold run_push (new_chunk h0 h1 h2 h3) ops = Ok c /\ chunk_ok c /\
  payload c = concat (map op_bytes ops) /\ chunk_type c = [h0; h1; h2; h3] /\ was_dropped c = false.
Proof.
  destruct (run_pushes_spec ops (new_chunk h0 h1 h2 h3) (new_chunk_ok h0 h1 h2 h3)) as (c & Hc & Hok & Hw & Hd).
  exists c. split; [done|]. split; [done|]. unfold payload. rewrite Hw. split; [done|]. split; [|done].
  assert (take 4 (written c) = chunk_type c) as <-.
  { unfold written, chunk_type. rewrite take_take. f_equal. destruct Hok as (?&?&?). lia. }
  by rewrite Hw.
Qed.

(** A track of the file: an [MTrk] chunk of a sequence, dropped or not. *)
Definition is_track (c : chunk) : Prop := chunk_ok c /\ chunk_type c = track_type /\ kept c = negb (was_dropped c).

Lemma var_len_some w : var_len_bytes w <> [].
Proof. unfold var_len_bytes. intros H. apply (f_equal length) in H. rewrite !length_app in H. cbn in H. lia. Qed.

Lemma export_sequence_track name m w s notes_of target : exportable m w s notes_of -> exists c,
  export_sequence2midi_file name m w s target = Ok (MidiFile (contained target ++ [c]) (was_finalized target), negb (was_dropped c)) /\ is_track c.
Proof.
  intros Hex. destruct (export_run m w s notes_of Hex) as (e & started & qs & E & _).
  destruct (pushed_chunk 77 84 114 107 (track_name name ++ written_ops e ++ end_of_track)) as (c & Ec & Hok & Hp & Ht & Hd).
  rewrite rfold_app in Ec. destruct (rfold run_push (new_chunk 77 84 114 107) (track_name name)) as [c1|] eqn:E1; [|done]. cbn [rbind] in Ec.
  rewrite rfold_app in Ec. destruct (rfold run_push c1 (written_ops e)) as [c2|] eqn:E2; [|done]. cbn [rbind] in Ec.
  exists (if dropped e then drop c else c). unfold export_sequence2midi_file. rewrite E1. cbn [rbind]. rewrite E. cbn [rbind]. rewrite E2. cbn [rbind].
  rewrite Ec. cbn [rbind]. assert (payload c <> []) as Hne.
  { rewrite Hp. cbn [track_name app map concat op_bytes]. intros H. by apply app_eq_nil in H as [H%var_len_some _]. }
  assert (Nat.eqb (length (payload c)) 0 = false) as Hlen by (destruct (payload c); done).
  destruct (dropped e); cbn [drop was_dropped negb]; rewrite ?Hd; split; try done; split; try done; split; try done.
  - unfold kept. rewrite Hd, Hlen. done.
Qed.

(** [nr] and the tracks that are kept, in 16 bits. *)
Definition count_tracks (tracks : list chunk) (nr : Z) : Z := fold_left (fun nr c => Z.land (nr + if kept c then 1 else 0) 0xffff) tracks nr.

Lemma export_tracks_run name m w : forall ks target nr,
  (forall k, k ∈ ks -> exists s notes_of, the_sequencer w (snd k) = Ok s /\ exportable m w s notes_of) ->
  exists tracks, Forall is_track tracks /\ length tracks = length ks /\
    export_tracks false name m w ks target nr = Ok (MidiFile (contained target ++ tracks) (was_finalized target),
      count_tracks tracks nr).
Proof.
  induction ks as [|k ks IH]; intros target nr Hks; cbn [export_tracks].
  - exists []. rewrite app_nil_r. split; [done|]. split; [done|]. by destruct target.
  - destruct (Hks k ltac:(left)) as (s & notes_of & Es & Hex). rewrite Es. cbn [rbind].
    destruct (export_sequence_track (name (snd k)) m w s notes_of target Hex) as (c & -> & Hc). cbn [rbind].
    destruct (IH (MidiFile (contained target ++ [c]) (was_finalized target)) (Z.land (nr + if kept c then 1 else 0) 0xffff))
      as (tracks & Ht & Hl & E); [intros k' Hk'; apply Hks; by right|].
    exists (c :: tracks). split; [by constructor|]. split; [cbn; lia|]. pose proof Hc as (_ & _ & Hkept). rewrite Hkept in E. rewrite E.
    cbn [contained was_finalized count_tracks fold_left]. by rewrite <- app_assoc, Hkept.
Qed.


(** ** Examples *)

(** The example loop, started at line 0 of a sequence of two lines. *)
Definition ex_track_sequencer : sequencer := Sequencer None [Some 0] 1 [0; NOTE_NOT_SET].
Definition ex_track_world : sequencers := Sequencers 2 [(9, 5)] {[ 5 := ex_track_sequencer ]} {[ 0 := ex_loop ]} 1.

Lemma ex_exportable : exportable ex_notes ex_track_world ex_track_sequencer (fun _ => [1; 2]).
Proof.
  assert (forall l, Some l ∈ [Some 0] -> l = 0) as Hl by (intros l H; apply list_elem_of_singleton in H; by injection H).
  constructor.
  - constructor; cbn [ex_track_sequencer loop_store current_loop loop_sequence ex_track_world loops].
    + cbn. lia.
    + intros l ->%Hl. rewrite lookup_singleton_eq. by eexists.
    + done.
    + rewrite !list.Forall_cons. split; [right; by eexists|]. split; [by left|constructor].
  - cbn. lia.
  - intros l lp ->%Hl E. change (loops ex_track_world) with ({[ 0 := ex_loop ]} : gmap Z loop) in E. rewrite lookup_singleton_eq in E.
    injection E as <-. exact ex_chain.
  - intros l _. exact (play_sorted _ _ _ ex_playable).
  - intros l a _ Ha. apply elem_of_cons in Ha as [->|Ha]; [split; vm_compute; split; discriminate || done|].
    apply list_elem_of_singleton in Ha as ->. split; vm_compute; split; discriminate || done.
Qed.

(** The second note, due at line 4 where the track stops, is not ended. *)
Lemma exported_track_witness : exists e started, export_lines (export_fuel ex_notes ex_track_sequencer) ex_notes ex_track_world ex_track_sequencer 0 start_export = Ok e /\
  Forall (exported_from ex_notes ex_track_sequencer (fun _ => [1; 2])) started /\
  List.filter is_on (track_events 0 (written_ops e)) = map on_event started /\
  let stop := Z.max 2 (last_off started) in
  Permutation (List.filter is_off (track_events 0 (written_ops e))) (map off_event (List.filter (fun x => off_line x <? stop) started)).
Proof. exact (exported_track ex_notes ex_track_world ex_track_sequencer (fun _ => [1; 2]) ex_exportable). Defined.

Definition unended_events (r : result exporting) : list (Z * Z) :=
  match r with Ok e => map (fun v => (ev_time v, ev_status v)) (track_events 0 (written_ops e)) | Err _ => [] end.

Example second_note_never_ends :
  unended_events (export_lines (export_fuel ex_notes ex_track_sequencer) ex_notes ex_track_world ex_track_sequencer 0 start_export) =
    [(0, 0x90); (16, 0x90); (48, 0x80)].
Proof. vm_compute. reflexivity. Qed.

Lemma export_sequence_chunk_witness : exists e c, export_lines (export_fuel ex_notes ex_track_sequencer) ex_notes ex_track_world ex_track_sequencer 0 start_export = Ok e /\
  export_sequence2midi_file [115] ex_notes ex_track_world ex_track_sequencer new_midi_file = Ok (MidiFile [c] false, negb (was_dropped c)) /\
  payload c = concat (map op_bytes (track_name [115] ++ written_ops e ++ end_of_track)) /\
  chunk_ok c /\ (was_dropped c = true <-> track_events 0 (written_ops e) = []).
Proof. exact (export_sequence_chunk [115] ex_notes ex_track_world ex_track_sequencer (fun _ => [1; 2]) new_midi_file ex_exportable). Defined.

