(* ===== verification/SequencerPlay.v ===== *)
(** * A buffer of a sequencer (machine_sequencer.cc)

    [fill_buffers] turns the ticks of the transport that fall into a buffer into MIDI events: at
    each of them the pad, the loop that plays and the controller envelopes queue theirs. *)

From Stdlib Require Import String ZArith Lia List Permutation.
From stdpp Require Import base list gmap numbers option.
From S2P Require Import Prelude StdMap MidiBuilder PadTime ControllerEnvelope Arpeggiator Scales PadSession Pad MachineClock SequencerLoop LoopStore.
Local Open Scope string_scope.
Local Open Scope list_scope.
Local Open Scope Z_scope.
Local Open Scope vk_scope.

(** What the audio thread sees of a sequencer: its members and what they point to. [events] is
    the memory the MIDI events live in. *)
(* @src src_jni/machine_sequencer.hh:276-311 MachineSequencer *)
Record player : Type := Player {
  loop_part : sequencer;
  sequencer_pad : pad;
  controller_envelope : smap string envelope;
  muted : bool;
  meb : builder;
  midi_memory : world;
  heap : note_heap;
  loop_memory : gmap Z loop
}.

Definition with_loop_part (p : player) (s : sequencer) : player :=
  Player s (sequencer_pad p) (controller_envelope p) (muted p) (meb p) (midi_memory p) (heap p) (loop_memory p).
Definition with_pad (p : player) (x : pad) : player :=
  Player (loop_part p) x (controller_envelope p) (muted p) (meb p) (midi_memory p) (heap p) (loop_memory p).
Definition with_envelopes (p : player) (m : smap string envelope) : player :=
  Player (loop_part p) (sequencer_pad p) m (muted p) (meb p) (midi_memory p) (heap p) (loop_memory p).
Definition with_meb (p : player) (w : world) (b : builder) : player :=
  Player (loop_part p) (sequencer_pad p) (controller_envelope p) (muted p) b w (heap p) (loop_memory p).
Definition with_loops (p : player) (h : note_heap) (ls : gmap Z loop) : player :=
  Player (loop_part p) (sequencer_pad p) (controller_envelope p) (muted p) (meb p) (midi_memory p) h ls.

(** ** The calls on the builder, in their order *)

Definition pad_call (w : world) (b : builder) (c : meb_call) : result (world * builder) :=
  match c with
  | NoteOn note velocity => queue_note_on w b note velocity 0
  | NoteOff note velocity => queue_note_off w b note velocity 0
  | Controller controller value => queue_controller w b controller value 0
  | PitchBend lsb msb => queue_pitch_bend w b lsb msb 0
  end.
Definition loop_play_call (w : world) (b : builder) (c : loop_call) : result (world * builder) :=
  match c with
  | LoopNoteOn note velocity channel => queue_note_on w b note velocity channel
  | LoopNoteOff note velocity channel => queue_note_off w b note velocity channel
  end.
Definition envelope_call (w : world) (b : builder) (c : midi_call) : result (world * builder) :=
  match c with
  | QueueController controller value => queue_controller w b controller value 0
  | QueuePitchBend lsb msb => queue_pitch_bend w b lsb msb 0
  end.

Definition send {C} (call : world -> builder -> C -> result (world * builder)) (p : player) (cs : list C) : result player :=
  let! (w, b) := rfold (fun wb c => call (fst wb) (snd wb) c) (midi_memory p, meb p) cs in
  Ok (with_meb p w b).

(** ** A tick *)

Section playing.
Context (scales_here : option scales_object) (garbage : indeterminate).

(* @src src_jni/machine_sequencer.cc:736-736 MachineSequencer::fill_buffers *)
Definition play_pad (loop : machine_loop) (no_sound : bool) (time : Z) (p : player) : result player :=
  let! (x, calls) := Pad.process scales_here garbage loop no_sound time (sequencer_pad p) in
  send pad_call (with_pad p x) calls.

(** The loop that a line starts. *)
(* @src src_jni/machine_sequencer.cc:738-745 MachineSequencer::fill_buffers *)
Definition start_loop (sequence_position : Z) (p : player) : result player :=
  let s := loop_part p in
  let! loop_id := internal_get_loop_id_at s sequence_position in
  if loop_id =? NOTE_NOT_SET then Ok p
  else
    let! l := load (loop_store s) loop_id in
    let p := with_loop_part p (with_loop_playing s l) in
    match a ← l; x ← loop_memory p !! a; Some (a, x) with
    | None => Err (UndefinedBehaviour "dangling or null Loop pointer")
    | Some (a, x) => Ok (with_loops p (heap p) (<[a := start_to_play x]> (loop_memory p)))
    end.

(* @src src_jni/machine_sequencer.cc:747-749 MachineSequencer::fill_buffers *)
Definition play_loop (no_sound : bool) (p : player) : result player :=
  match current_loop (loop_part p) with
  | None => Ok p
  | Some a =>
      match loop_memory p !! a with
      | None => Err (UndefinedBehaviour "dangling Loop pointer")
      | Some x =>
          let! (h, x, calls) := SequencerLoop.process (negb no_sound) (heap p) x in
          send loop_play_call (with_loops p h (<[a := x]> (loop_memory p))) calls
      end
  end.

(** The envelopes in the order of their names; [before] have been processed. *)
(* @src src_jni/machine_sequencer.cc:698-706 MachineSequencer::process_controller_envelopes *)
Fixpoint process_controller_envelopes (tick : Z) (before ks : smap string envelope) (p : player) : result player :=
  match ks with
  | [] => Ok (with_envelopes p before)
  | (name, e) :: ks =>
      let! (calls, e) := process_envelope e tick in
      let! p := send envelope_call p calls in
      process_controller_envelopes tick (before ++ [(name, e)]) ks p
  end.

(* @src src_jni/machine_sequencer.cc:736-751 MachineSequencer::fill_buffers *)
Definition play_tick (loop : machine_loop) (no_sound : bool) (sequence_position current_tick : Z) (p : player) : result player :=
  let time := PAD_TIME sequence_position current_tick in
  let! p := play_pad loop no_sound time p in
  let! p := if current_tick =? 0 then start_loop sequence_position p else Ok p in
  let! p := play_loop no_sound p in
  process_controller_envelopes time [] (controller_envelope p) p.

(** ** A buffer *)

(** [stop] is [loop_stop]; the loop ends when [skip] reaches the end of the buffer. *)
(* @src src_jni/machine_sequencer.cc:734-769 MachineSequencer::fill_buffers *)
Fixpoint fill_ticks (fuel : nat) (loop : machine_loop) (no_sound : bool) (samples_per_tick samples_per_tick_shuffle stop : Z)
    (sequence_position current_tick skip_length : Z) (p : player) : result player :=
  let '(more, b) := skip (meb p) skip_length in
  let p := with_meb p (midi_memory p) b in
  if more then
    match fuel with
    | O => Err OutOfFuel
    | S fuel =>
        let! p := play_tick loop no_sound sequence_position current_tick p in
        let current_tick := c_rem (current_tick + 1) MACHINE_TICKS_PER_LINE in
        let sequence_position :=
          if current_tick =? 0 then
            let next := i32 (sequence_position + 1) in
            if Pad.get_loop_state loop && (stop <=? next) then Pad.get_loop_start loop else next
          else sequence_position in
        let skip_length :=
          if c_rem sequence_position 2 =? 0 then samples_per_tick - samples_per_tick_shuffle
          else samples_per_tick + samples_per_tick_shuffle in
        fill_ticks fuel loop no_sound samples_per_tick samples_per_tick_shuffle stop sequence_position current_tick skip_length p
    end
  else Ok p.

(** What a sequencer asks the transport. *)
Definition transport_loop (t : transport) : machine_loop := MachineLoop (do_loop t) (loop_start t) (MachineClock.get_loop_length t).

(** [output_limit] samples, cleared; the events of the chains are on the heap, so that its size
    bounds the loops of the builder. *)
(* @src src_jni/machine_sequencer.cc:708-772 MachineSequencer::fill_buffers *)
Definition fill_buffers (output_limit : nat) (t : transport) (p : player) : result player :=
  let loop := transport_loop t in
  let stop := i32 (Pad.get_loop_length loop + Pad.get_loop_start loop) in
  let! spt := load (samples_per_tick t) D_MIDI in
  let! sptf := load (samples_per_tick_shuffle t) D_MIDI in
  let! skip_length := load (next_tick_at t) D_MIDI in
  let! (w, b) := use_buffer (S (size (mem (midi_memory p)))) (midi_memory p) (meb p) (cleared output_limit) (Z.of_nat output_limit) in
  let no_sound := if is_playing t then muted p else true in
  let! p := fill_ticks output_limit loop no_sound spt sptf stop (next_sequence_position t) (current_tick t) skip_length (with_meb p w b) in
  let! (w, b) := finish_current_buffer (S (size (mem (midi_memory p)))) (midi_memory p) (meb p) in
  Ok (with_meb p w b).

(* @src src_jni/machine_sequencer.cc:774-777 MachineSequencer::reset *)
Definition reset (p : player) : result player :=
  let! x := reset_pad (sequencer_pad p) in
  Ok (with_pad (with_loop_part p (with_loop_playing (loop_part p) None)) x).
End playing.
