(* ===== verification/SequencerSafe.v ===== *)
(** * A sequencer plays in step with the transport, and safely

    [fill_buffers] never fails on a well-formed sequencer, and plays the ticks that the transport
    counts in the buffer, each at its sample, unless a tick queues more events than there are
    samples to the next one. *)

From Stdlib Require Import String ZArith Lia List Permutation.
From stdpp Require Import base list gmap numbers option.
From S2P Require Import Prelude StdMap DoubleList MidiBuilder PadTime ControllerEnvelope Arpeggiator Scales PadSession Pad PadSafe MachineClock SequencerLoop LoopNotes LoopPlay LoopStore LoopOrder SequencerPlay.
Local Open Scope string_scope.
Local Open Scope list_scope.
Local Open Scope Z_scope.
Local Open Scope vk_scope.

(** ** A loop between two ticks *)

(** What plays and what sounds is on the heap. *)
Record loop_fine (h : note_heap) (x : loop) : Prop := {
  lf_chain : exists ns, notes_chain h (first_note x) ns;
  lf_next : next_note_to_play x = None \/ exists pre post, notes_chain h (first_note x) (pre ++ post) /\ next_note_to_play x = first_of post None;
  lf_slots : length (active_note x) = MAX_ACTIVE_NOTES;
  lf_active : forall a, Some a ∈ active_note x -> is_Some (h !! a)
}.

Lemma same_notes_fine h h' x : same_notes h h' -> loop_fine h x -> loop_fine h' x.
Proof.
  intros HS [[ns H1] H2 H3 H4]. constructor; [exists ns; by eapply playable_here| |done|].
  - destruct H2 as [H2|(pre & post & H2 & E)]; [by left|right]. exists pre, post. split; [by eapply playable_here|done].
  - intros a Ha. apply (same_calls h h' a HS). by apply H4.
Qed.

Lemma activate_in a slots b done slots' : activate_note slots a = (slots', done) -> length slots' = length slots /\ (Some b ∈ slots' -> b = a \/ Some b ∈ slots).
Proof.
  revert slots' done. induction slots as [|[c|] slots IH]; intros slots' d; cbn.
  - intros [= <- <-]. split; [done|by right].
  - destruct (activate_note slots a) as [s d'] eqn:E. intros [= <- <-]. destruct (IH s d' eq_refl) as [Hl Hin].
    split; [cbn; lia|]. rewrite !elem_of_cons. naive_solver.
  - intros [= <- <-]. split; [done|]. rewrite !elem_of_cons. naive_solver.
Qed.

Lemma deactivate_in a slots b : length (deactivate_note slots a) = length slots /\ (Some b ∈ deactivate_note slots a -> Some b ∈ slots).
Proof.
  induction slots as [|s slots [Hl Hin]]; cbn; [done|]. case_bool_decide; cbn; rewrite !elem_of_cons; split; try lia; naive_solver.
Qed.

Lemma note_on_fine sounds post : forall fuel h x pre, notes_chain h (first_note x) (pre ++ post) -> next_note_to_play x = first_of post None ->
  (length post <= fuel)%nat -> loop_fine h x ->
  exists h' x' out, process_note_on fuel sounds h x = Ok (h', x', out) /\ same_notes h h' /\ loop_fine h' x' /\ first_note x' = first_note x.
Proof.
  induction post as [|a post IH]; intros fuel h x pre Hc Hn Hf Hx.
  - exists h, x, []. split; [destruct fuel; cbn; by rewrite Hn|]. split; [apply same_notes_refl|done].
  - pose proof Hc as (_ & _ & HF & Hl). assert (is_Some (h !! a)) as Ha by (by apply Forall_app in HF as [_ [? _]%list.Forall_cons]).
    destruct (at_note_ok h a Ha) as (n & En & An & Hnx & _). apply linked_app in Hl as [_ (_ & Hl & _)]. rewrite Hl in Hnx.
    assert (forall fuel, process_note_on fuel sounds h x = if on_at n =? loop_position x then
      match fuel with
      | O => Err OutOfFuel
      | S fuel =>
            let '(slots, activated) := if sounds then activate_note (active_note x) a else (active_note x, false) in
            let out := if activated : bool then [LoopNoteOn (note n) (velocity n) (channel n)] else [] in
            let h := if activated then <[a := with_ticks2off n (i32 (note_length n + 1))]> h else h in
            let! (h, l, more) := process_note_on fuel sounds h (with_play (with_active x slots) (next n)) in
            Ok (h, l, out ++ more)
      end else Ok (h, x, [])) as Hstep.
    { intros [|k]; cbn [process_note_on]; rewrite Hn; cbn [first_of]; rewrite An; done. }
    rewrite Hstep. destruct (on_at n =? loop_position x); [|exists h, x, []; split; [done|split; [apply same_notes_refl|done]]].
    destruct fuel as [|fuel]; [cbn in Hf; lia|].
    destruct (if sounds then activate_note (active_note x) a else (active_note x, false)) as [slots activated] eqn:Eact.
    cbv zeta. set (h1 := if activated then <[a := with_ticks2off n (i32 (note_length n + 1))]> h else h).
    assert (same_notes h h1) as HS1 by (unfold h1; destruct activated; [by apply same_notes_insert|apply same_notes_refl]).
    set (x1 := with_play (with_active x slots) (next n)).
    assert (next_note_to_play x1 = first_of post None) as Hn1 by (cbn; rewrite Hnx; by destruct post).
    assert (notes_chain h1 (first_note x1) ((pre ++ [a]) ++ post)) as Hc1 by (rewrite <- app_assoc; by eapply playable_here).
    assert (loop_fine h1 x1) as Hx1.
    { destruct Hx as [[ns H1] _ H3 H4].
      assert (length slots = length (active_note x) /\ forall b, Some b ∈ slots -> b = a \/ Some b ∈ active_note x) as [Hl1 Hin1].
      { destruct sounds; [|injection Eact as <- <-; split; [done|by right]].
        split; [by apply (activate_in a (active_note x) a activated slots)|]. intros b. by apply (activate_in a (active_note x) b activated slots). }
      constructor; [exists ns; by eapply playable_here|right; exists (pre ++ [a]), post; by split|cbn; lia|].
      intros b [->|Hb]%Hin1; apply (same_calls h h1 _ HS1); [done|by apply H4]. }
    destruct (IH fuel h1 x1 (pre ++ [a]) Hc1 Hn1 ltac:(cbn in Hf; lia) Hx1) as (h' & x' & out & E & HS & Hx' & Hfn).
    rewrite E. cbn [rbind]. do 3 eexists. split; [reflexivity|]. split; [by eapply same_notes_trans|]. by split.
Qed.

Lemma note_off_fine todo : forall k h x, (k + todo = length (active_note x))%nat -> loop_fine h x ->
  exists h' x' out, note_off_from todo k h x = Ok (h', x', out) /\ same_notes h h' /\ loop_fine h' x' /\ first_note x' = first_note x.
Proof.
  induction todo as [|todo IH]; intros k h x Hk Hx; cbn [note_off_from].
  - exists h, x, []. split; [done|]. split; [apply same_notes_refl|done].
  - destruct (load_in (active_note x) (Z.of_nat k)) as (s & -> & Es); [lia|]. cbn [rbind]. destruct s as [a|]; [|apply IH; [lia|done]].
    assert (is_Some (h !! a)) as Ha by (apply (lf_active _ _ Hx); by eapply list_elem_of_lookup_2).
    destruct (at_note_ok h a Ha) as (n & En & -> & _). cbn [rbind]. destruct (0 <? ticks2off n).
    + assert (same_notes h (<[a := with_ticks2off n (ticks2off n - 1)]> h)) as HS by (by apply same_notes_insert).
      destruct (IH (S k) _ x ltac:(lia) (same_notes_fine _ _ _ HS Hx)) as (h' & x' & out & E & HS' & Hx' & Hfn).
      exists h', x', out. split; [exact E|]. split; [by eapply same_notes_trans|done].
    + destruct Hx as [H1 H2 H3 H4]. set (x1 := with_active x (deactivate_note (active_note x) a)).
      assert (loop_fine h x1) as Hx1.
      { constructor; [done|done|cbn; rewrite (proj1 (deactivate_in a _ a)); done|]. intros b Hb. apply H4. by apply (proj2 (deactivate_in a (active_note x) b)). }
      destruct (IH (S k) h x1) as (h' & x' & out & E & HS' & Hx' & Hfn); [cbn; rewrite (proj1 (deactivate_in a _ a)); lia|done|].
      rewrite E. cbn [rbind]. do 3 eexists. split; [reflexivity|]. by split.
Qed.

Lemma process_fine sounds h x : loop_fine h x -> exists h' x' out, SequencerLoop.process sounds h x = Ok (h', x', out) /\
  same_notes h h' /\ loop_fine h' x'.
Proof.
  intros Hx. unfold SequencerLoop.process.
  assert (exists h' x' out, process_note_on (size h) sounds h x = Ok (h', x', out) /\ same_notes h h' /\ loop_fine h' x') as (h1 & x1 & out1 & -> & HS1 & Hx1).
  { destruct (lf_next _ _ Hx) as [Hn|(pre & post & Hc & Hn)].
    - exists h, x, []. split; [destruct (size h); cbn; by rewrite Hn|]. split; [apply same_notes_refl|done].
    - pose proof (notes_chain_size _ _ _ Hc) as Hsize. rewrite length_app in Hsize.
      destruct (note_on_fine sounds post (size h) h x pre Hc Hn ltac:(lia) Hx) as (h' & x' & out & E & HS & Hx' & _). by exists h', x', out. }
  cbn [rbind]. unfold process_note_off.
  destruct (note_off_fine MAX_ACTIVE_NOTES 0 h1 x1) as (h2 & x2 & out2 & -> & HS2 & Hx2 & _); [by rewrite (lf_slots _ _ Hx1)|done|]. cbn [rbind].
  do 3 eexists. split; [reflexivity|]. split; [by eapply same_notes_trans|]. destruct Hx2 as [G1 G2 G3 G4]. by constructor.
Qed.

(** ** The builder *)

Definition builder_good (w : world) (b : builder) : Prop := exists fr rem fb, builder_inv w b fr rem fb.

(** Queueing an event does not move the array, nor the count of the samples skipped. *)
Definition same_array (b b' : builder) : Prop :=
  buffer_size b' = buffer_size b /\ buffer_p_last_skip b' = buffer_p_last_skip b /\ buffer_position b <= buffer_position b'.

Lemma same_array_trans b1 b2 b3 : same_array b1 b2 -> same_array b2 b3 -> same_array b1 b3.
Proof. unfold same_array. intuition; try congruence; lia. Qed.

Lemma queue_event_array w b status b1 b2 w' b' : queue_event w b status b1 b2 = Ok (w', b') -> same_array b b'.
Proof.
  unfold queue_event, chain_event. destruct (pop_next_free_midi w 3) as [[mev w1]|]; cbn [rbind]; [|done].
  destruct (set_data (mem w1) mev _) as [m|]; cbn [rbind]; [|done]. unfold same_array. destruct (buffer_size b <=? buffer_position b).
  - destruct (chain_to_tail _ _ _) as [[m' q]|]; cbn [rbind]; [|done]. intros [= <- <-]. cbn. lia.
  - unfold buffer_put. destruct (buffer b); cbn [rbind]; [|done]. destruct (store _ _ _); cbn [rbind]; [|done].
    destruct (chain_to_tail _ _ _) as [[m' q]|]; cbn [rbind]; [|done]. intros [= <- <-]. cbn. lia.
Qed.

Class QueuesEvents {C} (call : world -> builder -> C -> result (world * builder)) : Prop :=
  queues_event : forall w b c, exists status b1 b2, call w b c = queue_event w b status b1 b2.

#[local] Instance pad_call_queues : QueuesEvents pad_call.
Proof. intros w b [n v|n v|c v|l m]; do 3 eexists; reflexivity. Qed.
#[local] Instance loop_call_queues : QueuesEvents loop_play_call.
Proof. intros w b [n v c|n v c]; do 3 eexists; reflexivity. Qed.
#[local] Instance envelope_call_queues : QueuesEvents envelope_call.
Proof. intros w b [c v|l m]; do 3 eexists; reflexivity. Qed.

Lemma send_keeps {C} call `{!QueuesEvents call} (cs : list C) p p' : send call p cs = Ok p' ->
  p' = with_meb p (midi_memory p') (meb p') /\ same_array (meb p) (meb p').
Proof.
  unfold send. destruct (rfold _ _ cs) as [[w b]|] eqn:Hm; cbn [rbind]; [|done]. intros [= <-]. split; [done|]. cbn.
  revert Hm. generalize (midi_memory p), (meb p). induction cs as [|c cs IH]; intros w0 b0 Hm; cbn [rfold] in Hm.
  - injection Hm as <- <-. unfold same_array. lia.
  - cbn [fst snd] in Hm. destruct (call w0 b0 c) as [[w1 b1]|] eqn:Ec; cbn [rbind] in Hm; [|done].
    destruct (queues_event w0 b0 c) as (s & x & y & Eq). rewrite Eq in Ec. apply queue_event_array in Ec.
    eapply same_array_trans; [exact Ec|by eapply IH].
Qed.

Lemma send_good {C} call `{!QueuesEvents call} (cs : list C) p : builder_good (midi_memory p) (meb p) ->
  exists p', send call p cs = Ok p' /\ builder_good (midi_memory p') (meb p').
Proof.
  intros Hg. unfold send.
  assert (exists w b, rfold (fun wb c => call (fst wb) (snd wb) c) (midi_memory p, meb p) cs = Ok (w, b) /\ builder_good w b) as (w & b & -> & Hg').
  { revert Hg. generalize (midi_memory p), (meb p). induction cs as [|c cs IH]; intros w0 b0 Hg; cbn [rfold]; [by exists w0, b0|].
    cbn [fst snd]. destruct (queues_event w0 b0 c) as (s & x & y & ->). destruct Hg as (fr & rem & fb & Hg).
    destruct (queue_event_spec w0 b0 fr rem fb s x y Hg) as (w1 & b1 & fr' & rem' & fb' & -> & Hg' & _). cbn [rbind]. apply IH. by exists fr', rem', fb'. }
  cbn [rbind]. eexists. split; [reflexivity|]. exact Hg'.
Qed.

(** ** A tick is safe *)

(** An envelope that plays nothing: disabled, or without points. *)
Definition idle (e : envelope) : Prop := negb (enabled e) || (Nat.eqb (length (control_point e)) 0) = true.

Section safe.
Context (scales_here : option scales_object) (garbage : indeterminate) (Hgarbage : garbage_sized garbage).

Record player_fine (p : player) : Prop := {
  pf_pad : pad_inv scales_here (sequencer_pad p);
  pf_loops : sequencer_ok (loop_memory p) (loop_part p);
  pf_fine : forall a x, loop_memory p !! a = Some x -> loop_fine (heap p) x;
  pf_envelopes : Forall (fun e => idle (snd e)) (controller_envelope p);
  pf_builder : builder_good (midi_memory p) (meb p)
}.

Lemma send_fine {C} call `{!QueuesEvents call} (cs : list C) p : player_fine p -> exists p', send call p cs = Ok p' /\ player_fine p'.
Proof.
  intros [H1 H2 H3 H4 H5]. destruct (send_good call cs p H5) as (p' & E & Hg). exists p'. split; [done|].
  apply (send_keeps call) in E as [E _]. rewrite E. by constructor.
Qed.

Lemma play_pad_fine loop no_sound time p : player_fine p -> exists p', play_pad scales_here garbage loop no_sound time p = Ok p' /\ player_fine p'.
Proof.
  intros [H1 H2 H3 H4 H5]. unfold play_pad.
  destruct (do_op_ok scales_here garbage Hgarbage _ (Process loop no_sound time) H1 I) as (x & Ex & Hx). cbn [do_op] in Ex.
  destruct (Pad.process scales_here garbage loop no_sound time (sequencer_pad p)) as [[x' calls]|]; [|done]. cbn [rbind] in *. injection Ex as ->.
  apply (send_fine pad_call). by constructor.
Qed.

Lemma put_loop_fine p h a x : (forall b y, loop_memory p !! b = Some y -> loop_fine (heap p) y) -> same_notes (heap p) h -> loop_fine h x ->
  sequencer_ok (loop_memory p) (loop_part p) -> sequencer_ok (<[a := x]> (loop_memory p)) (loop_part p) /\
  forall b y, <[a := x]> (loop_memory p) !! b = Some y -> loop_fine h y.
Proof.
  intros H3 HS Hx H2.
  assert (forall l, is_Some (loop_memory p !! l) -> is_Some (<[a := x]> (loop_memory p) !! l)) as Hkeep.
  { intros l Hl. destruct (decide (l = a)) as [->|Hne]; [rewrite lookup_insert_eq; by eexists|by rewrite lookup_insert_ne by congruence]. }
  split.
  - destruct H2 as [G1 G2 G3 G4]. constructor; [done|intros l Hl; by apply Hkeep, G2|intros l Hl; by apply Hkeep, G3|done].
  - intros b y. destruct (decide (b = a)) as [->|Hne]; [rewrite lookup_insert_eq; by intros [= <-]|].
    rewrite lookup_insert_ne by congruence. intros Hy. eapply same_notes_fine; [done|]. by eapply H3.
Qed.

Lemma start_loop_fine position p : player_fine p -> exists p', start_loop position p = Ok p' /\ player_fine p'.
Proof.
  intros Hp. pose proof Hp as [H1 H2 H3 H4 H5]. unfold start_loop. rewrite get_id_at. cbn [rbind].
  destruct (Z.eqb_spec (id_at (loop_part p) position) NOTE_NOT_SET) as [He|Hne]; [by exists p|].
  destruct (sequencer_ok_at _ _ position H2) as [?|(l & Hl & x & Ex)]; [done|].
  unfold loop_at, loop_of in Hl. destruct ((0 <=? _) && _) eqn:Eb; [|done]. apply andb_prop in Eb as [E0 E1]. zbool.
  destruct (load_in (loop_store (loop_part p)) (id_at (loop_part p) position)) as (y & -> & Ey); [lia|]. cbn [rbind].
  rewrite Ey in Hl. cbn in Hl. subst y. cbn. rewrite Ex. cbn. eexists. split; [reflexivity|].
  assert (loop_fine (heap p) (start_to_play x)) as Hx.
  { destruct (H3 l x Ex) as [[ns Hc] _ G3 G4]. constructor; cbn; [by exists ns| |done|done].
    right. exists [], ns. split; [done|]. by destruct Hc as (-> & _). }
  assert (sequencer_ok (loop_memory p) (with_loop_playing (loop_part p) (Some l))) as H2'.
  { destruct H2 as [G1 G2 G3 G4]. constructor; try done. cbn. intros l' [= <-]. by eexists. }
  destruct (put_loop_fine (with_loop_part p (with_loop_playing (loop_part p) (Some l))) (heap p) l (start_to_play x) H3 (same_notes_refl _) Hx H2') as [K1 K2].
  by constructor.
Qed.

Lemma play_loop_fine no_sound p : player_fine p -> exists p', play_loop no_sound p = Ok p' /\ player_fine p'.
Proof.
  intros Hp. pose proof Hp as [H1 H2 H3 H4 H5]. unfold play_loop. destruct (current_loop (loop_part p)) as [a|] eqn:Ea; [|by exists p].
  destruct (so_current _ _ H2 a Ea) as [x Ex]. rewrite Ex.
  destruct (process_fine (negb no_sound) (heap p) x (H3 a x Ex)) as (h & x' & calls & -> & HS & Hx'). cbn [rbind].
  apply (send_fine loop_play_call). destruct (put_loop_fine p h a x' H3 HS Hx' H2). by constructor.
Qed.

Lemma idle_process e t : idle e -> process_envelope e t = Ok ([], e).
Proof. unfold idle, process_envelope. by intros ->. Qed.

Lemma process_envelopes_fine tick ks : forall before p, player_fine p -> Forall (fun e => idle (snd e)) ks -> Forall (fun e => idle (snd e)) before ->
  exists p', process_controller_envelopes tick before ks p = Ok p' /\ player_fine p'.
Proof.
  induction ks as [|[name e] ks IH]; intros before p Hp Hks Hb; cbn [process_controller_envelopes].
  - eexists. split; [reflexivity|]. destruct Hp. by constructor.
  - apply list.Forall_cons in Hks as [He Hks]. rewrite idle_process by done. cbn [rbind].
    destruct (send_fine envelope_call [] p Hp) as (p1 & -> & Hp1). cbn [rbind]. apply IH; [done|done|].
    apply Forall_app. split; [done|]. by apply list.Forall_singleton.
Qed.

Lemma play_tick_fine loop no_sound position tick p : player_fine p ->
  exists p', play_tick scales_here garbage loop no_sound position tick p = Ok p' /\ player_fine p'.
Proof.
  intros Hp. unfold play_tick. destruct (play_pad_fine loop no_sound (PAD_TIME position tick) p Hp) as (p1 & -> & Hp1). cbn [rbind].
  assert (exists p2, (if tick =? 0 then start_loop position p1 else Ok p1) = Ok p2 /\ player_fine p2) as (p2 & -> & Hp2)
    by (destruct (tick =? 0); [by apply start_loop_fine|by exists p1]). cbn [rbind].
  destruct (play_loop_fine no_sound p2 Hp2) as (p3 & -> & Hp3). cbn [rbind].
  apply process_envelopes_fine; [done|apply Hp3|constructor].
Qed.

(** ** The ticks of a buffer *)

Lemma envelopes_array tick ks : forall before p p', process_controller_envelopes tick before ks p = Ok p' -> same_array (meb p) (meb p').
Proof.
  induction ks as [|[name e] ks IH]; intros before p p'; cbn [process_controller_envelopes].
  - intros [= <-]. unfold same_array. cbn. lia.
  - destruct (process_envelope e tick) as [[calls e']|]; cbn [rbind]; [|done].
    destruct (send envelope_call p calls) as [p1|] eqn:E; cbn [rbind]; [|done].
    apply (send_keeps envelope_call) in E as [_ E]. intros H. eapply same_array_trans; [exact E|by eapply IH].
Qed.

Lemma play_tick_array loop no_sound position tick p p' : play_tick scales_here garbage loop no_sound position tick p = Ok p' ->
  same_array (meb p) (meb p').
Proof.
  unfold play_tick. destruct (play_pad _ _ _ _ _ p) as [p1|] eqn:E1; cbn [rbind]; [|done].
  destruct (if tick =? 0 then start_loop position p1 else Ok p1) as [p2|] eqn:E2; cbn [rbind]; [|done].
  destruct (play_loop no_sound p2) as [p3|] eqn:E3; cbn [rbind]; [|done]. intros E4%envelopes_array.
  assert (same_array (meb p) (meb p1)) as H1.
  { unfold play_pad in E1. destruct (Pad.process _ _ _ _ _ _) as [[x calls]|]; cbn [rbind] in E1; [|done].
    by apply (send_keeps pad_call) in E1 as [_ E1]. }
  assert (meb p2 = meb p1) as H2.
  { destruct (tick =? 0); [|by injection E2 as ->]. unfold start_loop in E2. rewrite get_id_at in E2. cbn [rbind] in E2.
    destruct (_ =? _); [by injection E2 as ->|]. destruct (load _ _) as [[l|]|]; cbn in E2; [|done|done].
    destruct (loop_memory p1 !! l); cbn in E2; [by injection E2 as <-|done]. }
  assert (same_array (meb p2) (meb p3)) as H3.
  { unfold play_loop in E3. destruct (current_loop (loop_part p2)) as [a|]; [|injection E3 as ->; unfold same_array; lia].
    destruct (loop_memory p2 !! a) as [x|]; [|done]. destruct (SequencerLoop.process _ _ _) as [[[h x'] calls]|]; cbn [rbind] in E3; [|done].
    by apply (send_keeps loop_play_call) in E3 as [_ E3]. }
  rewrite H2 in H3. eapply same_array_trans; [exact H1|]. by eapply same_array_trans.
Qed.

(** The builder at sample [n] of its array. *)
Definition at_sample (p : player) (n : Z) : player :=
  with_meb p (midi_memory p) (Builder (buffer (meb p)) (buffer_size (meb p)) n n (remaining_midi_chain (meb p)) (freeable_midi_chain (meb p))).

Section run.
Context (no_sound : bool) (n spt sptf : Z).

(** The ticks that the transport [t], whose next tick is at sample [nta], counts up to sample [n],
    played each at its line, tick and sample; no tick queues more events than there are samples
    to the next. *)
Inductive in_step : Z -> transport -> player -> transport -> Z -> player -> Prop :=
| step_end nta t p : n <= nta -> in_step nta t p t nta (at_sample p nta)
| step_tick nta t p p1 t1 c t2 nta2 p2 : nta < n ->
    play_tick scales_here garbage (transport_loop t) no_sound (next_sequence_position t) (current_tick t) (at_sample p nta) = Ok p1 ->
    midi_tick t = (t1, c) -> buffer_position (meb p1) <= nta + step_of spt sptf t1 ->
    in_step (nta + step_of spt sptf t1) t1 p1 t2 nta2 p2 -> in_step nta t p t2 nta2 p2.

(** At some tick of the buffer there are more events than samples to the next tick. *)
Inductive crowded : Z -> transport -> player -> Prop :=
| crowded_here nta t p p1 t1 c : nta < n ->
    play_tick scales_here garbage (transport_loop t) no_sound (next_sequence_position t) (current_tick t) (at_sample p nta) = Ok p1 ->
    midi_tick t = (t1, c) -> nta + step_of spt sptf t1 < buffer_position (meb p1) -> crowded nta t p
| crowded_later nta t p p1 t1 c : nta < n ->
    play_tick scales_here garbage (transport_loop t) no_sound (next_sequence_position t) (current_tick t) (at_sample p nta) = Ok p1 ->
    midi_tick t = (t1, c) -> buffer_position (meb p1) <= nta + step_of spt sptf t1 ->
    crowded (nta + step_of spt sptf t1) t1 p1 -> crowded nta t p.

Lemma in_step_clock nta t p t2 nta2 p2 : in_step nta t p t2 nta2 p2 -> exists out, midi_run n spt sptf nta t t2 nta2 out.
Proof.
  induction 1 as [nta t p H|nta t p p1 t1 c t2 nta2 p2 H Et Em Hr Hrun [out IH]]; [exists []; by constructor|].
  exists (c ++ out). by econstructor.
Qed.

Lemma transport_loop_tick t t1 c : midi_tick t = (t1, c) -> transport_loop t1 = transport_loop t.
Proof. unfold midi_tick, transport_loop. case_if; intros [= <- _]; done. Qed.

Hypothesis Hsteps : steps_ok spt sptf.
Hypothesis Hn : n < 2^30.

Lemma fill_ticks_step fuel : forall nta t p p' skip_length stop, stop = loop_stop t ->
  fill_ticks scales_here garbage fuel (transport_loop t) no_sound spt sptf stop (next_sequence_position t) (current_tick t) skip_length p = Ok p' ->
  buffer_size (meb p) = n -> buffer_p_last_skip (meb p) + skip_length = nta -> buffer_position (meb p) <= nta -> 0 <= nta < 2^30 + 2^30 ->
  crowded nta t p \/ exists t2 nta2, in_step nta t p t2 nta2 p'.
Proof.
  induction fuel as [|fuel IH]; intros nta t p p' skip_length stop Hstop E Hsize Hnta Hpos Hb.
  all: assert (skip (meb p) skip_length = (nta <? n, meb (at_sample p nta))) as Eskip by
    (unfold skip; rewrite Hnta, Hsize, i32_id by (unfold in_i32; lia); cbn [at_sample meb with_meb];
     assert ((if buffer_position (meb p) <? nta then nta else buffer_position (meb p)) = nta) as -> by (case_if; zbool; lia);
     by rewrite Hsize).
  all: cbn [fill_ticks] in E; rewrite Eskip in E; change (with_meb p (midi_memory p) (meb (at_sample p nta))) with (at_sample p nta) in E.
  all: destruct (Z.ltb_spec nta n) as [Hlt|Hge]; [|injection E as <-; right; exists t, nta; by constructor].
  - done.
  - destruct (play_tick _ _ _ _ _ _ (at_sample p nta)) as [p1|] eqn:Ep; cbn [rbind] in E; [|done].
    pose proof (play_tick_array _ _ _ _ _ _ Ep) as (A1 & A2 & A3). cbn [at_sample meb with_meb buffer_size buffer_p_last_skip buffer_position] in A1, A2, A3.
    destruct (midi_tick t) as [t1 c] eqn:Em. pose proof (step_of_bounds spt sptf t1 Hsteps) as Hstep.
    destruct (Z.leb_spec (buffer_position (meb p1)) (nta + step_of spt sptf t1)) as [Hroom|Hcrowd]; [|left; by econstructor].
    pose proof (transport_loop_tick t t1 c Em) as Hloop.
    assert (fill_ticks scales_here garbage fuel (transport_loop t1) no_sound spt sptf stop (next_sequence_position t1) (current_tick t1) (step_of spt sptf t1) p1 = Ok p') as E'.
    { rewrite Hloop, <- E. unfold midi_tick in Em. unfold step_of, is_even. cbn [transport_loop Pad.get_loop_state Pad.get_loop_start].
      rewrite Hstop. destruct (c_rem (current_tick t + 1) MACHINE_TICKS_PER_LINE =? 0); injection Em as <- _; cbn [with_position next_sequence_position current_tick]; done. }
    destruct (IH (nta + step_of spt sptf t1) t1 p1 p' (step_of spt sptf t1) stop) as [Hc|(t2 & nta2 & Hin)]; try done; try lia.
    + rewrite Hstop. unfold midi_tick in Em. by destruct (c_rem _ _ =? 0); injection Em as <- _.
    + left. by eapply crowded_later.
    + right. exists t2, nta2. by econstructor.
Qed.
End run.

(** ** Whole buffers *)

Lemma fill_ticks_fine loop no_sound spt sptf stop n : steps_ok spt sptf -> n < 2^30 -> forall fuel position tick skip_length p,
  player_fine p -> buffer_size (meb p) = n -> 0 <= buffer_p_last_skip (meb p) + skip_length < 2^31 ->
  n - (buffer_p_last_skip (meb p) + skip_length) <= Z.of_nat fuel ->
  exists p', fill_ticks scales_here garbage fuel loop no_sound spt sptf stop position tick skip_length p = Ok p' /\ player_fine p'.
Proof.
  intros Hsteps Hn. induction fuel as [|fuel IH]; intros position tick skip_length p Hp Hsize H0 Hfuel.
  all: cbn [fill_ticks]; destruct (skip (meb p) skip_length) as [more b] eqn:Es.
  all: assert (player_fine (with_meb p (midi_memory p) b)) as Hp1 by
    (destruct Hp as [P1 P2 P3 P4 (fr & rem & fb & Hg)]; constructor; try done; exists fr, rem, fb; apply (skip_inv _ _ skip_length) in Hg; by rewrite Es in Hg).
  all: unfold skip in Es; rewrite i32_id in Es by (unfold in_i32; lia).
  all: assert (more = true -> buffer_p_last_skip (meb p) + skip_length < n) as Hmore by
    (injection Es as <- _; rewrite Hsize; destruct (Z.ltb_spec (buffer_position (meb p)) (buffer_p_last_skip (meb p) + skip_length)); intros ?; zbool; lia).
  all: assert (buffer_size b = n /\ buffer_p_last_skip b = buffer_p_last_skip (meb p) + skip_length) as [B1 B2] by (by injection Es as _ <-).
  all: destruct more; [specialize (Hmore eq_refl)|by eexists].
  - lia.
  - destruct (play_tick_fine loop no_sound position tick _ Hp1) as (p1 & Et & Hf). rewrite Et. cbn [rbind].
    apply play_tick_array in Et as (A1 & A2 & _). cbn [with_meb meb] in A1, A2.
    pose proof Hsteps as (S1 & S2 & S3).
    apply IH; [done|congruence| |]; rewrite A2, B2; match goal with |- context [if ?c then spt - sptf else _] => destruct c end; lia.
Qed.

(** Between two buffers: no array is in use. *)
Record rested (p : player) : Prop := {
  re_fine : player_fine p;
  re_buffer : exists fr rem, builder_inv (midi_memory p) (meb p) fr rem []
}.

Lemma builder_chain_bound w b fr rem fb : builder_inv w b fr rem fb -> (length rem <= size (mem w))%nat /\ (length fb <= size (mem w))%nat.
Proof.
  intros [[Hok _] _]. pose proof (MidiBuilder.ok_nodup _ _ _ _ _ Hok) as Hnd.
  assert (forall l : list positive, NoDup l -> (forall x, x ∈ l -> is_Some (mem w !! x)) -> (length l <= size (mem w))%nat) as H.
  { intros l Hl Hd. rewrite <- (size_list_to_set (C:=gset positive) l Hl), <- (size_dom (mem w)). apply subseteq_size.
    intros x Hx%elem_of_list_to_set. by apply elem_of_dom, Hd. }
  apply list.NoDup_app in Hnd as (_ & _ & Hnd). apply list.NoDup_app in Hnd as (N1 & _ & N2).
  split; apply H; try done; intros x Hx; eapply ok_dom_others; try exact Hok; apply elem_of_app; tauto.
Qed.

Record buffer_clock (limit : nat) (t : transport) (nta spt sptf : Z) : Prop := {
  bc_clock : midi_clock t nta spt sptf;
  bc_steps : steps_ok spt sptf;
  bc_next : 0 <= nta < 2^30;
  bc_limit : Z.of_nat limit < 2^30
}.

Definition started (limit : nat) (p : player) : result player :=
  let! (w, b) := use_buffer (S (size (mem (midi_memory p)))) (midi_memory p) (meb p) (cleared limit) (Z.of_nat limit) in Ok (with_meb p w b).

Definition silenced (t : transport) (p : player) : bool := if is_playing t then muted p else true.

Lemma fill_buffers_run limit t nta spt sptf p : rested p -> buffer_clock limit t nta spt sptf ->
  exists p0 p1 p2, started limit p = Ok p0 /\ buffer_size (meb p0) = Z.of_nat limit /\ buffer_p_last_skip (meb p0) = 0 /\
    (remaining_midi_chain (meb p) = None -> buffer_position (meb p0) = 0) /\
    fill_ticks scales_here garbage limit (transport_loop t) (silenced t p) spt sptf
      (i32 (MachineClock.get_loop_length t + loop_start t)) (next_sequence_position t) (current_tick t) nta p0 = Ok p1 /\
    fill_buffers scales_here garbage limit t p = Ok p2 /\ p2 = with_meb p1 (midi_memory p2) (meb p2) /\ rested p2.
Proof.
  intros [[P1 P2 P3 P4 P5] (fr & rem & Hg)] [[C1 C2 C3] Hsteps Hnta Hlimit].
  pose proof (builder_chain_bound _ _ _ _ _ Hg) as [Hb _]. pose proof Hg as [[Hok _] _].
  destruct (use_buffer_spec (S (size (mem (midi_memory p)))) (midi_memory p) (meb p) limit fr rem Hok ltac:(lia))
    as (w & b & rem' & fb' & Eu & Hg' & _ & _ & _).
  assert (buffer_size b = Z.of_nat limit /\ buffer_p_last_skip b = 0 /\ (remaining_midi_chain (meb p) = None -> buffer_position b = 0)) as (B1 & B2 & B3).
  { unfold use_buffer in Eu.
    assert (forall fuel w1 b1 w2 b2, process_remaining_chain fuel w1 b1 = Ok (w2, b2) -> buffer_size b2 = buffer_size b1 /\
      buffer_p_last_skip b2 = buffer_p_last_skip b1 /\ (remaining_midi_chain b1 = None -> b2 = b1)) as H.
    { clear. induction fuel as [|fuel IH]; intros w1 b1 w2 b2; cbn [process_remaining_chain]; [done|].
      destruct (_ && _) eqn:Ec; [|by intros [= <- <-]]. destruct (get_chain_head _ _) as [[[mev m] q]|]; cbn [rbind]; [|done].
      destruct (buffer_put _ _) as [b3|] eqn:E3; cbn [rbind]; [|done]. destruct (chain_to_tail _ _ _) as [[m' q']|]; cbn [rbind]; [|done].
      intros (I1 & I2 & _)%IH. unfold buffer_put in E3. cbn in E3. destruct (buffer b1); [|done]. destruct (store _ _ _); [|done]. injection E3 as <-.
      split; [done|]. split; [done|]. intros Hr. rewrite Hr in Ec. apply andb_prop in Ec as [_ Ec]. apply bool_decide_eq_true in Ec. by destruct Ec. }
    destruct (H _ _ _ _ _ Eu) as (I1 & I2 & I3). cbn in I1, I2, I3. split; [done|]. split; [done|]. intros Hr. by rewrite (I3 Hr). }
  assert (player_fine (with_meb p w b)) as Hp0 by (constructor; try done; by exists fr, rem', fb').
  destruct (fill_ticks_fine (transport_loop t) (silenced t p) spt sptf (i32 (MachineClock.get_loop_length t + loop_start t)) (Z.of_nat limit) Hsteps Hlimit
    limit (next_sequence_position t) (current_tick t) nta (with_meb p w b)) as (p1 & Ef & Hp1); [done|done|cbn; lia|cbn; lia|].
  destruct Hp1 as [Q1 Q2 Q3 Q4 (fr1 & rem1 & fb1 & Hg1)]. pose proof (builder_chain_bound _ _ _ _ _ Hg1) as [_ Hb1].
  destruct (finish_spec (S (size (mem (midi_memory p1)))) (midi_memory p1) (meb p1) fr1 rem1 fb1 Hg1 ltac:(lia)) as (w2 & b2 & fr2 & Ee & Hg2 & _).
  exists (with_meb p w b), p1, (with_meb p1 w2 b2). unfold started. rewrite Eu. cbn [rbind]. split; [done|]. split; [done|]. split; [done|]. split; [done|].
  split; [exact Ef|]. split; [|split; [done|]].
  - unfold fill_buffers. rewrite C2, C3, C1. cbn [rbind]. rewrite Eu. cbn [rbind].
    change (if is_playing t then muted p else true) with (silenced t p).
    change (i32 (Pad.get_loop_length (transport_loop t) + Pad.get_loop_start (transport_loop t))) with (i32 (MachineClock.get_loop_length t + loop_start t)).
    rewrite Ef. cbn [rbind]. by rewrite Ee.
  - split; [|by exists fr2, rem1]. constructor; try done. by exists fr2, rem1, [].
Qed.

(** C19: [fill_buffers] is safe: on a sequencer whose sequence names existing loops, whose pad and
    loops are well-formed and whose envelopes have nothing to play, it always fills its buffer
    (with fuel for one tick per sample), follows no bad pointer, stays in its arrays, and leaves
    the sequencer well-formed, buffer after buffer. *)
Theorem fill_buffers_safe limit t nta spt sptf p : rested p -> buffer_clock limit t nta spt sptf ->
  exists p', fill_buffers scales_here garbage limit t p = Ok p' /\ rested p'.
Proof. intros H1 H2. destruct (fill_buffers_run limit t nta spt sptf p H1 H2) as (p0 & p1 & p2 & _ & _ & _ & _ & _ & E & _ & Hr). by exists p2. Qed.

End safe.

(** ** Examples *)

(** The example loop at line 0, an empty pad, no envelope, a new builder. *)
Definition ex_player : player :=
  Player (Sequencer None [Some 0] 1 [0; NOTE_NOT_SET]) (new_pad (repeat 0 21)) [] false (new_builder None 0 1 0) start_world LoopNotes.ex_notes {[ 0 := LoopNotes.ex_loop ]}.

Lemma ex_garbage_sized : garbage_sized ex_garbage.
Proof. by split. Qed.

Lemma ex_rested : rested None ex_player.
Proof.
  assert (builder_inv start_world (new_builder None 0 1 0) [] [] []) as Hb by (split; [split; [apply start_chains|by split]|done]).
  assert (forall a x, ({[ 0 := LoopNotes.ex_loop ]} : gmap Z loop) !! a = Some x -> a = 0 /\ x = LoopNotes.ex_loop) as Hl
    by (intros a x Hx; by apply lookup_singleton_Some in Hx as [<- <-]).
  split; [|by exists [], []]. constructor.
  - apply new_pad_inv. by split.
  - constructor; cbn [ex_player loop_part loop_memory loop_store current_loop loop_sequence].
    + cbn. lia.
    + intros l Hin. apply list_elem_of_singleton in Hin. injection Hin as ->. rewrite lookup_singleton_eq. by eexists.
    + done.
    + rewrite !list.Forall_cons. split; [right; by eexists|]. split; [by left|constructor].
  - intros a x Hx. apply Hl in Hx as [_ ->]. constructor; [by exists [1; 2]; exact ex_chain|by left|done|].
    intros a' Ha'. change (active_note LoopNotes.ex_loop) with (repeat (@None Z) 16) in Ha'. by apply list_elem_of_In, repeat_spec in Ha'.
  - constructor.
  - by exists [], [], [].
Qed.

Lemma ex_clock : buffer_clock 1024 ticking 0 344 43.
Proof. constructor; [constructor; vm_compute; reflexivity|unfold steps_ok; lia|lia|lia]. Qed.

Lemma fill_buffers_safe_witness : exists p', fill_buffers None ex_garbage 1024 ticking ex_player = Ok p' /\ rested None p'.
Proof. exact (fill_buffers_safe None ex_garbage ex_garbage_sized 1024 ticking 0 344 43 ex_player ex_rested ex_clock). Defined.

