(* ===== verification/LoopXml.v ===== *)
(** * Saving and loading the loops of a sequencer (machine_sequencer.cc)

    The elements [get_descriptive_xml] writes for the loops and the sequence, with their
    attributes as the XML parser delivers them, and the constructors that read them; a file with
    more than sixteen loops writes past the store they allocate. *)

From Stdlib Require Import String ZArith Lia List Permutation.
From stdpp Require Import base list gmap numbers option.
From S2P Require Import Prelude PadTime SequencerLoop LoopStore.
Local Open Scope string_scope.
Local Open Scope list_scope.
Local Open Scope Z_scope.
Local Open Scope vk_scope.

Record note_xml : Type := NoteXml {
  nx_channel : option Z; nx_program : option Z; nx_velocity : option Z; nx_note : option Z;
  nx_on : option Z; nx_on_tick : option Z; nx_length : option Z
}.
Record loop_xml : Type := LoopXml { lx_id : option Z; lx_notes : list note_xml }.

(** The [loop] elements, and the [pos] and [id] of the [entry] elements of [sequence]. *)
Record sequencer_xml : Type := SequencerXml { sx_loops : list loop_xml; sx_entries : list (option Z * option Z) }.

(** ** Writing *)

(* @src src_jni/machine_sequencer.cc:153-165 MachineSequencer::Loop::get_loop_xml *)
Fixpoint notes_xml (fuel : nat) (h : note_heap) (crnt : option Z) : result (list note_xml) :=
  match crnt with
  | None => Ok []
  | Some a =>
      match fuel with
      | O => Err OutOfFuel
      | S fuel =>
          let! n := at_note h a in
          let! rest := notes_xml fuel h (next n) in
          Ok (NoteXml (Some (channel n)) (Some (program n)) (Some (velocity n)) (Some (note n)) None (Some (on_at n)) (Some (note_length n)) :: rest)
      end
  end.

(* @src src_jni/machine_sequencer.cc:148-168 MachineSequencer::Loop::get_loop_xml *)
Definition get_loop_xml (h : note_heap) (l : loop) (id : Z) : result loop_xml :=
  let! ns := notes_xml (size h) h (first_note l) in Ok (LoopXml (Some id) ns).

(** The store from the id [k] on. *)
(* @src src_jni/machine_sequencer.cc:612-620 MachineSequencer::get_loops_xml *)
Fixpoint get_loops_xml (h : note_heap) (ls : gmap Z loop) (k : Z) (st : list (option Z)) : result (list loop_xml) :=
  match st with
  | [] => Ok []
  | None :: st => get_loops_xml h ls (k + 1) st
  | Some a :: st =>
      match ls !! a with
      | None => Err (UndefinedBehaviour "dangling Loop pointer")
      | Some l =>
          let! x := get_loop_xml h l k in
          let! xs := get_loops_xml h ls (k + 1) st in
          Ok (x :: xs)
      end
  end.

(** The sequence from the line [k] on; the test of the position never fails. *)
(* @src src_jni/machine_sequencer.cc:622-633 MachineSequencer::get_loop_sequence_xml *)
Fixpoint get_loop_sequence_xml (k : Z) (sequence : list Z) : list (option Z * option Z) :=
  match sequence with
  | [] => []
  | loopid :: sequence =>
      let rest := get_loop_sequence_xml (k + 1) sequence in
      if loopid =? NOTE_NOT_SET then rest else (Some k, Some loopid) :: rest
  end.

(* @src src_jni/machine_sequencer.cc:508-509 MachineSequencer::get_descriptive_xml *)
Definition get_sequencer_xml (h : note_heap) (ls : gmap Z loop) (s : sequencer) : result sequencer_xml :=
  let! xs := get_loops_xml h ls 0 (loop_store s) in
  Ok (SequencerXml xs (get_loop_sequence_xml 0 (loop_sequence s))).

(** ** Reading *)

(** The note of an element; [on] is the line of projects before interface level 6. *)
(* @src src_jni/machine_sequencer.cc:109-128 MachineSequencer::Loop::Loop *)
Definition read_note (x : note_xml) : note_entry :=
  let line := default (-1) (nx_on x) in
  let tick := default 0 (nx_on_tick x) in
  let length := default (-1) (nx_length x) in
  let '(on, len) := if negb (line =? -1) then (PAD_TIME line tick, PAD_TIME length 0) else (tick, length) in
  NoteEntry (u8 (default 0 (nx_channel x))) (u8 (default 0 (nx_program x))) (u8 (default 127 (nx_velocity x)))
    (u8 (default 0 (nx_note x))) on len None None 0.

(* @src src_jni/machine_sequencer.cc:109-132 MachineSequencer::Loop::Loop *)
Definition read_into (ml : note_memory * loop) (x : note_xml) : result (note_memory * loop) :=
  let '(m, l) := ml in
  let n := read_note x in
  if 0 <=? note_length n then
    let (m, a) := new_entry m (copy_note n) in
    let! (h, l) := internal_insert_note (notes m) l a in
    Ok (with_notes m h, l)
  else Ok (m, l).

(** [position] is what the constructor leaves in [loop_position]. *)
(* @src src_jni/machine_sequencer.cc:92-134 MachineSequencer::Loop::Loop *)
Definition new_loop_xml (position : Z) (m : note_memory) (xs : list note_xml) : result (note_memory * loop) :=
  rfold read_into (m, new_loop position) xs.

(* @src src_jni/machine_sequencer.cc:1264-1272 MachineSequencer::MachineSequencer *)
Definition max_loop_id (xs : list loop_xml) : Z :=
  fold_left (fun z x => let loop_id := default (-1) (lx_id x) in if z <? loop_id then loop_id else z) xs (-1).

(** One loop element: the loops, the notes and the store. *)
Record loading : Type := Loading {
  ld_notes : note_memory;
  ld_loops : gmap Z loop;
  ld_next : Z;
  ld_store : list (option Z);
  ld_last : Z
}.

(* @src src_jni/machine_sequencer.cc:1284-1297 MachineSequencer::MachineSequencer *)
Definition load_loop (position : Z) (d : loading) (x : loop_xml) : result loading :=
  let loop_id := default (-1) (lx_id x) in
  if negb (loop_id =? -1) then
    let! (m, l) := new_loop_xml position (ld_notes d) (lx_notes x) in
    let a := ld_next d in
    let! st := store (ld_store d) loop_id (Some a) in
    Ok (Loading m (<[a := l]> (ld_loops d)) (a + 1) st (if ld_last d <? loop_id then loop_id else ld_last d))
  else Ok d.

(* @src src_jni/machine_sequencer.cc:1319-1326 MachineSequencer::MachineSequencer *)
Definition load_entry (this : Z) (w : sequencers) (x : option Z * option Z) : result sequencers :=
  let pos := default (-1) (fst x) in
  let id := default (-1) (snd x) in
  if negb (pos =? -1) && negb (id =? -1) then
    match internal_set_loop_id_at w this pos id with
    | (w, Ok _) => Ok w
    | (_, Err e) => Err e
    end
  else Ok w.

(** The part of the constructor that reads loops and sequence; the pad and the envelopes are
    read by their own code. *)
(* @src src_jni/machine_sequencer.cc:1257-1326 MachineSequencer::MachineSequencer *)
Definition new_sequencer_xml (position : Z) (m : note_memory) (w : sequencers) (this : Z) (x : sequencer_xml) : result (note_memory * sequencers) :=
  let max_loop_id := max_loop_id (sx_loops x) in
  let loop_store_size := if max_loop_id <? INITIAL_SEQUENCE_LENGTH then INITIAL_SEQUENCE_LENGTH else max_loop_id in
  let! d := rfold (load_loop position) (Loading m (loops w) (next_loop w) (repeat None (Z.to_nat loop_store_size)) 0) (sx_loops x) in
  let s := Sequencer None (ld_store d) (i32 (ld_last d + 1)) [] in
  let w := Sequencers (sequence_length w) (machine2sequencer w)
    (<[this := prep_empty_loop_sequence (sequence_length w) s]> (sequencer_at w)) (ld_loops d) (ld_next d) in
  let! w := rfold (load_entry this) w (sx_entries x) in
  Ok (ld_notes d, w).

(** ** More than sixteen loops *)

(** The highest id among those seen and [z]. *)
Notation highest xs z := (fold_left (fun z x => if z <? default (-1) (lx_id x) then default (-1) (lx_id x) else z) xs z).

Lemma max_id_reached xs : forall z, -1 <= z -> highest xs z = z \/ exists x, x ∈ xs /\ lx_id x = Some (highest xs z).
Proof.
  induction xs as [|x xs IH]; intros z Hz; cbn [fold_left]; [by left|].
  match goal with |- context [fold_left _ xs ?t] => set (z1 := t) end.
  assert (-1 <= z1 /\ (z1 = z \/ lx_id x = Some z1)) as [H3 H4].
  { unfold z1. destruct (lx_id x) as [i|]; cbn [default from_option id]; [destruct (Z.ltb_spec z i)|destruct (Z.ltb_spec z (-1))];
      (split; [lia|]); (by left) || (by right) || lia. }
  destruct (IH z1 H3) as [H2|(y & Hy & E)].
  - rewrite H2. destruct H4 as [H4|H4]; [by left|right]. exists x. split; [left|done].
  - right. exists y. split; [by right|done].
Qed.

Lemma load_past_end position x : forall xs d, x ∈ xs -> lx_id x = Some (Z.of_nat (length (ld_store d))) -> is_ok (rfold (load_loop position) d xs) = false.
Proof.
  induction xs as [|y xs IH]; intros d Hin Hid; [by apply not_elem_of_nil in Hin|]. cbn [rfold].
  destruct (load_loop position d y) as [d1|] eqn:E; [|done]. cbn [rbind]. apply elem_of_cons in Hin as [<-|Hin].
  - exfalso. unfold load_loop in E. rewrite Hid in E. cbn [default from_option id] in E. rewrite (proj2 (Z.eqb_neq _ (-1))) in E by lia. cbn [negb] in E.
    destruct (new_loop_xml _ _ _) as [[m l]|]; cbn [rbind] in E; [|done]. unfold store in E.
    rewrite (proj2 (Z.ltb_ge _ _)) in E by lia. rewrite andb_false_r in E. done.
  - apply IH; [done|]. rewrite Hid. do 2 f_equal. unfold load_loop in E. destruct (negb _); [|by injection E as ->].
    destruct (new_loop_xml _ _ _) as [[m l]|]; cbn [rbind] in E; [|done].
    destruct (store (ld_store d) _ _) as [st|] eqn:Es; cbn [rbind] in E; [|done]. injection E as <-. apply store_ok_inv in Es as [_ ->].
    cbn. by rewrite length_insert.
Qed.

(** C39: A project with more than sixteen loops in a sequencer cannot be loaded: the store is
    allocated with as many places as the highest id, one too few, and the loop with that id is
    written past its end. *)
Theorem seventeen_loops_do_not_load position m w this x : INITIAL_SEQUENCE_LENGTH <= max_loop_id (sx_loops x) ->
  is_ok (new_sequencer_xml position m w this x) = false.
Proof.
  intros H. unfold new_sequencer_xml. rewrite (proj2 (Z.ltb_ge _ _)) by done.
  assert (max_loop_id (sx_loops x) = -1 \/ exists y, y ∈ sx_loops x /\ lx_id y = Some (max_loop_id (sx_loops x))) as [Hmax|(y & Hy & Hid)]
    by exact (max_id_reached (sx_loops x) (-1) ltac:(done)).
  - unfold INITIAL_SEQUENCE_LENGTH in H. lia.
  - pose proof (load_past_end position y (sx_loops x) (Loading m (loops w) (next_loop w) (repeat None (Z.to_nat (max_loop_id (sx_loops x)))) 0) Hy) as Hp.
    cbn [ld_store] in Hp. rewrite repeat_length, Z2Nat.id in Hp by (unfold INITIAL_SEQUENCE_LENGTH in H; lia). specialize (Hp Hid).
    destruct (rfold _ _ _); done.
Qed.

Lemma seventeen_loops_do_not_load_witness :
  16 <= max_loop_id [LoopXml (Some 0) []; LoopXml (Some 16) []] /\
  is_ok (new_sequencer_xml 0 (NoteMemory ∅ 0) (Sequencers 16 [] ∅ ∅ 0) 5 (SequencerXml [LoopXml (Some 0) []; LoopXml (Some 16) []] [])) = false.
Proof.
  split; [by vm_compute|]. apply (seventeen_loops_do_not_load 0 (NoteMemory ∅ 0) (Sequencers 16 [] ∅ ∅ 0) 5 (SequencerXml [LoopXml (Some 0) []; LoopXml (Some 16) []] [])).
  by vm_compute.
Defined.
