(* ===== verification/LoopXmlTrip.v ===== *)
(** * A saved sequencer loads as it was

    The loops and the sequence of a sequencer come back from the XML with their notes, as long
    as the store has not grown past its first sixteen places. *)

From Stdlib Require Import String ZArith Lia List Permutation.
From stdpp Require Import base list gmap numbers option.
From S2P Require Import Prelude DoubleList PadTime SequencerLoop LoopNotes LoopStore LoopOrder LoopXml.
Local Open Scope string_scope.
Local Open Scope list_scope.
Local Open Scope Z_scope.
Local Open Scope vk_scope.

(** ** Insertion touches the list only *)

Definition only (h h' : note_heap) (l : list Z) : Prop := forall b, b ∉ l -> h' !! b = h !! b.

Lemma put_next_only h a x h' l : put_next h a x = Ok h' -> a ∈ l -> only h h' l.
Proof.
  unfold put_next. destruct (at_note h a); cbn [rbind]; [|done]. intros [= <-] Ha b Hb. apply lookup_insert_ne. by intros ->.
Qed.

Lemma put_prev_only h a x h' l : put_prev h a x = Ok h' -> a ∈ l -> only h h' l.
Proof.
  unfold put_prev. destruct (at_note h a); cbn [rbind]; [|done]. intros [= <-] Ha b Hb. apply lookup_insert_ne. by intros ->.
Qed.

Lemma only_trans h1 h2 h3 l : only h1 h2 l -> only h2 h3 l -> only h1 h3 l.
Proof. intros H1 H2 b Hb. rewrite H2, H1; done. Qed.

(** The links of the notes of [l] stay in [l]. *)
Definition closed (h : note_heap) (l : list Z) : Prop :=
  forall a n, a ∈ l -> h !! a = Some n -> (forall p, prev n = Some p -> p ∈ l) /\ (forall x, next n = Some x -> x ∈ l).

Lemma insert_from_only l a : a ∉ l -> forall fuel h head crnt h' head', closed h l -> crnt ∈ l ->
  insert_from fuel h head a crnt = Ok (h', head') -> only h h' (a :: l).
Proof.
  intros Ha. induction fuel as [|fuel IH]; intros h head crnt h' head' Hcl Hc; cbn [insert_from]; [done|].
  destruct (at_note h crnt) as [c|] eqn:Ec; cbn [rbind]; [|done]. destruct (at_note h a) as [n|]; cbn [rbind]; [|done].
  assert (h !! crnt = Some c) as Ec' by (unfold at_note in Ec; destruct (h !! crnt); [by injection Ec as ->|done]).
  destruct (Hcl crnt c Hc Ec') as [Hp Hx]. assert (a ∈ a :: l) as Hal by left. assert (crnt ∈ a :: l) as Hcl' by by right.
  destruct (on_at n <? on_at c).
  - destruct (put_prev h a (prev c)) as [h1|] eqn:E1; cbn [rbind]; [|done]. pose proof (put_prev_only _ _ _ _ (a :: l) E1 Hal) as O1.
    destruct (put_next h1 a (Some crnt)) as [h2|] eqn:E2; cbn [rbind]; [|done]. pose proof (put_next_only _ _ _ _ (a :: l) E2 Hal) as O2.
    assert (at_note h2 crnt = Ok c) as ->.
    { assert (crnt ∉ [a]) as Hne by (intros ->%list_elem_of_singleton; done). unfold at_note.
      rewrite (put_next_only _ _ _ _ [a] E2 ltac:(left) crnt Hne), (put_prev_only _ _ _ _ [a] E1 ltac:(left) crnt Hne). by rewrite Ec'. }
    cbn [rbind]. destruct (match prev c with Some p => _ | None => _ end) as [[h3 hd]|] eqn:E3; cbn [rbind]; [|done].
    destruct (put_prev h3 crnt (Some a)) as [h4|] eqn:E4; cbn [rbind]; [|done]. intros [= <- _].
    pose proof (put_prev_only _ _ _ _ (a :: l) E4 Hcl') as O4.
    assert (only h2 h3 (a :: l)) as O3.
    { destruct (prev c) as [p|]; [|by injection E3 as <- _]. destruct (put_next h2 p (Some a)) as [h5|] eqn:E5; cbn [rbind] in E3; [|done].
      injection E3 as <- _. apply (put_next_only _ _ _ _ _ E5). right. by apply Hp. }
    eapply only_trans; [exact O1|]. eapply only_trans; [exact O2|]. by eapply only_trans.
  - destruct (next c) as [x|]; [intros H; eapply IH; [exact Hcl|by apply Hx|exact H]|].
    destruct (put_next h crnt (Some a)) as [h1|] eqn:E1; cbn [rbind]; [|done].
    destruct (put_prev h1 a (Some crnt)) as [h2|] eqn:E2; cbn [rbind]; [|done].
    destruct (put_next h2 a None) as [h3|] eqn:E3; cbn [rbind]; [|done]. intros [= <- _].
    eapply only_trans; [by eapply put_next_only|]. eapply only_trans; [by eapply put_prev_only|by eapply put_next_only].
Qed.

Lemma chain_closed h head l : notes_chain h head l -> closed h l.
Proof.
  intros (_ & _ & _ & Hl) a n Ha En. apply list_elem_of_split in Ha as (l1 & l2 & ->). apply linked_app in Hl as [_ (Hp & Hx & _)].
  unfold prev_f, next_f in *. rewrite En in *. cbn in Hp, Hx. split.
  - intros p E. rewrite Hp in E. apply last_of_in in E as [?|E]; [done|]. apply elem_of_app. by left.
  - intros x E. rewrite Hx in E. destruct l2 as [|y l2]; [done|]. injection E as <-. apply elem_of_app. right. right. left.
Qed.

Lemma insert_note_only h l ns a h' l' : notes_chain h (first_note l) ns -> a ∉ ns -> internal_insert_note h l a = Ok (h', l') -> only h h' (a :: ns).
Proof.
  intros Hc Ha. unfold internal_insert_note. destruct (first_note l) as [crnt|] eqn:Ef.
  - destruct (insert_from _ _ _ _ _) as [[h1 head]|] eqn:E; cbn [rbind]; [|done]. intros [= <- _].
    eapply insert_from_only; [exact Ha|by eapply chain_closed| |exact E]. destruct Hc as (Hf & _). destruct ns; [done|]. injection Hf as ->. left.
  - destruct (put_next h a None) as [h1|] eqn:E1; cbn [rbind]; [|done]. destruct (put_prev h1 a None) as [h2|] eqn:E2; cbn [rbind]; [|done].
    intros [= <- _]. eapply only_trans; [eapply put_next_only; [exact E1|left]|eapply put_prev_only; [exact E2|left]].
Qed.

(** ** The notes of one loop *)

(** A note without its links and counter. *)
Definition content (n : note_entry) : note_entry := with_ticks2off (with_links n None None) 0.

(** The list at [head] has the notes [es]. *)
Definition has_notes (h : note_heap) (head : option Z) (ns : list Z) (es : list note_entry) : Prop :=
  notes_chain h head ns /\ Forall2 (fun a e => content <$> h !! a = Some e) ns es.

Lemma has_notes_links h h' head ns es : has_notes h head ns es -> links_only h h' -> forall a e, content <$> h !! a = Some e -> content <$> h' !! a = Some e.
Proof.
  intros _ HL a e E. specialize (HL a). destruct (h !! a) as [n|]; [|done]. destruct HL as (p & x & ->). cbn in *. by injection E as <-.
Qed.

Lemma has_notes_only h h' head ns es l : only h h' l -> (forall a, a ∈ ns -> a ∉ l) -> has_notes h head ns es -> has_notes h' head ns es.
Proof.
  intros Ho Hd ((Hh & Hnd & HF & Hl) & H2). split; [split_and!; [done|done| |]|].
  - apply list.Forall_forall. intros a Ha. rewrite Ho by (by apply Hd). by apply (proj1 (list.Forall_forall _ _) HF).
  - eapply linked_ext; [|exact Hl]. intros a Ha. unfold next_f, prev_f. by rewrite Ho by (by apply Hd).
  - clear Hh Hnd HF Hl. induction H2 as [|a e ns es H _ IH]; constructor; [rewrite Ho by (apply Hd; left); done|].
    apply IH. intros b Hb. apply Hd. by right.
Qed.

(** What can be saved: fields in their range, and a length. *)
Definition savable (e : note_entry) : Prop :=
  0 <= channel e < 16 /\ 0 <= program e < 128 /\ 0 <= velocity e < 128 /\ 0 <= note e < 128 /\ 0 <= note_length e.

Definition xml_of (e : note_entry) : note_xml :=
  NoteXml (Some (channel e)) (Some (program e)) (Some (velocity e)) (Some (note e)) None (Some (on_at e)) (Some (note_length e)).

Lemma read_back e : savable e -> copy_note (read_note (xml_of e)) = content e /\ note_length (read_note (xml_of e)) = note_length e.
Proof.
  intros (H1 & H2 & H3 & H4 & H5). split; [|done]. unfold copy_note, set_to, read_note, xml_of, content. cbn -[Z.land u8].
  rewrite !u8_id by (unfold in_u8; lia). change 0x0f with (Z.ones 4). change 0x7f with (Z.ones 7). rewrite !Z.land_ones by lia.
  by rewrite !Z.mod_small by (cbn; lia).
Qed.

Lemma notes_xml_spec h ns es : forall fuel b, linked (next_f h) (prev_f h) b ns None -> Forall2 (fun a e => content <$> h !! a = Some e) ns es ->
  (length ns <= fuel)%nat -> notes_xml fuel h (first_of ns None) = Ok (map xml_of es).
Proof.
  intros fuel b Hl H2. revert fuel b Hl. induction H2 as [|a e ns es H _ IH]; intros fuel b Hl Hf; [by destruct fuel|].
  destruct fuel as [|fuel]; [cbn in Hf; lia|]. cbn [notes_xml first_of]. destruct (h !! a) as [n|] eqn:En; [|done].
  unfold at_note. rewrite En. cbn [rbind]. destruct Hl as (_ & Hx & Hl). unfold next_f in Hx. rewrite En in Hx. cbn in Hx.
  assert (next n = first_of ns None) as -> by (rewrite Hx; by destruct ns).
  rewrite (IH fuel (Some a) Hl) by (cbn in Hf; lia). cbn [rbind map]. cbn in H. injection H as <-. done.
Qed.

(** Memory with nothing at addresses that were not handed out. *)
Definition memory_fresh (m : note_memory) : Prop := forall b, next_address m <= b -> notes m !! b = None.

Lemma read_into_spec m l ns es e : has_notes (notes m) (first_note l) ns es -> memory_fresh m -> savable e ->
  Forall (fun x => on_at x <= on_at e) es ->
  exists m' l', read_into (m, l) (xml_of e) = Ok (m', l') /\ has_notes (notes m') (first_note l') (ns ++ [next_address m]) (es ++ [content e]) /\
    memory_fresh m' /\ next_address m' = next_address m + 1 /\ only (notes m) (notes m') (next_address m :: ns).
Proof.
  intros [Hc H2] Hfresh He Hle. destruct (read_back e He) as [Hcopy Hlen]. unfold read_into. rewrite Hlen.
  destruct He as (_ & _ & _ & _ & He). rewrite (proj2 (Z.leb_le 0 _)) by done. cbn [new_entry].
  set (a := next_address m). set (h := <[a := copy_note (read_note (xml_of e))]> (notes m)).
  assert (a ∉ ns) as Ha.
  { intros Hin. destruct Hc as (_ & _ & HF & _). apply (proj1 (list.Forall_forall _ _) HF) in Hin as [n En]. rewrite Hfresh in En by (unfold a; lia). done. }
  assert (only (notes m) h [a]) as Ho1 by (intros b Hb; apply lookup_insert_ne; intros ->; apply Hb; left).
  destruct (has_notes_only (notes m) h (first_note l) ns es [a] Ho1) as [Hc1 H21]; [intros b Hb ->%list_elem_of_singleton; done|by split|].
  destruct (insert_note_spec h l ns a Hc1) as (h' & E & HL & Hc'); [unfold h; rewrite lookup_insert_eq; by eexists|done|].
  cbn [notes with_notes]. rewrite E. cbn [rbind]. pose proof (insert_note_only h l ns a h' _ Hc1 Ha E) as Ho2.
  assert (start_of h a = on_at e) as Hsa by (unfold start_of, h; rewrite lookup_insert_eq, Hcopy; done).
  assert (ordered_insert (start_of h) a ns = ns ++ [a]) as Hend.
  { apply ordered_insert_end. rewrite Hsa. clear - H21 Hle. induction H21 as [|b x ns es H _ IH]; [constructor|].
    apply list.Forall_cons in Hle as [Hx Hle]. constructor; [|by apply IH]. unfold start_of. destruct (h !! b); [|done]. cbn in H. injection H as <-. exact Hx. }
  rewrite Hend in *. do 2 eexists. split; [reflexivity|]. cbn [with_notes notes next_address first_note with_first].
  split; [|split; [|split; [done|]]].
  - split; [exact Hc'|]. apply Forall2_app.
    + eapply Forall2_impl; [|exact H21]. intros b x. by apply (has_notes_links h h' (first_note l) ns es).
    + constructor; [|constructor]. apply (has_notes_links h h' (first_note l) ns es); [by split|done|].
      unfold h. rewrite lookup_insert_eq, Hcopy. done.
  - intros b Hb. cbn in Hb. assert (b ∉ a :: ns) as Hnot.
    { intros [->|Hin]%elem_of_cons; [unfold a in Hb; lia|]. destruct Hc as (_ & _ & HF & _).
      apply (proj1 (list.Forall_forall _ _) HF) in Hin as [n En]. rewrite Hfresh in En by lia. done. }
    cbn [notes with_notes]. rewrite (Ho2 b Hnot). unfold h. rewrite lookup_insert_ne by (intros <-; apply Hnot; left). apply Hfresh. lia.
  - intros b Hb. cbn [notes with_notes]. rewrite (Ho2 b Hb). unfold h. apply lookup_insert_ne. intros <-. apply Hb. left.
Qed.

Lemma content_idem e : content (content e) = content e.
Proof. done. Qed.

Lemma has_notes_content h head ns es : has_notes h head ns es -> Forall (fun e => content e = e) es.
Proof.
  intros [_ H]. induction H as [|a e ns es H _ IH]; constructor; [|done]. destruct (h !! a); [|done]. cbn in H. by injection H as <-.
Qed.

Lemma read_notes es2 : forall m l ns es1, has_notes (notes m) (first_note l) ns es1 -> memory_fresh m -> Forall savable es2 ->
  Forall (fun e => content e = e) es2 -> sorted_by on_at (es1 ++ es2) ->
  exists m' l' ns', rfold read_into (m, l) (map xml_of es2) = Ok (m', l') /\ has_notes (notes m') (first_note l') ns' (es1 ++ es2) /\
    memory_fresh m' /\ next_address m <= next_address m' /\
    (forall b, b < next_address m -> b ∉ ns -> notes m' !! b = notes m !! b).
Proof.
  induction es2 as [|e es2 IH]; intros m l ns es1 Hn Hf Hs Hco Hsort; cbn [map rfold].
  - exists m, l, ns. rewrite app_nil_r. by split_and!; try lia.
  - apply list.Forall_cons in Hs as [He Hs]. apply list.Forall_cons in Hco as [Hce Hco].
    destruct (read_into_spec m l ns es1 e Hn Hf He) as (m1 & l1 & -> & Hn1 & Hf1 & Hnext & Ho).
    { apply sorted_by_app in Hsort as (_ & _ & H). apply list.Forall_forall. intros x Hx. apply H; [done|left]. }
    cbn [rbind]. rewrite Hce in Hn1.
    destruct (IH m1 l1 (ns ++ [next_address m]) (es1 ++ [e]) Hn1 Hf1 Hs Hco) as (m' & l' & ns' & -> & Hn' & Hf' & Hle & Hkeep);
      [by rewrite <- app_assoc|]. rewrite <- app_assoc in Hn'. exists m', l', ns'. split; [done|]. split; [exact Hn'|]. split; [done|].
    split; [lia|]. intros b Hb Hbn. rewrite Hkeep; [|lia|].
    + apply Ho. intros [->|?]%elem_of_cons; [lia|done].
    + intros [?| ->%list_elem_of_singleton]%elem_of_app; [done|lia].
Qed.

(** ** The loops of the store *)

(** The loop at [a] has the notes [es]. *)
Definition loop_notes (h : note_heap) (ls : gmap Z loop) (a : Z) (es : list note_entry) : Prop :=
  exists lp ns, ls !! a = Some lp /\ has_notes h (first_note lp) ns es.

Definition can_save (h : note_heap) (ls : gmap Z loop) (a : Z) : Prop :=
  exists es, loop_notes h ls a es /\ Forall savable es /\ sorted_by on_at es.

Record loading_fresh (d : loading) : Prop := {
  lo_notes : memory_fresh (ld_notes d);
  lo_loops : forall l, ld_next d <= l -> ld_loops d !! l = None
}.

(** Later loops leave what was loaded alone. *)
Record extends (d d' : loading) : Prop := {
  xt_address : next_address (ld_notes d) <= next_address (ld_notes d');
  xt_next : ld_next d <= ld_next d';
  xt_notes : forall b, b < next_address (ld_notes d) -> notes (ld_notes d') !! b = notes (ld_notes d) !! b;
  xt_loops : forall l, l < ld_next d -> ld_loops d' !! l = ld_loops d !! l
}.

Lemma extends_refl d : extends d d.
Proof. constructor; (done || lia). Qed.

Lemma extends_trans d1 d2 d3 : extends d1 d2 -> extends d2 d3 -> extends d1 d3.
Proof.
  intros [A1 A2 A3 A4] [B1 B2 B3 B4]. constructor; [lia|lia| |].
  - intros b Hb. rewrite B3, A3; (done || lia).
  - intros l Hl. rewrite B4, A4; (done || lia).
Qed.

Lemma extends_notes d d' a es : loading_fresh d -> extends d d' -> loop_notes (notes (ld_notes d)) (ld_loops d) a es ->
  loop_notes (notes (ld_notes d')) (ld_loops d') a es.
Proof.
  intros [F1 F2] [X1 X2 X3 X4] (lp & ns & El & Hn). exists lp, ns. split.
  - rewrite X4; [done|]. destruct (Z.lt_decidable a (ld_next d)) as [?|Hge]; [done|]. rewrite F2 in El by lia. done.
  - pose proof Hn as ((_ & _ & HF & _) & _).
    destruct Hn as ((Hh & Hnd & HF' & Hl) & H2).
    assert (forall b, b ∈ ns -> notes (ld_notes d') !! b = notes (ld_notes d) !! b) as Hsame.
    { intros b Hb. apply X3. apply (proj1 (list.Forall_forall _ _) HF) in Hb as [n En].
      destruct (Z.lt_decidable b (next_address (ld_notes d))) as [?|Hge]; [done|]. rewrite F1 in En by lia. done. }
    split; [split_and!; [done|done| |]|].
    + apply list.Forall_forall. intros b Hb. rewrite Hsame by done. by apply (proj1 (list.Forall_forall _ _) HF).
    + eapply linked_ext; [|exact Hl]. intros b Hb. unfold next_f, prev_f. by rewrite Hsame by done.
    + clear -H2 Hsame. induction H2 as [|b e ns es H _ IH]; constructor; [rewrite Hsame by left; done|]. apply IH. intros c Hc. apply Hsame. by right.
Qed.

(** A place of the store and the place it is loaded into. *)
Definition same_slot (h : note_heap) (ls : gmap Z loop) (d : loading) (x x' : option Z) : Prop :=
  match x, x' with
  | None, None => True
  | Some a, Some a' => exists es, loop_notes h ls a es /\ loop_notes (notes (ld_notes d)) (ld_loops d) a' es
  | _, _ => False
  end.

Lemma load_one position h ls a k d pre n : can_save h ls a -> loading_fresh d -> ld_store d = pre ++ repeat None (S n) -> k = Z.of_nat (length pre) ->
  exists lp x d', ls !! a = Some lp /\ get_loop_xml h lp k = Ok x /\ lx_id x = Some k /\ load_loop position d x = Ok d' /\
    ld_store d' = (pre ++ [Some (ld_next d)]) ++ repeat None n /\ same_slot h ls d' (Some a) (Some (ld_next d)) /\ extends d d' /\ loading_fresh d'.
Proof.
  intros (es & (lp & ns & El & Hn) & Hsav & Hsort) [F1 F2] Hst ->. exists lp. pose proof Hn as [Hc H2].
  pose proof (notes_chain_size _ _ _ Hc) as Hsize. pose proof Hc as (Hfirst & _ & _ & Hl).
  assert (get_loop_xml h lp (Z.of_nat (length pre)) = Ok (LoopXml (Some (Z.of_nat (length pre))) (map xml_of es))) as Ex.
  { unfold get_loop_xml. rewrite Hfirst. by rewrite (notes_xml_spec h ns es (size h) None Hl H2 Hsize). }
  destruct (read_notes es (ld_notes d) (new_loop position) [] []) as (m' & l' & ns' & Er & Hn' & Hf' & Hle & Hkeep);
    [split; [|constructor]; split_and!; (done || constructor)|done|done|by eapply has_notes_content|done|].
  eexists _, (Loading m' (<[ld_next d := l']> (ld_loops d)) (ld_next d + 1) ((pre ++ [Some (ld_next d)]) ++ repeat None n)
    (if ld_last d <? Z.of_nat (length pre) then Z.of_nat (length pre) else ld_last d)).
  split; [done|]. split; [exact Ex|]. split; [done|]. split; [|split; [done|split; [|split]]].
  - unfold load_loop. cbn [lx_id lx_notes default from_option id]. rewrite (proj2 (Z.eqb_neq _ (-1))) by lia. cbn [negb].
    unfold new_loop_xml. rewrite Er. cbn [rbind]. rewrite Hst. cbn [repeat]. rewrite store_app_cons by done. cbn [rbind]. by rewrite <- app_assoc.
  - exists es. split; [by exists lp, ns|]. exists l', ns'. cbn [ld_loops ld_notes]. by rewrite lookup_insert_eq.
  - constructor; cbn [ld_notes ld_next ld_loops]; [done|lia| |].
    + intros b Hb. apply Hkeep; [done|apply not_elem_of_nil].
    + intros l Hl'. by rewrite lookup_insert_ne by lia.
  - constructor; cbn [ld_notes ld_next ld_loops]; [done|]. intros l Hl'. rewrite lookup_insert_ne by lia. apply F2. lia.
Qed.

Lemma load_loops position h ls st : forall k pre d, (forall a, Some a ∈ st -> can_save h ls a) -> loading_fresh d ->
  ld_store d = pre ++ repeat None (length st) -> k = Z.of_nat (length pre) ->
  exists xs d' st', get_loops_xml h ls k st = Ok xs /\ Forall (fun x => exists i, lx_id x = Some i /\ k <= i < k + Z.of_nat (length st)) xs /\
    rfold (load_loop position) d xs = Ok d' /\ ld_store d' = pre ++ st' /\ Forall2 (same_slot h ls d') st st' /\ extends d d' /\ loading_fresh d'.
Proof.
  induction st as [|[a|] st IH]; intros k pre d Hsave Hd Hst Hk; cbn [get_loops_xml].
  - exists [], d, []. split; [done|]. split; [constructor|]. split; [done|]. split; [done|]. split; [constructor|]. split; [apply extends_refl|done].
  - destruct (load_one position h ls a k d pre (length st)) as (lp & x & d1 & -> & -> & Hid & E1 & Hst1 & Hs1 & X1 & F1); [apply Hsave; left|done|done|done|].
    cbn [rbind]. destruct (IH (k + 1) (pre ++ [Some (ld_next d)]) d1) as (xs & d' & st' & -> & Hids & E & Hst' & Hs & X & F);
      [intros b Hb; apply Hsave; by right|done|done|rewrite length_app; cbn; lia|].
    cbn [rbind]. exists (x :: xs), d', (Some (ld_next d) :: st'). split; [done|]. split; [|split; [|split; [|split; [|split; [by eapply extends_trans|done]]]]].
    + constructor; [exists k; split; [done|cbn; lia]|]. eapply list.Forall_impl; [exact Hids|]. intros y (i & Hi & Hb). exists i. split; [done|cbn; lia].
    + cbn [rfold]. by rewrite E1.
    + by rewrite Hst', <- app_assoc.
    + constructor; [|done]. destruct Hs1 as (es & H1 & H2). exists es. split; [done|]. exact (extends_notes d1 d' _ es F1 X H2).
  - destruct (IH (k + 1) (pre ++ [None]) d) as (xs & d' & st' & -> & Hids & E & Hst' & Hs & X & F);
      [intros b Hb; apply Hsave; by right|done|by rewrite Hst, <- app_assoc|rewrite length_app; cbn; lia|].
    exists xs, d', (None :: st'). split; [done|]. split; [|split; [done|split; [by rewrite Hst', <- app_assoc|split; [by constructor|done]]]].
    eapply list.Forall_impl; [exact Hids|]. intros y (i & Hi & Hb). exists i. split; [done|cbn; lia].
Qed.

Lemma max_id_bound n xs : Forall (fun x => exists i, lx_id x = Some i /\ 0 <= i < n) xs -> forall z, z < n -> highest xs z < n.
Proof.
  induction 1 as [|x xs (i & Hi & Hb) _ IH]; intros z Hz; cbn [fold_left]; [done|]. apply IH. rewrite Hi. cbn. case_if; lia.
Qed.

Lemma same_slot_lookup h ls d st st' : Forall2 (same_slot h ls d) st st' -> forall k,
  match mjoin (st !! k) with
  | None => mjoin (st' !! k) = None
  | Some a => exists a' es, mjoin (st' !! k) = Some a' /\ loop_notes h ls a es /\ loop_notes (notes (ld_notes d)) (ld_loops d) a' es
  end.
Proof.
  induction 1 as [|x x' st st' Hx _ IH]; intros k; [done|]. destruct k as [|k]; cbn; [|apply IH].
  destruct x as [a|], x' as [a'|]; try done. destruct Hx as (es & H1 & H2). by exists a', es.
Qed.

(** ** The sequence *)

(** The lines from [k] on are those of [sequence] where it names a loop. *)
Definition merged (k : Z) (sequence : list Z) (f : Z -> Z) (q : Z) : Z :=
  match (if k <=? q then sequence !! Z.to_nat (q - k) else None) with
  | Some e => if e =? NOTE_NOT_SET then f q else e
  | None => f q
  end.

Lemma merged_cons k e sequence f q :
  merged k (e :: sequence) f q = if (q =? k) && negb (e =? NOTE_NOT_SET) then e else merged (k + 1) sequence f q.
Proof.
  unfold merged. destruct (Z.eqb_spec q k) as [->|Hne]; cbn [andb].
  - rewrite (proj2 (Z.leb_le k k)), (proj2 (Z.leb_gt (k + 1) k)), Z.sub_diag by lia.
    change ((e :: sequence) !! Z.to_nat 0) with (Some e). cbv iota beta. by destruct (e =? NOTE_NOT_SET).
  - destruct (Z.leb_spec k q) as [H1|H1], (Z.leb_spec (k + 1) q) as [H2|H2]; try done; try lia.
    by replace (Z.to_nat (q - k)) with (S (Z.to_nat (q - (k + 1)))) by lia.
Qed.

Lemma load_entries this sequence : forall k w s, sequencers_ok w -> sequencer_at w !! this = Some s ->
  Forall (fun e => e = NOTE_NOT_SET \/ is_Some (loop_of s e)) sequence -> 0 <= k -> k + Z.of_nat (length sequence) <= 2^31 - 16 ->
  exists w' s', rfold (load_entry this) w (get_loop_sequence_xml k sequence) = Ok w' /\ sequencers_ok w' /\ loops w' = loops w /\
    sequencer_at w' !! this = Some s' /\ loop_store s' = loop_store s /\ forall q, id_at s' q = merged k sequence (id_at s) q.
Proof.
  induction sequence as [|e sequence IH]; intros k w s Hok Es Hids Hk Hlen; cbn [get_loop_sequence_xml].
  - exists w, s. split_and!; try done. intros q. unfold merged. by case_if.
  - apply list.Forall_cons in Hids as [He Hids]. cbn [length] in Hlen.
    assert (forall f q, (q =? k) && negb (e =? NOTE_NOT_SET) = false -> merged k (e :: sequence) f q = merged (k + 1) sequence f q) as Hskip
      by (intros f q H; by rewrite merged_cons, H).
    destruct (Z.eqb_spec e NOTE_NOT_SET) as [Hne|Hne].
    + destruct (IH (k + 1) w s Hok Es Hids ltac:(lia) ltac:(lia)) as (w' & s' & E & H1 & H2 & H3 & H4 & H5).
      exists w', s'. split_and!; try done. intros q. rewrite H5, Hskip; [done|by rewrite andb_false_r].
    + destruct He as [?|He]; [done|]. cbn [rfold]. unfold load_entry at 1. cbn [fst snd default from_option id].
      rewrite (proj2 (Z.eqb_neq k (-1))), (proj2 (Z.eqb_neq e (-1))) by (unfold NOTE_NOT_SET in Hne; lia). cbn [negb andb].
      destruct (set_line_ok w this s k e Hok Es ltac:(lia)) as (w1 & Hok1 & Hl1 & _ & H). rewrite (bool_decide_true _ He), orb_true_r in H.
      destruct H as [-> Hsame]. cbn [rbind]. destruct (Hsame this s Es) as (s1 & Es1 & _ & Hst1 & _ & Hid1). rewrite Z.eqb_refl in Hid1. cbn [andb] in Hid1.
      destruct (IH (k + 1) w1 s1 Hok1 Es1) as (w' & s' & E & H1 & H2 & H3 & H4 & H5); [|lia|lia|].
      { eapply list.Forall_impl; [exact Hids|]. intros x [Hx|Hx]; [by left|right]. unfold loop_of in *. by rewrite Hst1. }
      exists w', s'. split; [done|]. split; [done|]. split; [congruence|]. split; [done|]. split; [congruence|]. intros q.
      rewrite H5, merged_cons. rewrite (proj2 (Z.eqb_neq e NOTE_NOT_SET)) by done. cbn [negb]. rewrite andb_true_r.
      destruct (Z.eqb_spec q k) as [->|Hqk].
      * unfold merged. rewrite (proj2 (Z.leb_gt (k + 1) k)) by lia. by rewrite Hid1, Z.eqb_refl.
      * unfold merged. rewrite Hid1, (proj2 (Z.eqb_neq q k)) by done. done.
Qed.

(** The sequencer as the constructor has it before it reads the sequence. *)
Lemma loaded_ok w this d st' : sequencers_ok w -> sequencer_at w !! this = None -> (0 < length st')%nat -> ld_store d = st' ->
  (forall l, l < next_loop w -> ld_loops d !! l = loops w !! l) -> loading_fresh d -> next_loop w <= ld_next d ->
  (forall a, Some a ∈ st' -> is_Some (ld_loops d !! a)) ->
  sequencers_ok (Sequencers (sequence_length w) (machine2sequencer w)
    (<[this := prep_empty_loop_sequence (sequence_length w) (Sequencer None st' (i32 (ld_last d + 1)) [])]> (sequencer_at w)) (ld_loops d) (ld_next d)).
Proof.
  intros [O1 O2 O3] Hnew Hpos Hst Hkeep [_ Hfresh] Hnext Hin. constructor; cbn [machine2sequencer sequencer_at loops next_loop].
  - intros k Hk. destruct (decide (snd k = this)) as [->|Hne]; [rewrite lookup_insert_eq; by eexists|].
    rewrite lookup_insert_ne by congruence. by apply O1.
  - exact Hfresh.
  - intros a s. destruct (decide (a = this)) as [->|Hne].
    + rewrite lookup_insert_eq. intros [= <-]. constructor; cbn [prep_empty_loop_sequence with_sequence loop_store current_loop loop_sequence]; try done.
      apply list.Forall_forall. intros e He. left. by apply list_elem_of_In, repeat_spec in He.
    + rewrite lookup_insert_ne by congruence. intros Hs. destruct (O3 a s Hs) as [G1 G2 G3 G4].
      assert (forall l, is_Some (loops w !! l) -> is_Some (ld_loops d !! l)) as Hstill.
      { intros l [x Ex]. rewrite Hkeep; [by eexists|]. destruct (Z.lt_decidable l (next_loop w)) as [?|Hge]; [done|]. rewrite O2 in Ex by lia. done. }
      constructor; [done|intros l Hl; by apply Hstill, G2|intros l Hl; by apply Hstill, G3|done].
Qed.

Lemma repeat_id_at n last q : id_at (prep_empty_loop_sequence n (Sequencer None [] last [])) q = NOTE_NOT_SET.
Proof.
  unfold id_at, prep_empty_loop_sequence. cbn [with_sequence loop_sequence]. destruct (0 <=? q); [|done].
  destruct (repeat _ _ !! _) as [x|] eqn:Ex; [|done]. apply list_elem_of_lookup_2, list_elem_of_In, repeat_spec in Ex. by subst.
Qed.

(** C20: A sequencer whose store has its first sixteen places survives saving and loading: what
    [get_descriptive_xml] writes of it, the constructor reads into a sequencer that has the same
    loop ids, the same notes in every loop (their fields in range, in the order of their start),
    and the same loop at every line. *)
Theorem sequencer_xml_roundtrip position h ls s m w this : sequencer_ok ls s -> Z.of_nat (length (loop_store s)) = INITIAL_SEQUENCE_LENGTH ->
  Z.of_nat (length (loop_sequence s)) <= 2^31 - 16 -> (forall a, Some a ∈ loop_store s -> can_save h ls a) ->
  sequencers_ok w -> sequencer_at w !! this = None -> memory_fresh m ->
  exists x m' w' s', get_sequencer_xml h ls s = Ok x /\ new_sequencer_xml position m w this x = Ok (m', w') /\ sequencer_at w' !! this = Some s' /\
    (forall q, id_at s' q = id_at s q) /\
    (forall id, match loop_of s id with
                | None => loop_of s' id = None
                | Some a => exists a' es, loop_of s' id = Some a' /\ loop_notes h ls a es /\ loop_notes (notes m') (loops w') a' es
                end).
Proof.
  intros Hs Hsize Hlen Hsave Hw Hnew Hm.
  set (d0 := Loading m (loops w) (next_loop w) (repeat None (length (loop_store s))) 0).
  assert (loading_fresh d0) as Hd0 by (split; [done|apply Hw]).
  destruct (load_loops position h ls (loop_store s) 0 [] d0 Hsave Hd0 eq_refl eq_refl) as (xs & d & st' & Exs & Hids & Ed & Hst & Hslots & Hext & Hd).
  exists (SequencerXml xs (get_loop_sequence_xml 0 (loop_sequence s))). unfold get_sequencer_xml. rewrite Exs. cbn [rbind].
  assert (max_loop_id xs < INITIAL_SEQUENCE_LENGTH) as Hmax by (apply max_id_bound; [rewrite <- Hsize; exact Hids|done]).
  pose proof (same_slot_lookup _ _ _ _ _ Hslots) as Hlook. pose proof (Forall2_length Hslots) as Hl'. cbn [app] in Hst.
  set (s0 := prep_empty_loop_sequence (sequence_length w) (Sequencer None st' (i32 (ld_last d + 1)) [])).
  assert (forall id, match loop_of s id with None => loop_of s0 id = None
    | Some a => exists a' es, loop_of s0 id = Some a' /\ loop_notes h ls a es /\ loop_notes (notes (ld_notes d)) (ld_loops d) a' es end) as Hloops.
  { intros id. unfold loop_of. cbn [s0 prep_empty_loop_sequence with_sequence loop_store]. rewrite <- Hl'. case_if; [|done]. apply Hlook. }
  set (w0 := Sequencers (sequence_length w) (machine2sequencer w) (<[this := s0]> (sequencer_at w)) (ld_loops d) (ld_next d)).
  assert (sequencers_ok w0) as Hw0.
  { apply (loaded_ok w this d st'); try done; try apply Hext.
    - rewrite <- Hl'. apply Hs.
    - intros a Ha. apply list_elem_of_lookup_1 in Ha as [k Ha]. specialize (Hlook k). rewrite Ha in Hlook. cbn in Hlook.
      destruct (mjoin (loop_store s !! k)); [|done]. destruct Hlook as (a' & es & [= <-] & _ & lp & ns & -> & _). by eexists. }
  destruct (load_entries this (loop_sequence s) 0 w0 s0 Hw0) as (w' & s' & E & _ & Hl1 & Es' & Hst1 & Hid); [cbn; by rewrite lookup_insert_eq| |lia|lia|].
  { eapply list.Forall_impl; [apply Hs|]. intros e [He|[a He]]; [by left|right]. specialize (Hloops e). rewrite He in Hloops.
    destruct Hloops as (a' & es & -> & _). by eexists. }
  exists (ld_notes d), w', s'. split; [done|]. split; [|split; [done|split]].
  - unfold new_sequencer_xml. cbn [sx_loops sx_entries]. rewrite (proj2 (Z.ltb_lt _ _)) by exact Hmax.
    rewrite <- Hsize, Nat2Z.id. fold d0. rewrite Ed. cbn [rbind]. rewrite Hst. fold s0. fold w0. by rewrite E.
  - intros q. rewrite Hid. assert (id_at s0 q = NOTE_NOT_SET) as Hq by (etransitivity; [|apply (repeat_id_at (sequence_length w) 0 q)]; done).
    unfold merged, id_at in *. rewrite Z.sub_0_r. destruct (0 <=? q); [|done]. destruct (loop_sequence s !! Z.to_nat q) as [e|]; cbn [default from_option id] in *; [|exact Hq].
    destruct (Z.eqb_spec e NOTE_NOT_SET) as [->|]; done.
  - intros id. specialize (Hloops id). rewrite Hl1. cbn [w0 loops]. unfold loop_of in *. rewrite Hst1. exact Hloops.
Qed.

(** ** Witnesses *)

Definition ex_saved_notes : note_heap :=
  {[ 0 := NoteEntry 1 2 100 60 48 16 None (Some 1) 0; 1 := NoteEntry 1 2 90 64 80 8 (Some 0) None 0 ]}.
Definition ex_saved_loops : gmap Z loop := {[ 0 := with_first (new_loop 0) (Some 0); 1 := new_loop 0 ]}.
Definition ex_saved : sequencer := Sequencer None ([Some 0; Some 1] ++ repeat None 14) 2 [NOTE_NOT_SET; 1; 0; 0].
Definition ex_target : sequencers := no_sequencers.

Lemma ex_saved_ok : sequencer_ok ex_saved_loops ex_saved.
Proof.
  constructor; [cbn; lia| |done|].
  - intros l Hl. cbn in Hl. repeat (apply elem_of_cons in Hl as [Hl|Hl]; [try done; injection Hl as ->; by eexists|]). by apply not_elem_of_nil in Hl.
  - unfold ex_saved. cbn [loop_sequence]. repeat (apply list.Forall_cons; split; [(by left) || (right; by eexists)|]). constructor.
Qed.

Lemma ex_saved_notes_ok : loop_notes ex_saved_notes ex_saved_loops 0 [NoteEntry 1 2 100 60 48 16 None None 0; NoteEntry 1 2 90 64 80 8 None None 0].
Proof.
  exists (with_first (new_loop 0) (Some 0)), [0; 1]. split; [done|]. split; [|repeat constructor].
  split; [done|]. split; [|split; [repeat constructor; by eexists|repeat constructor]].
  constructor; [|constructor; [apply not_elem_of_nil|constructor]]. intros H%list_elem_of_singleton. done.
Qed.

Lemma ex_can_save a : Some a ∈ loop_store ex_saved -> can_save ex_saved_notes ex_saved_loops a.
Proof.
  intros Ha. cbn in Ha. apply elem_of_cons in Ha as [[= ->]|Ha].
  - eexists. split; [exact ex_saved_notes_ok|]. split; [repeat constructor; cbn; lia|]. repeat constructor; cbn; lia.
  - apply elem_of_cons in Ha as [[= ->]|Ha].
    + exists []. split; [|split; constructor]. exists (new_loop 0), []. split; [done|]. split; [|constructor]. repeat constructor.
    + exfalso. repeat (apply elem_of_cons in Ha as [Ha|Ha]; [done|]). by apply not_elem_of_nil in Ha.
Qed.

Lemma sequencer_xml_roundtrip_witness : exists x m' w' s', get_sequencer_xml ex_saved_notes ex_saved_loops ex_saved = Ok x /\
  new_sequencer_xml 0 (NoteMemory ∅ 0) ex_target 5 x = Ok (m', w') /\ sequencer_at w' !! 5 = Some s' /\
  (forall q, id_at s' q = id_at ex_saved q) /\
  (forall id, match loop_of ex_saved id with
              | None => loop_of s' id = None
              | Some a => exists a' es, loop_of s' id = Some a' /\ loop_notes ex_saved_notes ex_saved_loops a es /\ loop_notes (notes m') (loops w') a' es
              end).
Proof.
  apply (sequencer_xml_roundtrip 0 ex_saved_notes ex_saved_loops ex_saved (NoteMemory ∅ 0) ex_target 5);
    [exact ex_saved_ok|done|cbn; lia|exact ex_can_save| |done|done].
  constructor; cbn; [intros k Hk; by apply not_elem_of_nil in Hk|done|done].
Defined.
