(* ===== verification/RemoteMachine.v ===== *)
(** * Machines over the remote interface (class [RIMachine], remote_interface.cc)

    The server has an object for every machine, which keeps what its clients show: name, kind,
    position, inputs and outputs, and the connections of its inputs, by the objects of their
    sources. Requests go on to the machine itself, which is a parameter here. *)

From Stdlib Require Import ZArith Lia Ascii String List Sorted Permutation.
From stdpp Require Import base list strings numbers option.
From S2P Require Import Prelude CxxString StdMap Serialize Message Sequence RemoteContext Arpeggiator Scales MachineClock PadMotion PadSession GlobalControl HandleList.
Local Open Scope string_scope.
Local Open Scope list_scope.
Local Open Scope Z_scope.
Local Open Scope vk_scope.

(** The C library's conversions of [double], which is not modelled: what is printed is text
    without separators. *)
Class CDouble : Type := {
  double : Type;
  atof : string -> double;
  double_to_string : double -> string;
  double_text_wire d : wire_text (double_to_string d);
  double_text_nonempty d : double_to_string d <> ""
}.

(** ** Connections *)

(** A source's object, its output, and the input. *)
Abbreviation connection := (Z * (string * string))%type.

(** A [std::multimap] by the object: a new entry goes behind those with its key. *)
Fixpoint multimap_insert {V} (m : list (Z * V)) (e : Z * V) : list (Z * V) :=
  match m with
  | [] => [e]
  | e' :: m' => if fst e <? fst e' then e :: m else e' :: multimap_insert m' e
  end.

Definition same_connection (a b : connection) : bool :=
  (fst a =? fst b) && String.eqb (fst (snd a)) (fst (snd b)) && String.eqb (snd (snd a)) (snd (snd b)).

(** The loop over [equal_range]. *)
(* @src src_jni/remote_interface.cc:2004-2016 RIMachine::detach_input *)
Definition erase_connection (m : list connection) (e : connection) : list connection :=
  List.filter (fun e' => negb (same_connection e' e)) m.

(* @src src_jni/remote_interface.cc:2881-2884 RIMachine::serialize *)
Definition raw_connections (m : list connection) : string :=
  fold_right (fun e s => (to_string (fst e) ++ "@" ++ fst (snd e) ++ "{" ++ snd (snd e) ++ "}" ++ s)%string) "" m.

(* @src src_jni/remote_interface.cc:2880-2889 RIMachine::serialize *)
Definition connections_text (m : list connection) : string :=
  let text := raw_connections m in if String.eqb text "" then "@{}" else text.

(** [std::getline] into [old]: the stream is [None] once it is at its end, and then leaves the
    string as it st. *)
Definition getline_or (delim : ascii) (st : option string) (old : string) : string * option string :=
  match st with
  | None => (old, None)
  | Some text => split_at delim text
  end.

(** Every round takes at least the delimiter behind the object. *)
(* @src src_jni/remote_interface.cc:1876-1898 RIMachine::parse_serialized_connections_data *)
Fixpoint parse_connections (fuel : nat) (st : option string) (srcid src_name dst_name : string) (m : list connection)
  : result (list connection) :=
  match st with
  | None => Ok m
  | Some _ =>
      if String.eqb srcid "" then Ok m
      else match fuel with
           | O => Err OutOfFuel
           | S fuel =>
               let '(src_name, st) := getline_or "{" st src_name in
               let '(dst_name, st) := getline_or "}" st dst_name in
               let m := if negb (String.eqb src_name "") && negb (String.eqb dst_name "")
                        then multimap_insert m (stoi srcid, (src_name, dst_name)) else m in
               let '(srcid, st) := getline_or "@" st srcid in
               parse_connections fuel st srcid src_name dst_name m
           end
  end.

(* @src src_jni/remote_interface.cc:1876-1882 RIMachine::parse_serialized_connections_data *)
Definition parse_serialized_connections_data (serialized : string) : result (list connection) :=
  let '(srcid, st) := split_at "@" serialized in
  parse_connections (S (String.length serialized)) st srcid "" "" [].

(** ** The object *)

Section machines.
Context `{CDouble}.

(** Both sides' members. On the server [is_sink], [sibling] and [controller_groups] are what
    the machine itself answers when the object is sent. *)
(* @src src_jni/remote_interface.hh:1094-1110 RIMachine *)
Record rimachine : Type := RIMachine {
  ri_name : string;
  ri_type : string;
  xpos : double;
  ypos : double;
  is_sink : bool;
  connection_data : list connection;
  midi_controllers : smap string unit;
  sibling : string;
  inputs : list string;
  outputs : list string;
  controller_groups : list string
}.

Definition with_connections (o : rimachine) (m : list connection) : rimachine :=
  RIMachine (ri_name o) (ri_type o) (xpos o) (ypos o) (is_sink o) m (midi_controllers o) (sibling o)
    (inputs o) (outputs o) (controller_groups o).
Definition with_position (o : rimachine) (x y : double) : rimachine :=
  RIMachine (ri_name o) (ri_type o) x y (is_sink o) (connection_data o) (midi_controllers o) (sibling o)
    (inputs o) (outputs o) (controller_groups o).

(** [dynamic_pointer_cast<MachineSequencer>(real_machine_ptr)]. *)
Definition is_sequencer (o : rimachine) : bool := String.eqb (ri_type o) "MachineSequencer".

Definition groups_content : Serializable (list string) := container_serializable string_serializable.

(* @src src_jni/remote_interface.cc:2872-2931 RIMachine::serialize *)
Definition machine_serialize (o : rimachine) : pairs :=
  [("name", ri_name o); ("type", ri_type o); ("xpos", double_to_string (xpos o)); ("ypos", double_to_string (ypos o));
   ("is_sink", truth (is_sink o)); ("connections", connections_text (connection_data o));
   ("mctrls", let text := list_text "$" (map fst (midi_controllers o)) in if String.eqb text "" then "$" else text)] ++
  (if is_sequencer o then [("sibling", sibling o)] else []) ++
  [("inputs", list_text ":" (inputs o)); ("outputs", list_text ":" (outputs o));
   ("ctrgroups", write_one groups_content (controller_groups o))].

(** A list of names that may be missing. *)
(* @src src_jni/remote_interface.cc:1815-1828 parse_io *)
Definition parse_io (msg : view) (key : string) : result (list string) :=
  match msg key with
  | Ok text => parse_list ":" (String.length text) text
  | Err _ => Ok []
  end.

(* @src src_jni/remote_interface.cc:1830-1857 RIMachine::RIMachine *)
Definition new_machine_copy (msg : view) : result rimachine :=
  let! name := msg "name" in
  let! type := msg "type" in
  let! x := msg "xpos" in
  let! y := msg "ypos" in
  let! is_sink := msg "is_sink" in
  let! sibling := if String.eqb type "MachineSequencer" then msg "sibling" else Ok "" in
  let! connections := msg "connections" in
  let! connections := parse_serialized_connections_data connections in
  let! mctrls := msg "mctrls" in
  let! mctrls := parse_list "$" (String.length mctrls) mctrls in
  let! inputs := parse_io msg "inputs" in
  let! outputs := parse_io msg "outputs" in
  let! groups := msg "ctrgroups" in
  let! groups := read_one groups_content groups in
  Ok (RIMachine name type (atof x) (atof y) (String.eqb is_sink "true") connections
        (fold_left (fun m c => minsert m c tt) mctrls []) sibling inputs outputs groups).

(** ** What the server tells its clients *)

Definition connection_values (command : string) (e : connection) : pairs :=
  [("command", command); ("s_objid", to_string (fst e)); ("source", fst (snd e)); ("destination", snd (snd e))].

(* @src src_jni/remote_interface.cc:1955-1979 RIMachine::attach_input *)
Definition attach_input (e : connection) (o : rimachine) : rimachine * list pairs :=
  (with_connections o (multimap_insert (connection_data o) e), [connection_values "attach" e]).

(* @src src_jni/remote_interface.cc:1997-2027 RIMachine::detach_input *)
Definition detach_input (e : connection) (o : rimachine) : rimachine * list pairs :=
  (with_connections o (erase_connection (connection_data o) e), [connection_values "detach" e]).

Definition position_values (name : string) (x y : double) : pairs :=
  [("command", "setpos"); ("ignored", name); ("xpos", double_to_string x); ("ypos", double_to_string y)].

(** On the server, with the position the project has: the object keeps its own. *)
(* @src src_jni/remote_interface.cc:2132-2143 RIMachine::set_position *)
Definition set_position (x y : double) (o : rimachine) : rimachine * list pairs :=
  (o, [position_values (ri_name o) x y]).

(** ** The client *)

(* @src src_jni/remote_interface.cc:2778-2807 RIMachine::process_attach_message *)
Definition get_connection (msg : view) : result connection :=
  let! identifier := get_int msg "s_objid" in
  let! src_output := msg "source" in
  let! dst_input := msg "destination" in
  Ok (identifier, (src_output, dst_input)).

(* @src src_jni/remote_interface.cc:2849-2870 RIMachine::process_message_client *)
Definition machine_client (k : rimachine) (msg : view) : result rimachine :=
  let! command := msg "command" in
  if String.eqb command "setpos" then
    let! x := msg "xpos" in
    let! y := msg "ypos" in
    Ok (with_position k (atof x) (atof y))
  else if String.eqb command "attach" then
    let! e := get_connection msg in
    Ok (with_connections k (multimap_insert (connection_data k) e))
  else if String.eqb command "detach" then
    let! e := get_connection msg in
    Ok (with_connections k (erase_connection (connection_data k) e))
  else Ok k.

(** ** Requests to the server *)

(** What a request has the machine, or the sequencer it is, do. *)
Inductive machine_call : Type :=
| CallPadEvent (finger : Z) (t : pad_event_t) (x y z : Z)
| CallMidi (data : list Z)
| CallDestroy
| CallSetPosition (x y : double)
| CallAttach (source : Z) (output_name input_name : string)
| CallDetach (source : Z) (output_name input_name : string)
| CallSetLoopIdAt (position loop_id : Z)
| CallExportToLoop (loop_id : Z)
| CallSetOctave (octave : Z)
| CallSetScale (scale : Z)
| CallSetRecord (record : bool)
| CallSetQuantize (quantized : bool)
| CallAssignController (axis : Z) (controller : string)
| CallSetChordMode (mode : Z)
| CallSetArpPattern (identity : string)
| CallSetArpDirection (direction : Z)
| CallClearPad.

(** The machine behind the object, as it is when a request arrives: what a call throws, and what
    it answers. [set_controller] is [process_setctrl_val_message] with the controllers that the
    sender has asked for, [get_controller] is [process_get_ctrl_message]. *)
Record real_machine : Type := RealMachine {
  call : machine_call -> option exn;
  get_nr_of_loops : Z;
  set_controller : view -> option exn;
  get_controller_names : string -> result (list string);
  get_controller : string -> result string
}.

(** The [switch]es over the numbers of the request; any other number leaves the default. *)
(* @src src_jni/remote_interface.cc:2434-2449 RIMachine::process_message_server *)
Definition event_of_number (n : Z) : pad_event_t :=
  if n =? 0 then ms_pad_press else if n =? 1 then ms_pad_slide else if n =? 2 then ms_pad_release else ms_pad_no_event.
Definition number_up_to (last n : Z) : Z := if (0 <=? n) && (n <=? last) then n else 0.

(* @src src_jni/remote_interface.cc:2427-2433 RIMachine::process_message_server *)
Definition get_pad_event (msg : view) : result machine_call :=
  let! t := get_int msg "evt" in
  let! finger := get_int msg "fgr" in
  let! x := get_int msg "xp" in
  let! y := get_int msg "yp" in
  let! z := get_int msg "zp" in
  Ok (CallPadEvent finger (event_of_number t) x y z).

Definition not_a_sequencer : exn := FailureResponse "Not a MachineSequencer object.".

(** The commands that only a sequencer has, with the call each one makes. *)
(* @src src_jni/remote_interface.cc:2511-2656 RIMachine::process_message_server *)
Definition sequencer_command (command : string) : option (view -> result machine_call) :=
  if String.eqb command "setloopidat" then
    Some (fun msg => let! position := get_int msg "position" in let! loop_id := get_int msg "loopid" in Ok (CallSetLoopIdAt position loop_id))
  else if String.eqb command "export2loop" then Some (fun msg => let! loop_id := get_int msg "loopid" in Ok (CallExportToLoop loop_id))
  else if String.eqb command "setoct" then Some (fun msg => let! octave := get_int msg "octave" in Ok (CallSetOctave octave))
  else if String.eqb command "setscl" then Some (fun msg => let! scale := get_int msg "scale" in Ok (CallSetScale scale))
  else if String.eqb command "setrec" then Some (fun msg => let! record := msg "record" in Ok (CallSetRecord (String.eqb record "true")))
  else if String.eqb command "setqnt" then Some (fun msg => let! quantized := msg "doquantize" in Ok (CallSetQuantize (String.eqb quantized "true")))
  else if String.eqb command "setctrl" then
    Some (fun msg => let! axis := get_int msg "axis" in let! ctrl := msg "midictrl" in Ok (CallAssignController (number_up_to 2 axis) ctrl))
  else if String.eqb command "setchord" then Some (fun msg => let! mode := get_int msg "chordmode" in Ok (CallSetChordMode (number_up_to 2 mode)))
  else if String.eqb command "setarp" then Some (fun msg => let! pattern := msg "arppattern" in Ok (CallSetArpPattern pattern))
  else if String.eqb command "setarpdirection" then
    Some (fun msg => let! direction := get_int msg "direction" in Ok (CallSetArpDirection (number_up_to 3 direction)))
  else if String.eqb command "padclear" then Some (fun _ => Ok CallClearPad)
  else None.

(** What [call] threw, unless the attachment's own handlers take it. *)
(* @src src_jni/remote_interface.cc:2783-2791 RIMachine::process_attach_message *)
Definition attach_thrown (thrown : option exn) : option exn :=
  match thrown with
  | Some NoSuchObject => None
  | Some (JException message) => Some (FailureResponse message)
  | _ => thrown
  end.

(* @src src_jni/remote_interface.cc:2421-2688 RIMachine::process_message_server *)
Definition machine_server (real : real_machine) (objid : Z) (o : rimachine) (msg : view)
  : rimachine * list (target * pairs) * option exn :=
  let run r := match r with Err e => (o, [], Some e) | Ok c => (o, [], call real c) end in
  let run_attach r := match r with Err e => (o, [], Some e) | Ok c => (o, [], attach_thrown (call real c)) end in
  match msg "command" with
  | Err e => (o, [], Some e)
  | Ok command =>
      if String.eqb command "padevt" then
        match get_pad_event msg with
        | Err e => (o, [], Some e)
        | Ok c => if is_sequencer o then run (Ok c) else (o, [], None)
        end
      else if String.eqb command "midi" then
        match msg "data" with
        | Err e => (o, [], Some e)
        | Ok data => if is_sequencer o then run (Ok (CallMidi (decode_byte_array data))) else (o, [], None)
        end
      else if String.eqb command "setctrval" then
        (o, [], set_controller real msg)
      else if String.eqb command "deleteme" then run (Ok CallDestroy)
      else if String.eqb command "setpos" then
        match msg "xpos" with
        | Err e => (o, [], Some e)
        | Ok x =>
            let o := with_position o (atof x) (ypos o) in
            match msg "ypos" with
            | Err e => (o, [], Some e)
            | Ok y =>
                let o := with_position o (xpos o) (atof y) in
                match call real (CallSetPosition (xpos o) (ypos o)) with
                | Some e => (o, [], Some e)
                | None => then_sends o [send_object_message objid (position_values (ri_name o) (xpos o) (ypos o))]
                end
            end
        end
      else if String.eqb command "r_attach" then
        run_attach (let! e := get_connection msg in Ok (CallAttach (fst e) (fst (snd e)) (snd (snd e))))
      else if String.eqb command "r_detach" then
        run_attach (let! e := get_connection msg in Ok (CallDetach (fst e) (fst (snd e)) (snd (snd e))))
      else if String.eqb command "getnrloops" then
        if is_sequencer o then then_sends o [send_reply msg [("nrloops", to_string (get_nr_of_loops real))]]
        else (o, [], Some not_a_sequencer)
      else match sequencer_command command with
      | Some read => if is_sequencer o then run (read msg) else (o, [], Some not_a_sequencer)
      | None =>
          if String.eqb command "get_ctrl_names" then
            match (let! group := msg "grname" in let! _ := msg "repid" in get_controller_names real group) with
            | Err e => (o, [], Some e)
            | Ok names => then_sends o [send_reply msg [("ctrlnames", write_one groups_content names)]]
            end
          else if String.eqb command "get_ctrl" then
            match (let! _ := msg "repid" in let! name := msg "ctrlname" in get_controller real name) with
            | Err e => (o, [], Some e)
            | Ok ctrl => then_sends o [send_reply msg [("ctrl", ctrl)]]
            end
          else (o, [], None)
      end
  end.

(* @src src_jni/remote_interface.hh:145-145 __FCT_RIMACHINE *)
Definition FCT_RIMACHINE : string := "RIMachine".

(* @src src_jni/remote_interface.cc:1800-1803 RIMachineFactory::create *)
Definition create_machine_copy (factory_type : string) (msg : view) : option (result rimachine) :=
  if String.eqb factory_type FCT_RIMACHINE then Some (new_machine_copy msg) else None.

(** The machines of the objects, for requests that do not depend on what else the server does. *)
Definition machine_object (real : Z -> real_machine) : RemoteObject rimachine rimachine := {|
  type_name _ := FCT_RIMACHINE;
  RemoteContext.serialize := machine_serialize;
  RemoteContext.process_message_server objid := machine_server (real objid) objid;
  create_and_register := create_machine_copy;
  RemoteContext.process_message_client := machine_client
|}.
(** ** Connections are read back *)

Definition by_object (m : list connection) : Prop := StronglySorted Z.le (map fst m).

Record connection_ok (e : connection) : Prop := {
  conn_object : in_i32 (fst e);
  conn_output : wire_text (fst (snd e)) /\ fst (snd e) <> "" /\ contains "{" (fst (snd e)) = false;
  conn_input : wire_text (snd (snd e)) /\ snd (snd e) <> "" /\ contains "}" (snd (snd e)) = false
}.

Lemma insert_at_end {V} (m : list (Z * V)) e : Forall (fun e' => fst e' <= fst e) m -> multimap_insert m e = m ++ [e].
Proof.
  induction 1 as [|e' m He _ IH]; [done|]. cbn. rewrite (proj2 (Z.ltb_ge _ _)) by lia. by rewrite IH.
Qed.

Lemma insert_all m : by_object m -> forall acc, (forall a e, a ∈ acc -> e ∈ m -> fst a <= fst e) -> fold_left multimap_insert m acc = acc ++ m.
Proof.
  unfold by_object. induction m as [|e m IH]; intros Hs acc Ha; [by rewrite app_nil_r|].
  cbn [map] in Hs. apply StronglySorted_inv in Hs as [Hs He]. cbn [fold_left]. rewrite insert_at_end.
  2:{ apply list.Forall_forall. intros a Hin. apply Ha; [done|left]. }
  rewrite IH; [by rewrite <- app_assoc|done|]. intros a e' [Hin| ->%list_elem_of_singleton]%elem_of_app Hin'; [apply Ha; [done|by right]|].
  apply (proj1 (list.Forall_forall _ _) He). apply list_elem_of_In, in_map_iff. exists e'. split; [done|by apply list_elem_of_In].
Qed.

Lemma parse_written m : Forall connection_ok m -> forall fuel sn dn acc, (List.length m <= fuel)%nat ->
  let '(srcid, st) := split_at "@" (raw_connections m) in
  parse_connections fuel st srcid sn dn acc = Ok (fold_left multimap_insert m acc).
Proof.
  induction 1 as [|[id [src dst]] m [Hid (Ho1 & Ho2 & Ho3) (Hi1 & Hi2 & Hi3)] _ IH]; intros fuel sn dn acc Hf.
  - cbn. by destruct fuel.
  - cbn [fst snd] in *. change (raw_connections ((id, (src, dst)) :: m)) with
      (to_string id ++ String "@" (src ++ String "{" (dst ++ String "}" (raw_connections m))))%string.
    rewrite split_at_app by (by apply to_string_contains). destruct fuel as [|fuel]; cbn [List.length] in Hf; [lia|].
    cbn [parse_connections]. rewrite (proj2 (String.eqb_neq _ _)) by apply to_string_nonempty.
    unfold getline_or at 1. rewrite split_at_app by done. unfold getline_or at 1. rewrite split_at_app by done.
    rewrite (proj2 (String.eqb_neq src "")), (proj2 (String.eqb_neq dst "")) by done. cbn [negb andb].
    rewrite stoi_to_string by done. unfold getline_or. specialize (IH fuel src dst (multimap_insert acc (id, (src, dst)))).
    destruct (split_at "@" (raw_connections m)) as [srcid st]. apply IH. lia.
Qed.

Lemma raw_length m : (List.length m <= String.length (raw_connections m))%nat.
Proof.
  induction m as [|[id [src dst]] m IH]; [done|]. change (raw_connections ((id, (src, dst)) :: m)) with
      (to_string id ++ String "@" (src ++ String "{" (dst ++ String "}" (raw_connections m))))%string.
  repeat (rewrite string_length_app; cbn [String.length]). cbn [List.length]. lia.
Qed.

Lemma connections_read_back m : by_object m -> Forall connection_ok m -> parse_serialized_connections_data (connections_text m) = Ok m.
Proof.
  intros Hs Hall. unfold connections_text. destruct (String.eqb_spec (raw_connections m) "") as [He|_].
  - pose proof (raw_length m) as Hl. rewrite He in Hl. destruct m; [done|cbn in Hl; lia].
  - pose proof (parse_written m Hall (S (String.length (raw_connections m))) "" "" []) as Hp. unfold parse_serialized_connections_data.
    destruct (split_at "@" (raw_connections m)) as [srcid st]. rewrite Hp by (pose proof (raw_length m); lia).
    by rewrite insert_all by (done || by intros a e ?%not_elem_of_nil).
Qed.

Lemma connections_wire m : Forall connection_ok m -> wire_text (connections_text m).
Proof.
  intros Hall. unfold connections_text. destruct (String.eqb _ _); [done|].
  induction Hall as [|[id [src dst]] m [Hid (Ho1 & _) (Hi1 & _)] _ IH]; [done|]. cbn [fst snd] in *.
  change (raw_connections ((id, (src, dst)) :: m)) with
    (to_string id ++ "@" ++ (src ++ "{" ++ (dst ++ "}" ++ raw_connections m)))%string.
  repeat (apply wire_text_app; [first [done|apply to_string_wire]|]). done.
Qed.
(** ** Copies stay equal *)

Definition name_ok (delim : ascii) (n : string) : Prop := wire_text n /\ contains delim n = false /\ n <> "".

Record machine_announceable (o : rimachine) : Prop := {
  rm_name : wire_text (ri_name o) /\ ri_name o <> "";
  rm_type : wire_text (ri_type o) /\ ri_type o <> "";
  rm_sibling : if is_sequencer o then wire_text (sibling o) /\ sibling o <> "" else sibling o = "";
  rm_sorted : by_object (connection_data o);
  rm_connections : Forall connection_ok (connection_data o);
  rm_controllers : smap_ok (midi_controllers o) /\ Forall (name_ok "$") (map fst (midi_controllers o));
  rm_inputs : Forall (name_ok ":") (inputs o);
  rm_outputs : Forall (name_ok ":") (outputs o);
  rm_groups : Forall text_ok (controller_groups o)
}.

(** The copy has the position as it was printed. *)
Definition sent (o : rimachine) : rimachine :=
  with_position o (atof (double_to_string (xpos o))) (atof (double_to_string (ypos o))).
Definition machine_mirrors (o k : rimachine) : Prop := k = sent o.

Lemma listed_wire delim names : wire_text (String delim "") -> Forall (name_ok delim) names -> wire_text (list_text delim names).
Proof. intros Hd Hn. apply list_text_wire; [done|]. eapply list.Forall_impl; [exact Hn|]. by intros n (? & _). Qed.

Lemma listed_read_back delim names : contains delim "<empty>" = false -> Forall (name_ok delim) names ->
  let text := wire_value (list_text delim names) in parse_list delim (String.length text) text = Ok names.
Proof.
  intros Hd Hn. cbv zeta. unfold wire_value. destruct (String.eqb_spec (list_text delim names) "") as [He|_].
  - pose proof (list_text_length delim names) as Hl. rewrite He in Hl. destruct names; [|cbn in Hl; lia].
    unfold parse_list. cbn [String.length]. by rewrite split_at_none.
  - apply parse_listed; [|apply list_text_length]. eapply list.Forall_impl; [exact Hn|]. by intros n (_ & ? & ?).
Qed.

Lemma controllers_read_back (m : smap string unit) : smap_ok m -> fold_left (fun m c => minsert m c tt) (map fst m) [] = m.
Proof.
  intros Hok. cut (forall acc, smap_ok (acc ++ m) -> fold_left (fun m c => minsert m c tt) (map fst m) acc = acc ++ m); [intros H0; by apply (H0 [])|].
  clear Hok. induction m as [|[c []] m IH]; intros acc Hok; [by rewrite app_nil_r|]. cbn [map fst fold_left].
  rewrite (minsert_append acc c tt m) by done. rewrite IH; rewrite <- app_assoc; done.
Qed.

Lemma groups_ok names : Forall text_ok names -> ser_ok (Serializable := groups_content) names.
Proof. intros H0. eapply list.Forall_impl; [exact H0|]. by intros n. Qed.

(** The separators of the lists, as [serialize] writes an empty one. *)
Definition controllers_text (o : rimachine) : string :=
  let text := list_text "$" (map fst (midi_controllers o)) in if String.eqb text "" then "$" else text.

Lemma controllers_wire o : machine_announceable o -> wire_text (controllers_text o).
Proof.
  intros [_ _ _ _ _ [_ Hc] _ _ _]. unfold controllers_text. destruct (String.eqb _ _); [done|]. by apply listed_wire.
Qed.

Lemma machine_announced real objid o : machine_announceable o -> deliverable (create_object_message (H := machine_object real) objid o).
Proof.
  intros Ho. pose proof Ho as [[Hn _] [Ht _] Hs _ Hc _ Hi Ho' Hg]. split.
  - repeat first [apply List.Forall_cons; [by apply good_number; repeat split|]|apply List.Forall_cons; [by repeat split|]].
    do 7 (apply List.Forall_cons; [split; [by repeat split|]; cbn [snd]; first [done|by apply double_text_wire|by apply truth_wire|by apply connections_wire|by apply controllers_wire]|]).
    apply Forall_app. split; [unfold is_sequencer in *; destruct (String.eqb _ _); [constructor; [by split; [repeat split|]; destruct Hs|constructor]|constructor]|].
    do 3 (apply List.Forall_cons; [split; [by repeat split|]; cbn [snd]; first [by apply listed_wire|by apply write_one_wire, groups_ok]|]). constructor.
  - unfold create_object_message. cbn [RemoteContext.serialize type_name machine_object]. unfold machine_serialize. destruct (is_sequencer o); cbn; nodup_keys.
Qed.
(** What the pairs of an object are when they arrive. *)
Lemma machine_received real objid o : machine_announceable o ->
  new_machine_copy (received (create_object_message (H := machine_object real) objid o)) = Ok (sent o).
Proof.
  intros Ho. pose proof Ho as [[_ Hn] [_ Ht] Hs Hso Hc [Hm Hmc] Hi Hou Hg].
  set (msg := received _).
  assert (Hget : forall k v, lookup_kv (create_object_message (H := machine_object real) objid o) k = Some v -> v <> "" -> msg k = Ok v).
  { intros k v E Hv. unfold msg, received. rewrite E. unfold wire_value. by rewrite (proj2 (String.eqb_neq _ _)). }
  assert (Hraw : forall k v, lookup_kv (create_object_message (H := machine_object real) objid o) k = Some v -> msg k = Ok (wire_value v)).
  { intros k v E. unfold msg, received. by rewrite E. }
  assert (E7 : msg "mctrls" = Ok (controllers_text o)).
  { apply Hget; [done|]. unfold controllers_text. by destruct (String.eqb_spec (list_text "$" (map fst (midi_controllers o))) ""). }
  unfold new_machine_copy. rewrite (Hget "name" (ri_name o)), (Hget "type" (ri_type o)), (Hget "xpos" (double_to_string (xpos o))),
    (Hget "ypos" (double_to_string (ypos o))), (Hget "is_sink" (truth (is_sink o))) by (done || apply double_text_nonempty || by destruct (is_sink o)).
  cbn [rbind]. replace (if String.eqb (ri_type o) "MachineSequencer" then msg "sibling" else Ok "") with (Ok (sibling o)).
  2:{ fold (is_sequencer o). destruct (is_sequencer o) eqn:Es; [|by rewrite Hs]. symmetry. apply Hget; [|by destruct Hs].
      unfold create_object_message. cbn [RemoteContext.serialize machine_object]. unfold machine_serialize. by rewrite Es. }
  cbn [rbind]. rewrite (Hget "connections" (connections_text (connection_data o)));
    [|done|unfold connections_text; by destruct (String.eqb_spec (raw_connections (connection_data o)) "")].
  cbn [rbind]. rewrite connections_read_back, E7 by done. cbn [rbind].
  assert (Hmp : parse_list "$" (String.length (controllers_text o)) (controllers_text o) = Ok (map fst (midi_controllers o))).
  { unfold controllers_text. destruct (String.eqb_spec (list_text "$" (map fst (midi_controllers o))) "") as [He|Hne].
    - pose proof (list_text_length "$" (map fst (midi_controllers o))) as Hl. rewrite He in Hl. destruct (map fst (midi_controllers o)); [done|cbn in Hl; lia].
    - apply parse_listed; [|apply list_text_length]. eapply list.Forall_impl; [exact Hmc|]. by intros n (_ & ? & ?). }
  rewrite Hmp. cbn [rbind].
  assert (Hio : forall k l, lookup_kv (create_object_message (H := machine_object real) objid o) k = Some (list_text ":" l) -> Forall (name_ok ":") l -> parse_io msg k = Ok l).
  { intros k l E Hl. unfold parse_io. rewrite (Hraw k _ E). by apply listed_read_back. }
  assert (Htail : forall k v, lookup_kv (machine_serialize o) k = Some v -> k <> "id" -> k <> "new_objid" -> k <> "factory" ->
    lookup_kv (create_object_message (H := machine_object real) objid o) k = Some v).
  { intros k v E N1 N2 N3. unfold create_object_message, lookup_kv in *. cbn [List.find add_create_object_header app fst RemoteContext.serialize machine_object].
    by rewrite !(proj2 (String.eqb_neq _ _)) by congruence. }
  rewrite (Hio "inputs" (inputs o)), (Hio "outputs" (outputs o)); [|apply Htail; try done; unfold machine_serialize; by destruct (is_sequencer o)|done|apply Htail; try done; unfold machine_serialize; by destruct (is_sequencer o)|done].
  cbn [rbind]. destruct (write_one_wire groups_content _ (groups_ok _ Hg)) as [_ Hne].
  rewrite (Hget "ctrgroups" (write_one groups_content (controller_groups o))); [|apply Htail; try done; unfold machine_serialize; by destruct (is_sequencer o)|done].
  cbn [rbind]. rewrite (read_write_one groups_content _ (groups_ok _ Hg)). cbn [rbind]. rewrite controllers_read_back by done.
  f_equal. unfold sent, with_position. f_equal. by destruct (is_sink o).
Qed.
Definition machine_understood (real : real_machine) (o : rimachine) (msg : view) : Prop :=
  asks_properly msg /\ nul_free (ri_name o) = true /\
  (forall group names, get_controller_names real group = Ok names -> Forall text_ok names) /\
  forall name ctrl, get_controller real name = Ok ctrl -> nul_free ctrl = true.

Definition machine_follows (objid : Z) (o o' : rimachine) (outs : list (target * pairs)) : Prop :=
  Forall (addressed objid) outs /\ forall k, machine_mirrors o k -> exists k',
    rfold (fun k m => machine_client k (received m)) k (broadcasts outs) = Ok k' /\ machine_mirrors o' k'.

Lemma follows_nothing objid o : machine_follows objid o o [].
Proof. split; [constructor|]. intros k Hk. by exists k. Qed.

Lemma follows_machine_reply objid o o' outs msg k v : asks_properly msg -> good_key k -> k <> "id" -> k <> "repid" -> nul_free v = true ->
  then_sends o [send_reply msg [(k, v)]] = (o', outs, None) -> machine_follows objid o o' outs.
Proof.
  intros Hask Hk H1 H2 Hv [-> (out & Hr & ->)]%then_sends_one.
  assert (Hg : good_pair (k, v)).
  { apply send_reply_legal in Hr. apply List.Forall_cons_iff in Hr as [[_ Hr] _]. by split; [|split]. }
  destruct (reply_addressed objid msg k v out) as [Ha Hb]; try done. split; [by constructor|].
  intros copy Hm. rewrite Hb. by exists copy.
Qed.

(** A broadcast of the object, and what it does to a copy. *)
Lemma follows_machine_broadcast objid o o' values : 0 <= objid < 2^31 -> Forall good_pair values -> NoDup ("id" :: map fst values) ->
  machine_client (sent o) (received (("id", to_string objid) :: values)) = Ok (sent o') ->
  machine_follows objid o o' [(Everyone, ("id", to_string objid) :: values)].
Proof.
  intros Hid Hg Hnd Hc. split; [constructor; [by apply addressed_broadcast|constructor]|]. intros k ->. exists (sent o').
  split; [|done]. cbn [broadcasts flat_map fst snd app rfold]. by rewrite Hc.
Qed.

Lemma received_double kvs k d : lookup_kv kvs k = Some (double_to_string d) -> received kvs k = Ok (double_to_string d).
Proof. intros E. unfold received. rewrite E. unfold wire_value. by rewrite (proj2 (String.eqb_neq _ _)) by apply double_text_nonempty. Qed.

Lemma position_followed objid o x y : 0 <= objid < 2^31 -> wire_text (ri_name o) ->
  machine_follows objid o (with_position o x y) [(Everyone, ("id", to_string objid) :: position_values (ri_name o) x y)].
Proof.
  intros Hid Hn. apply follows_machine_broadcast; [done| |cbn; nodup_keys|].
  - do 4 (constructor; [split; [by repeat split|]; first [done|apply double_text_wire]|]). constructor.
  - unfold machine_client. rewrite (received_double _ "xpos" x), (received_double _ "ypos" y) by done. done.
Qed.

Lemma machine_server_follows real objid o msg o' outs : 0 <= objid < 2^31 -> machine_understood real o msg ->
  machine_server real objid o msg = (o', outs, None) -> machine_follows objid o o' outs.
Proof.
  intros Hid (Hask & Hn & Hnames & Hctrl). unfold machine_server.
  destruct (msg "command") as [command|]; [|discriminate].
  assert (Hsame : forall t : option exn, (o, [], t) = (o', outs, None) -> machine_follows objid o o' outs) by (intros t [= <- <- _]; apply follows_nothing).
  do 4 (case_if; [repeat case_match; by eapply Hsame|]). case_if.
  { destruct (msg "xpos") as [x|]; [|by eapply Hsame]. destruct (msg "ypos") as [y|]; [|discriminate].
    destruct (call real _); [discriminate|]. intros [-> (out & Hr & ->)]%then_sends_one.
    pose proof (send_object_legal _ _ _ Hr) as Hl. apply send_object_inv in Hr as ->.
    do 1 apply List.Forall_cons_iff in Hl as [_ Hl]. apply List.Forall_cons_iff in Hl as [[_ Hl] _].
    apply (position_followed objid o (atof x) (atof y)); [done|by split]. }
  do 2 (case_if; [repeat case_match; by eapply Hsame|]). destruct (String.eqb command "getnrloops").
  - destruct (is_sequencer o); [|by eapply Hsame]. apply follows_machine_reply; try done. apply to_string_nul_free.
  - destruct (sequencer_command command) as [read|]; [repeat case_match; by eapply Hsame|].
    case_if.
    + destruct (msg "grname") as [group|]; cbn [rbind]; [|by eapply Hsame]. destruct (msg "repid"); cbn [rbind]; [|by eapply Hsame].
      destruct (get_controller_names real group) as [names|] eqn:En; [|by eapply Hsame]. apply follows_machine_reply; try done.
      by apply write_one_wire, groups_ok, (Hnames group).
    + case_if; [|by eapply Hsame]. destruct (msg "repid"); cbn [rbind]; [|by eapply Hsame]. destruct (msg "ctrlname") as [name|]; cbn [rbind]; [|by eapply Hsame].
      destruct (get_controller real name) as [ctrl|] eqn:En; [|by eapply Hsame]. apply follows_machine_reply; try done. by apply (Hctrl name).
Qed.
Definition machine_replicated (real : Z -> real_machine) : @ReplicatedObject rimachine rimachine (machine_object real).
Proof.
  refine (@Build_ReplicatedObject rimachine rimachine (machine_object real) machine_mirrors machine_announceable
    (fun o msg => forall objid, machine_understood (real objid) o msg) _ _ _ _).
  - discriminate.
  - intros objid o. apply machine_announced.
  - intros objid o Ho. exists (sent o). split; [|done]. cbn [create_and_register type_name machine_object].
    unfold create_machine_copy. rewrite String.eqb_refl. f_equal. by apply machine_received.
  - intros objid o msg o' outs Hid Hu. by apply machine_server_follows.
Defined.

(** ** Actions of the server *)

Lemma received_connection objid command e : connection_ok e ->
  get_connection (received (("id", to_string objid) :: connection_values command e)) = Ok e.
Proof.
  intros [Hid (_ & Ho & _) (_ & Hi & _)]. unfold get_connection. rewrite (received_number _ "s_objid" (fst e)) by done. cbn [rbind].
  unfold received. cbn. unfold wire_value. rewrite !(proj2 (String.eqb_neq _ _)) by done. cbn. by destruct e as [? []].
Qed.

Lemma connection_values_good command e : wire_text command -> connection_ok e -> Forall good_pair (connection_values command e).
Proof.
  intros Hc [_ (Ho & _) (Hi & _)]. constructor; [by split; [repeat split|]|]. constructor; [by apply good_number|].
  do 2 (constructor; [by split; [repeat split|]|]). constructor.
Qed.

(** A connection that is made or taken away is so in every copy. *)
Lemma attach_followed objid o e : 0 <= objid < 2^31 -> connection_ok e ->
  machine_follows objid o (fst (attach_input e o)) (told objid (snd (attach_input e o))).
Proof.
  intros Hid He. apply follows_machine_broadcast; [done|by apply connection_values_good|cbn; nodup_keys|].
  unfold machine_client. rewrite received_connection by done. done.
Qed.

Lemma detach_followed objid o e : 0 <= objid < 2^31 -> connection_ok e ->
  machine_follows objid o (fst (detach_input e o)) (told objid (snd (detach_input e o))).
Proof.
  intros Hid He. apply follows_machine_broadcast; [done|by apply connection_values_good|cbn; nodup_keys|].
  unfold machine_client. rewrite received_connection by done. done.
Qed.
End machines.
