(* ===== verification/Controller.v ===== *)
(** * Controllers of machines (class [Machine::Controller], machine.cc)

    A controller is a typed view of a value in the memory of a machine, through a [void *]: an
    integer, a flag, a floating point number or a text, with the bounds it keeps. Memory is bytes
    by their addresses, so that a value that is read as another type than it was written is what
    its bytes say. The floating point types of C are parameters. *)

From Stdlib Require Import ZArith Lia Ascii String List.
From stdpp Require Import base list strings numbers option gmap.
From S2P Require Import Prelude CxxString StdMap Serialize RemoteMachine.
Local Open Scope string_scope.
Local Open Scope list_scope.
Local Open Scope Z_scope.
Local Open Scope vk_scope.

(** The C library's [float], its arithmetic and its text, and how both floating types and the
    fixed point type of the signals ([FTYPE]) lie in memory. Printing six digits, as streams do,
    is stable: what was printed and read prints the same. *)
Class CFloat `{CDouble} : Type := {
  float : Type;
  float_zero : float;
  float_one : float;
  float_to_string : float -> string;
  stof : string -> float;
  float_extract : string -> float;
  float_le : float -> float -> bool;
  double_le : double -> double -> bool;
  widen : float -> double;
  tenth_of_range : float -> float -> float;
  tenth_of_range_d : float -> float -> float;
  float_bytes : float -> list Z;
  float_of : list Z -> float;
  double_bytes : double -> list Z;
  double_of : list Z -> double;
  FTYPE_bytes : float -> list Z;
  FTYPE_of : list Z -> float;
  float_bytes_length f : List.length (float_bytes f) = 4%nat;
  double_bytes_length d : List.length (double_bytes d) = 8%nat;
  FTYPE_bytes_length f : List.length (FTYPE_bytes f) = 4%nat;
  float_of_bytes f : float_of (float_bytes f) = f;
  double_of_bytes d : double_of (double_bytes d) = d;
  float_text f : nul_free (float_to_string f) = true /\ contains ";" (float_to_string f) = false /\ contains "=" (float_to_string f) = false /\ float_to_string f <> "";
  float_text_stable f : float_to_string (stof (float_to_string f)) = float_to_string f;
  double_text_stable d : double_to_string (atof (double_to_string d)) = double_to_string d
}.

(** ** Memory *)

Abbreviation memory := (gmap Z Z).

Fixpoint load (m : memory) (p : Z) (n : nat) : result (list Z) :=
  match n with
  | O => Ok []
  | S n => match m !! p with
           | None => Err (UndefinedBehaviour "read outside the machine")
           | Some b => let! bytes := load m (p + 1) n in Ok (b :: bytes)
           end
  end.

Fixpoint store (m : memory) (p : Z) (bytes : list Z) : result memory :=
  match bytes with
  | [] => Ok m
  | b :: bytes => match m !! p with
                  | None => Err (UndefinedBehaviour "write outside the machine")
                  | Some _ => store (<[p := b]> m) (p + 1) bytes
                  end
  end.

Definition mapped (m : memory) (p : Z) (n : nat) : Prop := forall a, p <= a < p + Z.of_nat n -> is_Some (m !! a).

Lemma mapped_cons m p n : mapped m p (S n) <-> is_Some (m !! p) /\ mapped m (p + 1) n.
Proof.
  unfold mapped. split.
  - intros H. split; [apply H; lia|]. intros a Ha. apply H. lia.
  - intros [H1 H2] a Ha. destruct (Z.eq_dec a p) as [->|]; [done|]. apply H2. lia.
Qed.

Lemma mapped_less m p n n' : (n' <= n)%nat -> mapped m p n -> mapped m p n'.
Proof. intros Hn H a Ha. apply H. lia. Qed.

Lemma mapped_load m p n : mapped m p n -> exists bytes, load m p n = Ok bytes /\ List.length bytes = n.
Proof.
  revert p. induction n as [|n IH]; intros p Hm; [by exists []|]. apply mapped_cons in Hm as [[b Hb] Hm].
  destruct (IH (p + 1) Hm) as (l & E & Hl). exists (b :: l). cbn. rewrite Hb, E. cbn. by rewrite Hl.
Qed.

(** A block of memory written at [p], everything else as it was. *)
Record written (m : memory) (p : Z) (bytes : list Z) (m' : memory) : Prop := {
  written_there : load m' p (List.length bytes) = Ok bytes;
  written_only a : ~ (p <= a < p + Z.of_nat (List.length bytes)) -> m' !! a = m !! a;
  written_mapped a : is_Some (m' !! a) <-> is_Some (m !! a)
}.

Lemma load_agree m m' n : forall p, (forall a, p <= a < p + Z.of_nat n -> m' !! a = m !! a) -> load m' p n = load m p n.
Proof.
  induction n as [|n IH]; intros p Ha; [done|]. cbn. rewrite Ha by lia. destruct (m !! p); [|done].
  rewrite IH; [done|]. intros a Hin. apply Ha. lia.
Qed.

Lemma store_written bytes : forall m p, mapped m p (List.length bytes) -> exists m', store m p bytes = Ok m' /\ written m p bytes m'.
Proof.
  induction bytes as [|b bytes IH]; intros m p Hm; [by exists m|]. cbn [List.length] in Hm. apply mapped_cons in Hm as [[b0 Hb] Hm].
  assert (forall a, is_Some (<[p := b]> m !! a) <-> is_Some (m !! a)) as Hdom.
  { intros a. destruct (Z.eq_dec p a) as [->|Hne]; [rewrite lookup_insert_eq, Hb; by split; eexists|by rewrite lookup_insert_ne]. }
  destruct (IH (<[p := b]> m) (p + 1)) as (m' & E & [W1 W2 W3]).
  { intros a Ha. apply Hdom. by apply Hm. }
  exists m'. cbn [store]. rewrite Hb. split; [done|]. split.
  - cbn [List.length load]. rewrite W2, lookup_insert_eq by lia. by rewrite W1.
  - intros a Ha. cbn [List.length] in Ha. rewrite W2 by lia. apply lookup_insert_ne. lia.
  - intros a. by rewrite W3.
Qed.

Lemma written_mapped_block m p bytes m' q n : written m p bytes m' -> mapped m q n -> mapped m' q n.
Proof. intros W Hm a Ha. apply (written_mapped _ _ _ _ W). by apply Hm. Qed.

(** An [int], of four bytes, the lowest first. *)
Definition int_bytes (v : Z) : list Z := let u := u32 v in
  [Z.land u 255; Z.land (Z.shiftr u 8) 255; Z.land (Z.shiftr u 16) 255; Z.land (Z.shiftr u 24) 255].
Definition int_of (bytes : list Z) : Z := i32 (fold_right (fun b v => b + 256 * v) 0 bytes).

Lemma int_of_bytes v : in_i32 v -> int_of (int_bytes v) = v.
Proof.
  intros Hv. unfold int_of, int_bytes. cbn [fold_right]. set (u := u32 v).
  assert (0 <= u < 2^32) as Hu by (unfold u, u32; apply Z.mod_pos_bound; lia).
  change 255 with (Z.ones 8). rewrite !Z.land_ones, !Z.shiftr_div_pow2 by lia.
  assert (u mod 2^8 + 256 * ((u / 2^8) mod 2^8 + 256 * ((u / 2^16) mod 2^8 + 256 * ((u / 2^24) mod 2^8 + 256 * 0))) = u) as ->.
  { change (2^8) with 256. change (2^16) with 65536. change (2^24) with 16777216. change (2^32) with 4294967296 in Hu.
    Z.to_euclidean_division_equations. lia. }
  unfold u, i32, u32, in_i32 in *. rewrite Zplus_mod_idemp_l, Z.mod_small by lia. lia.
Qed.

(** ** Controllers *)

(* @src src_jni/machine.hh:139-147 Machine::Controller::Type *)
Inductive controller_type : Type := c_int | c_float | c_double | c_bool | c_string | c_enum | c_sigid.

#[export] Instance controller_type_eq_dec : EqDecision controller_type.
Proof. solve_decision. Defined.

(* @src src_jni/machine.hh:152-153 Machine::Controller *)
Definition sc_special_first : Z := 1024.
Definition sc_special_last : Z := 1024.

(* @src src_jni/dynlib/dynlib.h:76-76 STRING_CONTROLLER_SIZE *)
Definition STRING_CONTROLLER_SIZE : Z := 2048.

(** [strncpy(str, val.c_str(), STRING_CONTROLLER_SIZE)]: what is short is filled up with zeros, and
    what is long has no end. *)
Definition strncpy_bytes (val : string) : list Z :=
  let n := Z.to_nat STRING_CONTROLLER_SIZE in
  let text := take n (map byte_of (list_ascii_of_string (c_str val))) in
  text ++ repeat 0 (n - List.length text).

Lemma strncpy_length val : List.length (strncpy_bytes val) = Z.to_nat STRING_CONTROLLER_SIZE.
Proof. unfold strncpy_bytes. rewrite length_app, repeat_length, length_take. lia. Qed.

(** Nothing but spaces: what [istringstream >> x] leaves [x] untouched for. *)
Definition blank (s : string) : bool := String.eqb (skip_spaces s) "".

(** [istringstream >> int]: a text that is no number gives zero, one out of range the bound. *)
Definition extract_int (s : string) : Z := stoi s.

(** A text that is sent as it is. *)
Definition text_field (s : string) : Prop := nul_free s = true /\ s <> "".

Section controllers.
Context `{CFloat}.

(** The bounds of a [double] are kept in [float]s. *)
(* @src src_jni/machine.hh:162-175 Machine::Controller *)
Record controller : Type := Controller {
  ct_name : string;
  ct_title : string;
  ctype : controller_type;
  ptr : Z;
  min_i : Z; max_i : Z; step_i : Z;
  min_f : float; max_f : float; step_f : float;
  min_d : float; max_d : float; step_d : float;
  float_is_FTYPE : bool;
  enumnames : smap Z string;
  has_midi_ctrl : bool;
  coarse_controller : Z;
  fine_controller : Z
}.

Definition with_midi (c : controller) (has : bool) (coarse fine : Z) : controller :=
  Controller (ct_name c) (ct_title c) (ctype c) (ptr c) (min_i c) (max_i c) (step_i c) (min_f c) (max_f c) (step_f c)
    (min_d c) (max_d c) (step_d c) (float_is_FTYPE c) (enumnames c) has coarse fine.

(** A bound from its text, if the type has it; a stream that holds nothing but spaces leaves the
    number as it was. *)
Definition bound {A} (text : string) (has : bool) (extract : string -> A) (default : A) : A :=
  if negb (blank text) && has then extract text else default.

(* @src src_jni/machine.cc:84-163 Machine::Controller::Controller *)
Definition new_controller (tp : controller_type) (name title : string) (p : Z) (min max step : string)
    (names : smap Z string) (is_FTYPE : bool) : controller :=
  let ints := bool_decide (tp = c_int) || bool_decide (tp = c_enum) in
  let floats := bool_decide (tp = c_float) in
  let doubles := bool_decide (tp = c_double) in
  let lo_i := bound min ints extract_int (-32768) in
  let lo_f := bound min floats float_extract float_zero in
  let lo_d := bound min doubles float_extract float_zero in
  let hi_i := bound max ints extract_int 32767 in
  let hi_f := bound max floats float_extract float_one in
  let hi_d := bound max doubles float_extract float_one in
  let st_f := bound step floats float_extract (tenth_of_range hi_f lo_f) in
  let st_d := bound step doubles float_extract (tenth_of_range_d hi_d lo_d) in
  let st_i := bound step (negb (floats || doubles)) extract_int 1 in
  let sigid := bool_decide (tp = c_sigid) in
  Controller name title tp p (if sigid then 0 else lo_i) (if sigid then 255 else hi_i) st_i lo_f hi_f st_f lo_d hi_d st_d
    is_FTYPE names false (-1) (-1).

(* @src src_jni/machine.cc:165-190 Machine::Controller::set_midi_controller *)
Definition set_midi_controller (c : controller) (coarse fine : Z) : result controller :=
  if has_midi_ctrl c then Err (JException "Controller already mapped to MIDI controller!")
  else
    let coarse_ok := ((0 <=? coarse) && (coarse <? 128)) || ((sc_special_first <=? coarse) && (coarse <=? sc_special_last)) in
    if negb coarse_ok || (negb (fine =? -1) && ((fine <? -1) || (127 <? fine))) || (coarse =? fine)
    then Err (JException "Trying to set illegal MIDI controller values.")
    else Ok (with_midi c true coarse fine).

(** What the two references become, from what they were. *)
(* @src src_jni/machine.cc:398-412 Machine::Controller::has_midi_controller *)
Definition has_midi_controller (c : controller) (coarse fine : Z) : result (bool * (Z * Z)) :=
  if has_midi_ctrl c then
    if ((coarse_controller c <? 0) || (127 <? coarse_controller c)) &&
       ((coarse_controller c <? sc_special_first) || (sc_special_last <? coarse_controller c))
    then Err (JException "BUG! Midi controller erronous!")
    else Ok (true, (coarse_controller c, if (0 <=? fine_controller c) && (fine_controller c <? 128) then fine_controller c else fine))
  else Ok (false, (coarse, fine)).

(** *** Values, as the type that is asked for *)

(* @src src_jni/machine.cc:240-242 Machine::Controller::internal_get_value(int&) *)
Definition get_value_int (c : controller) (m : memory) : result Z :=
  let! bytes := load m (ptr c) 4 in Ok (int_of bytes).
(* @src src_jni/machine.cc:244-249 Machine::Controller::internal_get_value(float&) *)
Definition get_value_float (c : controller) (m : memory) : result float :=
  let! bytes := load m (ptr c) 4 in Ok (if float_is_FTYPE c then FTYPE_of bytes else float_of bytes).
(* @src src_jni/machine.cc:251-253 Machine::Controller::internal_get_value(double&) *)
Definition get_value_double (c : controller) (m : memory) : result double :=
  let! bytes := load m (ptr c) 8 in Ok (double_of bytes).
(* @src src_jni/machine.cc:255-259 Machine::Controller::internal_get_value(bool&) *)
Definition get_value_bool (c : controller) (m : memory) : result bool :=
  let! k := get_value_int c m in Ok (negb (k =? 0)).
(** The text is assigned one character. *)
(* @src src_jni/machine.cc:261-263 Machine::Controller::internal_get_value(std::string&) *)
Definition get_value_string (c : controller) (m : memory) : result string :=
  let! bytes := load m (ptr c) 1 in Ok (string_of_list_ascii (map of_byte bytes)).

(* @src src_jni/machine.cc:265-268 Machine::Controller::internal_set_value(int) *)
Definition set_value_int (c : controller) (val : Z) (m : memory) : result memory :=
  if (min_i c <=? val) && (val <=? max_i c) then store m (ptr c) (int_bytes val) else Ok m.
(* @src src_jni/machine.cc:270-277 Machine::Controller::internal_set_value(float) *)
Definition set_value_float (c : controller) (val : float) (m : memory) : result memory :=
  if float_le (min_f c) val && float_le val (max_f c)
  then store m (ptr c) (if float_is_FTYPE c then FTYPE_bytes val else float_bytes val) else Ok m.
(* @src src_jni/machine.cc:279-283 Machine::Controller::internal_set_value(double) *)
Definition set_value_double (c : controller) (val : double) (m : memory) : result memory :=
  if double_le (widen (min_d c)) val && double_le val (widen (max_d c)) then store m (ptr c) (double_bytes val) else Ok m.
(* @src src_jni/machine.cc:285-287 Machine::Controller::internal_set_value(bool) *)
Definition set_value_bool (c : controller) (val : bool) (m : memory) : result memory :=
  store m (ptr c) (int_bytes (if val then -1 else 0)).
(* @src src_jni/machine.cc:289-292 Machine::Controller::internal_set_value(std::string) *)
Definition set_value_string (c : controller) (val : string) (m : memory) : result memory :=
  store m (ptr c) (strncpy_bytes val).

(** [signal_name] is the name of the signal of a number, if one is loaded. *)
(* @src src_jni/machine.cc:334-356 Machine::Controller::get_value_name *)
Definition get_value_name (signal_name : Z -> option string) (c : controller) (val : Z) : result string :=
  match ctype c with
  | c_sigid => Ok ("[" ++ to_string val ++ "] " ++ match signal_name val with Some n => n | None => "no file loaded" end)%string
  | _ => match mfind (enumnames c) val with
         | None => Err (JException "Value out of range for enum.")
         | Some n => Ok n
         end
  end.

(** ** A value of the controller's own type *)

Inductive value : Type := VInt (v : Z) | VFloat (v : float) | VDouble (v : double) | VBool (v : bool) | VString (v : string).

Definition of_type (tp : controller_type) (v : value) : Prop :=
  match tp, v with
  | (c_int | c_enum | c_sigid), VInt v => in_i32 v
  | c_float, VFloat _ | c_double, VDouble _ | c_bool, VBool _ | c_string, VString _ => True
  | _, _ => False
  end.

Definition set_value (c : controller) (v : value) (m : memory) : result memory :=
  match v with
  | VInt v => set_value_int c v m
  | VFloat v => set_value_float c v m
  | VDouble v => set_value_double c v m
  | VBool v => set_value_bool c v m
  | VString v => set_value_string c v m
  end.

Definition get_value (c : controller) (m : memory) : result value :=
  match ctype c with
  | c_int | c_enum | c_sigid => rmap VInt (get_value_int c m)
  | c_float => rmap VFloat (get_value_float c m)
  | c_double => rmap VDouble (get_value_double c m)
  | c_bool => rmap VBool (get_value_bool c m)
  | c_string => rmap VString (get_value_string c m)
  end.

(** The bytes a controller has. *)
Definition size_of (c : controller) : nat :=
  match ctype c with c_double => 8 | c_string => Z.to_nat STRING_CONTROLLER_SIZE | _ => 4 end.

(** Whether a value is within the bounds. *)
Definition accepts (c : controller) (v : value) : bool :=
  match v with
  | VInt v => (min_i c <=? v) && (v <=? max_i c)
  | VFloat v => float_le (min_f c) v && float_le v (max_f c)
  | VDouble v => double_le (widen (min_d c)) v && double_le v (widen (max_d c))
  | _ => true
  end.

(** What a value is when it was stored: fixed point numbers are rounded, a text is its first
    character. *)
Definition as_stored (c : controller) (v : value) : value :=
  match v with
  | VFloat v => VFloat (if float_is_FTYPE c then FTYPE_of (FTYPE_bytes v) else v)
  | VString v => VString (String (match c_str v with String a _ => a | EmptyString => NUL end) "")
  | _ => v
  end.

Definition in_memory (c : controller) (m : memory) : Prop := mapped m (ptr c) (size_of c).

Definition value_bytes (c : controller) (v : value) : list Z :=
  match v with
  | VInt v => int_bytes v
  | VFloat v => if float_is_FTYPE c then FTYPE_bytes v else float_bytes v
  | VDouble v => double_bytes v
  | VBool v => int_bytes (if v then -1 else 0)
  | VString v => strncpy_bytes v
  end.

Lemma value_bytes_length c v : of_type (ctype c) v -> List.length (value_bytes c v) = size_of c.
Proof.
  unfold of_type, size_of. destruct (ctype c), v; try done; intros _; cbn [value_bytes];
    first [done|by apply double_bytes_length|by apply strncpy_length|destruct (float_is_FTYPE c); [apply FTYPE_bytes_length|apply float_bytes_length]].
Qed.

Lemma set_value_stores c v m : set_value c v m = if accepts c v then store m (ptr c) (value_bytes c v) else Ok m.
Proof. by destruct v. Qed.

Lemma load_less m n n' : (n' <= n)%nat -> forall p bytes, load m p n = Ok bytes -> load m p n' = Ok (take n' bytes).
Proof.
  revert n'. induction n as [|n IH]; intros n' Hn p bytes E; [destruct n'; [by destruct bytes|lia]|].
  destruct n' as [|n']; [by destruct bytes|]. cbn in E. destruct (m !! p) as [b|] eqn:Eb; [|done]. inv_bind E. injection E as <-.
  cbn. rewrite Eb. by rewrite (IH n' ltac:(lia) (p + 1) x Hx).
Qed.

Lemma strncpy_first v : take 1 (strncpy_bytes v) = [match c_str v with String a _ => byte_of a | EmptyString => 0 end].
Proof.
  unfold strncpy_bytes. assert (exists n, Z.to_nat STRING_CONTROLLER_SIZE = S n) as [n ->] by (exists 2047%nat; unfold STRING_CONTROLLER_SIZE; lia).
  by destruct (c_str v).
Qed.

(** A value within the bounds is stored, and read back as it is in memory; no other byte changes. *)
Lemma set_then_get c v m : of_type (ctype c) v -> in_memory c m -> accepts c v = true ->
  exists m', set_value c v m = Ok m' /\ written m (ptr c) (value_bytes c v) m' /\ get_value c m' = Ok (as_stored c v).
Proof.
  intros Ht Hm Ha. pose proof (value_bytes_length c v Ht) as Hl. rewrite set_value_stores, Ha.
  destruct (store_written (value_bytes c v) m (ptr c)) as (m' & E & W); [by rewrite Hl|]. exists m'. split; [done|]. split; [done|].
  pose proof (written_there _ _ _ _ W) as Hr. rewrite Hl in Hr. unfold get_value, get_value_int, get_value_float, get_value_double, get_value_bool, get_value_string, get_value_int.
  unfold size_of in Hr. destruct (ctype c), v; try done; cbn [value_bytes as_stored] in *; unfold rmap;
    try (rewrite Hr; cbn [rbind]; by rewrite ?int_of_bytes, ?double_of_bytes by done).
  - rewrite Hr. cbn [rbind]. by destruct (float_is_FTYPE c); rewrite ?float_of_bytes.
  - rewrite Hr. cbn [rbind]. by destruct v.
  - apply (load_less _ _ 1) in Hr; [|unfold STRING_CONTROLLER_SIZE; lia]. rewrite Hr, strncpy_first. cbn [rbind map string_of_list_ascii].
    destruct (c_str v); [done|]. by rewrite of_byte_byte_of.
Qed.

(** A value out of the bounds changes nothing. *)
Lemma set_rejected c v m : accepts c v = false -> set_value c v m = Ok m.
Proof. rewrite set_value_stores. by intros ->. Qed.

(** Asking for a number that a mapping does not have is the only way [set_midi_controller] leaves a
    controller that [has_midi_controller] complains about. *)
Lemma midi_set_read c coarse fine c' : has_midi_ctrl c = false -> set_midi_controller c coarse fine = Ok c' ->
  has_midi_controller c' (-1) (-1) = Ok (true, (coarse, fine)) /\ (0 <= coarse < 128 \/ coarse = 1024) /\ -1 <= fine < 128.
Proof.
  unfold set_midi_controller. intros ->. destruct (negb _ || _ || _) eqn:E; [done|]. intros [= <-].
  unfold has_midi_controller, sc_special_first, sc_special_last in *. cbn [has_midi_ctrl coarse_controller fine_controller with_midi].
  apply orb_false_iff in E as [E E3]. apply orb_false_iff in E as [E1 E2]. zbool.
  assert (0 <= coarse < 128 \/ coarse = 1024) as Hc by (destruct (Z.leb_spec 0 coarse), (Z.ltb_spec coarse 128), (Z.leb_spec 1024 coarse), (Z.leb_spec coarse 1024); cbn in E1; try done; lia).
  assert (-1 <= fine < 128) as Hf by (destruct (Z.eqb_spec fine (-1)), (Z.ltb_spec fine (-1)), (Z.ltb_spec 127 fine); cbn in E2; try done; lia).
  assert (((coarse <? 0) || (127 <? coarse)) && ((coarse <? 1024) || (1024 <? coarse)) = false) as ->
    by (destruct (Z.ltb_spec coarse 0), (Z.ltb_spec 127 coarse), (Z.ltb_spec coarse 1024), (Z.ltb_spec 1024 coarse); cbn; try done; lia).
  split; [|done]. destruct (Z.leb_spec 0 fine), (Z.ltb_spec fine 128); cbn; try done; repeat f_equal; lia.
Qed.
End controllers.
