(* ===== verification/RemoteController.v ===== *)
(** * Controllers over the remote interface (class [RIMachine::RIController], remote_interface.cc)

    A client asks for a controller of a machine by its name and gets a copy with the bounds and the
    value of that moment, and the number the server has filed the controller under for this
    client. Setting a value on the copy sends it to the server, which hands it to the filed
    controller. *)

From Stdlib Require Import ZArith Lia Ascii String List.
From stdpp Require Import base list strings numbers option gmap.
From S2P Require Import Prelude CxxString StdMap Common Serialize Message Sequence RemoteContext SequenceObject GlobalControl RemoteMachine Controller.
Local Open Scope string_scope.
Local Open Scope list_scope.
Local Open Scope Z_scope.
Local Open Scope vk_scope.

(* @src src_jni/remote_interface.hh:922-930 RIMachine::RIController::Type *)
Definition ric_int : Z := 0.
Definition ric_float : Z := 1.
Definition ric_bool : Z := 2.
Definition ric_string : Z := 3.
Definition ric_enum : Z := 4.
Definition ric_sigid : Z := 5.
Definition ric_double : Z := 6.

Section remote.
Context `{CFloat}.

(** The union; a copy of a flag or a text leaves it as it is. *)
(* @src src_jni/remote_interface.hh:987-1000 RIMachine::RIController::data *)
Inductive ri_data : Type :=
| DataFloat (min max step value : float)
| DataDouble (min max step value : double)
| DataInt (min max step value : Z)
| DataUnset.

(* @src src_jni/remote_interface.hh:982-1007 RIMachine::RIController *)
Record ri_controller : Type := RIController {
  rc_id : Z;
  rc_name : string;
  rc_title : string;
  rc_type : Z;
  rc_data : ri_data;
  str_data : string;
  bl_data : bool;
  enum_names : smap Z string;
  rc_coarse : Z;
  rc_fine : Z
}.

(** ** On the server *)

(* @src src_jni/remote_interface.cc:1513-1537 RIMachine::RIController::RIController *)
Definition ric_type (tp : controller_type) : Z :=
  match tp with
  | c_int => ric_int
  | c_float => ric_float
  | c_bool => ric_bool
  | c_string => ric_string
  | c_enum => ric_enum
  | c_sigid => ric_sigid
  | c_double => ric_double
  end.

(** [for(auto k = min; k <= max; k += step)]: without a step it does not end. *)
(* @src src_jni/remote_interface.cc:1555-1559 RIMachine::RIController::RIController *)
Fixpoint name_values (fuel : nat) (value_name : Z -> result string) (k max step : Z) (names : smap Z string) : result (smap Z string) :=
  match fuel with
  | O => Err OutOfFuel
  | S fuel =>
      if k <=? max then
        let! n := value_name k in
        let names := mset names k n in
        if 2^31 <=? k + step then Err (UndefinedBehaviour "signed overflow")
        else name_values fuel value_name (k + step) max step names
      else Ok names
  end.

(** Every kind is read as a text, a flag, and a number that it may not be. *)
(* @src src_jni/remote_interface.cc:1509-1566 RIMachine::RIController::RIController *)
Definition new_ri_controller (signal_name : Z -> option string) (id : Z) (c : controller) (m : memory) : result ri_controller :=
  let! data := match ctype c with
               | c_float => let! v := get_value_float c m in Ok (DataFloat (min_f c) (max_f c) (step_f c) v)
               | c_double => let! v := get_value_double c m in Ok (DataDouble (widen (min_d c)) (widen (max_d c)) (widen (step_d c)) v)
               | _ => let! v := get_value_int c m in Ok (DataInt (min_i c) (max_i c) (step_i c) v)
               end in
  let! names := match ctype c with
                | c_enum => name_values (S (Z.to_nat (max_i c - min_i c + 1))) (get_value_name signal_name c) (min_i c) (max_i c) (step_i c) []
                | _ => Ok []
                end in
  let! s := get_value_string c m in
  let! b := get_value_bool c m in
  let! (_, (coarse, fine)) := has_midi_controller c (-1) (-1) in
  Ok (RIController id (ct_name c) (ct_title c) (ric_type (ctype c)) data s b names coarse fine).

(** ** Over the wire *)

(* @src src_jni/serialize.hh:66-68 ItemSerializer::process(float) *)
Definition float_serializable : Serializable float.
Proof.
  refine (scalar "float" float_to_string (fun s => Ok (stof s)) (fun f => stof (float_to_string f) = f) _ _ _ _).
  - by split.
  - intros f _. split; apply float_text.
  - by intros f ->.
  - done.
Defined.

(* @src src_jni/serialize.hh:70-72 ItemSerializer::process(double) *)
Definition double_serializable : Serializable double.
Proof.
  refine (scalar "double" double_to_string (fun s => Ok (atof s)) (fun d => atof (double_to_string d) = d) _ _ _ _).
  - by split.
  - intros d _. by destruct (double_text_wire d) as (? & ? & _).
  - by intros d ->.
  - done.
Defined.

Abbreviation int := int_serializable.
Definition four {A} (S : Serializable A) : Serializable (A * (A * (A * A))) := fields_pair S (fields_pair S (fields_pair S S)).
Definition midi_fields : Serializable (Z * Z) := fields_pair int int.

(** What comes behind the kind. *)
Record ri_rest : Type := Rest { r_data : ri_data; r_str : string; r_bool : bool; r_names : smap Z string; r_midi : Z * Z }.

Definition rest_plain (midi : Z * Z) : ri_rest := Rest DataUnset "" false [] midi.
Definition int_rest (names : smap Z string) (d : Z * (Z * (Z * Z))) (midi : Z * Z) : ri_rest :=
  let '(a, (b, (c, v))) := d in Rest (DataInt a b c v) "" false names midi.

Definition ints_of (d : ri_data) : Z * (Z * (Z * Z)) := match d with DataInt a b c v => (a, (b, (c, v))) | _ => (0, (0, (0, 0))) end.
Definition floats_of (d : ri_data) : float * (float * (float * float)) :=
  match d with DataFloat a b c v => (a, (b, (c, v))) | _ => (float_zero, (float_zero, (float_zero, float_zero))) end.
Definition doubles_of (d : ri_data) : double * (double * (double * double)) :=
  match d with DataDouble a b c v => (a, (b, (c, v))) | _ => let z := widen float_zero in (z, (z, (z, z))) end.

Section kinds.
Context {A : Type} (S : Serializable A) (make : A -> ri_rest) (fields : ri_rest -> A).

(** One kind's fields. *)
Definition kind : Serializable ri_rest.
Proof.
  refine (fields_part S make fields (fun r => ser_ok (fields r) /\ make (fields r) = r) _). by intros r Hr.
Defined.
End kinds.

(** The switch of [serderize_controller], and what comes behind it. *)
(* @src src_jni/remote_interface.cc:1590-1629 RIMachine::RIController::serderize_controller *)
Definition rest_serializable (t : Z) : Serializable ri_rest :=
  if t =? ric_float then
    kind (fields_pair (four float_serializable) midi_fields)
      (fun p => let '((a, (b, (c, v))), midi) := p in Rest (DataFloat a b c v) "" false [] midi) (fun r => (floats_of (r_data r), r_midi r))
  else if t =? ric_double then
    kind (fields_pair (four double_serializable) midi_fields)
      (fun p => let '((a, (b, (c, v))), midi) := p in Rest (DataDouble a b c v) "" false [] midi) (fun r => (doubles_of (r_data r), r_midi r))
  else if (t =? ric_int) || (t =? ric_sigid) then
    kind (fields_pair (four int) midi_fields) (fun p => int_rest [] (fst p) (snd p)) (fun r => (ints_of (r_data r), r_midi r))
  else if t =? ric_enum then
    kind (fields_pair (four int) (fields_pair (map_serializable int string_serializable) midi_fields))
      (fun p => int_rest (fst (snd p)) (fst p) (snd (snd p))) (fun r => (ints_of (r_data r), (r_names r, r_midi r)))
  else if t =? ric_bool then
    kind (fields_pair bool_serializable midi_fields) (fun p => Rest DataUnset "" (fst p) [] (snd p)) (fun r => (r_bool r, r_midi r))
  else if t =? ric_string then
    kind (fields_pair string_serializable midi_fields) (fun p => Rest DataUnset (fst p) false [] (snd p)) (fun r => (r_str r, r_midi r))
  else kind midi_fields rest_plain r_midi.

Definition header : Serializable (Z * (string * (string * Z))) :=
  fields_pair int (fields_pair string_serializable (fields_pair string_serializable int)).

(* @src src_jni/remote_interface.cc:1582-1630 RIMachine::RIController::serderize_controller *)
Definition ri_serializable : Serializable ri_controller :=
  fields_struct (fields_then header (fun h => rest_serializable (snd (snd (snd h)))))
    (fun p => let '((id, (name, (title, t))), r) := p in
              RIController id name title t (r_data r) (r_str r) (r_bool r) (r_names r) (fst (r_midi r)) (snd (r_midi r)))
    (fun c => ((rc_id c, (rc_name c, (rc_title c, rc_type c))),
               Rest (rc_data c) (str_data c) (bl_data c) (enum_names c) (rc_coarse c, rc_fine c)))
    (fun c => match c with RIController _ _ _ _ _ _ _ _ _ _ => eq_refl end).

(* @src src_jni/remote_interface.cc:1576-1580 RIMachine::RIController::get_serialized_controller *)
Definition get_serialized_controller (c : ri_controller) : string := write_one ri_serializable c.

(* @src src_jni/remote_interface.cc:1568-1574 RIMachine::RIController::RIController *)
Definition read_ri_controller (serialized : string) : result ri_controller := read_one ri_serializable serialized.

(** *** What a client reads *)

(** Numbers as they were printed. *)
Definition printed_f (f : float) : float := stof (float_to_string f).
Definition printed_d (d : double) : double := atof (double_to_string d).

Lemma printed_f_stable f : stof (float_to_string (printed_f f)) = printed_f f.
Proof. unfold printed_f. by rewrite float_text_stable. Qed.
Lemma printed_d_stable d : atof (double_to_string (printed_d d)) = printed_d d.
Proof. unfold printed_d. by rewrite double_text_stable. Qed.

Definition printed_data (d : ri_data) : ri_data :=
  match d with
  | DataFloat a b c v => DataFloat (printed_f a) (printed_f b) (printed_f c) (printed_f v)
  | DataDouble a b c v => DataDouble (printed_d a) (printed_d b) (printed_d c) (printed_d v)
  | _ => d
  end.

(** The fields that the kind does not have are as the constructor leaves them. *)
Definition as_received (tp : controller_type) (c : ri_controller) : ri_controller :=
  let with_rest data s b names := RIController (rc_id c) (rc_name c) (rc_title c) (rc_type c) data s b names (rc_coarse c) (rc_fine c) in
  match tp with
  | c_int | c_sigid | c_float | c_double => with_rest (printed_data (rc_data c)) "" false []
  | c_enum => with_rest (rc_data c) "" false (enum_names c)
  | c_bool => with_rest DataUnset "" (bl_data c) []
  | c_string => with_rest DataUnset (str_data c) false []
  end.

Definition ints_ok (d : ri_data) : Prop :=
  match d with DataInt a b c v => in_i32 a /\ in_i32 b /\ in_i32 c /\ in_i32 v | _ => False end.

(** What can be sent. *)
Record ri_ok (tp : controller_type) (c : ri_controller) : Prop := {
  ri_ok_id : in_i32 (rc_id c);
  ri_ok_name : text_field (rc_name c);
  ri_ok_title : text_field (rc_title c);
  ri_ok_type : rc_type c = ric_type tp;
  ri_ok_midi : in_i32 (rc_coarse c) /\ in_i32 (rc_fine c);
  ri_ok_data : match tp with
               | c_float => exists a b s v, rc_data c = DataFloat a b s v
               | c_double => exists a b s v, rc_data c = DataDouble a b s v
               | c_int | c_sigid => ints_ok (rc_data c)
               | c_enum => ints_ok (rc_data c) /\ smap_ok (enum_names c) /\ Forall (fun e => in_i32 (fst e) /\ text_field (snd e)) (enum_names c)
               | c_bool => True
               | c_string => text_field (str_data c)
               end
}.

Lemma received_same_text tp c : ri_ok tp c -> ser (Serializable := ri_serializable) c = ser (Serializable := ri_serializable) (as_received tp c).
Proof.
  intros [H1 H2 H3 H4 H5 H6]. destruct c as [id name title t d s b names co fi]. cbn [rc_id rc_name rc_title rc_type rc_data str_data bl_data enum_names rc_coarse rc_fine] in *.
  subst t. destruct tp; try (by destruct d); destruct H6 as (x & y & z & v & ->); cbn.
  - unfold printed_f. by rewrite !float_text_stable.
  - unfold printed_d. by rewrite !double_text_stable.
Qed.

Lemma received_ok tp c : ri_ok tp c -> ser_ok (Serializable := ri_serializable) (as_received tp c).
Proof.
  intros [H1 H2 H3 H4 H5 H6]. destruct c as [id name title t d s b names co fi]. cbn [rc_id rc_name rc_title rc_type rc_data str_data bl_data enum_names rc_coarse rc_fine] in *.
  subst t. destruct tp; try (by destruct d; intuition).
  - destruct H6 as (x & y & z & v & ->). destruct H2, H3, H5. cbn. split_and!; try done; apply printed_f_stable.
  - destruct H6 as (x & y & z & v & ->). destruct H2, H3, H5. cbn. split_and!; try done; apply printed_d_stable.
Qed.

(** The text of a controller is read back as the controller, its numbers as printed. *)
Lemma controller_received tp c : ri_ok tp c -> read_ri_controller (get_serialized_controller c) = Ok (as_received tp c).
Proof.
  intros Hc. unfold read_ri_controller, get_serialized_controller, write_one. rewrite (received_same_text tp c Hc).
  by apply (read_write_one ri_serializable), received_ok.
Qed.

(** ** The client's copy *)

(** Numbers that the kind does not have are whatever the union holds. *)
Definition wrong_member {A} : result A := Err (UndefinedBehaviour "inactive member of a union").

(* @src src_jni/remote_interface.cc:1680-1682 RIMachine::RIController::get_value(int&) *)
Definition rc_value_int (c : ri_controller) : result Z := match rc_data c with DataInt _ _ _ v => Ok v | _ => wrong_member end.
(* @src src_jni/remote_interface.cc:1684-1686 RIMachine::RIController::get_value(float&) *)
Definition rc_value_float (c : ri_controller) : result float := match rc_data c with DataFloat _ _ _ v => Ok v | _ => wrong_member end.
(* @src src_jni/remote_interface.cc:1688-1690 RIMachine::RIController::get_value(double&) *)
Definition rc_value_double (c : ri_controller) : result double := match rc_data c with DataDouble _ _ _ v => Ok v | _ => wrong_member end.
(* @src src_jni/remote_interface.cc:1692-1694 RIMachine::RIController::get_value(bool&) *)
Definition rc_value_bool (c : ri_controller) : bool := bl_data c.
(* @src src_jni/remote_interface.cc:1696-1698 RIMachine::RIController::get_value(std::string&) *)
Definition rc_value_string (c : ri_controller) : string := str_data c.

(* @src src_jni/remote_interface.cc:1668-1678 RIMachine::RIController::get_min(int&) *)
Definition rc_range_int (c : ri_controller) : result (Z * Z * Z) := match rc_data c with DataInt lo hi st _ => Ok (lo, hi, st) | _ => wrong_member end.
(* @src src_jni/remote_interface.cc:1644-1654 RIMachine::RIController::get_min(float&) *)
Definition rc_range_float (c : ri_controller) : result (float * float * float) := match rc_data c with DataFloat lo hi st _ => Ok (lo, hi, st) | _ => wrong_member end.
(* @src src_jni/remote_interface.cc:1656-1666 RIMachine::RIController::get_min(double&) *)
Definition rc_range_double (c : ri_controller) : result (double * double * double) := match rc_data c with DataDouble lo hi st _ => Ok (lo, hi, st) | _ => wrong_member end.

(** [sample_name] asks the client's global sample bank, if there is one. *)
(* @src src_jni/remote_interface.cc:1700-1720 RIMachine::RIController::get_value_name *)
Definition rc_value_name (sample_name : Z -> option string) (c : ri_controller) (val : Z) : result string :=
  if rc_type c =? ric_sigid then Ok (match sample_name val with Some n => n | None => "no file loaded" end)
  else match mfind (enum_names c) val with
       | None => Err (JException "No such enum value in RIController.")
       | Some n => Ok n
       end.

(* @src src_jni/remote_interface.cc:1782-1789 RIMachine::RIController::has_midi_controller *)
Definition rc_midi (c : ri_controller) : option (Z * Z) :=
  if (rc_coarse c =? -1) && (rc_fine c =? -1) then None else Some (rc_coarse c, rc_fine c).

Definition with_data (c : ri_controller) (d : ri_data) (s : string) (b : bool) : ri_controller :=
  RIController (rc_id c) (rc_name c) (rc_title c) (rc_type c) d s b (enum_names c) (rc_coarse c) (rc_fine c).

(** The copy takes the value whether or not the server will; a number goes into its member of
    the union. *)
Definition put_value (c : ri_controller) (v : value) : ri_controller :=
  match v, rc_data c with
  | VInt v, DataInt a b s _ => with_data c (DataInt a b s v) (str_data c) (bl_data c)
  | VFloat v, DataFloat a b s _ => with_data c (DataFloat a b s v) (str_data c) (bl_data c)
  | VDouble v, DataDouble a b s _ => with_data c (DataDouble a b s v) (str_data c) (bl_data c)
  | VBool v, d => with_data c d (str_data c) v
  | VString v, d => with_data c d v (bl_data c)
  | _, d => with_data c DataUnset (str_data c) (bl_data c)
  end.

Definition value_text (v : value) : string :=
  match v with
  | VInt v => to_string v
  | VFloat v => float_to_string v
  | VDouble v => double_to_string v
  | VBool v => truth v
  | VString v => v
  end.

(** The copy, and what [send_object_message] puts in the message. *)
(* @src src_jni/remote_interface.cc:1722-1780 RIMachine::RIController::set_value *)
Definition client_set_value (c : ri_controller) (v : value) : ri_controller * pairs :=
  (put_value c v, [("command", "setctrval"); ("ctrl_id", to_string (rc_id c)); ("value", value_text v)]).

(** ** The server's file of controllers *)

(* @src src_jni/remote_interface.hh:1066-1076 RIMachine::ServerSideControllerContainer *)
Record container : Type := Container { ids : id_allocator; id2ctrl : smap Z controller }.

Definition new_container : container := Container (new_id_allocator 32) [].

(** By the connection that asked; [alive] tells which connections still are. *)
Abbreviation containers := (smap Z container).

(* @src src_jni/remote_interface.cc:2690-2699 RIMachine::cleanup_stray_controllers *)
Definition cleanup_stray_controllers (alive : Z -> bool) (st : containers) : containers :=
  List.filter (fun e => alive (fst e)) st.

Section machine.
(** The machine's class, which makes the controllers, and the signals that are loaded. *)
Context (internal_get_controller : string -> result controller) (signal_name : Z -> option string).

(** An exception leaves what was done before it. *)
(* @src src_jni/remote_interface.cc:2701-2730 RIMachine::process_get_ctrl_message *)
Definition process_get_ctrl_message (alive : Z -> bool) (st : containers) (m : memory) (ctrl_name : string) (src : Z)
  : containers * result string :=
  let sscc := default new_container (mfind st src) in
  let '(new_id, a) := get_id (ids sscc) in
  let st := mset st src (Container a (id2ctrl sscc)) in
  match internal_get_controller ctrl_name with
  | Err e => (st, Err e)
  | Ok ctrl =>
      let st := mset st src (Container a (mset (id2ctrl sscc) (i32 new_id) ctrl)) in
      match new_ri_controller signal_name (i32 new_id) ctrl m with
      | Err e => (st, Err e)
      | Ok rico => (cleanup_stray_controllers alive st, Ok (get_serialized_controller rico))
      end
  end.

Definition value_of_text (tp : controller_type) (text : string) : value :=
  match tp with
  | c_float => VFloat (stof text)
  | c_double => VDouble (atof text)
  | c_bool => VBool (String.eqb text "true")
  | c_string => VString text
  | c_int | c_enum | c_sigid => VInt (stoi text)
  end.

(** Numbers that are not filed are ignored. *)
(* @src src_jni/remote_interface.cc:2732-2776 RIMachine::process_setctrl_val_message *)
Definition process_setctrl_val_message (st : containers) (m : memory) (src : Z) (msg : view) : result memory :=
  match mfind st src with
  | None => Ok m
  | Some sscc =>
      let! ctrl_id := get_int msg "ctrl_id" in
      match mfind (id2ctrl sscc) ctrl_id with
      | None => Ok m
      | Some ctrl => let! text := msg "value" in set_value ctrl (value_of_text (ctype ctrl) text) m
      end
  end.

(** ** The file *)

Definition filed (st : containers) (agent id : Z) : option controller := con ← mfind st agent; mfind (id2ctrl con) id.

(** Controllers are filed under numbers that are in use. *)
Definition container_ok (con : container) : Prop := smap_ok (id2ctrl con) /\
  exists out, id_inv (ids con) out /\ forall i, is_Some (mfind (id2ctrl con) i) -> i ∈ out.

Definition containers_ok (st : containers) : Prop := smap_ok st /\ forall agent con, mfind st agent = Some con -> container_ok con.

(** The connection has not used up its numbers. *)
Definition room (st : containers) (agent : Z) : Prop := total_amount (ids (default new_container (mfind st agent))) + 1 < 2^31.

Lemma new_container_ok : container_ok new_container.
Proof. split; [apply smap_ok_nil|]. exists []. split; [apply id_inv_start|]. by intros i [? ?]. Qed.

Lemma mset_containers_ok st agent con : containers_ok st -> container_ok con -> containers_ok (mset st agent con).
Proof.
  intros [H1 H2] Hc. split; [by apply mset_ok|]. intros a c. rewrite mfind_mset by done. case_if; [by intros [= <-]|apply H2].
Qed.

Lemma cleanup_find alive st agent : smap_ok st -> mfind (cleanup_stray_controllers alive st) agent = if alive agent then mfind st agent else None.
Proof. apply mfind_filter. Qed.

Lemma cleanup_ok alive st : containers_ok st -> containers_ok (cleanup_stray_controllers alive st).
Proof.
  intros [H1 H2]. split; [by apply filter_smap_ok|]. intros a c. rewrite cleanup_find by done. destruct (alive a); [apply H2|done].
Qed.

(** A question takes a number that no controller of the connection has. *)
Lemma ask_spec alive st m name src : containers_ok st -> room st src ->
  let '(st', r) := process_get_ctrl_message alive st m name src in
  containers_ok st' /\
  (forall agent id c, alive agent = true -> filed st agent id = Some c -> filed st' agent id = Some c) /\
  forall ctrl, internal_get_controller name = Ok ctrl -> exists id, 0 <= id < 2^31 /\ filed st src id = None /\
    r = rmap get_serialized_controller (new_ri_controller signal_name id ctrl m) /\ (alive src = true -> filed st' src id = Some ctrl).
Proof.
  intros Hst Hroom. pose proof Hst as [Hok Hcon]. unfold process_get_ctrl_message. unfold room in Hroom.
  set (sscc := default new_container (mfind st src)) in *.
  assert (container_ok sscc) as (Hi & out & Hid & Hused).
  { unfold sscc. destruct (mfind st src) as [con|] eqn:E; [by apply (Hcon src)|apply new_container_ok]. }
  destruct (get_id_spec (ids sscc) out Hid ltac:(lia)) as (Hid' & Hnew & _).
  assert (0 <= fst (get_id (ids sscc)) < 2^31) as Hrange.
  { assert (0 <= fst (get_id (ids sscc)) < total_amount (snd (get_id (ids sscc)))) by (apply (id_split _ _ Hid'); left; left).
    assert (total_amount (snd (get_id (ids sscc))) <= total_amount (ids sscc) + 1); [|lia]. pose proof (id_total _ _ Hid). unfold get_id. destruct (mbegin _); cbn; [lia|].
    rewrite u32_id; [lia|unfold in_u32; lia]. }
  destruct (get_id (ids sscc)) as [new_id a]. cbn [fst snd] in *. rewrite i32_id by (unfold in_i32; lia).
  assert (mfind (id2ctrl sscc) new_id = None) as Hfree by (destruct (mfind (id2ctrl sscc) new_id) eqn:E; [|done]; destruct Hnew; apply Hused; by eexists).
  assert (forall id, filed st src id = mfind (id2ctrl sscc) id) as Hfiled by (intros id; unfold filed, sscc; by destruct (mfind st src)).
  set (st1 := mset st src (Container a (id2ctrl sscc))).
  assert (containers_ok st1) as Hst1.
  { apply mset_containers_ok; [done|]. split; [done|]. exists (new_id :: out). split; [done|]. intros i Hin. right. by apply Hused. }
  assert (forall con, (forall id, mfind (id2ctrl con) id = mfind (id2ctrl sscc) id \/ id = new_id) -> forall agent id c, filed st agent id = Some c -> filed (mset st1 src con) agent id = Some c) as Hkeep.
  { intros con Hc agent id c Hf. unfold filed. rewrite mfind_mset by apply Hst1. destruct (key_eqb agent src) eqn:Ek.
    - apply key_eqb_spec in Ek as ->. cbn. rewrite Hfiled in Hf. destruct (Hc id) as [->| ->]; [done|congruence].
    - unfold st1. rewrite mfind_mset, Ek by done. exact Hf. }
  destruct (internal_get_controller name) as [ctrl|e] eqn:Ec.
  2:{ split; [done|]. split; [|done]. intros agent id c _ Hf. specialize (Hkeep (Container a (id2ctrl sscc)) ltac:(by left) agent id c Hf).
      unfold st1 in *. by rewrite mset_mset in Hkeep. }
  set (con := Container a (mset (id2ctrl sscc) new_id ctrl)).
  assert (forall id, mfind (id2ctrl con) id = mfind (id2ctrl sscc) id \/ id = new_id) as Hc.
  { intros id. cbn. rewrite mfind_mset by done. destruct (key_eqb id new_id) eqn:Ek; [right; by apply key_eqb_spec|by left]. }
  assert (containers_ok (mset st1 src con)) as Hst2.
  { apply mset_containers_ok; [done|]. split; [by apply mset_ok|]. exists (new_id :: out). split; [done|]. intros i Hin.
    destruct (Hc i) as [E| ->]; [|left]. right. apply Hused. by rewrite <- E. }
  assert (filed (mset st1 src con) src new_id = Some ctrl) as Hthere
    by (unfold filed; rewrite mfind_mset, key_eqb_refl by apply Hst1; cbn; by rewrite mfind_mset, key_eqb_refl by done).
  assert (forall agent id c, alive agent = true -> filed (mset st1 src con) agent id = Some c -> filed (cleanup_stray_controllers alive (mset st1 src con)) agent id = Some c) as Hclean
    by (intros agent id c Ha; unfold filed; by rewrite cleanup_find, Ha by apply Hst2).
  assert (filed st src new_id = None) as Hnone by (by rewrite Hfiled).
  destruct (new_ri_controller signal_name new_id ctrl m) as [rico|e] eqn:Er.
  - split; [by apply cleanup_ok|]. split; [intros agent id c Ha Hf; apply Hclean; [done|by apply Hkeep]|]. intros ctrl' [= <-].
    exists new_id. rewrite Er. split; [done|]. split; [done|]. split; [done|]. intros Ha. by apply Hclean.
  - split; [done|]. split; [intros agent id c _; by apply Hkeep|]. intros ctrl' [= <-]. exists new_id. by rewrite Er.
Qed.

(** ** What the client sees, and what its values do *)

(** A controller whose bounds the client can be told. *)
Record controller_ok (c : controller) : Prop := {
  co_name : text_field (ct_name c);
  co_title : text_field (ct_title c);
  co_bounds : in_i32 (min_i c) /\ in_i32 (max_i c) /\ in_i32 (step_i c);
  co_midi : if has_midi_ctrl c then (0 <= coarse_controller c < 128 \/ coarse_controller c = 1024) /\ -1 <= fine_controller c < 128 else True;
  co_enum : ctype c = c_enum -> 1 <= step_i c /\ max_i c + step_i c < 2^31 /\
    forall k, min_i c <= k <= max_i c -> exists n, mfind (enumnames c) k = Some n /\ text_field n
}.

(** The values of an enumeration, a step apart. *)
Lemma name_values_spec value_name lo hi step : 1 <= step -> hi + step < 2^31 ->
  (forall k, lo <= k <= hi -> exists n, value_name k = Ok n /\ text_field n) -> in_i32 lo ->
  forall fuel k names, lo <= k -> (exists j, k = lo + j * step) -> (Z.to_nat (hi - k + 1) < fuel)%nat ->
  smap_ok names -> Forall (fun e => in_i32 (fst e) /\ text_field (snd e)) names ->
  exists names', name_values fuel value_name k hi step names = Ok names' /\ smap_ok names' /\
    Forall (fun e => in_i32 (fst e) /\ text_field (snd e)) names' /\
    (forall i, i < k -> mfind names' i = mfind names i) /\
    forall j, k <= lo + j * step <= hi -> forall n, value_name (lo + j * step) = Ok n -> mfind names' (lo + j * step) = Some n.
Proof.
  intros Hst Hhi Hv Hlo. induction fuel as [|fuel IH]; intros k names Hk (j0 & Ej) Hf Hok Hall; cbn [name_values].
  - lia.
  - destruct (Z.leb_spec k hi) as [Hle|Hgt].
    2:{ exists names. split; [done|]. split; [done|]. split; [done|]. split; [done|]. intros j Hj. lia. }
    destruct (Hv k) as (n & Hvn & Hn); [lia|]. rewrite Hvn. cbn [rbind]. destruct (Z.leb_spec (2^31) (k + step)); [lia|].
    destruct (IH (k + step) (mset names k n)) as (names' & E & Hok' & Hall' & Hkeep & Hnew); [lia|exists (j0 + 1); lia|lia|by apply mset_ok| |].
    { apply list.Forall_forall. intros [i s] Hin. apply mset_elem in Hin as [[= -> ->]|Hin]; [split; [unfold in_i32 in *; cbn; lia|done]|].
      by apply (proj1 (list.Forall_forall _ _) Hall). }
    exists names'. split; [done|]. split; [done|]. split; [done|]. split.
    + intros i Hi. rewrite Hkeep, mfind_mset by (done || lia). rewrite key_eqb_neq; [done|lia].
    + intros j Hj n' Hn'. destruct (Z.eq_dec (lo + j * step) k) as [E1|Hne].
      * rewrite E1 in *. rewrite Hkeep, mfind_mset, key_eqb_refl by (done || lia). congruence.
      * apply Hnew; [|done]. assert (j0 < j) by nia. nia.
Qed.

(** The copy shows the controller: its names, its kind, its bounds and the value of the moment,
    numbers as printed; an enumeration has the name of every value a client can step to. *)
Record shows (c : controller) (m : memory) (k : ri_controller) : Prop := {
  shows_names : rc_name k = ct_name c /\ rc_title k = ct_title c /\ rc_type k = ric_type (ctype c);
  shows_midi : rc_midi k = if has_midi_ctrl c then Some (coarse_controller c, fine_controller c) else None;
  shows_value : match ctype c with
                | c_int | c_sigid | c_enum => exists v, get_value_int c m = Ok v /\ rc_range_int k = Ok (min_i c, max_i c, step_i c) /\ rc_value_int k = Ok v
                | c_float => exists v, get_value_float c m = Ok v /\ rc_value_float k = Ok (printed_f v) /\
                    rc_range_float k = Ok (printed_f (min_f c), printed_f (max_f c), printed_f (step_f c))
                | c_double => exists v, get_value_double c m = Ok v /\ rc_value_double k = Ok (printed_d v) /\
                    rc_range_double k = Ok (printed_d (widen (min_d c)), printed_d (widen (max_d c)), printed_d (widen (step_d c)))
                | c_bool => get_value_bool c m = Ok (rc_value_bool k)
                | c_string => get_value_string c m = Ok (rc_value_string k)
                end;
  shows_enum : ctype c = c_enum -> forall j, 0 <= j -> min_i c + j * step_i c <= max_i c ->
    forall sample_name, exists n, rc_value_name sample_name k (min_i c + j * step_i c) = Ok n /\ mfind (enumnames c) (min_i c + j * step_i c) = Some n
}.

Lemma get_int_value c m : in_memory c m -> exists v, get_value_int c m = Ok v /\ in_i32 v.
Proof.
  intros Hm. destruct (mapped_load m (ptr c) 4) as (l & E & _).
  { apply (mapped_less _ _ (size_of c)); [|done]. unfold size_of, STRING_CONTROLLER_SIZE. destruct (ctype c); lia. }
  unfold get_value_int. rewrite E. eexists. split; [done|apply i32_range].
Qed.

Lemma get_first_char c m : in_memory c m -> exists a, get_value_string c m = Ok (String a "").
Proof.
  intros Hm. destruct (mapped_load m (ptr c) 1) as ([|b [|]] & E & Hl); try done.
  { apply (mapped_less _ _ (size_of c)); [|done]. unfold size_of, STRING_CONTROLLER_SIZE. destruct (ctype c); lia. }
  unfold get_value_string. rewrite E. by eexists.
Qed.

(** A text that a client can be shown: it has a first character. *)
Definition shown_text (c : controller) (m : memory) : Prop := ctype c = c_string -> forall s, get_value_string c m = Ok s -> nul_free s = true.

Lemma midi_read c : controller_ok c -> exists co fi, has_midi_controller c (-1) (-1) = Ok (has_midi_ctrl c, (co, fi)) /\
  in_i32 co /\ in_i32 fi /\ (if (co =? -1) && (fi =? -1) then None else Some (co, fi)) = if has_midi_ctrl c then Some (coarse_controller c, fine_controller c) else None.
Proof.
  intros [_ _ _ Hm _]. unfold has_midi_controller. destruct (has_midi_ctrl c); [|by exists (-1), (-1)]. destruct Hm as [Hc Hf].
  exists (coarse_controller c), (fine_controller c). unfold sc_special_first, sc_special_last.
  assert (((coarse_controller c <? 0) || (127 <? coarse_controller c)) && ((coarse_controller c <? 1024) || (1024 <? coarse_controller c)) = false) as ->
    by (destruct (Z.ltb_spec (coarse_controller c) 0), (Z.ltb_spec 127 (coarse_controller c)), (Z.ltb_spec (coarse_controller c) 1024), (Z.ltb_spec 1024 (coarse_controller c)); cbn; try done; lia).
  split; [|split; [unfold in_i32; lia|split; [unfold in_i32; lia|]]].
  - destruct (Z.leb_spec 0 (fine_controller c)), (Z.ltb_spec (fine_controller c) 128); cbn; try done; repeat f_equal; lia.
  - destruct (Z.eqb_spec (coarse_controller c) (-1)); [lia|done].
Qed.

Lemma get_float_value c m : in_memory c m -> exists v, get_value_float c m = Ok v.
Proof.
  intros Hm. destruct (mapped_load m (ptr c) 4) as (l & E & _).
  { apply (mapped_less _ _ (size_of c)); [|done]. unfold size_of, STRING_CONTROLLER_SIZE. destruct (ctype c); lia. }
  unfold get_value_float. rewrite E. by eexists.
Qed.

Lemma get_double_value c m : ctype c = c_double -> in_memory c m -> exists v, get_value_double c m = Ok v.
Proof.
  intros Hc Hm. destruct (mapped_load m (ptr c) 8) as (l & E & _); [unfold in_memory, size_of in Hm; by rewrite Hc in Hm|].
  unfold get_value_double. rewrite E. by eexists.
Qed.

(** The controller whose copy is computed is at hand; what is left is what depends on its kind. *)
Ltac copied Ec := eexists; split; [reflexivity|]; split; [split; cbn; try done|split; [done|split; rewrite ?Ec; cbn; try done]].

(** The answer to a question, as the client reads it. *)
Lemma copy_shows id c m : controller_ok c -> in_memory c m -> shown_text c m -> 0 <= id < 2^31 ->
  exists rc, new_ri_controller signal_name id c m = Ok rc /\ ri_ok (ctype c) rc /\
    rc_id (as_received (ctype c) rc) = id /\ shows c m (as_received (ctype c) rc).
Proof.
  intros Hc Hm Htext Hid. pose proof Hc as [Hn Ht (B1 & B2 & B3) _ He].
  destruct (get_int_value c m Hm) as (vi & Ei & Hvi). destruct (get_first_char c m Hm) as (a & Ea).
  destruct (midi_read c Hc) as (co & fi & Emidi & Hco & Hfi & Hrm). destruct (get_float_value c m Hm) as (vf & Ef).
  assert (in_i32 id) as Hi by (unfold in_i32; lia). unfold new_ri_controller, get_value_bool. rewrite Ei, Ea, Emidi. cbn [rbind].
  destruct (ctype c) eqn:Ec; rewrite ?Ef; cbn [rbind].
  - copied Ec. by eexists.
  - copied Ec; [by do 4 eexists|by eexists].
  - destruct (get_double_value c m Ec Hm) as (vd & Ed). rewrite Ed. cbn [rbind]. copied Ec; [by do 4 eexists|by eexists].
  - copied Ec. unfold get_value_bool. by rewrite Ei.
  - copied Ec. split; [|done]. by apply (Htext Ec).
  - destruct (He eq_refl) as (Hst & Hhi & Hnames).
    assert (forall k, min_i c <= k <= max_i c -> exists n, get_value_name signal_name c k = Ok n /\ text_field n) as Hvn.
    { intros k Hk. destruct (Hnames k Hk) as (n & E & Hne). exists n. unfold get_value_name. by rewrite Ec, E. }
    destruct (name_values_spec _ _ _ _ Hst Hhi Hvn B1 (S (Z.to_nat (max_i c - min_i c + 1))) (min_i c) []) as (names & En & Hok & Hall & _ & Hnew);
      [lia|exists 0; lia|lia|apply smap_ok_nil|by constructor|].
    rewrite En. cbn [rbind]. copied Ec; [by eexists|]. intros _ j Hj Hjm sample_name.
    destruct (Hnames (min_i c + j * step_i c)) as (n & E & _); [nia|]. exists n. split; [|done]. unfold rc_value_name. cbn.
    rewrite (Hnew j ltac:(nia) n); [done|]. unfold get_value_name. by rewrite Ec, E.
  - copied Ec. by eexists.
Qed.

(** Questions of any connections, while [src] is connected. *)
Inductive later (src : Z) (st : containers) : containers -> Prop :=
| later_now : later src st st
| later_asked st' alive m name agent : later src st st' -> alive src = true -> room st' agent ->
    later src st (fst (process_get_ctrl_message alive st' m name agent)).

(** What the file of a machine can be. *)
Inductive file_run : containers -> Prop :=
| file_start : file_run []
| file_asked st alive m name agent : file_run st -> room st agent -> file_run (fst (process_get_ctrl_message alive st m name agent)).

Lemma file_ok st : file_run st -> containers_ok st.
Proof.
  induction 1 as [|st alive m name agent _ IH Hr]; [split; [apply smap_ok_nil|by intros ? ?]|].
  pose proof (ask_spec alive st m name agent IH Hr) as Ha. destruct (process_get_ctrl_message alive st m name agent) as [st' r]. apply Ha.
Qed.

Lemma later_keeps src st st' : containers_ok st -> later src st st' ->
  containers_ok st' /\ forall id c, filed st src id = Some c -> filed st' src id = Some c.
Proof.
  intros Hst. induction 1 as [|st' alive m name agent _ [IH1 IH2] Ha Hr]; [done|].
  pose proof (ask_spec alive st' m name agent IH1 Hr) as Hs. destruct (process_get_ctrl_message alive st' m name agent) as [st2 r].
  destruct Hs as (Hs & Hk & _). split; [done|]. intros id c Hf. by apply Hk, IH2.
Qed.

(** A value as it arrives. *)
Definition as_printed (v : value) : value :=
  match v with VFloat v => VFloat (printed_f v) | VDouble v => VDouble (printed_d v) | _ => v end.
Definition sendable (v : value) : Prop := match v with VString s => wire_text s /\ s <> "" | _ => True end.

Lemma value_arrives tp v : of_type tp v -> sendable v -> value_text v <> "" /\ value_of_text tp (value_text v) = as_printed v.
Proof.
  unfold of_type. destruct tp, v; try done; cbn; intros Hv Hs; (split; [|try done]).
  all: try apply to_string_nonempty; try apply float_text; try apply double_text_nonempty; try (by rewrite stoi_to_string); try (by destruct v); try apply Hs.
Qed.

Lemma set_request st m src id c v objid kvs : filed st src id = Some c -> in_i32 id -> of_type (ctype c) v -> sendable v ->
  kvs = ("id", to_string objid) :: [("command", "setctrval"); ("ctrl_id", to_string id); ("value", value_text v)] ->
  process_setctrl_val_message st m src (received kvs) = set_value c (as_printed v) m.
Proof.
  intros Hf Hi Ht Hs ->. unfold filed in Hf. unfold process_setctrl_val_message. destruct (mfind st src) as [con|]; [|done]. cbn in Hf.
  rewrite (received_number _ "ctrl_id" id) by done. cbn [rbind]. rewrite Hf. destruct (value_arrives (ctype c) v Ht Hs) as [Hne Hv].
  unfold received, wire_value. cbn. by rewrite (proj2 (String.eqb_neq _ _) Hne), Hv.
Qed.

End machine.
End remote.

(** ** Witness: a client turns a knob *)

(** Floating point numbers of eight bits, all of them whole. *)
#[local] Instance ex_small_double : CDouble.
Proof.
  refine {| double := ascii; atof s := of_byte (stoi s); double_to_string a := to_string (byte_of a) |}; intros d;
    [apply to_string_wire|apply to_string_nonempty].
Defined.

Lemma small_stable a : of_byte (stoi (to_string (byte_of a))) = a.
Proof. pose proof (byte_of_range a). rewrite stoi_to_string by (unfold in_i32; lia). apply of_byte_byte_of. Qed.

#[local] Instance ex_small_float : CFloat.
Proof.
  pose (of_double := fun a : double => (a : ascii)). pose (to_double := fun a : ascii => (a : double)).
  refine {| float := ascii; float_zero := of_byte 0; float_one := of_byte 1; float_to_string a := to_string (byte_of a);
    stof s := of_byte (stoi s); float_extract s := of_byte (stoi s); float_le a b := byte_of a <=? byte_of b; widen := to_double;
    double_le a b := byte_of (of_double a) <=? byte_of (of_double b);
    tenth_of_range a b := of_byte ((byte_of a - byte_of b) / 10); tenth_of_range_d a b := of_byte ((byte_of a - byte_of b) / 10);
    float_bytes a := [byte_of a; 0; 0; 0]; float_of l := of_byte (hd 0 l);
    double_bytes a := [byte_of (of_double a); 0; 0; 0; 0; 0; 0; 0]; double_of l := to_double (of_byte (hd 0 l));
    FTYPE_bytes a := [0; 0; 0; byte_of a]; FTYPE_of l := of_byte (nth 3 l 0) |}; intros f; try done; cbn.
  - apply of_byte_byte_of.
  - apply of_byte_byte_of.
  - destruct (to_string_wire (byte_of f)) as [(? & ? & ?) _]. split_and!; try done. apply to_string_nonempty.
  - by rewrite small_stable.
  - by rewrite small_stable.
Defined.

Definition ex_knob : controller := new_controller c_int "filter:cutoff" "cutoff" 100 "0" "100" "5" [] false.
Definition ex_class (name : string) : result controller :=
  if String.eqb name "filter:cutoff" then Ok ex_knob else Err (JException "No such controller").
Definition ex_memory : memory := list_to_map (zip [100; 101; 102; 103; 104] [7; 0; 0; 0; 9]).
Definition ex_asked : smap Z container * result string := process_get_ctrl_message ex_class (fun _ => None) (fun _ => true) [] ex_memory "filter:cutoff" 5.
Definition ex_turned (rc : ri_controller) (v : Z) : result memory :=
  process_setctrl_val_message (fst ex_asked) ex_memory 5 (received (("id", to_string 3) :: snd (client_set_value rc (VInt v)))).

Lemma ex_knob_mapped : in_memory ex_knob ex_memory.
Proof.
  intros a Ha. change (100 <= a < 104) in Ha. assert (a = 100 \/ a = 101 \/ a = 102 \/ a = 103) as [-> | [-> | [-> | ->]]] by lia; by eexists.
Qed.

