(* ===== verification/HandleDecl.v ===== *)
(** * Declarations of machines (class [DynamicMachine::Handle], dynamic_machine.cc)

    Each plugin comes with an XML document that declares the machine: its name, what signals go in
    and out, and its controllers. The handle keeps it in maps by the names of the controllers. The
    documents are data, as the XML parser delivers them. *)

From Stdlib Require Import ZArith Lia Ascii String List.
From stdpp Require Import base list strings numbers option.
From S2P Require Import Prelude CxxString StdMap MachineClock MachineGraph Controller.
Local Open Scope string_scope.
Local Open Scope list_scope.
Local Open Scope Z_scope.
Local Open Scope vk_scope.

(** An element as the parser delivers it: an attribute, or what asking for it throws; an attribute
    as a number, if it is one; the elements of a name in it, or what asking for them throws; the
    text of the first of them; its own text. *)
Inductive element : Type :=
| Element (get_attr : string -> result string) (get_number : string -> option Z) (kids : string -> result (list element))
    (kid_text : string -> result string) (get_text : result string).

Definition get_attr (e : element) : string -> result string := let '(Element a _ _ _ _) := e in a.
Definition get_number (e : element) : string -> option Z := let '(Element _ n _ _ _) := e in n.
Definition kids (e : element) : string -> result (list element) := let '(Element _ _ k _ _) := e in k.
Definition kid_text (e : element) : string -> result string := let '(Element _ _ _ t _) := e in t.
Definition get_text (e : element) : result string := let '(Element _ _ _ _ t) := e in t.

(** [try { x = e.get_attr(name); } catch(...) {}], where [x] was empty. *)
Definition attr_or_empty (e : element) (name : string) : string := match get_attr e name with Ok s => s | Err _ => "" end.

Definition is_jexception (e : exn) : bool := match e with JException _ => true | _ => false end.
(** An undefined behaviour is no exception. *)
Definition is_exception (e : exn) : bool := match e with UndefinedBehaviour _ | OutOfFuel => false | _ => true end.

(** [stream >> x] where [x] may not have been set. *)
Definition extract_over (old : option Z) (text : string) : option Z := if blank text then old else Some (extract_int text).

(* @src src_jni/dynamic_machine.hh:92-120 DynamicMachine::Handle *)
Record handle : Type := Handle {
  dl_name : string;
  h_name : string;
  hint : string;
  act_as_sink : bool;
  groups : list string;
  controllers : list string;
  controller_group : smap string string;
  controller_title : smap string string;
  h_output : smap string description;
  h_input : smap string description;
  controller_types : smap string controller_type;
  controller_is_FTYPE : smap string bool;
  controller_min : smap string string;
  controller_max : smap string string;
  controller_step : smap string string;
  controller_has_midi : smap string bool;
  coarse_midi_controller : smap string Z;
  fine_midi_controller : smap string Z;
  controller_enumnames : smap string (smap Z string)
}.

(** ** One controller *)

(** Numbers are cut to seven bits. *)
(* @src src_jni/dynamic_machine.cc:335-350 DynamicMachine::Handle::parse_controller *)
Definition parse_midi (e : element) : Z * Z :=
  match get_attr e "coarse" with
  | Err _ => (-1, -1)
  | Ok coarse =>
      if String.eqb coarse "pitch_bend" then (sc_special_first, -1)
      else
        let cr := default (-1) (get_number e "coarse") in
        let fn := default (-1) (get_number e "fine") in
        (if cr =? -1 then cr else Z.land cr 127, if fn =? -1 then fn else Z.land fn 127)
  end.

(* @src src_jni/dynamic_machine.cc:358-365 DynamicMachine::Handle::parse_controller *)
Definition parse_type (type_name : string) : controller_type :=
  if String.eqb type_name "integer" then c_int
  else if String.eqb type_name "FTYPE" then c_float
  else if String.eqb type_name "float" then c_float
  else if String.eqb type_name "double" then c_double
  else if String.eqb type_name "boolean" then c_bool
  else if String.eqb type_name "string" then c_string
  else if String.eqb type_name "enumerated" then c_enum
  else if String.eqb type_name "signalid" then c_sigid
  else c_int.

Definition add_group (gs : list string) (group : string) : list string :=
  if existsb (String.eqb group) gs then gs else gs ++ [group].

(** What is kept before the kind is looked at. *)
(* @src src_jni/dynamic_machine.cc:323-356 DynamicMachine::Handle::parse_controller *)
Definition enter_controller (h : handle) (name group : string) (e : element) : handle :=
  let '(cr, fn) := parse_midi e in
  let has := String.eqb (attr_or_empty e "has_midi") "yes" in
  Handle (dl_name h) (h_name h) (hint h) (act_as_sink h) (add_group (groups h) group) (controllers h ++ [name])
    (mset (controller_group h) name group) (controller_title h) (h_output h) (h_input h) (controller_types h) (controller_is_FTYPE h)
    (controller_min h) (controller_max h) (controller_step h) (mset (controller_has_midi h) name has)
    (if has then mset (coarse_midi_controller h) name cr else coarse_midi_controller h)
    (if has then mset (fine_midi_controller h) name fn else fine_midi_controller h) (controller_enumnames h).

Definition set_if_given (m : smap string string) (name text : string) : smap string string :=
  if String.eqb text "" then m else mset m name text.

(* @src src_jni/dynamic_machine.cc:426-435 DynamicMachine::Handle::parse_controller *)
Definition keep_controller (h : handle) (name title type_name min max step : string) (enumnames : smap Z string) : handle :=
  Handle (dl_name h) (h_name h) (hint h) (act_as_sink h) (groups h) (controllers h) (controller_group h)
    (mset (controller_title h) name title) (h_output h) (h_input h) (mset (controller_types h) name (parse_type type_name))
    (mset (controller_is_FTYPE h) name (String.eqb type_name "FTYPE")) (set_if_given (controller_min h) name min)
    (set_if_given (controller_max h) name max) (set_if_given (controller_step h) name step) (controller_has_midi h)
    (coarse_midi_controller h) (fine_midi_controller h) (mset (controller_enumnames h) name enumnames).

(** The locals of the loop over the values. *)
Record enum_loop : Type := EnumLoop { hi : Z; low_is_zero : bool; top : string; val : option Z; names : smap Z string }.

Definition enum_error (name what : string) : exn := JException ("Enumerated controller " ++ name ++ what)%string.

(** The test is of the controller's name, not of the value's. *)
(* @src src_jni/dynamic_machine.cc:379-405 DynamicMachine::Handle::parse_controller *)
Definition parse_enum (name : string) (st : enum_loop) (e : element) : result enum_loop :=
  let evl := attr_or_empty e "value" in
  let nam := attr_or_empty e "name" in
  if String.eqb evl "" || String.eqb name "" then Err (enum_error name " did not define a proper value name pair.")
  else
    match extract_over (val st) evl with
    | None => Err (UndefinedBehaviour "uninitialised value")
    | Some v =>
        let low := (v =? 0) || low_is_zero st in
        let '(hi, top) := if hi st <? v then (v, evl) else (hi st, top st) in
        match mfind (names st) v with
        | Some _ => Err (enum_error name " tries to define a value twice")
        | None => Ok (EnumLoop hi low top (Some v) (mset (names st) v nam))
        end
    end.

(** The text of the highest value, and the names. *)
(* @src src_jni/dynamic_machine.cc:371-424 DynamicMachine::Handle::parse_controller *)
Definition parse_enums (name max : string) (e : element) : result (string * smap Z string) :=
  let! enums := kids e "enum" in
  let! st := rfold (parse_enum name) (EnumLoop (-1) false max None []) enums in
  if negb (low_is_zero st) || (hi st =? -1) then Err (enum_error name " did not define all required value name pairs.")
  else if forallb (fun i => match mfind (names st) (Z.of_nat i) with Some _ => true | None => false end) (seq 0 (Z.to_nat (hi st)))
  then Ok (top st, names st)
  else Err (enum_error name " does not define all values in series").

(** The handle keeps what was entered before an exception. *)
(* @src src_jni/dynamic_machine.cc:303-436 DynamicMachine::Handle::parse_controller *)
Definition parse_controller (h : handle) (e : element) : handle * result unit :=
  match get_attr e "name", get_attr e "type" with
  | Err ex, _ => (h, Err ex)
  | Ok _, Err ex => (h, Err ex)
  | Ok title, Ok type_name =>
      let group := attr_or_empty e "group" in
      let min := attr_or_empty e "min" in
      let max := attr_or_empty e "max" in
      let step := attr_or_empty e "step" in
      let name := (group ++ ":" ++ title)%string in
      let h := enter_controller h name group e in
      match parse_type type_name with
      | c_enum =>
          match parse_enums name max e with
          | Err ex => (h, Err ex)
          | Ok (top, enumnames) => (keep_controller h name title type_name "0" top "1" enumnames, Ok tt)
          end
      | _ => (keep_controller h name title type_name min max step [], Ok tt)
      end
  end.

(** ** The whole declaration *)

(** The references keep what they had where a text is blank. *)
(* @src src_jni/dynamic_machine.cc:279-300 DynamicMachine::Handle::parse_iodeclaration *)
Definition parse_iodeclaration (e : element) (dims : option Z * option Z) : (option Z * option Z) * result bool :=
  let '(dim, ch) := dims in
  match get_attr e "dimension" with
  | Err ex => ((dim, ch), Err ex)
  | Ok d =>
      let dim := if String.eqb d "midi" then Some D_MIDI else extract_over dim d in
      match get_attr e "channels" with
      | Err ex => ((dim, ch), Err ex)
      | Ok c => ((dim, extract_over ch c), Ok (String.eqb (attr_or_empty e "premix") "true"))
      end
  end.

(** An exception ends the loop and is ignored. *)
(* @src src_jni/dynamic_machine.cc:460-484 DynamicMachine::Handle::parse_machine_declaration *)
Fixpoint parse_ios (es : list element) (premixes : bool) (dims : option Z * option Z) (m : smap string description)
  : result ((option Z * option Z) * smap string description) :=
  match es with
  | [] => Ok (dims, m)
  | e :: es =>
      match parse_iodeclaration e dims with
      | (dims, Err _) => Ok (dims, m)
      | ((dim, ch), Ok premix) =>
          match get_text e with
          | Err _ => Ok ((dim, ch), m)
          | Ok name => match dim, ch with
                       | Some d, Some c => parse_ios es premixes (dim, ch) (mset m name (Description d c (premixes && premix)))
                       | _, _ => Err (UndefinedBehaviour "uninitialised value")
                       end
          end
      end
  end.

Definition kids_or_none (e : element) (name : string) : list element := match kids e name with Ok l => l | Err _ => [] end.

(** An exception that is no [jException] ends the loop and is ignored. *)
(* @src src_jni/dynamic_machine.cc:486-499 DynamicMachine::Handle::parse_machine_declaration *)
Fixpoint parse_controllers (h : handle) (es : list element) : result handle :=
  match es with
  | [] => Ok h
  | e :: es => match parse_controller h e with
               | (h, Ok _) => parse_controllers h es
               | (h, Err ex) => if is_jexception ex || negb (is_exception ex) then Err ex else Ok h
               end
  end.

Definition declaration_error (ex : exn) : exn := if is_jexception ex || negb (is_exception ex) then ex else JException "Declaration error.".

(** The handle of an element, in the set of machines of the name [base_name], if there is one. *)
(* @src src_jni/dynamic_machine.cc:438-505 DynamicMachine::Handle::parse_machine_declaration *)
Definition new_handle (base_name : string) (e : element) : result handle :=
  match kid_text e "name" with
  | Err ex => Err (declaration_error ex)
  | Ok own =>
      let name := (base_name ++ own)%string in
      let dl := if String.eqb base_name "" then name else base_name in
      let! (dims, outs) := parse_ios (kids_or_none e "output") false (None, None) [] in
      let! (_, ins) := parse_ios (kids_or_none e "input") true dims [] in
      parse_controllers (Handle dl name (attr_or_empty e "hint") (String.eqb (attr_or_empty e "sink") "true") [] [] [] [] outs ins
        [] [] [] [] [] [] [] [] []) (kids_or_none e "controller")
  end.

(** ** What an accepted declaration holds *)

(** The values of an enumeration have names, and there are fewer than the parser counts. *)
Definition named_enums (e : element) : Prop := forall l, kids e "enum" = Ok l ->
  Forall (fun x => exists n, get_attr x "name" = Ok n /\ text_field n) l /\ Z.of_nat (List.length l) < 2^31.

(** An [enum] element for a value. *)
Definition enum_value (x : element) (v : Z) (n : string) : Prop :=
  get_attr x "name" = Ok n /\ exists t, get_attr x "value" = Ok t /\ blank t = false /\ extract_int t = v.

(** The loop after it has read the elements [l]. *)
Record enum_inv (l : list element) (st : enum_loop) : Prop := {
  ei_ok : smap_ok (names st);
  ei_length : List.length (names st) = List.length l;
  ei_names v s : mfind (names st) v = Some s <-> exists x, x ∈ l /\ enum_value x v s;
  ei_val v : val st = Some v -> is_Some (mfind (names st) v);
  ei_below v : is_Some (mfind (names st) v) -> v <= hi st;
  ei_hi : hi st = -1 \/ 0 <= hi st /\ blank (top st) = false /\ extract_int (top st) = hi st /\ is_Some (mfind (names st) (hi st))
}.

Lemma mset_fresh_length {V} (m : smap Z V) k v : mfind m k = None -> List.length (mset m k v) = S (List.length m).
Proof. intros E. by rewrite (Permutation_length (mset_fresh_entries m k v E)). Qed.

(** A value that is read is new. *)
Lemma parse_enum_reads name st e st' : parse_enum name st e = Ok st' -> (forall v, val st = Some v -> is_Some (mfind (names st) v)) ->
  exists t v, get_attr e "value" = Ok t /\ blank t = false /\ extract_int t = v /\ mfind (names st) v = None /\ val st' = Some v /\
    names st' = mset (names st) v (attr_or_empty e "name") /\ (hi st', top st') = if hi st <? v then (v, t) else (hi st, top st).
Proof.
  unfold parse_enum. intros E Hval. destruct (_ || _) eqn:Ee; [done|]. apply orb_false_iff in Ee as [Ee _]. unfold attr_or_empty in Ee, E at 1 2.
  destruct (get_attr e "value") as [t|]; [|done]. unfold extract_over in E. exists t. destruct (blank t).
  - destruct (val st) as [v|]; [|done]. destruct (Hval v eq_refl) as [s Es]. rewrite Es in E. by destruct (hi st <? v).
  - exists (extract_int t). destruct (hi st <? extract_int t), (mfind (names st) (extract_int t)); try done; injection E as <-; by repeat split.
Qed.

Lemma parse_enum_inv name l st e st' : (exists s, get_attr e "name" = Ok s /\ text_field s) -> enum_inv l st ->
  parse_enum name st e = Ok st' -> enum_inv (l ++ [e]) st'.
Proof.
  intros (s & En & Hs) [I1 I2 I3 I4 I5 I6] E. apply parse_enum_reads in E as (t & v & Ht & Hb & Hv & Hnew & E1 & E2 & E3); [|done].
  replace (attr_or_empty e "name") with s in E2 by (unfold attr_or_empty; by rewrite En).
  assert (hi st' = Z.max (hi st) v /\ (top st' = top st /\ hi st' = hi st \/ top st' = t /\ hi st' = v)) as [Eh Et]
    by (destruct (Z.ltb_spec (hi st) v); injection E3 as -> ->; split; try lia; tauto).
  split.
  - rewrite E2. by apply mset_ok.
  - by rewrite E2, mset_fresh_length, length_app, I2, Nat.add_comm by done.
  - intros v' s'. rewrite E2, mfind_mset by done. destruct (key_eqb v' v) eqn:Ek.
    + apply key_eqb_spec in Ek as ->. split.
      * intros [= <-]. exists e. split; [apply elem_of_app; right; by left|]. split; [done|by exists t].
      * intros (x & [Hin|Hin]%elem_of_app & Hx); [|apply list_elem_of_singleton in Hin as ->; destruct Hx as [Hx _]; congruence].
        assert (mfind (names st) v = Some s') as E' by (apply I3; by exists x). congruence.
    + rewrite I3. split; intros (x & Hin & Hx); exists x; (split; [|done]); [apply elem_of_app; by left|].
      apply elem_of_app in Hin as [Hin|Hin]; [done|]. apply list_elem_of_singleton in Hin as ->. destruct Hx as (_ & t' & Ht' & _ & Hv').
      rewrite Ht in Ht'. injection Ht' as <-. subst v'. by rewrite Hv, key_eqb_refl in Ek.
  - intros v'. rewrite E1, E2. intros [= <-]. rewrite mfind_mset, key_eqb_refl by done. by eexists.
  - intros v'. rewrite E2, mfind_mset by done. destruct (key_eqb v' v) eqn:Ek; [apply key_eqb_spec in Ek as ->; lia|]. intros Hs'%I5. lia.
  - destruct (Z.eq_dec (hi st') (-1)) as [|Hne]; [by left|right]. destruct Et as [[Et1 Et2]|[Et1 Et2]]; rewrite ?Et1, ?Et2.
    + destruct I6 as [|(? & ? & ? & ?)]; [lia|]. split_and!; try done. rewrite E2, mfind_mset by done. case_if; [by eexists|done].
    + split; [destruct I6 as [|[? _]]; lia|]. split_and!; try done. rewrite E2, mfind_mset, key_eqb_refl by done. by eexists.
Qed.

Lemma parse_enum_loop name l : forall l0 st st', Forall (fun x => exists s, get_attr x "name" = Ok s /\ text_field s) l -> enum_inv l0 st ->
  rfold (parse_enum name) st l = Ok st' -> enum_inv (l0 ++ l) st'.
Proof.
  induction l as [|e l IH]; intros l0 st st' Hl Hi E; cbn in E.
  - injection E as <-. by rewrite app_nil_r.
  - inversion Hl as [|? ? He Hl']; subst. inv_bind E. apply (parse_enum_inv name l0 _ _ _ He Hi) in Hx. apply (IH (l0 ++ [e]) _ _ Hl' Hx) in E.
    by rewrite <- app_assoc in E.
Qed.

(** Keys that are there count. *)
Lemma keys_count {V} (m : smap Z V) n : smap_ok m -> (forall i, 0 <= i < Z.of_nat n -> is_Some (mfind m i)) -> (n <= List.length m)%nat.
Proof.
  intros Hm Hi. assert (NoDup (map Z.of_nat (seq 0 n))) as Hnd by (apply NoDup_fmap_2; [apply _|apply NoDup_ListNoDup, seq_NoDup]).
  rewrite <- (length_seq n 0), <- (length_map Z.of_nat), <- (length_map fst m). apply submseteq_length, NoDup_submseteq; [done|].
  intros x Hx. apply list_elem_of_In, in_map_iff in Hx as (i & <- & Hin). apply in_seq in Hin.
  apply mfind_in_keys; [done|]. apply Hi. lia.
Qed.

(** The values of the elements [l]: those from zero to the highest are there. *)
Record enum_shape (l : list element) (topt : string) (ns : smap Z string) : Prop := {
  es_text : blank topt = false;
  es_range : 0 <= extract_int topt < 2^31 - 1;
  es_declared v s : mfind ns v = Some s <-> exists x, x ∈ l /\ enum_value x v s;
  es_highest v : is_Some (mfind ns v) -> v <= extract_int topt;
  es_names i : 0 <= i <= extract_int topt -> exists n, mfind ns i = Some n /\ text_field n
}.

Lemma parse_enums_shape name max e topt ns : named_enums e -> parse_enums name max e = Ok (topt, ns) ->
  exists l, kids e "enum" = Ok l /\ enum_shape l topt ns.
Proof.
  intros Hn. unfold parse_enums. destruct (kids e "enum") as [l|] eqn:El; [|done]. destruct (Hn l El) as [Hl Hlen]. cbn [rbind].
  destruct (rfold _ _ l) as [st|] eqn:Est; [|done]. cbn [rbind].
  assert (enum_inv [] (EnumLoop (-1) false max None [])) as Hstart.
  { split; cbn; [apply smap_ok_nil|done|by split; [done|intros (? & ?%elem_of_nil & _)]|done|by intros ? [? ?]|by left]. }
  apply (parse_enum_loop name l [] _ _ Hl Hstart) in Est as [I1 I2 I3 I4 I5 I6].
  cbn [app] in *. destruct (_ || _) eqn:Elow; [done|]. apply orb_false_iff in Elow as [_ Ehi]. zbool. destruct I6 as [I6|(I6 & I7 & I8 & I9)]; [lia|].
  destruct (forallb _ _) eqn:Eall; [|done]. intros [= <- <-]. exists l. split; [done|].
  assert (forall i, 0 <= i <= hi st -> is_Some (mfind (names st) i)) as Hall.
  { intros i Hi. destruct (Z.eq_dec i (hi st)) as [->|Hne]; [done|]. pose proof (proj1 (forallb_forall _ _) Eall (Z.to_nat i)) as Hf.
    cbv beta in Hf. rewrite Z2Nat.id in Hf by lia. destruct (mfind (names st) i); [by eexists|]. discriminate Hf. apply in_seq. lia. }
  pose proof (keys_count (names st) (Z.to_nat (hi st + 1)) I1 ltac:(intros i Hi; apply Hall; lia)) as Hc.
  split; rewrite ?I8; [done|lia|done|done|]. intros i Hi. destruct (Hall i Hi) as [s Es]. exists s. split; [done|].
  apply I3 in Es as (x & Hx & En & _). destruct (proj1 (list.Forall_forall _ _) Hl x Hx) as (s' & Es' & Hs'). congruence.
Qed.

(** The declaration of a name. *)
Definition declares (d : element) (k : string) (l : list element) : Prop :=
  kids d "enum" = Ok l /\ exists title, get_attr d "name" = Ok title /\ k = (attr_or_empty d "group" ++ ":" ++ title)%string.

(** What is kept of the controllers that were read to the end. *)
Record handle_ok (decls : list element) (h : handle) : Prop := {
  ho_group : smap_ok (controller_group h);
  ho_title : smap_ok (controller_title h);
  ho_types : smap_ok (controller_types h);
  ho_FTYPE : smap_ok (controller_is_FTYPE h);
  ho_min : smap_ok (controller_min h);
  ho_max : smap_ok (controller_max h);
  ho_step : smap_ok (controller_step h);
  ho_has : smap_ok (controller_has_midi h);
  ho_coarse : smap_ok (coarse_midi_controller h);
  ho_fine : smap_ok (fine_midi_controller h);
  ho_names : smap_ok (controller_enumnames h);
  ho_kept k tp : mfind (controller_types h) k = Some tp ->
    k ∈ controllers h /\ is_Some (mfind (controller_title h) k) /\ is_Some (mfind (controller_group h) k) /\
    is_Some (mfind (controller_is_FTYPE h) k) /\ is_Some (mfind (controller_has_midi h) k);
  ho_midi k : mfind (controller_has_midi h) k = Some true -> exists co fi, mfind (coarse_midi_controller h) k = Some co /\
    mfind (fine_midi_controller h) k = Some fi /\ (co = -1 \/ 0 <= co < 128 \/ co = 1024) /\ -1 <= fi < 128;
  ho_enum k : mfind (controller_types h) k = Some c_enum -> mfind (controller_min h) k = Some "0" /\ mfind (controller_step h) k = Some "1" /\
    exists d l topt ns, d ∈ decls /\ declares d k l /\ mfind (controller_max h) k = Some topt /\ mfind (controller_enumnames h) k = Some ns /\
      enum_shape l topt ns
}.

Lemma parse_midi_range e co fi : parse_midi e = (co, fi) -> (co = -1 \/ 0 <= co < 128 \/ co = 1024) /\ -1 <= fi < 128.
Proof.
  assert (forall z, -1 <= (if z =? -1 then z else Z.land z 127) < 128 /\ ((if z =? -1 then z else Z.land z 127) = -1 \/ 0 <= (if z =? -1 then z else Z.land z 127) < 128)) as Hcut.
  { intros z. case_if; zbool; [lia|]. change 127 with (Z.ones 7). rewrite Z.land_ones by lia. pose proof (Z.mod_pos_bound z (2^7)). lia. }
  unfold parse_midi, sc_special_first. destruct (get_attr e "coarse"); [|intros [= <- <-]; lia].
  case_if; [intros [= <- <-]; lia|]. intros [= <- <-].
  pose proof (Hcut (default (-1) (get_number e "coarse"))). pose proof (Hcut (default (-1) (get_number e "fine"))). lia.
Qed.

Ltac mset_cases := rewrite !mfind_mset by done; destruct (key_eqb _ _) eqn:Ek;
  [apply key_eqb_spec in Ek; subst|].

Lemma enter_controller_ok ds h name group e : handle_ok ds h -> handle_ok ds (enter_controller h name group e).
Proof.
  intros [H1 H2 H3 H4 H5 H6 H7 H8 H9 H10 H11 Hk Hm He]. unfold enter_controller. destruct (parse_midi e) as [co fi] eqn:Em.
  apply parse_midi_range in Em. destruct (String.eqb (attr_or_empty e "has_midi") "yes") eqn:Eh; split; cbn; try done; try (by apply mset_ok).
  1,3: intros k tp Ht; destruct (Hk k tp Ht) as (K1 & K2 & K3 & K4 & K5); (split; [apply elem_of_app; by left|]); (split; [done|]);
    rewrite !mfind_mset by done; (split; [by case_if|split; [done|by case_if]]).
  - intros k. mset_cases; [intros _; by exists co, fi|apply Hm].
  - intros k. mset_cases; [done|apply Hm].
Qed.

Lemma set_if_given_ok m name text : smap_ok m -> smap_ok (set_if_given m name text).
Proof. intros Hm. unfold set_if_given. case_if; [done|by apply mset_ok]. Qed.

Lemma find_if_given m name text k : smap_ok m -> key_eqb k name = false -> mfind (set_if_given m name text) k = mfind m k.
Proof. intros Hm E. unfold set_if_given. case_if; [done|]. by rewrite mfind_mset, E. Qed.

Lemma keep_controller_ok ds h name title type_name min max step ns : handle_ok ds h -> name ∈ controllers h ->
  is_Some (mfind (controller_group h) name) -> is_Some (mfind (controller_has_midi h) name) ->
  (parse_type type_name = c_enum -> min = "0" /\ step = "1" /\ max <> "" /\ exists d l, d ∈ ds /\ declares d name l /\ enum_shape l max ns) ->
  handle_ok ds (keep_controller h name title type_name min max step ns).
Proof.
  intros [H1 H2 H3 H4 H5 H6 H7 H8 H9 H10 H11 Hk Hm He] Hin Hg Hh Henum. split; cbn; try done; try (by apply mset_ok); try (by apply set_if_given_ok).
  - intros k tp. mset_cases; [by eauto|]. intros Ht. by apply (Hk k tp).
  - intros k. mset_cases.
    + intros [= Et]. destruct (Henum Et) as (-> & -> & Hne & d & l & Hd & Hl & Hs). unfold set_if_given. cbn.
      rewrite (proj2 (String.eqb_neq _ _) Hne), !mfind_mset, !key_eqb_refl by done. split; [done|]. split; [done|]. by exists d, l, max, ns.
    + rewrite !find_if_given by done. apply He.
Qed.

Lemma handle_ok_more ds d h : handle_ok ds h -> handle_ok (ds ++ [d]) h.
Proof.
  intros [H1 H2 H3 H4 H5 H6 H7 H8 H9 H10 H11 Hk Hm He]. split; try done. intros k Ht. destruct (He k Ht) as (E1 & E2 & d' & l & topt & ns & Hd & Hr).
  split; [done|]. split; [done|]. exists d', l, topt, ns. split; [apply elem_of_app; by left|done].
Qed.

Lemma parse_controller_ok ds h e : handle_ok ds h -> named_enums e -> handle_ok (ds ++ [e]) (fst (parse_controller h e)).
Proof.
  intros Hh%(handle_ok_more ds e) Hn. unfold parse_controller. destruct (get_attr e "name") as [title|] eqn:En; [|done]. destruct (get_attr e "type") as [type_name|]; [|done].
  set (group := attr_or_empty e "group"). set (name := (group ++ ":" ++ title)%string).
  pose proof (enter_controller_ok _ h name group e Hh) as Hent.
  assert (name ∈ controllers (enter_controller h name group e)) as Hin
    by (unfold enter_controller; destruct (parse_midi e); cbn; apply elem_of_app; right; by left).
  assert (is_Some (mfind (controller_group (enter_controller h name group e)) name)) as Hg
    by (unfold enter_controller; destruct (parse_midi e); cbn; rewrite mfind_mset, key_eqb_refl by apply Hh; by eexists).
  assert (is_Some (mfind (controller_has_midi (enter_controller h name group e)) name)) as Hm
    by (unfold enter_controller; destruct (parse_midi e); cbn; rewrite mfind_mset, key_eqb_refl by apply Hh; by eexists).
  destruct (parse_type type_name) eqn:Et; try (apply keep_controller_ok; try done; congruence).
  destruct (parse_enums name _ e) as [[topt ns]|] eqn:Ee; [|done]. apply parse_enums_shape in Ee as (l & El & Hs); [|done].
  apply keep_controller_ok; try done. intros _. split_and!; try done; [intros ->; by destruct Hs|].
  exists e, l. split; [apply elem_of_app; right; by left|]. split; [|done]. split; [done|by exists title].
Qed.

Lemma parse_controllers_ok l : forall ds h h', handle_ok ds h -> Forall named_enums l -> parse_controllers h l = Ok h' -> handle_ok (ds ++ l) h'.
Proof.
  assert (forall l ds h, handle_ok ds h -> handle_ok (ds ++ l) h) as Hmore.
  { clear. induction l as [|e l IH]; intros ds h Hh; [by rewrite app_nil_r|]. change (e :: l) with ([e] ++ l). rewrite app_assoc. by apply IH, handle_ok_more. }
  induction l as [|e l IH]; intros ds h h' Hh Hl E; cbn in E; [injection E as <-; by rewrite app_nil_r|]. inversion Hl; subst.
  pose proof (parse_controller_ok ds h e Hh ltac:(done)) as Hc. change (e :: l) with ([e] ++ l). rewrite app_assoc.
  destruct (parse_controller h e) as [h1 [[]|ex]].
  - by apply (IH _ h1).
  - destruct (_ || _); [done|]. injection E as <-. by apply Hmore.
Qed.

(** A declaration whose values all have names. *)
Definition named_declaration (e : element) : Prop := Forall named_enums (kids_or_none e "controller").

Lemma new_handle_ok base e h : named_declaration e -> new_handle base e = Ok h -> handle_ok (kids_or_none e "controller") h.
Proof.
  intros He. unfold new_handle. destruct (kid_text e "name"); [|done]. intros E. inv_bind E. destruct x as [dims outs].
  inv_bind E. destruct x as [? ins]. apply (parse_controllers_ok _ []) in E; [done| |done].
  split; cbn; try apply smap_ok_nil; done.
Qed.
