(* ===== verification/HandleTables.v ===== *)
(** * The plugins that are found (class [DynamicMachine::Handle], dynamic_machine.cc)

    The start reads the declarations of a directory: each is of one machine, or of a set of machines
    that share a library. A handle is found by the name of its machine, and its library is opened
    when it is first asked for. The Android build, which looks in one place. *)

From Stdlib Require Import ZArith Lia Ascii String List.
From stdpp Require Import base list strings numbers option gmap.
From S2P Require Import Prelude CxxString StdMap MachineGraph HandleDecl.
Local Open Scope string_scope.
Local Open Scope list_scope.
Local Open Scope Z_scope.
Local Open Scope vk_scope.

(** The functions of a library, in the order they are looked for: [None] is a null pointer, and
    what is not there has not been looked for. *)
Abbreviation functions := (list (string * option Z)).

(** The handles by their addresses, from zero on, with the handle before each in its set; the
    tables; and the handles whose library counts as loaded, with its functions. *)
(* @src src_jni/dynamic_machine.hh:173-176 DynamicMachine::Handle *)
Record tables : Type := Tables {
  heap : list (handle * option Z);
  declaration2handle : smap string (option Z);
  name2handle : smap string Z;
  dynlib_is_loaded : gmap Z functions
}.

Definition at_handle (t : tables) (a : Z) : result (handle * option Z) :=
  match heap t !! Z.to_nat a with Some h => Ok h | None => Err (UndefinedBehaviour "dangling Handle pointer") end.

Section files.
(** What reading a file gives: a document, with its name, or what asking for that throws; the
    entries of the directory, each with whether it is a regular file if that can be told, if there
    is a directory. *)
Context (read_file : string -> result (result string * element)) (handle_directory : string) (read_dir : option (list (string * option bool))).
(** The system's loader. *)
Context (dlopen : string -> option Z) (dlsym : Z -> string -> option Z) (dlerror : string).

(** ** Reading the declarations *)

(* @src src_jni/dynamic_machine.cc:121-168 DynamicMachine::Handle::Handle *)
Definition read_declaration (dynamic_name : string) : result (handle + string * element) :=
  match read_file dynamic_name with
  | Err ex => Err (JException ("Failed to load declaration for " ++ dynamic_name ++ match ex with JException m => ". (" ++ m ++ ")" | _ => "." end)%string)
  | Ok (Err _, _) => Err (JException "XML format error in DynamicMachine::Handle::Handle().")
  | Ok (Ok proto_name, xml_proto) =>
      if String.eqb proto_name "machine" then let! h := new_handle "" xml_proto in Ok (inl h)
      else if String.eqb proto_name "machineset" then
        match kid_text xml_proto "name" with
        | Ok base_name => if String.eqb base_name "" then Err (JException "No name declared for connected set.") else Ok (inr (base_name, xml_proto))
        | Err _ => Err (JException "No name declared for connected set.")
        end
      else Err (JException ("XML data selected for DynamicMachine Handle creation was incorret. (" ++ proto_name ++ ")")%string)
  end.

Definition add_handle (t : tables) (h : handle) (parent : option Z) : tables * Z :=
  let a := Z.of_nat (List.length (heap t)) in
  (Tables (heap t ++ [(h, parent)]) (declaration2handle t) (mset (name2handle t) (h_name h) a) (dynlib_is_loaded t), a).

Definition declare (t : tables) (fname : string) (a : option Z) : tables :=
  Tables (heap t) (mset (declaration2handle t) fname a) (name2handle t) (dynlib_is_loaded t).

(** Whether it came to the end; a declaration that is not accepted ends the set and is only
    printed. *)
(* @src src_jni/dynamic_machine.cc:667-682 DynamicMachine::Handle::load_handle *)
Fixpoint load_set (t : tables) (fname base_name : string) (set_parent : option Z) (machines : list element) : tables * result unit :=
  match machines with
  | [] => (declare t fname set_parent, Ok tt)
  | e :: machines =>
      match new_handle base_name e with
      | Err ex => (t, if is_exception ex then Ok tt else Err ex)
      | Ok h => let '(t, a) := add_handle t h set_parent in load_set t fname base_name (Some a) machines
      end
  end.

(* @src src_jni/dynamic_machine.cc:644-684 DynamicMachine::Handle::load_handle *)
Definition load_handle (t : tables) (fname : string) : tables * result unit :=
  match mfind (declaration2handle t) fname with
  | Some _ => (t, Ok tt)
  | None =>
      match read_declaration fname with
      | Err ex => (t, Err ex)
      | Ok (inl h) => let '(t, a) := add_handle t h None in (declare t fname (Some a), Ok tt)
      | Ok (inr (base_name, handle_set)) =>
          match kids handle_set "machine" with
          | Err _ => (t, Ok tt)
          | Ok machines => load_set t fname base_name None machines
          end
      end
  end.

Definition is_xml (filename : string) : bool :=
  let n := String.length filename in (4 <=? n)%nat && String.eqb (substring (n - 4) 4 filename) ".xml".

(** The files of the directory; what is thrown ends the search. *)
(* @src src_jni/dynamic_machine.cc:719-743 DynamicMachine::Handle::refresh_handle_set *)
Fixpoint refresh_files (t : tables) (entries : list (string * option bool)) : tables * result unit :=
  match entries with
  | [] => (t, Ok tt)
  | (_, None) :: _ => (t, Err (JException "Failed to stat file during refresh."))
  | (d_name, Some regular) :: entries =>
      let filename := (handle_directory ++ "/" ++ d_name)%string in
      if regular && is_xml filename then
        match load_handle t filename with
        | (t, Ok _) => refresh_files t entries
        | (t, Err ex) => (t, Err ex)
        end
      else refresh_files t entries
  end.

(* @src src_jni/dynamic_machine.cc:686-750 DynamicMachine::Handle::refresh_handle_set *)
Definition refresh_handle_set (t : tables) : tables * result unit :=
  match read_dir with
  | None => (t, Err (JException "Failed to refresh handles"))
  | Some entries => refresh_files t entries
  end.

(** ** Opening the libraries *)

(* @src src_jni/dynamic_machine.cc:196-257 DynamicMachine::Handle::prep_dynlib *)
Definition open_dynlib (dl : string) : result Z :=
  let dynamic_file := (handle_directory ++ "/../../lib/" ++ "lib" ++ dl)%string in
  match dlopen (dynamic_file ++ ".so")%string with
  | Some m => Ok m
  | None => match dlopen (dynamic_file ++ "_fallback" ++ ".so")%string with
            | Some m => Ok m
            | None => Err (JException ("Failed to load dynamic machine from file [" ++ dynamic_file ++ ".so" ++ "] (" ++ dlerror ++ ")" ++ newline)%string)
            end
  end.

Definition symbols : list string := ["init"; "execute"; "reset"; "delete"; "get_controller_ptr"].

(* @src src_jni/dynamic_machine.cc:261-276 DynamicMachine::Handle::prep_dynlib *)
Fixpoint find_functions (name : string) (m : Z) (syms : list string) : functions * result unit :=
  match syms with
  | [] => ([], Ok tt)
  | s :: syms =>
      match dlsym m s with
      | None => ([(s, None)], Err (JException ("Module " ++ name ++ " defined no " ++ s ++ " function." ++ newline)%string))
      | Some f => let '(fs, r) := find_functions name m syms in ((s, Some f) :: fs, r)
      end
  end.

Definition set_loaded (t : tables) (a : Z) (fs : functions) : tables :=
  Tables (heap t) (declaration2handle t) (name2handle t) (<[a := fs]> (dynlib_is_loaded t)).

(** The library counts as loaded before its functions are looked for. *)
(* @src src_jni/dynamic_machine.cc:165-277 DynamicMachine::Handle::prep_dynlib *)
Fixpoint prep_dynlib (fuel : nat) (t : tables) (a : Z) : tables * result unit :=
  match fuel with
  | O => (t, Err OutOfFuel)
  | S fuel =>
      match dynlib_is_loaded t !! a, at_handle t a with
      | Some _, _ => (t, Ok tt)
      | None, Err ex => (t, Err ex)
      | None, Ok (_, Some p) =>
          match prep_dynlib fuel t p with
          | (t, Ok _) => (set_loaded t a (default [] (dynlib_is_loaded t !! p)), Ok tt)
          | (t, Err ex) => (t, Err ex)
          end
      | None, Ok (h, None) =>
          match open_dynlib (dl_name h) with
          | Err ex => (t, Err ex)
          | Ok m => let '(fs, r) := find_functions (h_name h) m symbols in (set_loaded t a fs, r)
          end
      end
  end.

(* @src src_jni/dynamic_machine.cc:762-778 DynamicMachine::Handle::get_handle *)
Definition get_handle (t : tables) (name : string) : tables * result Z :=
  match mfind (name2handle t) name with
  | None => (t, Err (JException ("No such machine handle. : " ++ name)%string))
  | Some a =>
      match prep_dynlib (S (List.length (heap t))) t a with
      | (t, Ok _) => (t, Ok a)
      | (t, Err ex) => (t, Err ex)
      end
  end.

(* @src src_jni/dynamic_machine.cc:780-794 DynamicMachine::Handle::get_handle_hint *)
Definition get_handle_hint (t : tables) (name : string) : result string :=
  match mfind (name2handle t) name with
  | None => Err (JException ("No such machine handle. : " ++ name)%string)
  | Some a => let! h := at_handle t a in Ok (hint (fst h))
  end.

(** ** What the tables hold *)

Lemma parse_controller_name h e : dl_name (fst (parse_controller h e)) = dl_name h /\ h_name (fst (parse_controller h e)) = h_name h.
Proof.
  unfold parse_controller, enter_controller. destruct (get_attr e "name"); [|done]. destruct (get_attr e "type"); [|done].
  destruct (parse_midi e), (parse_type _); try done. by destruct (parse_enums _ _ _) as [[? ?]|].
Qed.

Lemma parse_controllers_name l : forall h h', parse_controllers h l = Ok h' -> dl_name h' = dl_name h /\ h_name h' = h_name h.
Proof.
  induction l as [|e l IH]; intros h h' E; cbn in E; [by injection E as <-|]. pose proof (parse_controller_name h e) as [<- <-].
  destruct (parse_controller h e) as [h1 [[]|ex]]; [by apply IH|]. destruct (_ || _); [done|]. by injection E as <-.
Qed.

(** The machines of a set have the library of the set. *)
Lemma new_handle_library base e h : new_handle base e = Ok h -> dl_name h = if String.eqb base "" then h_name h else base.
Proof.
  unfold new_handle. destruct (kid_text e "name") as [own|]; [|done]. intros E. inv_bind E. destruct x as [dims outs]. inv_bind E. destruct x as [? ins].
  apply parse_controllers_name in E as [-> ->]. done.
Qed.

(** The handles of the elements of a set, if they are all accepted. *)
Fixpoint set_handles (base_name : string) (machines : list element) : option (list handle) :=
  match machines with
  | [] => Some []
  | e :: machines => match new_handle base_name e, set_handles base_name machines with Ok h, Some hs => Some (h :: hs) | _, _ => None end
  end.

(** The handles a file declares. *)
Definition declared (fname : string) : option (list handle) :=
  match read_declaration fname with
  | Ok (inl h) => Some [h]
  | Ok (inr (base_name, handle_set)) => match kids handle_set "machine" with Ok machines => set_handles base_name machines | Err _ => None end
  | Err _ => None
  end.

Definition complete (m : Z) : Prop := Forall (fun s => is_Some (dlsym m s)) symbols.
Definition functions_of (m : Z) : functions := map (fun s => (s, dlsym m s)) symbols.

Lemma find_functions_complete name m syms : Forall (fun s => is_Some (dlsym m s)) syms -> find_functions name m syms = (map (fun s => (s, dlsym m s)) syms, Ok tt).
Proof. induction 1 as [|s syms [f Ef] _ IH]; [done|]. cbn. by rewrite Ef, IH. Qed.

Lemma find_functions_name name name' m syms : fst (find_functions name m syms) = fst (find_functions name' m syms).
Proof.
  induction syms as [|s syms IH]; [done|]. cbn. destruct (dlsym m s); [|done].
  destruct (find_functions name m syms), (find_functions name' m syms). cbn in *. by rewrite IH.
Qed.

Record tables_ok (t : tables) : Prop := {
  to_declarations : smap_ok (declaration2handle t);
  to_names : smap_ok (name2handle t);
  to_name n a : mfind (name2handle t) n = Some a -> 0 <= a /\ exists h p, heap t !! Z.to_nat a = Some (h, p) /\ h_name h = n;
  to_parent i h p : heap t !! i = Some (h, Some p) -> 0 <= p < Z.of_nat i /\ exists h' p', heap t !! Z.to_nat p = Some (h', p') /\ dl_name h' = dl_name h;
  to_loaded a fs : dynlib_is_loaded t !! a = Some fs -> exists h p m name, heap t !! Z.to_nat a = Some (h, p) /\ open_dynlib (dl_name h) = Ok m /\
    fs = fst (find_functions name m symbols);
  to_files f x hs h : mfind (declaration2handle t) f = Some x -> declared f = Some hs -> h ∈ hs -> is_Some (mfind (name2handle t) (h_name h))
}.

Lemma add_handle_ok t h parent : tables_ok t ->
  match parent with None => True | Some p => 0 <= p /\ exists h' p', heap t !! Z.to_nat p = Some (h', p') /\ dl_name h' = dl_name h end ->
  let '(t', a) := add_handle t h parent in
  tables_ok t' /\ 0 <= a /\ heap t' !! Z.to_nat a = Some (h, parent) /\ mfind (name2handle t') (h_name h) = Some a /\
  forall n, is_Some (mfind (name2handle t) n) -> is_Some (mfind (name2handle t') n).
Proof.
  intros [T1 T2 T3 T4 T5 T6] Hp. unfold add_handle.
  assert (forall i x, heap t !! i = Some x -> (heap t ++ [(h, parent)]) !! i = Some x) as Hold by (intros i x; apply lookup_app_l_Some).
  assert ((heap t ++ [(h, parent)]) !! List.length (heap t) = Some (h, parent)) as Hnew by (by rewrite list_lookup_middle).
  assert (forall n, is_Some (mfind (name2handle t) n) -> is_Some (mfind (mset (name2handle t) (h_name h) (Z.of_nat (List.length (heap t)))) n)) as Hmore
    by (intros n Hn; rewrite mfind_mset by done; case_if; [by eexists|done]).
  split; [split; cbn|].
  - done.
  - by apply mset_ok.
  - intros n a. rewrite mfind_mset by done. destruct (key_eqb n (h_name h)) eqn:Ek.
    + intros [= <-]. apply key_eqb_spec in Ek as ->. split; [lia|]. exists h, parent. by rewrite Nat2Z.id.
    + intros Ha. destruct (T3 n a Ha) as (H0 & h' & p' & H1 & H2). split; [done|]. exists h', p'. split; [by apply Hold|done].
  - intros i h0 p Hi. apply lookup_app_Some in Hi as [Hi|[Hi Hl]].
    + destruct (T4 i h0 p Hi) as (H0 & h' & p' & H1 & H2). split; [done|]. exists h', p'. split; [by apply Hold|done].
    + apply list_lookup_singleton_Some in Hl as [Hl [= <- ->]]. destruct Hp as (H0 & h' & p' & H1 & H2).
      pose proof (lookup_lt_Some _ _ _ H1). split; [lia|]. exists h', p'. split; [by apply Hold|done].
  - intros a fs Ha. destruct (T5 a fs Ha) as (h' & p' & m & n & H1 & H2 & H3). exists h', p', m, n. split; [by apply Hold|done].
  - intros f x hs h0 Hf Hd Hin. apply Hmore. by apply (T6 f x hs).
  - split; [lia|]. rewrite Nat2Z.id. split; [done|]. split; [|done]. cbn. by rewrite mfind_mset, key_eqb_refl by done.
Qed.

Lemma declare_ok t f x : tables_ok t -> (forall hs h, declared f = Some hs -> h ∈ hs -> is_Some (mfind (name2handle t) (h_name h))) -> tables_ok (declare t f x).
Proof.
  intros [T1 T2 T3 T4 T5 T6] Hf. split; cbn; try done; [by apply mset_ok|]. intros f' x' hs h. rewrite mfind_mset by done.
  destruct (key_eqb f' f) eqn:Ek; [apply key_eqb_spec in Ek as ->|]; [intros _; apply Hf|apply T6].
Qed.

Definition names_kept (t t' : tables) : Prop := forall n, is_Some (mfind (name2handle t) n) -> is_Some (mfind (name2handle t') n).

Lemma names_kept_refl t : names_kept t t.
Proof. by intros n. Qed.
#[local] Hint Resolve names_kept_refl : core.

Lemma load_set_ok f base machines : base <> "" -> forall t parent,
  tables_ok t -> match parent with None => True | Some p => 0 <= p /\ exists h p', heap t !! Z.to_nat p = Some (h, p') /\ dl_name h = base end ->
  (forall hs h, declared f = Some hs -> h ∈ hs -> is_Some (mfind (name2handle t) (h_name h)) \/ exists hs', set_handles base machines = Some hs' /\ h ∈ hs') ->
  (is_Some (declared f) -> is_Some (set_handles base machines)) ->
  let '(t', _) := load_set t f base parent machines in
  tables_ok t' /\ names_kept t t' /\ forall hs h, declared f = Some hs -> h ∈ hs -> is_Some (mfind (name2handle t') (h_name h)).
Proof.
  intros Hb. induction machines as [|e machines IH]; intros t parent Ht Hp Hd Hs; cbn [load_set].
  - assert (forall hs h, declared f = Some hs -> h ∈ hs -> is_Some (mfind (name2handle t) (h_name h))) as Hd'
      by (intros hs h E Hin; destruct (Hd hs h E Hin) as [|(hs' & [= <-] & ?%elem_of_nil)]; done).
    split; [by apply declare_ok|]. split; [by intros n|exact Hd'].
  - cbn [set_handles] in Hd, Hs. destruct (new_handle base e) as [h|ex] eqn:Eh.
    2:{ split; [done|]. split; [done|]. intros hs h E Hin. by destruct (Hs ltac:(by eexists)). }
    pose proof (new_handle_library _ _ _ Eh) as El. rewrite (proj2 (String.eqb_neq _ _) Hb) in El.
    pose proof (add_handle_ok t h parent Ht) as Ha. destruct (add_handle t h parent) as [t1 a]. destruct Ha as (Ht1 & Ha0 & Hheap & Hname & Hkept).
    { destruct parent as [p|]; [|done]. destruct Hp as (H0 & h' & p' & H1 & H2). split; [done|]. exists h', p'. by rewrite El. }
    specialize (IH t1 (Some a) Ht1). destruct (load_set t1 f base (Some a) machines) as [t2 r].
    destruct IH as (I1 & I2 & I3); [split; [done|by exists h, parent]| | |].
    + intros hs h0 E Hin. destruct (Hd hs h0 E Hin) as [Hn|(hs' & E' & Hin')]; [left; by apply Hkept|].
      destruct (set_handles base machines) as [hs2|]; [|done]. injection E' as <-. apply elem_of_cons in Hin' as [->|Hin']; [left; by eexists|right; by exists hs2].
    + intros Hsome. destruct (Hs Hsome) as [? ?]. by destruct (set_handles base machines).
    + split; [done|]. split; [|done]. intros n Hn. by apply I2, Hkept.
Qed.

(** After a file is read, the machines it declares have handles. *)
Lemma load_handle_ok t f : tables_ok t -> let '(t', r) := load_handle t f in
  tables_ok t' /\ names_kept t t' /\ (r = Ok tt -> forall hs h, declared f = Some hs -> h ∈ hs -> is_Some (mfind (name2handle t') (h_name h))).
Proof.
  intros Ht. unfold load_handle. destruct (mfind (declaration2handle t) f) as [x|] eqn:Ef.
  { split; [done|]. split; [done|]. intros _ hs h. by apply (to_files _ Ht f x). }
  destruct (read_declaration f) as [[h|[base hset]]|ex] eqn:Er; [| |by split].
  - pose proof (add_handle_ok t h None Ht I) as Ha. destruct (add_handle t h None) as [t1 a]. destruct Ha as (Ht1 & _ & _ & Hname & Hkept).
    assert (forall hs h0, declared f = Some hs -> h0 ∈ hs -> is_Some (mfind (name2handle t1) (h_name h0))) as Hd.
    { unfold declared. rewrite Er. intros hs h0 [= <-] ->%list_elem_of_singleton. by eexists. }
    split; [by apply declare_ok|]. split; [exact Hkept|]. intros _. exact Hd.
  - assert (base <> "") as Hb.
    { revert Er. unfold read_declaration. destruct (read_file f) as [[[proto|] xml]|]; try done. destruct (String.eqb proto "machine"); [intros E; inv_bind E; done|].
      destruct (String.eqb proto "machineset"); [|done]. destruct (kid_text xml "name") as [b|]; [|done].
      destruct (String.eqb b "") eqn:E; [done|]. intros [= <- <-]. by apply String.eqb_neq. }
    destruct (kids hset "machine") as [machines|] eqn:Ek.
    2:{ split; [done|]. split; [done|]. intros _ hs h. unfold declared. by rewrite Er, Ek. }
    pose proof (load_set_ok f base machines Hb t None Ht I) as Hl. destruct (load_set t f base None machines) as [t1 r].
    destruct Hl as (H1 & H2 & H3); [| |split; [done|]; by split].
    + intros hs h. unfold declared. rewrite Er, Ek. intros E Hin. right. by exists hs.
    + unfold declared. by rewrite Er, Ek.
Qed.

Lemma refresh_files_ok entries : forall t, tables_ok t -> let '(t', r) := refresh_files t entries in
  tables_ok t' /\ names_kept t t' /\ (r = Ok tt -> forall d hs h, (d, Some true) ∈ entries -> is_xml (handle_directory ++ "/" ++ d)%string = true ->
    declared (handle_directory ++ "/" ++ d)%string = Some hs -> h ∈ hs -> is_Some (mfind (name2handle t') (h_name h))).
Proof.
  induction entries as [|[d reg] entries IH]; intros t Ht; cbn [refresh_files]; [split; [done|]; split; [done|]; by intros _ ? ? ? ?%elem_of_nil|].
  destruct reg as [reg|]; [|by split]. destruct (reg && _) eqn:Ex.
  - pose proof (load_handle_ok t (handle_directory ++ "/" ++ d)%string Ht) as Hl. destruct (load_handle t _) as [t1 [[]|ex]]; destruct Hl as (L1 & L2 & L3).
    2:{ split; [done|]. by split. }
    specialize (IH t1 L1). destruct (refresh_files t1 entries) as [t2 r]. destruct IH as (I1 & I2 & I3). split; [done|]. split; [intros n Hn; by apply I2, L2|].
    intros Hr d' hs h Hin Hxml Hd Hh. apply elem_of_cons in Hin as [[= -> <-]|Hin]; [apply I2; by apply (L3 eq_refl hs)|by apply (I3 Hr d' hs)].
  - specialize (IH t Ht). destruct (refresh_files t entries) as [t2 r]. destruct IH as (I1 & I2 & I3). split; [done|]. split; [done|].
    intros Hr d' hs h Hin Hxml. apply elem_of_cons in Hin as [[= -> <-]|Hin]; [by rewrite Hxml in Ex|by apply (I3 Hr d' hs)].
Qed.

Lemma set_loaded_ok t a h p m name : tables_ok t -> 0 <= a -> heap t !! Z.to_nat a = Some (h, p) -> open_dynlib (dl_name h) = Ok m ->
  tables_ok (set_loaded t a (fst (find_functions name m symbols))).
Proof.
  intros [T1 T2 T3 T4 T5 T6] Ha Hh Hm. split; cbn; try done. intros b fs Hb. destruct (Z.eq_dec a b) as [<-|Hne].
  - rewrite lookup_insert_eq in Hb. injection Hb as <-. by exists h, p, m, name.
  - rewrite lookup_insert_ne in Hb by done. by apply T5.
Qed.

Definition same_handles (t t' : tables) : Prop := heap t' = heap t /\ declaration2handle t' = declaration2handle t /\ name2handle t' = name2handle t.

(** Opening the library of a handle ends, and gives it the functions of the library. *)
Lemma prep_dynlib_spec fuel : forall t a h p, tables_ok t -> 0 <= a -> heap t !! Z.to_nat a = Some (h, p) -> (Z.to_nat a < fuel)%nat ->
  let '(t', r) := prep_dynlib fuel t a in
  tables_ok t' /\ same_handles t t' /\ (r = Ok tt -> is_Some (dynlib_is_loaded t' !! a)) /\
  match open_dynlib (dl_name h) with
  | Err ex => r = Err ex
  | Ok m => complete m -> r = Ok tt /\ dynlib_is_loaded t' !! a = Some (functions_of m)
  end.
Proof.
  induction fuel as [|fuel IH]; intros t a h p Ht Ha Hh Hf; [lia|]. cbn [prep_dynlib].
  destruct (dynlib_is_loaded t !! a) as [fs|] eqn:El.
  { split; [done|]. split; [done|]. split; [by eexists|]. destruct (to_loaded _ Ht a fs El) as (h' & p' & m & name & Hh' & Hm & ->).
    assert (h' = h) as -> by congruence. rewrite Hm. intros Hc. split; [done|]. by rewrite (find_functions_complete name m symbols Hc) in El. }
  unfold at_handle. rewrite Hh. destruct p as [p|].
  - destruct (to_parent _ Ht _ _ _ Hh) as (Hp & h' & p' & Hh' & Hdl). specialize (IH t p h' p' Ht ltac:(lia) Hh' ltac:(lia)).
    destruct (prep_dynlib fuel t p) as [t1 [[]|ex]]; destruct IH as (I1 & I2 & I3 & I4); rewrite Hdl in I4.
    2:{ split; [done|]. split; [done|]. split; [done|]. destruct (open_dynlib (dl_name h)); [|done]. intros Hc. by destruct (I4 Hc). }
    destruct (I3 eq_refl) as [fs Efs]. rewrite Efs. cbn [from_option id]. destruct (to_loaded _ I1 p fs Efs) as (h2 & p2 & m & name & Hh2 & Hm & ->).
    pose proof I2 as (E1 & _). rewrite E1 in Hh2. assert (h2 = h') as -> by congruence. rewrite Hdl in Hm.
    split; [apply (set_loaded_ok _ _ h (Some p)); try done; by rewrite E1|]. split; [done|]. split; [intros _; cbn; rewrite lookup_insert_eq; by eexists|].
    rewrite Hm. intros Hc. split; [done|]. unfold set_loaded. cbn [dynlib_is_loaded]. by rewrite lookup_insert_eq, find_functions_complete.
  - destruct (open_dynlib (dl_name h)) as [m|ex] eqn:Em; [|by split_and!].
    pose proof (set_loaded_ok t a h None m (h_name h) Ht Ha Hh Em) as Hok. destruct (find_functions (h_name h) m symbols) as [fs r] eqn:Ef.
    split; [done|]. split; [done|]. split; [intros _; cbn; rewrite lookup_insert_eq; by eexists|].
    intros Hc. rewrite find_functions_complete in Ef by done. injection Ef as <- <-. split; [done|]. cbn. by rewrite lookup_insert_eq.
Qed.

Lemma get_handle_ok t name : tables_ok t -> tables_ok (fst (get_handle t name)) /\ same_handles t (fst (get_handle t name)).
Proof.
  intros Ht. unfold get_handle. destruct (mfind (name2handle t) name) as [a|] eqn:Ea; [|done]. destruct (to_name _ Ht name a Ea) as (Ha & h & p & Hh & _).
  pose proof (lookup_lt_Some _ _ _ Hh). pose proof (prep_dynlib_spec (S (List.length (heap t))) t a h p Ht Ha Hh ltac:(lia)) as Hp.
  destruct (prep_dynlib _ t a) as [t1 [[]|ex]]; by destruct Hp as (? & ? & _).
Qed.

(** The directory is read, and handles are asked for, in any order. *)
Inductive tables_run : tables -> tables -> Prop :=
| run_now t : tables_run t t
| run_refreshed t t' : tables_run t t' -> tables_run t (fst (refresh_handle_set t'))
| run_asked t t' name : tables_run t t' -> tables_run t (fst (get_handle t' name)).

Definition no_tables : tables := Tables [] [] [] ∅.

Lemma no_tables_ok : tables_ok no_tables.
Proof. split; try apply smap_ok_nil; done. Qed.

Lemma refresh_tables_ok t : tables_ok t -> let '(t', r) := refresh_handle_set t in tables_ok t' /\ names_kept t t'.
Proof.
  intros Ht. unfold refresh_handle_set. destruct read_dir as [entries|]; [|done]. pose proof (refresh_files_ok entries t Ht) as Hr.
  destruct (refresh_files t entries) as [t' r]. by destruct Hr as (? & ? & _).
Qed.

Lemma run_ok t t' : tables_run t t' -> tables_ok t -> tables_ok t' /\ names_kept t t'.
Proof.
  induction 1 as [|t t' _ IH|t t' name _ IH]; intros Ht; [done| |]; destruct (IH Ht) as [I1 I2].
  - pose proof (refresh_tables_ok t' I1) as Hr. destruct (refresh_handle_set t') as [t2 r]. destruct Hr as [R1 R2]. split; [done|]. intros n Hn. by apply R2, I2.
  - destruct (get_handle_ok t' name I1) as (G1 & _ & _ & G2). split; [done|]. intros n Hn. rewrite G2. by apply I2.
Qed.

(** C22: A machine that is declared can be had. Whatever was read and asked for before, after the
    directory is read without an exception, each machine that a regular [.xml] file in it declares,
    alone or in a set whose machines are all accepted, has a handle of its name from then on,
    whatever is read and asked for. Asking for it comes to an end: when the handle's library cannot
    be opened, with that error; and when the library can and has the five functions, with the
    handle, loaded with them, even when the library was opened for another machine of the set. *)
Theorem declared_machine_found t t1 t2 entries d hs h : tables_run no_tables t -> read_dir = Some entries -> refresh_handle_set t = (t1, Ok tt) ->
  (d, Some true) ∈ entries -> is_xml (handle_directory ++ "/" ++ d)%string = true -> declared (handle_directory ++ "/" ++ d)%string = Some hs -> h ∈ hs ->
  tables_run t1 t2 ->
  exists a h' p, mfind (name2handle t2) (h_name h) = Some a /\ heap t2 !! Z.to_nat a = Some (h', p) /\ h_name h' = h_name h /\
    let '(t3, r) := get_handle t2 (h_name h) in
    match open_dynlib (dl_name h') with
    | Err ex => r = Err ex
    | Ok m => complete m -> r = Ok a /\ dynlib_is_loaded t3 !! a = Some (functions_of m)
    end.
Proof.
  intros Hrun Hdir Href Hin Hxml Hdecl Hh Hrun2. destruct (run_ok _ _ Hrun no_tables_ok) as [Ht _].
  unfold refresh_handle_set in Href. rewrite Hdir in Href. pose proof (refresh_files_ok entries t Ht) as Hr. rewrite Href in Hr.
  destruct Hr as (Ht1 & _ & Hr). specialize (Hr eq_refl d hs h Hin Hxml Hdecl Hh). destruct (run_ok _ _ Hrun2 Ht1) as [Ht2 Hkept].
  destruct (Hkept _ Hr) as [a Ea]. destruct (to_name _ Ht2 _ a Ea) as (Ha & h' & p & Hh' & En). exists a, h', p. split; [done|]. split; [done|]. split; [done|].
  unfold get_handle. rewrite Ea. pose proof (lookup_lt_Some _ _ _ Hh').
  pose proof (prep_dynlib_spec (S (List.length (heap t2))) t2 a h' p Ht2 Ha Hh' ltac:(lia)) as Hp.
  destruct (prep_dynlib _ t2 a) as [t3 [[]|ex]]; destruct Hp as (_ & _ & _ & Hp); destruct (open_dynlib (dl_name h')); try done.
  - intros Hc. by destruct (Hp Hc).
  - intros Hc. by destruct (Hp Hc).
  - by injection Hp as ->.
Qed.
End files.

(** ** Witness: a set of two machines in one library *)

Definition ex_declaration (kid : string) (es : list element) (name : string) : element :=
  Element (fun n => Err (NoSuchKey n)) (fun _ => None) (fun n => if String.eqb n kid then Ok es else Err (NoSuchKey n))
    (fun n => if String.eqb n "name" then Ok name else Err (NoSuchKey n)) (Ok name).

Definition ex_set : element := ex_declaration "machine" [ex_declaration "" [] "in"; ex_declaration "" [] "out"] "live".
Definition ex_read (f : string) : result (result string * element) :=
  if String.eqb f "/dl/live.xml" then Ok (Ok "machineset", ex_set) else Err (JException "no file").
Definition ex_entries : list (string * option bool) := [("sub", Some false); ("live.xml", Some true)].
Definition ex_dlopen (f : string) : option Z := if String.eqb f "/dl/../../lib/liblive_fallback.so" then Some 7 else None.
Definition ex_dlsym (m : Z) (s : string) : option Z := Some (m * 100 + Z.of_nat (String.length s)).
Definition ex_found : tables * result unit := refresh_handle_set ex_read "/dl" (Some ex_entries) no_tables.
Definition ex_asked_for (t : tables) (name : string) : tables * result Z := get_handle "/dl" ex_dlopen ex_dlsym "not found" t name.

Lemma declared_machine_found_witness : snd ex_found = Ok tt /\ exists t3, ex_asked_for (fst ex_found) "liveout" = (t3, Ok 1) /\
  dynlib_is_loaded t3 !! 1 = Some (functions_of ex_dlsym 7).
Proof.
  assert (snd ex_found = Ok tt) as Hok by (vm_compute; reflexivity). split; [exact Hok|].
  assert (exists h1 h2, declared ex_read "/dl/live.xml" = Some [h1; h2] /\ h_name h2 = "liveout") as (h1 & h2 & Ed & En)
    by (do 2 eexists; split; [vm_compute; reflexivity|reflexivity]).
  destruct (declared_machine_found ex_read "/dl" (Some ex_entries) ex_dlopen ex_dlsym "not found" no_tables (fst ex_found) (fst ex_found) ex_entries "live.xml"
    [h1; h2] h2 (run_now _ _ _ _ _ _ _)) as (a & h' & p & Ea & Hh & _ & Hget);
    [reflexivity|unfold ex_found in *; destruct (refresh_handle_set _ _ _ _); cbn in *; by subst|right; left|reflexivity|exact Ed|right; left|constructor|].
  rewrite En in Ea, Hget. assert (mfind (name2handle (fst ex_found)) "liveout" = Some 1) as E1 by (vm_compute; reflexivity).
  rewrite Ea in E1. injection E1 as ->. change (get_handle _ _ _ _ _ _) with (ex_asked_for (fst ex_found) "liveout") in Hget.
  assert (dl_name h' = "live") as Edl by (revert Hh; vm_compute; by intros [= <- _]). rewrite Edl in Hget.
  change (open_dynlib "/dl" ex_dlopen "not found" "live") with (@Ok Z 7) in Hget. destruct (ex_asked_for _ _) as [t3 r]. exists t3.
  destruct Hget as [-> Hl]; [repeat constructor; by eexists|]. by split.
Defined.
