(* ===== verification/DynamicMachine.v ===== *)
(** * Machines of plugins and their controllers (class [DynamicMachine], dynamic_machine.cc)

    A machine of a plugin asks it for the address of each controller its handle declares, and makes
    controllers from the declaration and the address. A project keeps the values of the controllers
    by their names (machine.cc). *)

From Stdlib Require Import ZArith Lia Ascii String List.
From stdpp Require Import base list strings numbers option gmap.
From S2P Require Import Prelude CxxString StdMap Common Serialize Message RemoteMachine MachineGraph Controller RemoteController HandleDecl.
Local Open Scope string_scope.
Local Open Scope list_scope.
Local Open Scope Z_scope.
Local Open Scope vk_scope.

(** ** What a handle answers *)

Definition find_or_throw {A} (m : smap string A) (ctrl : string) : result A :=
  match mfind m ctrl with None => Err (JException ("No such controller." ++ newline)%string) | Some v => Ok v end.

(* @src src_jni/dynamic_machine.cc:548-553 DynamicMachine::Handle::get_controller_title *)
Definition get_controller_title (h : handle) (ctrl : string) : result string := find_or_throw (controller_title h) ctrl.
(* @src src_jni/dynamic_machine.cc:556-561 DynamicMachine::Handle::get_controller_group *)
Definition get_controller_group (h : handle) (ctrl : string) : result string := find_or_throw (controller_group h) ctrl.
(* @src src_jni/dynamic_machine.cc:564-569 DynamicMachine::Handle::get_controller_type *)
Definition get_controller_type (h : handle) (ctrl : string) : result controller_type := find_or_throw (controller_types h) ctrl.
(* @src src_jni/dynamic_machine.cc:572-577 DynamicMachine::Handle::get_controller_is_FTYPE *)
Definition get_controller_is_FTYPE (h : handle) (ctrl : string) : result bool := find_or_throw (controller_is_FTYPE h) ctrl.
(* @src src_jni/dynamic_machine.cc:580-584 DynamicMachine::Handle::get_controller_min *)
Definition get_controller_min (h : handle) (ctrl : string) : string := default "" (mfind (controller_min h) ctrl).
(* @src src_jni/dynamic_machine.cc:587-591 DynamicMachine::Handle::get_controller_max *)
Definition get_controller_max (h : handle) (ctrl : string) : string := default "" (mfind (controller_max h) ctrl).
(* @src src_jni/dynamic_machine.cc:594-598 DynamicMachine::Handle::get_controller_step *)
Definition get_controller_step (h : handle) (ctrl : string) : string := default "" (mfind (controller_step h) ctrl).
(* @src src_jni/dynamic_machine.cc:601-607 DynamicMachine::Handle::get_controller_enumnames *)
Definition get_controller_enumnames (h : handle) (ctrl : string) : smap Z string := default [] (mfind (controller_enumnames h) ctrl).
(* @src src_jni/dynamic_machine.cc:610-614 DynamicMachine::Handle::get_controller_has_midi *)
Definition get_controller_has_midi (h : handle) (ctrl : string) : bool := default false (mfind (controller_has_midi h) ctrl).
(* @src src_jni/dynamic_machine.cc:617-621 DynamicMachine::Handle::get_coarse_midi_controller *)
Definition get_coarse_midi_controller (h : handle) (ctrl : string) : Z := default (-1) (mfind (coarse_midi_controller h) ctrl).
(* @src src_jni/dynamic_machine.cc:624-628 DynamicMachine::Handle::get_fine_midi_controller *)
Definition get_fine_midi_controller (h : handle) (ctrl : string) : Z := default (-1) (mfind (fine_midi_controller h) ctrl).

(** [controller_ptr] is zero where the plugin has no such controller. *)
(* @src src_jni/dynamic_machine.hh:192-194 DynamicMachine *)
Record dynamic_machine : Type := DynamicMachine { dh : handle; controller_ptr : smap string Z }.

(** The last part of the constructor; [cptr] is the plugin's, for the memory it has made. *)
(* @src src_jni/dynamic_machine.cc:978-985 DynamicMachine::setup_dynamic_machine *)
Fixpoint setup_controllers (cptr : string -> string -> Z) (h : handle) (names : list string) (m : smap string Z) : result (smap string Z) :=
  match names with
  | [] => Ok m
  | k :: names =>
      let! title := get_controller_title h k in
      let! group := get_controller_group h k in
      setup_controllers cptr h names (mset m k (cptr title group))
  end.

Definition new_dynamic_machine (cptr : string -> string -> Z) (h : handle) : result dynamic_machine :=
  let! m := setup_controllers cptr h (controllers h) [] in Ok (DynamicMachine h m).

(* @src src_jni/dynamic_machine.cc:821-831 DynamicMachine::internal_get_controller_names *)
Definition internal_get_controller_names_in (dm : dynamic_machine) (group_name : string) : result (list string) :=
  rfold (fun acc k => let! g := get_controller_group (dh dm) k in Ok (if String.eqb g group_name then acc ++ [k] else acc)) [] (controllers (dh dm)).

Section controllers.
Context `{CFloat}.

(** [operator[]] leaves a zero for a name that is not there, which reads as before. *)
(* @src src_jni/dynamic_machine.cc:833-871 DynamicMachine::internal_get_controller *)
Definition internal_get_controller (dm : dynamic_machine) (name : string) : result controller :=
  let h := dh dm in
  let p := default 0 (mfind (controller_ptr dm) name) in
  if p =? 0 then Err (JException ("No such controller [" ++ name ++ "] available.")%string)
  else
    let! tp := get_controller_type h name in
    let! is_FTYPE := get_controller_is_FTYPE h name in
    let! title := get_controller_title h name in
    let ctr := new_controller tp name title p (get_controller_min h name) (get_controller_max h name) (get_controller_step h name)
                 (get_controller_enumnames h name) is_FTYPE in
    if get_controller_has_midi h name then set_midi_controller ctr (get_coarse_midi_controller h name) (get_fine_midi_controller h name)
    else Ok ctr.

(** ** Saving and loading the values *)

(** A [controller] element: its name and the text of its value, as the parser delivers them. *)
Abbreviation value_xml := (string * string)%type.

(* @src src_jni/machine.cc:1513-1518 COPY_VALUE_TO_STREAM *)
Definition stream_value (v : value) : string :=
  match v with
  | VInt v => to_string v
  | VFloat v => float_to_string v
  | VDouble v => double_to_string v
  | VBool v => if v then "1" else "0"
  | VString v => v
  end.

(* @src src_jni/machine.cc:1520-1552 Machine::get_controller_xml *)
Fixpoint get_controller_xml (get : string -> result controller) (m : memory) (names : list string) : result (list value_xml) :=
  match names with
  | [] => Ok []
  | k :: names =>
      let! c := get k in
      let! v := get_value c m in
      let! rest := get_controller_xml get m names in
      Ok ((ct_name c, stream_value v) :: rest)
  end.

(** How the parser reads numbers and texts from an attribute ([KXML_GET_NUMBER]). *)
Class XmlValues : Type := {
  xml_int : string -> Z;
  xml_float : string -> float;
  xml_double : string -> double;
  xml_bool : string -> bool;
  xml_string : string -> string;
  xml_int_range text : in_i32 (xml_int text);
  xml_int_printed v : in_i32 v -> xml_int (to_string v) = v;
  xml_bool_printed b : xml_bool (if b : bool then "1" else "0") = b
}.
Context `{XmlValues}.

(* @src src_jni/machine.cc:1205-1210 SET_CONTROLLER_VALUE *)
Definition xml_value (tp : controller_type) (text : string) : value :=
  match tp with
  | c_enum | c_sigid | c_int => VInt (xml_int text)
  | c_float => VFloat (xml_float text)
  | c_double => VDouble (xml_double text)
  | c_bool => VBool (xml_bool text)
  | c_string => VString (xml_string text)
  end.

(** A controller that the machine does not have is left out. *)
(* @src src_jni/machine.cc:1212-1251 Machine::setup_using_xml *)
Definition load_value (get : string -> result controller) (m : memory) (x : value_xml) : result memory :=
  match get (fst x) with
  | Ok c => set_value c (xml_value (ctype c) (snd x)) m
  | Err e => if is_jexception e then Ok m else Err e
  end.

(* @src src_jni/machine.cc:1212-1251 Machine::setup_using_xml *)
Definition setup_using_xml (get : string -> result controller) (m : memory) (xs : list value_xml) : result memory := rfold (load_value get) m xs.

(** ** The controllers of a declaration *)

Lemma setup_find cptr h ks : forall m m', smap_ok m -> setup_controllers cptr h ks m = Ok m' ->
  smap_ok m' /\ forall k, mfind m' k = if bool_decide (k ∈ ks) then
    match mfind (controller_title h) k, mfind (controller_group h) k with Some t, Some g => Some (cptr t g) | _, _ => None end else mfind m k.
Proof.
  induction ks as [|n ks IH]; intros m m' Hm E; cbn in E; [by injection E as <-|].
  unfold get_controller_title, get_controller_group, find_or_throw in E. destruct (mfind (controller_title h) n) as [t|] eqn:Et; [|done].
  destruct (mfind (controller_group h) n) as [g|] eqn:Eg; [|done]. cbn in E. apply IH in E as [Hok Hf]; [|by apply mset_ok]. split; [done|].
  intros k. rewrite Hf, mfind_mset by done. destruct (key_eqb k n) eqn:Ek.
  - apply key_eqb_spec in Ek as ->. rewrite (bool_decide_eq_true_2 (n ∈ n :: ks)) by by left. rewrite Et, Eg. by case_bool_decide.
  - assert (k <> n) as Hne by (intros ->; by rewrite key_eqb_refl in Ek). rewrite (bool_decide_ext (k ∈ n :: ks) (k ∈ ks)); [done|].
    rewrite elem_of_cons. naive_solver.
Qed.

(** The pair of MIDI controllers is one that a controller takes. *)
Definition midi_legal (h : handle) (k : string) : bool :=
  negb (get_controller_has_midi h k) ||
  (negb (get_coarse_midi_controller h k =? -1) && negb (get_coarse_midi_controller h k =? get_fine_midi_controller h k)).

Lemma bound_range text has default : in_i32 default -> in_i32 (bound text has extract_int default).
Proof. intros Hd. unfold bound, extract_int. case_if; [apply stoi_range|done]. Qed.

Lemma new_controller_bounds tp name title p min max step ns f : let c := new_controller tp name title p min max step ns f in
  in_i32 (min_i c) /\ in_i32 (max_i c) /\ in_i32 (step_i c).
Proof. cbn. repeat case_bool_decide; split_and!; try apply bound_range; unfold in_i32; lia. Qed.

Lemma bound_extract text default : blank text = false -> bound text true extract_int default = extract_int text.
Proof. unfold bound. by intros ->. Qed.

(** Every controller that was declared to the end can be asked for, if its plugin has it and its
    MIDI controllers are legal. *)
Lemma internal_get_controller_spec ds dm k tp p : handle_ok ds (dh dm) -> mfind (controller_types (dh dm)) k = Some tp ->
  mfind (controller_ptr dm) k = Some p -> p <> 0 -> text_field k -> (forall t, mfind (controller_title (dh dm)) k = Some t -> text_field t) ->
  if midi_legal (dh dm) k then
    exists c, internal_get_controller dm k = Ok c /\ controller_ok c /\ ct_name c = k /\ ptr c = p /\ ctype c = tp /\
      mfind (controller_title (dh dm)) k = Some (ct_title c) /\ has_midi_ctrl c = get_controller_has_midi (dh dm) k /\
      (tp = c_enum -> min_i c = 0 /\ step_i c = 1 /\ exists d l, d ∈ ds /\ declares d k l /\
        enum_shape l (get_controller_max (dh dm) k) (enumnames c) /\ max_i c = extract_int (get_controller_max (dh dm) k))
  else internal_get_controller dm k = Err (JException "Trying to set illegal MIDI controller values.").
Proof.
  intros Hh Ht Hp Hp0 Hk Htitle. pose proof Hh as [_ _ _ _ _ _ _ _ _ _ _ Hkept Hmidi Henum].
  destruct (Hkept k tp Ht) as (_ & [title Et] & [g Eg] & [ft Ef] & [has Ehas]). specialize (Htitle title Et).
  unfold internal_get_controller, midi_legal, get_controller_type, get_controller_is_FTYPE, get_controller_title, find_or_throw, get_controller_has_midi,
    get_coarse_midi_controller, get_fine_midi_controller. rewrite Hp, Ht, Et, Ef, Ehas. cbn [from_option id rbind].
  destruct (Z.eqb_spec p 0); [done|]. set (c := new_controller _ _ _ _ _ _ _ _ _).
  assert (tp = c_enum -> min_i c = 0 /\ step_i c = 1 /\ exists d l, d ∈ ds /\ declares d k l /\
        enum_shape l (get_controller_max (dh dm) k) (enumnames c) /\ max_i c = extract_int (get_controller_max (dh dm) k)) as Hen.
  { intros ->. destruct (Henum k Ht) as (Emin & Estep & d & l & topt & ns & Hd & Hl & Emax & Ens & Hs). subst c.
    unfold get_controller_min, get_controller_max, get_controller_step, get_controller_enumnames. rewrite Emin, Emax, Estep, Ens. cbn.
    split; [done|]. split; [done|]. exists d, l. split; [done|]. split; [done|]. split; [done|]. by apply bound_extract, Hs. }
  assert (controller_ok c) as Hc.
  { split; [exact Hk|exact Htitle|apply new_controller_bounds|done|]. intros Ec. destruct (Hen Ec) as (E1 & E2 & d & l & _ & _ & [_ Hr _ _ Hn] & E3).
    rewrite E1, E2, E3. split; [lia|]. split; [lia|done]. }
  destruct has; cbn [negb orb].
  2:{ exists c. by split_and!. }
  destruct (Hmidi k Ehas) as (co & fi & Eco & Efi & Hco & Hfi). rewrite Eco, Efi. cbn [from_option id]. unfold set_midi_controller.
  change (has_midi_ctrl c) with false. cbv iota. unfold sc_special_first, sc_special_last.
  assert (negb (((0 <=? co) && (co <? 128)) || ((1024 <=? co) && (co <=? 1024))) = (co =? -1)) as ->
    by (destruct (Z.leb_spec 0 co), (Z.ltb_spec co 128), (Z.leb_spec 1024 co), (Z.leb_spec co 1024), (Z.eqb_spec co (-1)); cbn; lia).
  assert (negb (fi =? -1) && ((fi <? -1) || (127 <? fi)) = false) as ->
    by (destruct (Z.eqb_spec fi (-1)), (Z.ltb_spec fi (-1)), (Z.ltb_spec 127 fi); cbn; lia).
  rewrite orb_false_r. destruct (Z.eqb_spec co (-1)); cbn [negb andb orb]; [done|]. destruct (Z.eqb_spec co fi); cbn [negb]; [done|].
  exists (with_midi c true co fi). split; [done|]. split; [|by split_and!]. destruct Hc. split; try done. cbn. lia.
Qed.

(** C11: A client is shown what a plugin declares. Whatever declaration was accepted, with a name for
    each value of its enumerations, and whatever was asked before: a client that asks for a
    controller that was declared to the end, that the plugin has, and whose MIDI controllers are
    legal, is answered with a text that it reads as a copy of the controller at the plugin's
    address, and that shows its value. A client that steps through an enumeration goes from zero to
    the highest value that the declaration has an element for, by one, and the name it shows for
    each value is the one of the value's element. *)
Theorem declared_controller_shown base e h cptr dm signal_name st alive m k src tp title group :
  named_declaration e -> new_handle base e = Ok h -> new_dynamic_machine cptr h = Ok dm ->
  mfind (controller_types h) k = Some tp -> get_controller_title h k = Ok title -> get_controller_group h k = Ok group -> cptr title group <> 0 ->
  text_field k -> text_field title -> midi_legal h k = true ->
  (forall c, internal_get_controller dm k = Ok c -> in_memory c m /\ shown_text c m) ->
  file_run (internal_get_controller dm) signal_name st -> room st src ->
  exists c text rc, snd (process_get_ctrl_message (internal_get_controller dm) signal_name alive st m k src) = Ok text /\
    read_ri_controller text = Ok rc /\ shows c m rc /\ ctype c = tp /\ ptr c = cptr title group /\ rc_name rc = k /\ rc_title rc = title /\
    (tp = c_enum -> exists d l hi, d ∈ kids_or_none e "controller" /\ declares d k l /\ rc_range_int rc = Ok (0, hi, 1) /\ 0 <= hi /\
      (forall x v n, x ∈ l -> enum_value x v n -> v <= hi) /\
      forall sample_name i, 0 <= i <= hi -> exists n, rc_value_name sample_name rc i = Ok n /\ forall n', n' = n <-> exists x, x ∈ l /\ enum_value x i n').
Proof.
  intros Hn Eh Edm Ht Etitle Egroup Hp Hk Htitle Hmidi Hmem Hst Hroom. apply new_handle_ok in Eh; [|done].
  unfold new_dynamic_machine in Edm. inv_bind Edm. injection Edm as <-. rename x into ptrs.
  apply setup_find in Hx as [_ Hptr]; [|apply smap_ok_nil]. specialize (Hptr k).
  rewrite bool_decide_eq_true_2 in Hptr by by destruct (ho_kept _ _ Eh k tp Ht) as [? _].
  unfold get_controller_title, get_controller_group, find_or_throw in Etitle, Egroup.
  destruct (mfind (controller_title h) k) as [t|] eqn:Et; [|done]. destruct (mfind (controller_group h) k) as [g|]; [|done].
  injection Etitle as ->. injection Egroup as ->.
  pose proof (internal_get_controller_spec _ (DynamicMachine h ptrs) k tp _ Eh Ht Hptr Hp Hk ltac:(intros t; cbn; rewrite Et; by intros [= <-])) as Hc.
  cbn [dh] in Hc. rewrite Hmidi in Hc. destruct Hc as (c & Ec & Hok & Hname & Hcp & Hctp & Hct & _ & Hen). rewrite Et in Hct. injection Hct as Hct.
  destruct (Hmem c Ec) as [Hm Htext]. apply file_ok in Hst.
  pose proof (ask_spec (internal_get_controller (DynamicMachine h ptrs)) signal_name alive st m k src Hst Hroom) as Ha. destruct (process_get_ctrl_message _ _ _ _ _ _ _) as [st1 reply].
  destruct Ha as (_ & _ & Hres). destruct (Hres c Ec) as (id & Hid & _ & -> & _).
  destruct (copy_shows signal_name id c m Hok Hm Htext Hid) as (rc & -> & Hrok & _ & Hshow).
  eexists c, _, (as_received (ctype c) rc). split; [reflexivity|]. split; [by apply controller_received|]. split; [exact Hshow|].
  destruct Hshow as [(Sn & St & _) _ Sv Se]. split; [done|]. split; [done|]. split; [congruence|]. split; [congruence|]. intros ->.
  destruct (Hen eq_refl) as (Emin & Estep & d & l & Hd & Hl & [_ Hr Hdecl Hhigh Hall] & Emax). rewrite Hctp in *.
  destruct Sv as (v & _ & Srange & _). rewrite Emin, Estep, Emax in *. exists d, l, (extract_int (get_controller_max h k)).
  split; [done|]. split; [done|]. split; [done|]. split; [lia|]. split; [intros x v' n' Hx Hv; apply Hhigh; eexists; apply Hdecl; by exists x|].
  intros sample_name i Hi. destruct (Se eq_refl i ltac:(lia) ltac:(lia) sample_name) as (n & E1 & E2).
  rewrite Z.add_0_l, Z.mul_1_r in E1, E2. exists n. split; [done|]. intros n'. rewrite <- Hdecl, E2. split; congruence.
Qed.

(** ** A project brings the values back *)

Definition block (c : controller) (a : Z) : Prop := ptr c <= a < ptr c + Z.of_nat (size_of c).

Lemma get_value_agree c m m' : (forall a, block c a -> m' !! a = m !! a) -> get_value c m' = get_value c m.
Proof.
  unfold block, size_of. intros Ha. unfold get_value, get_value_int, get_value_float, get_value_double, get_value_bool, get_value_string, get_value_int.
  destruct (ctype c); f_equal; rewrite (load_agree m m'); try done; intros a Hin; apply Ha; unfold STRING_CONTROLLER_SIZE; lia.
Qed.

Lemma xml_value_type tp text : of_type tp (xml_value tp text).
Proof. destruct tp; cbn; try done; apply xml_int_range. Qed.

(** What loading the text makes of a controller that has the value [old]. *)
Definition loaded (c : controller) (text : string) (old : result value) : result value :=
  let v := xml_value (ctype c) text in if accepts c v then Ok (as_stored c v) else old.

Lemma set_value_effect c text m : in_memory c m -> exists m', set_value c (xml_value (ctype c) text) m = Ok m' /\
  get_value c m' = loaded c text (get_value c m) /\ (forall a, ~ block c a -> m' !! a = m !! a) /\ forall a, is_Some (m' !! a) <-> is_Some (m !! a).
Proof.
  intros Hm. pose proof (xml_value_type (ctype c) text) as Ht. unfold loaded. destruct (accepts c (xml_value (ctype c) text)) eqn:Ea.
  - destruct (set_then_get c _ m Ht Hm Ea) as (m' & E & [_ Wo Wm] & Eg). exists m'. split; [done|]. split; [done|]. split; [|done].
    intros a Hb. apply Wo. by rewrite value_bytes_length.
  - exists m. by rewrite set_rejected.
Qed.

(** The controllers that [get] answers for the names do not share a byte. *)
Definition apart (get : string -> result controller) (ks : list string) : Prop := forall k k' c c' a, k ∈ ks -> k' ∈ ks -> k <> k' ->
  get k = Ok c -> get k' = Ok c' -> block c a -> ~ block c' a.

Lemma load_values get : forall xs m, NoDup (map fst xs) -> apart get (map fst xs) -> (forall k, k ∈ map fst xs -> exists c, get k = Ok c /\ in_memory c m) ->
  exists m', setup_using_xml get m xs = Ok m' /\
    (forall k text c, (k, text) ∈ xs -> get k = Ok c -> get_value c m' = loaded c text (get_value c m)) /\
    (forall a, (forall k c, k ∈ map fst xs -> get k = Ok c -> ~ block c a) -> m' !! a = m !! a) /\ forall a, is_Some (m' !! a) <-> is_Some (m !! a).
Proof.
  induction xs as [|[k text] xs IH]; intros m Hnd Hap Hall; [exists m; split_and!; try done; by intros ??? ?%elem_of_nil|].
  cbn [map fst] in *. apply NoDup_cons in Hnd as [Hk Hnd]. destruct (Hall k ltac:(by left)) as (c & Ec & Hm).
  destruct (set_value_effect c text m Hm) as (m1 & E1 & Ev & Eo & Ed).
  destruct (IH m1) as (m2 & E2 & Iv & Io & Id); [done|intros a b ca cb x Ha Hb; apply Hap; by right| |].
  { intros k' Hk'. destruct (Hall k' ltac:(by right)) as (c' & Ec' & Hm'). exists c'. split; [done|]. intros a Ha. by apply Ed, Hm'. }
  exists m2. split; [unfold setup_using_xml in *; cbn [rfold]; unfold load_value at 1; cbn [fst snd]; by rewrite Ec, E1|].
  assert (forall k' c', k' ∈ map fst xs -> get k' = Ok c' -> forall a, block c a -> ~ block c' a) as Hsep
    by (intros k' c' Hk' Ec' a; apply (Hap k k' c c'); [by left|by right|by intros ->|done|done]).
  split; [|split; [|intros a; by rewrite Id, Ed]].
  - intros k' text' c' Hin Ec'. apply elem_of_cons in Hin as [[= -> ->]|Hin].
    + assert (c' = c) as -> by congruence. rewrite <- Ev. apply get_value_agree. intros a Ha. apply Io. intros k' c' Hk' Ec2. by apply (Hsep k').
    + rewrite (Iv k' text' c' Hin Ec'). f_equal. apply get_value_agree. intros a Ha. apply Eo. intros Hb.
      apply (Hsep k' c' ltac:(apply list_elem_of_In, in_map_iff; by exists (k', text'); rewrite <- list_elem_of_In) Ec' a Hb Ha).
  - intros a Ha. rewrite Io; [|intros k' c' Hk'; apply Ha; by right]. apply Eo. apply (Ha k); [by left|done].
Qed.

Definition with_ptr (c : controller) (p : Z) : controller :=
  Controller (ct_name c) (ct_title c) (ctype c) p (min_i c) (max_i c) (step_i c) (min_f c) (max_f c) (step_f c) (min_d c) (max_d c) (step_d c)
    (float_is_FTYPE c) (enumnames c) (has_midi_ctrl c) (coarse_controller c) (fine_controller c).

(** Another machine of the handle has the same controllers elsewhere. *)
Lemma same_controller h ps ps' k c p : internal_get_controller (DynamicMachine h ps) k = Ok c -> mfind ps' k = Some p -> p <> 0 ->
  internal_get_controller (DynamicMachine h ps') k = Ok (with_ptr c p) /\ ct_name c = k.
Proof.
  unfold internal_get_controller. cbn [dh controller_ptr]. intros E Ep Hp. rewrite Ep. cbn [from_option id]. destruct (Z.eqb_spec p 0); [done|].
  destruct (_ =? 0); [done|]. inv_bind E. inv_bind E. inv_bind E. rewrite Hx, Hx0, Hx1. cbn [rbind]. destruct (get_controller_has_midi h k).
  - unfold set_midi_controller in *. change (has_midi_ctrl (new_controller _ _ _ _ _ _ _ _ _)) with false in *. cbv iota in *.
    destruct (_ || _); [done|]. by injection E as <-.
  - by injection E as <-.
Qed.

Lemma get_value_in_memory c m : in_memory c m -> exists v, get_value c m = Ok v /\ of_type (ctype c) v.
Proof.
  intros Hm. destruct (get_int_value c m Hm) as (vi & Ei & Hvi). destruct (get_float_value c m Hm) as (vf & Ef). destruct (get_first_char c m Hm) as (a & Ea).
  unfold get_value, get_value_bool. destruct (ctype c) eqn:Ec; rewrite ?Ei, ?Ef, ?Ea; cbn; try (by eexists).
  destruct (get_double_value c m Ec Hm) as (vd & Ed). rewrite Ed. by eexists.
Qed.

(** Whole numbers and flags are what they were. *)
Definition exact (v : value) : bool := match v with VInt _ | VBool _ => true | _ => false end.

Lemma stream_exact tp v : of_type tp v -> exact v = true -> xml_value tp (stream_value v) = v.
Proof. destruct tp, v; try done; cbn; intros Hv _; f_equal; try (by apply xml_int_printed); apply xml_bool_printed. Qed.

Lemma xml_written get m ks : (forall k, k ∈ ks -> exists c, get k = Ok c /\ in_memory c m /\ ct_name c = k) ->
  exists xs, get_controller_xml get m ks = Ok xs /\ map fst xs = ks /\
    forall k, k ∈ ks -> exists c v, get k = Ok c /\ get_value c m = Ok v /\ of_type (ctype c) v /\ (k, stream_value v) ∈ xs.
Proof.
  induction ks as [|k ks IH]; intros Hall; [exists []; split_and!; try done; by intros ? ?%elem_of_nil|].
  destruct (Hall k ltac:(by left)) as (c & Ec & Hm & En). destruct (get_value_in_memory c m Hm) as (v & Ev & Hv).
  destruct IH as (xs & E & Ek & Hx); [intros k' Hk'; apply Hall; by right|]. exists ((ct_name c, stream_value v) :: xs).
  cbn [get_controller_xml map fst]. rewrite Ec. cbn [rbind]. rewrite Ev, E, En. cbn [rbind]. split; [done|]. split; [by rewrite Ek|].
  intros k' Hk'. apply elem_of_cons in Hk' as [->|Hk']; [exists c, v; split_and!; try done; by left|].
  destruct (Hx k' Hk') as (c' & v' & ? & ? & ? & ?). exists c', v'. split_and!; try done. by right.
Qed.

End controllers.

(** ** Witnesses: a synthesizer's wave and level *)

#[local] Existing Instance ex_small_double.
#[local] Existing Instance ex_small_float.

Definition ex_attr (attrs : list (string * string)) (name : string) : result string :=
  match List.find (fun a => String.eqb (fst a) name) attrs with Some a => Ok (snd a) | None => Err (NoSuchKey name) end.
Definition ex_element (attrs : list (string * string)) (kid : string) (es : list element) : element :=
  Element (ex_attr attrs) (fun n => match ex_attr attrs n with Ok s => Some (stoi s) | Err _ => None end)
    (fun n => if String.eqb n kid then Ok es else Err (NoSuchKey n)) (fun n => if String.eqb n "name" then Ok "silverbox" else Err (NoSuchKey n)) (Ok "").

Definition ex_saw : element := ex_element [("value", "0"); ("name", "saw")] "" [].
Definition ex_square : element := ex_element [("value", "1"); ("name", "square")] "" [].
Definition ex_wave : element := ex_element [("group", "general"); ("name", "wave"); ("type", "enumerated")] "enum" [ex_square; ex_saw].
Definition ex_level : element := ex_element [("group", "general"); ("name", "level"); ("type", "integer"); ("min", "0"); ("max", "100"); ("has_midi", "yes"); ("coarse", "7")] "" [].
Definition ex_machine : element := ex_element [("hint", "generator")] "controller" [ex_wave; ex_level].

Definition the {A} (default : A) (r : result A) : A := match r with Ok a => a | Err _ => default end.
Definition ex_no_handle : handle := Handle "" "" "" false [] [] [] [] [] [] [] [] [] [] [] [] [] [] [].
Definition ex_silverbox : handle := the ex_no_handle (new_handle "" ex_machine).
Definition ex_place (at_ : Z) (title _group : string) : Z := if String.eqb title "wave" then at_ else at_ + 4.
Definition ex_synth (at_ : Z) : dynamic_machine := the (DynamicMachine ex_silverbox []) (new_dynamic_machine (ex_place at_) ex_silverbox).
Definition ex_bytes (at_ wave level : Z) : memory := list_to_map (zip (map (fun i => at_ + Z.of_nat i) (seq 0 8)) [wave; 0; 0; 0; level; 0; 0; 0]).

Lemma ex_mapped at_ wave level c : (ptr c = at_ \/ ptr c = at_ + 4) -> size_of c = 4%nat -> (at_ = 100 \/ at_ = 200) -> in_memory c (ex_bytes at_ wave level).
Proof.
  intros Hp Hs Ha a Hin. rewrite Hs in Hin. change (Z.of_nat 4) with 4 in Hin.
  assert (exists i, a = at_ + Z.of_nat i /\ (i < 8)%nat) as (i & -> & Hi) by (exists (Z.to_nat (a - at_)); lia).
  destruct Ha as [-> | ->]; do 8 (destruct i as [|i]; [by eexists|]); lia.
Qed.

Lemma ex_square_one : enum_value ex_square 1 "square".
Proof. split; [reflexivity|]. exists "1". by repeat split. Qed.

Lemma ex_elements_below x v n : x ∈ [ex_square; ex_saw] -> enum_value x v n -> v <= 1.
Proof. intros Hx (_ & t & Et & _ & <-). apply elem_of_cons in Hx as [->|Hx%list_elem_of_singleton]; subst; injection Et as <-; vm_compute; discriminate. Qed.

Definition ex_facts (c : controller) : Z * nat * controller_type := (ptr c, size_of c, ctype c).

Lemma ex_wave_at at_ c : internal_get_controller (ex_synth at_) "general:wave" = Ok c -> at_ = 100 \/ at_ = 200 -> ptr c = at_ /\ size_of c = 4%nat /\ ctype c = c_enum.
Proof.
  intros E Hat. assert (rmap ex_facts (internal_get_controller (ex_synth at_) "general:wave") = Ok (at_, 4%nat, c_enum)) as Hf
    by (destruct Hat as [-> | ->]; vm_compute; reflexivity).
  rewrite E in Hf. by injection Hf as -> -> ->.
Qed.

Lemma ex_named : named_declaration ex_machine.
Proof.
  change (Forall named_enums [ex_wave; ex_level]). apply Forall_cons. split; [|apply Forall_singleton; by intros l].
  intros l [= <-]. split; [|cbn; lia]. apply Forall_cons. split; [by exists "square"|]. apply Forall_singleton. by exists "saw".
Qed.

Lemma declared_controller_shown_witness : exists text rc, 
  snd (process_get_ctrl_message (internal_get_controller (ex_synth 100)) (fun _ => None) (fun _ => true) [] (ex_bytes 100 1 50) "general:wave" 5) = Ok text /\
  read_ri_controller text = Ok rc /\ rc_range_int rc = Ok (0, 1, 1) /\ rc_value_int rc = Ok 1 /\ rc_value_name (fun _ => None) rc 1 = Ok "square".
Proof.
  destruct (declared_controller_shown "" ex_machine ex_silverbox (ex_place 100) (ex_synth 100) (fun _ => None) [] (fun _ => true) (ex_bytes 100 1 50)
    "general:wave" 5 c_enum "wave" "general" ex_named) as (c & text & rc & E1 & E2 & [_ _ Hv _] & Ect & Eptr & _ & _ & Hen);
    [vm_compute; reflexivity|vm_compute; reflexivity|vm_compute; reflexivity|vm_compute; reflexivity|vm_compute; reflexivity|done|done|done|
     vm_compute; reflexivity| |constructor|vm_compute; reflexivity|].
  { intros c Hc. destruct (ex_wave_at 100 c Hc) as (Hp & Hs & Ht); [by left|]. split; [apply ex_mapped; tauto|]. intros Hs2. congruence. }
  exists text, rc. destruct (Hen eq_refl) as (d & l & hi & Hd & [Hl Hname] & Hrange & Hhi & Hhigh & Hnames).
  rewrite Ect in Hv. destruct Hv as (v & Ev & _ & Erv).
  assert (d = ex_wave) as ->.
  { change (d ∈ [ex_wave; ex_level]) in Hd. apply elem_of_cons in Hd as [->|Hd]; [done|]. apply list_elem_of_singleton in Hd as ->.
    destruct Hname as (t & Et & Ek). injection Et as <-. discriminate Ek. }
  injection Hl as <-.
  assert (hi = 1) as ->.
  { assert (1 <= hi) by exact (Hhigh ex_square 1 "square" ltac:(left) ex_square_one). destruct (Hnames (fun _ => None) hi) as (n & _ & Hn); [lia|].
    destruct (proj1 (Hn n) eq_refl) as (x & Hx & Hv2). pose proof (ex_elements_below x hi n Hx Hv2). lia. }
  split; [exact E1|]. split; [exact E2|]. split; [exact Hrange|]. split.
  - rewrite Erv. f_equal. revert Ev. unfold get_value_int. rewrite Eptr. vm_compute. by intros [= <-].
  - destruct (Hnames (fun _ => None) 1) as (n & -> & Hn); [lia|]. f_equal. symmetry. apply Hn. exists ex_square. split; [left|exact ex_square_one].
Defined.

#[local] Instance ex_xml : XmlValues.
Proof.
  refine {| xml_int := stoi; xml_float := stof; xml_double := atof; xml_bool t := String.eqb t "1"; xml_string t := t |}.
  - apply stoi_range.
  - apply stoi_to_string.
  - by destruct b.
Defined.

Definition ex_ptrs (at_ : Z) : smap string Z := controller_ptr (ex_synth at_).

Lemma ex_controllers_at at_ k : at_ = 100 \/ at_ = 200 -> k ∈ ["general:wave"; "general:level"] ->
  exists c, internal_get_controller (DynamicMachine ex_silverbox (ex_ptrs at_)) k = Ok c /\
    ptr c = (if String.eqb k "general:wave" then at_ else at_ + 4) /\ size_of c = 4%nat /\ (ctype c = c_enum \/ ctype c = c_int) /\
    min_i c = 0 /\ max_i c = (if String.eqb k "general:wave" then 1 else 100).
Proof.
  intros Hat Hk. pose (facts c := (ex_facts c, min_i c, max_i c)).
  assert (rmap facts (internal_get_controller (DynamicMachine ex_silverbox (ex_ptrs at_)) k) =
    if String.eqb k "general:wave" then Ok (at_, 4%nat, c_enum, 0, 1) else Ok (at_ + 4, 4%nat, c_int, 0, 100)) as Hf.
  { apply elem_of_cons in Hk as [->|Hk%list_elem_of_singleton]; [|subst k]; (destruct Hat as [-> | ->]; vm_compute; reflexivity). }
  destruct (internal_get_controller _ k) as [c|e]; [|by destruct (String.eqb k _)]. exists c. split; [done|]. revert Hf.
  unfold rmap, facts, ex_facts. cbn [rbind]. destruct (String.eqb k _); intros [= -> -> -> -> ->]; split_and!; try done; [by left|by right].
Qed.

