(* ===== verification/Studio.v ===== *)
(** * The machines as clients see them

    The server listens to the machine graph and keeps an object for every machine, with the
    connections of its inputs; the notifications are handled on the server's thread, after the
    graph has changed and in order. Here the graph, the notifications that wait, the server and
    its clients are put together: when all notifications are handled, what every client shows
    are the links of the graph. *)

From Stdlib Require Import ZArith Lia Ascii String List Sorted Permutation.
From stdpp Require Import base list strings numbers option gmap.
From S2P Require Import Prelude CxxString StdMap Serialize Message Sequence RemoteContext SignalLinks MachineGraph GraphPaths GraphLinks GraphTold GlobalControl SampleBank RemoteMachine ServiceObjects.
Local Open Scope string_scope.
Local Open Scope list_scope.
Local Open Scope Z_scope.
Local Open Scope vk_scope.

(** The dynamic type of a machine, with what its class has to tell. *)
Inductive machine_class : Type :=
| ClassSequence
| ClassMachineSequencer (midi_controllers : smap string unit) (sibling : string)
| ClassDynamicMachine
| ClassOther.

Section studio.
Context `{CDouble} {B CB : Type} `{RB : ReplicatedObject B CB}.
Context (names_differ : forall b msg, create_machine_copy (type_name (Copy := CB) (b : B)) msg = None).

(** What a machine answers besides the graph, and the machines of requests that only need
    their object. *)
Context (class_of : Z -> machine_class) (position_of : Z -> double * double) (groups_of : Z -> list string) (sink_machine : Z).
Context (real : Z -> real_machine).

Abbreviation obj := (rimachine + B)%type.
Abbreviation copy := (rimachine + CB)%type.

#[local] Instance studio_object : RemoteObject obj copy := either_object (H := machine_object real).
#[local] Instance studio_replicated : ReplicatedObject obj copy :=
  either_replicated (RA := machine_replicated real) (RB := RB) names_differ.

(** ** The server's objects for machines *)

Definition is_sequence (m : Z) : bool := match class_of m with ClassSequence => true | _ => false end.

(* @src src_jni/remote_interface.cc:1914-1953 RIMachine::serverside_init_from_machine_ptr *)
Definition serverside_init_from_machine_ptr (m : Z) (mc : machine) : rimachine :=
  let '(type, controllers, sibling) :=
    match class_of m with
    | ClassMachineSequencer controllers sibling => ("MachineSequencer", controllers, sibling)
    | ClassDynamicMachine => ("DynamicMachine", [], "")
    | _ => ("unknown", [], "")
    end in
  RIMachine (m_name mc) type (fst (position_of m)) (snd (position_of m)) (m =? sink_machine) [] controllers sibling
    (map fst (input_descriptor mc)) (map fst (output_descriptor mc)) (groups_of m).

(** [handled] counts the notifications that the server has handled. *)
(* @src src_jni/engine_code/server.hh:44-44 Server *)
Record studio : Type := Studio {
  net : graph;
  server : remote_server obj;
  machine2rimachine : gmap Z Z;
  handled : nat
}.

Definition with_server (st : studio) (s : remote_server obj) : studio := Studio (net st) s (machine2rimachine st) (handled st).
Definition with_net (st : studio) (g : graph) : studio := Studio g (server st) (machine2rimachine st) (handled st).

(** A machine's object is made by its factory and filled in by the callback, which also files
    it. A failure destroys the machine; the sequence for its MIDI input, which the server makes
    next, is an object and operations of their own. *)
(* @src src_jni/engine_code/server.cc:122-173 Server::machine_registered *)
Definition machine_registered (st : studio) (m : Z) : result studio :=
  if is_sequence m then Ok st
  else
    let! mc := at_machine (net st) m in
    let '(s, thrown) := create_object_from_factory (server st) (Some (fun _ => inl (serverside_init_from_machine_ptr m mc)))
        (fun o => (o, None)) in
    let filed := match thrown with
                 | Some ObjIdOverflow => machine2rimachine st
                 | _ => <[m := last_obj_id s]> (machine2rimachine st)
                 end in
    match thrown with
    | None => Ok (Studio (net st) s filed (handled st))
    | Some _ =>
        let! (g, e) := internal_disconnect_and_destroy (S (size (MachineGraph.machines (net st)))) (net st) m in
        match e with
        | Some message => Err (JException message)
        | None =>
            let! response := build [("id", to_string MSG_FAILURE_RESPONSE);
              ("response", "Internal server error - failed to create RIMachine or Sequence for new Machine.Please restart session.")] in
            Ok (Studio g (distribute_message s response) filed (handled st))
        end
    end.

(* @src src_jni/engine_code/server.cc:175-188 Server::machine_unregistered *)
Definition machine_unregistered (st : studio) (m : Z) : result studio :=
  match machine2rimachine st !! m with
  | None => Ok st
  | Some objid =>
      match delete_object (server st) objid with
      | (_, Some e) => Err e
      | (s, None) => Ok (Studio (net st) s (delete m (machine2rimachine st)) (handled st))
      end
  end.

Definition on_machine (action : rimachine -> rimachine * list pairs) (o : obj) : obj * list pairs :=
  match o with
  | inl o => let '(o, msgs) := action o in (inl o, msgs)
  | inr b => (inr b, [])
  end.

(** Both machines have objects, or nothing happens. *)
Definition machine_input_changed (action : connection -> rimachine -> rimachine * list pairs) (st : studio)
    (source destination : Z) (output_name input_name : string) : result studio :=
  match machine2rimachine st !! source, machine2rimachine st !! destination with
  | Some src_mch, Some dst_mch =>
      let! s := act_on_object (server st) dst_mch (on_machine (action (src_mch, (output_name, input_name)))) in
      Ok (with_server st s)
  | _, _ => Ok st
  end.

(* @src src_jni/engine_code/server.cc:190-209 Server::machine_input_attached *)
Definition machine_input_attached := machine_input_changed RemoteMachine.attach_input.
(* @src src_jni/engine_code/server.cc:211-230 Server::machine_input_detached *)
Definition machine_input_detached := machine_input_changed RemoteMachine.detach_input.

Definition counted (st : studio) : studio := Studio (net st) (server st) (machine2rimachine st) (S (handled st)).

Definition notify (st : studio) (b : broadcast) : result studio :=
  let! st := match b with
             | MachineRegistered m => machine_registered st m
             | MachineUnregistered m => machine_unregistered st m
             | InputAttached s d o i => machine_input_attached st s d o i
             | InputDetached s d o i => machine_input_detached st s d o i
             end in
  Ok (counted st).
(** ** Runs *)

Definition output_named (o : string) : Prop := wire_text o /\ o <> "" /\ contains "{" o = false.
Definition input_named (i : string) : Prop := wire_text i /\ i <> "" /\ contains "}" i = false.
Definition shown (m : Z) : bool := negb (is_sequence m).

Abbreviation ledger st := (GraphTold.heard shown (take (handled st) (MachineGraph.broadcasts (net st)))).

(** What else happens on the server's thread: clients come, and ask for anything but that a
    machine's object be deleted; requests to a machine find it in any state; objects that are not a
    machine's are made, changed and deleted; machines are moved. *)
Definition machine_file (st : studio) (objid : Z) : Prop := exists m, machine2rimachine st !! m = Some objid.
Definition deletes_no_machine (st : studio) (msg : view) : Prop := forall objid,
  get_int msg "id" = Ok MSG_DELETE_OBJECT -> get_int msg "objid" = Ok objid -> ~ machine_file st objid.

Definition other_event (st : studio) (ev : event (Obj := obj)) : Prop :=
  match ev with
  | Accept | Create _ _ => True
  | Remove objid => ~ machine_file st objid
  | Receive _ msg => deletes_no_machine st msg
  | Perform handle _ msg => deletes_no_machine st msg /\
      exists now other, handle = either_handle (fun objid => machine_server (now objid) objid) other
  | Act objid action => ~ machine_file st objid \/ exists x y, action = on_machine (set_position x y)
  end.

(** What can happen: an operation on the graph, by any thread; the next notification, if there is
    an identifier left and the machine's names can be sent; any other event of the server. *)
Inductive studio_run : studio -> Prop :=
| studio_start g : unlinked g -> well_named output_named input_named g -> machine_set g = [] -> MachineGraph.broadcasts g = [] ->
    studio_run (Studio g new_server ∅ 0)
| studio_graph st op g e : studio_run st -> net_allowed shown (net st) op -> do_net_op (net st) op = Ok (g, e) -> studio_run (with_net st g)
| studio_notify st b st' : studio_run st -> nth_error (MachineGraph.broadcasts (net st)) (handled st) = Some b ->
    (forall m mc, b = MachineRegistered m -> is_sequence m = false -> MachineGraph.machines (net st) !! m = Some mc ->
       last_obj_id (server st) + 1 < 2^31 /\ machine_announceable (serverside_init_from_machine_ptr m mc)) ->
    notify st b = Ok st' -> studio_run st'
| studio_server st ev s : studio_run st -> replicable (server st) ev -> other_event st ev -> server_step (server st) ev = Ok s ->
    studio_run (with_server st s).

(** The object of a machine with the links [c] of the ledger. *)
Record shows_links (ids : gmap Z Z) (o : rimachine) (c : list link_data) : Prop := {
  shows_ok : machine_announceable o;
  shows_once : NoDup (connection_data o);
  shows_all e : e ∈ connection_data o <-> exists t s, t ∈ c /\ ids !! fst t = Some s /\ e = (s, snd t)
}.

Record studio_ok (st : studio) : Prop := {
  studio_net : exists V, net_ok shown output_named input_named (net st) V;
  studio_replicated_ok : server_run (server st);
  studio_handled : (handled st <= List.length (MachineGraph.broadcasts (net st)))%nat;
  studio_known m : is_Some (machine2rimachine st !! m) <-> is_Some (ledger st !! m);
  studio_apart m m' objid : machine2rimachine st !! m = Some objid -> machine2rimachine st !! m' = Some objid -> m = m';
  studio_objects m objid c : machine2rimachine st !! m = Some objid -> ledger st !! m = Some c ->
    exists o, mfind (all_objects (server st)) objid = Some (inl o) /\ shows_links (machine2rimachine st) o c
}.

(** ** Sorted connections *)

Lemma insert_elem {V} (m : list (Z * V)) e e' : e' ∈ multimap_insert m e <-> e' = e \/ e' ∈ m.
Proof.
  induction m as [|a m IH]; cbn; [by rewrite elem_of_cons|]. case_if; rewrite !elem_of_cons, ?IH; tauto.
Qed.

Lemma insert_nodup {V} (m : list (Z * V)) e : NoDup m -> e ∉ m -> NoDup (multimap_insert m e).
Proof.
  induction 1 as [|a m Ha Hm IH]; cbn; intros Hn; [apply NoDup_singleton|]. rewrite elem_of_cons in Hn. case_if.
  - apply list.NoDup_cons. split; [rewrite elem_of_cons; tauto|]. by apply list.NoDup_cons.
  - apply list.NoDup_cons. split; [rewrite insert_elem; intuition|]. apply IH. tauto.
Qed.

Lemma insert_by_object m e : by_object m -> by_object (multimap_insert m e).
Proof.
  unfold by_object. induction m as [|a m IH]; cbn; intros Hs; [by repeat constructor|].
  apply StronglySorted_inv in Hs as [Hs Ha]. case_if; zbool.
  - cbn. constructor; [by constructor|]. constructor; [lia|]. eapply list.Forall_impl; [exact Ha|]. cbn. lia.
  - cbn. constructor; [by apply IH|]. apply list.Forall_forall. intros k Hk. apply list_elem_of_In, in_map_iff in Hk as (e' & <- & Hin).
    apply list_elem_of_In, insert_elem in Hin as [->|Hin]; [done|]. apply (proj1 (list.Forall_forall _ _) Ha).
    apply list_elem_of_In, in_map_iff. exists e'. split; [done|by apply list_elem_of_In].
Qed.

Lemma same_connection_spec a b : same_connection a b = true <-> a = b.
Proof.
  unfold same_connection. destruct a as [a1 [a2 a3]], b as [b1 [b2 b3]]. cbn. rewrite !andb_true_iff, Z.eqb_eq, !String.eqb_eq.
  split; [by intros [[-> ->] ->]|by intros [= -> -> ->]].
Qed.

Lemma erase_elem m e e' : e' ∈ erase_connection m e <-> e' ∈ m /\ e' <> e.
Proof.
  unfold erase_connection. rewrite elem_of_bool_filter. destruct (same_connection e' e) eqn:E; cbn.
  - apply same_connection_spec in E as ->. by split; intros [_ ?].
  - split; [intros [H1 _]; split; [done|intros ->]|tauto]. by rewrite (proj2 (same_connection_spec e e)) in E.
Qed.

Lemma erase_nodup m e : NoDup m -> NoDup (erase_connection m e).
Proof. apply NoDup_bool_filter. Qed.

Lemma erase_by_object m e : by_object m -> by_object (erase_connection m e).
Proof.
  unfold by_object, erase_connection. induction m as [|a m IH]; cbn; intros Hs; [constructor|].
  apply StronglySorted_inv in Hs as [Hs Ha]. case_if; [|by apply IH]. cbn. constructor; [by apply IH|].
  apply list.Forall_forall. intros k Hk. apply list_elem_of_In, in_map_iff in Hk as (e' & <- & [Hin _]%filter_In).
  apply (proj1 (list.Forall_forall _ _) Ha). apply list_elem_of_In, in_map_iff. by exists e'.
Qed.

(** ** What a machine's object shows *)

Lemma connections_change o c c' ids cs :
  shows_links ids o c -> by_object cs -> Forall connection_ok cs -> NoDup cs ->
  (forall e, e ∈ cs <-> exists t s, t ∈ c' /\ ids !! fst t = Some s /\ e = (s, snd t)) ->
  shows_links ids (with_connections o cs) c'.
Proof.
  intros [[A1 A2 A3 A4 A5 A6 A7 A8 A9] _ _] Hs Hok Hnd Hall. split; [|done|done]. by split.
Qed.

Lemma shows_attached ids o c s src i out : shows_links ids o c -> (forall x y v, ids !! x = Some v -> ids !! y = Some v -> x = y) ->
  ids !! s = Some src -> in_i32 src -> output_named out -> input_named i -> (s, (out, i)) ∉ c ->
  shows_links ids (fst (RemoteMachine.attach_input (src, (out, i)) o)) ((s, (out, i)) :: c).
Proof.
  intros Hsh Hinj Hs Hr Ho Hi Hn. pose proof Hsh as [[A1 A2 A3 A4 A5 A6 A7 A8 A9] Hnd C]. cbn.
  apply (connections_change o c); [done|by apply insert_by_object| | |].
  - apply list.Forall_forall. intros e [->|He]%insert_elem; [by split|]. by apply (proj1 (list.Forall_forall _ _) A5).
  - apply insert_nodup; [done|]. intros (t & v & Ht & Hv & [= -> He])%C. apply Hn.
    pose proof (Hinj _ _ _ Hs Hv). destruct t as [t1 t2]. cbn in *. by subst.
  - intros e. rewrite insert_elem, C. setoid_rewrite elem_of_cons. split.
    + intros [->|(t & v & H1 & H2 & H3)]; [|exists t, v; by split; [right|]]. exists (s, (out, i)), src. by split; [left|].
    + intros (t & v & [->|H1] & H2 & ->); [|right; by exists t, v]. left. cbn in *. congruence.
Qed.

Lemma shows_detached ids o c s src i out : shows_links ids o c -> (forall x y v, ids !! x = Some v -> ids !! y = Some v -> x = y) ->
  ids !! s = Some src -> shows_links ids (fst (RemoteMachine.detach_input (src, (out, i)) o)) (without (s, (out, i)) c).
Proof.
  intros Hsh Hinj Hs. pose proof Hsh as [[A1 A2 A3 A4 A5 A6 A7 A8 A9] Hnd C]. cbn.
  apply (connections_change o c); [done|by apply erase_by_object| |by apply erase_nodup|].
  - apply list.Forall_forall. intros e [He _]%erase_elem. by apply (proj1 (list.Forall_forall _ _) A5).
  - intros e. rewrite erase_elem, C. setoid_rewrite elem_without. split.
    + intros [(t & v & H1 & H2 & ->) Hne]. exists t, v. split; [|done]. split; [done|]. intros ->. apply Hne. cbn in *. congruence.
    + intros (t & v & [H1 H2] & H3 & ->). split; [by exists t, v|]. intros [= -> He]. apply H2.
      pose proof (Hinj _ _ _ Hs H3). destruct t as [t1 t2]. cbn in *. by subst.
Qed.

Lemma shows_new ids m mc : machine_announceable (serverside_init_from_machine_ptr m mc) -> shows_links ids (serverside_init_from_machine_ptr m mc) [].
Proof.
  intros Hok. assert (connection_data (serverside_init_from_machine_ptr m mc) = []) as E
    by (unfold serverside_init_from_machine_ptr; by destruct (class_of m)).
  split; rewrite ?E; [done|constructor|]. intros e. split; [by intros ?%not_elem_of_nil|]. by intros (t & v & ?%not_elem_of_nil & _).
Qed.

Lemma shows_moved ids o c x y : shows_links ids o c -> shows_links ids (with_position o x y) c.
Proof. intros [[A1 A2 A3 A4 A5 A6 A7 A8 A9] Hnd C]. split; [by split|done|done]. Qed.

(** Other machines may get an object, or lose it, if no link comes from them. *)
Lemma shows_same ids ids' o c : shows_links ids o c -> (forall t, t ∈ c -> ids' !! fst t = ids !! fst t) -> shows_links ids' o c.
Proof.
  intros [Ha Hnd C] Hids. split; [done|done|]. intros e. rewrite C. split; intros (t & v & H1 & H2 & H3); exists t, v; (split; [done|]); (split; [|done]).
  - by rewrite Hids.
  - by rewrite <- Hids.
Qed.

(** ** The server's other events *)

Lemma with_position_same o : with_position o (xpos o) (ypos o) = o.
Proof. by destruct o. Qed.

(** A request moves a machine's object at most. *)
Lemma machine_server_moves now objid o msg : exists x y, fst (fst (machine_server now objid o msg)) = with_position o x y.
Proof.
  assert (exists x y, o = with_position o x y) as Hsame by (by exists (xpos o), (ypos o); rewrite with_position_same).
  assert (forall r : rimachine * list (target * pairs) * option exn, fst (fst r) = o -> exists x y, fst (fst r) = with_position o x y) as Hid
    by (by intros r ->).
  unfold machine_server. destruct (msg "command") as [command|]; [|by apply Hid].
  do 4 (case_if; [repeat case_match; by apply Hid|]). case_if.
  { destruct (msg "xpos") as [x|]; [|by apply Hid]. destruct (msg "ypos") as [y|]; [|by exists (atof x), (ypos o)].
    exists (atof x), (atof y). destruct (call now _); [done|]. unfold then_sends. by destruct (sends _). }
  repeat first [case_if | case_match]; try (by apply Hid); apply Hid; unfold then_sends; by destruct (sends _).
Qed.

(** Objects of machines stay, where their clients have put them. *)
Definition keeps_machines (st : studio) (s : remote_server obj) : Prop :=
  forall m objid o, machine2rimachine st !! m = Some objid -> mfind (all_objects (server st)) objid = Some (inl o) ->
    exists x y, mfind (all_objects s) objid = Some (inl (with_position o x y)).

Lemma keeps_same st s : all_objects s = all_objects (server st) -> keeps_machines st s.
Proof. intros E m objid o _ Ho. exists (xpos o), (ypos o). by rewrite E, with_position_same. Qed.

Lemma keeps_set st s objid a : smap_ok (all_objects (server st)) -> all_objects s = mset (all_objects (server st)) objid a ->
  (forall m o, machine2rimachine st !! m = Some objid -> mfind (all_objects (server st)) objid = Some (inl o) ->
     exists x y, a = inl (with_position o x y)) -> keeps_machines st s.
Proof.
  intros Hok E Ha m i o Hm Ho. rewrite E, mfind_mset by done. destruct (key_eqb i objid) eqn:Ek.
  - apply key_eqb_spec in Ek as ->. destruct (Ha m o Hm Ho) as (x & y & ->). by exists x, y.
  - exists (xpos o), (ypos o). by rewrite with_position_same.
Qed.

Lemma keeps_erased st s objid : smap_ok (all_objects (server st)) -> all_objects s = merase (all_objects (server st)) objid ->
  ~ machine_file st objid -> keeps_machines st s.
Proof.
  intros Hok E Hn m i o Hm Ho. exists (xpos o), (ypos o). rewrite E, mfind_merase, with_position_same by done.
  destruct (key_eqb i objid) eqn:Ek; [|done]. apply key_eqb_spec in Ek as ->. by destruct Hn; exists m.
Qed.

Lemma read_keeps st handle agent msg : smap_ok (all_objects (server st)) -> deletes_no_machine st msg ->
  (forall objid o, exists x y, fst (fst (handle objid (inl o) msg)) = inl (with_position o x y)) ->
  keeps_machines st (agent_read handle (server st) agent msg).
Proof.
  intros Hok Hdel Hh. destruct (read_objects handle (server st) agent msg) as [E|[(objid & H1 & H2 & E)|(objid & o & Ho & E)]].
  - by apply keeps_same.
  - apply (keeps_erased st _ objid); [done|done|]. by apply Hdel.
  - apply (keeps_set st _ objid _ Hok E). intros m o' _ Ho'. rewrite Ho in Ho'. injection Ho' as ->. apply Hh.
Qed.

Lemma other_event_keeps st ev s : server_ok (server st) -> replicable (server st) ev -> other_event st ev ->
  server_step (server st) ev = Ok s -> keeps_machines st s.
Proof.
  intros Hok Hrep Hev Hs. pose proof (ok_objects _ Hok) as Hm. destruct ev as [|create init|objid|agent msg|handle agent msg|objid action];
    cbn [server_step other_event] in *.
  - by apply keeps_same, accept_objects.
  - injection Hs as <-. destruct (created (server st) create init Hok Hrep) as (_ & _ & Hnew & ->). cbn [fst].
    eapply (keeps_set st); [done|reflexivity|]. congruence.
  - injection Hs as <-. unfold on_remove_object. destruct (mfind _ objid); [|by apply keeps_same].
    by apply (keeps_erased st _ objid), Hev; [|apply delete_objects].
  - injection Hs as <-. apply read_keeps; [done|done|]. intros objid o. destruct (machine_server_moves (real objid) objid o msg) as (x & y & E).
    exists x, y. cbn. destruct (machine_server (real objid) objid o msg) as [[o' outs] thrown]. cbn in *. by rewrite E.
  - injection Hs as <-. destruct Hev as [Hdel (now & other & ->)]. apply read_keeps; [done|done|]. intros objid o.
    destruct (machine_server_moves (now objid) objid o msg) as (x & y & E). exists x, y. cbn.
    destruct (machine_server (now objid) objid o msg) as [[o' outs] thrown]. cbn in *. by rewrite E.
  - apply act_objects in Hs as (o & Ho & E). apply (keeps_set st _ objid _ Hm E). intros m o' Hf Ho'. rewrite Ho in Ho'. injection Ho' as ->.
    destruct Hev as [Hn|(x & y & ->)]; [by destruct Hn; exists m|]. exists (xpos o'), (ypos o'). by rewrite with_position_same.
Qed.

(** ** Notifications *)

Definition next_is (st : studio) (b : broadcast) : Prop := nth_error (MachineGraph.broadcasts (net st)) (handled st) = Some b.

Lemma nth_error_at {A} (l : list A) : forall n, nth_error l n = l !! n.
Proof. induction l as [|a l IH]; intros [|n]; cbn; [done|done|done|apply IH]. Qed.

Lemma next_heard st b : next_is st b ->
  GraphTold.heard shown (take (S (handled st)) (MachineGraph.broadcasts (net st))) = hear shown (ledger st) b.
Proof.
  intros Hb. unfold next_is in Hb. rewrite nth_error_at in Hb. by rewrite (take_S_r _ _ _ Hb), heard_snoc.
Qed.

(** What is known of the ledger when the next notification comes. *)
Lemma next_good st b : studio_ok st -> next_is st b ->
  good shown output_named input_named (ledger st) b /\ ledger_ok output_named input_named (ledger st).
Proof.
  intros [[V [_ Ht _]] _ _ _ _ _] Hb. pose proof (told_proper _ _ _ _ _ Ht) as Hp. unfold next_is in Hb. rewrite nth_error_at in Hb.
  assert (MachineGraph.broadcasts (net st) = take (handled st) (MachineGraph.broadcasts (net st)) ++ b :: drop (S (handled st)) (MachineGraph.broadcasts (net st))) as E
    by (by rewrite take_drop_middle).
  split; [by apply (proper_split _ _ _ _ Hp _ _ _ E)|]. rewrite E in Hp. by apply heard_ok, (proper_prefix _ _ _ (b :: drop (S (handled st)) (MachineGraph.broadcasts (net st)))).
Qed.

Definition moved_on (st : studio) (s : remote_server obj) (ids : gmap Z Z) : studio := Studio (net st) s ids (S (handled st)).

Lemma notified st b s ids : studio_ok st -> next_is st b -> server_run s ->
  (forall m, is_Some (ids !! m) <-> is_Some (hear shown (ledger st) b !! m)) ->
  (forall m m' objid, ids !! m = Some objid -> ids !! m' = Some objid -> m = m') ->
  (forall m objid c, ids !! m = Some objid -> hear shown (ledger st) b !! m = Some c ->
     exists o, mfind (all_objects s) objid = Some (inl o) /\ shows_links ids o c) ->
  studio_ok (moved_on st s ids).
Proof.
  intros [S1 S2 S3 S4 S5 S6] Hb Hr Hk Ha Ho. pose proof (next_heard st b Hb) as Hh. split; cbn [net server machine2rimachine handled moved_on]; rewrite ?Hh; try done.
  unfold next_is in Hb. assert (handled st < List.length (MachineGraph.broadcasts (net st)))%nat by (apply nth_error_Some; by rewrite Hb). lia.
Qed.

Lemma notified_nothing st b : studio_ok st -> next_is st b -> hear shown (ledger st) b = ledger st ->
  studio_ok (moved_on st (server st) (machine2rimachine st)).
Proof. intros Hs Hb E. pose proof Hs as [S1 S2 S3 S4 S5 S6]. by apply (notified st b); rewrite ?E. Qed.

Lemma file_known st m objid : studio_ok st -> machine2rimachine st !! m = Some objid -> exists c o,
  ledger st !! m = Some c /\ mfind (all_objects (server st)) objid = Some (inl o) /\ shows_links (machine2rimachine st) o c /\ 0 <= objid <= last_obj_id (server st).
Proof.
  intros [S1 S2 S3 S4 S5 S6] Hm. destruct (proj1 (S4 m)) as [c Hc]; [by eexists|]. destruct (S6 m objid c Hm Hc) as (o & Ho & Hsh).
  exists c, o. do 3 (split; [done|]). destruct (run_inv _ S2) as [[O1 O2 O3 O4 O5 O6] _]. apply O5. by eexists.
Qed.

Lemma registered_ok st m st' : studio_ok st -> next_is st (MachineRegistered m) ->
  (forall mc, is_sequence m = false -> MachineGraph.machines (net st) !! m = Some mc ->
     last_obj_id (server st) + 1 < 2^31 /\ machine_announceable (serverside_init_from_machine_ptr m mc)) ->
  machine_registered st m = Ok st' -> studio_ok (counted st').
Proof.
  intros Hs Hb Hann. destruct (next_good st _ Hs Hb) as [Hgood Hled]. cbn [good] in Hgood.
  unfold machine_registered. destruct (is_sequence m) eqn:Eq.
  { intros [= <-]. apply (notified_nothing st _ Hs Hb). cbn. unfold shown. by rewrite Eq. }
  unfold at_machine. destruct (MachineGraph.machines (net st) !! m) as [mc|] eqn:Em; [|done]. cbn [rbind].
  destruct (Hann mc eq_refl eq_refl) as [Hlast Hok]. set (o := serverside_init_from_machine_ptr m mc) in *.
  pose proof Hs as [S1 S2 S3 S4 S5 S6]. destruct (run_inv _ S2) as [Hsok _].
  pose (ev := Create (Obj := obj) (fun _ => inl o) (fun o => (o, None))).
  assert (replicable (server st) ev) as Hrep by (split; [exact Hlast|]; split; [done|exact Hok]).
  destruct (created (server st) (fun _ => inl o) (fun o => (o, None)) Hsok Hrep) as (_ & _ & Hnew & Ec). rewrite Ec.
  set (s := distribute_message _ _) in *. cbn [fst] in *. assert (server_run s) as Hrun by (apply (run_step _ ev _ S2 Hrep); cbn [server_step ev]; by rewrite Ec).
  set (objid := last_obj_id (server st) + 1) in *. change (last_obj_id s) with objid. intros [= <-]. cbn [server machine2rimachine].
  assert (shown m = true) as Hsm by (unfold shown; by rewrite Eq). specialize (Hgood Hsm).
  assert (forall m' i, machine2rimachine st !! m' = Some i -> i <> objid) as Hfresh.
  { intros m' i Hi. destruct (file_known st m' i Hs Hi) as (_ & _ & _ & _ & _ & H1). unfold objid. lia. }
  change (studio_ok (moved_on st s (<[m := objid]> (machine2rimachine st)))).
  apply (notified st _ _ _ Hs Hb Hrun); cbn [hear]; rewrite ?Hsm.
  - intros x. destruct (Z.eq_dec m x) as [->|Hne]; [rewrite !lookup_insert_eq; by split; eexists|]. rewrite !lookup_insert_ne by done. apply S4.
  - intros x y i. destruct (Z.eq_dec m x) as [<-|Hx], (Z.eq_dec m y) as [<-|Hy]; rewrite ?lookup_insert_eq, ?lookup_insert_ne by done; try done.
    + intros [= <-] Hi. by apply Hfresh in Hi.
    + intros Hi [= <-]. by apply Hfresh in Hi.
    + apply S5.
  - intros x i c. change (all_objects s) with (mset (all_objects (server st)) objid (inl o)). rewrite mfind_mset by apply Hsok.
    destruct (Z.eq_dec m x) as [->|Hx]; rewrite ?lookup_insert_eq, ?lookup_insert_ne by done.
    + intros [= <-] [= <-]. exists o. rewrite key_eqb_refl. split; [done|]. by apply shows_new.
    + intros Hi Hc. rewrite key_eqb_neq by (by eapply Hfresh). destruct (S6 x i c Hi Hc) as (o' & Ho' & Hsh). exists o'. split; [done|].
      apply (shows_same _ _ _ _ Hsh). intros t Ht. apply lookup_insert_ne. intros ->.
      destruct (ledger_closed _ _ _ Hled x c t Hc Ht) as [c' Hc']. congruence.
Qed.

Lemma unregistered_ok st m st' : studio_ok st -> next_is st (MachineUnregistered m) ->
  machine_unregistered st m = Ok st' -> studio_ok (counted st').
Proof.
  intros Hs Hb. destruct (next_good st _ Hs Hb) as [[_ Hgood] Hled]. pose proof Hs as [S1 S2 S3 S4 S5 S6]. destruct (run_inv _ S2) as [Hsok _].
  unfold machine_unregistered. destruct (machine2rimachine st !! m) as [objid|] eqn:Em.
  2:{ intros [= <-]. apply (notified_nothing st _ Hs Hb). cbn. apply delete_id.
      destruct (ledger st !! m) eqn:El; [|done]. destruct (proj2 (S4 m)) as [? ?]; [by eexists|congruence]. }
  destruct (file_known st m objid Hs Em) as (c & o & Hc & Ho & _ & _).
  pose proof (delete_objects (server st) objid) as Hdel. pose proof (delete_thrown (server st) objid) as Hth.
  assert (server_run (fst (delete_object (server st) objid))) as Hrun.
  { apply (run_step _ (Remove objid) _ S2); [done|]. cbn. unfold on_remove_object. by rewrite Ho. }
  destruct (delete_object (server st) objid) as [s thrown]. cbn in *. subst thrown. intros [= <-]. cbn [server machine2rimachine].
  change (studio_ok (moved_on st s (delete m (machine2rimachine st)))).
  apply (notified st _ _ _ Hs Hb Hrun); cbn [hear].
  - intros x. destruct (Z.eq_dec m x) as [->|Hx]; [rewrite !lookup_delete_eq; by split; intros [? ?]|]. rewrite !lookup_delete_ne by done. apply S4.
  - intros x y i. rewrite !lookup_delete_Some. intros [_ H1] [_ H2]. by apply (S5 x y i).
  - intros x i c'. rewrite !lookup_delete_Some. intros [Hx Hi] [_ Hc']. destruct (S6 x i c' Hi Hc') as (o' & Ho' & Hsh). exists o'. split.
    + rewrite Hdel, mfind_merase by apply Hsok. rewrite key_eqb_neq; [done|]. intros ->. by apply Hx, (S5 m x objid).
    + apply (shows_same _ _ _ _ Hsh). intros t Ht. apply lookup_delete_ne. intros E. by apply (Hgood x c' t Hc' Ht).
Qed.

(** An action on the object of a machine that is filed. *)
Lemma changed_ok st b dst objid c' action st' : studio_ok st -> next_is st b ->
  machine2rimachine st !! dst = Some objid -> hear shown (ledger st) b = <[dst := c']> (ledger st) ->
  (forall o, 0 <= objid < 2^31 -> machine_follows objid o (fst (action o)) (told objid (snd (action o)))) ->
  (forall o c, ledger st !! dst = Some c -> shows_links (machine2rimachine st) o c -> shows_links (machine2rimachine st) (fst (action o)) c') ->
  act_on_object (server st) objid (on_machine action) = Ok st' -> studio_ok (counted (with_server st st')).
Proof.
  intros Hs Hb Hd Hh Hf Hsh Ha. pose proof Hs as [S1 S2 S3 S4 S5 S6]. destruct (run_inv _ S2) as [Hsok _].
  destruct (file_known st dst objid Hs Hd) as (c & o & Hc & Ho & Ho' & Hid). destruct (act_objects _ _ _ _ Ha) as (o1 & E & Hobj).
  rewrite Ho in E. injection E as <-. assert (fst (on_machine action (inl o)) = inl (fst (action o))) as Eact by (cbn; by destruct (action o)).
  assert (server_run st') as Hrun.
  { apply (run_step _ (Act objid (on_machine action)) _ S2); [|exact Ha]. intros o1 E. rewrite Ho in E. injection E as <-.
    rewrite Eact. replace (snd (on_machine action (inl o))) with (snd (action o)) by (cbn; by destruct (action o)).
    apply either_followed_left. apply Hf. apply (known_id _ objid Hsok). by eexists. }
  change (studio_ok (moved_on st st' (machine2rimachine st))).
  apply (notified st b _ _ Hs Hb Hrun); rewrite ?Hh; [|done|].
  - intros x. rewrite S4. destruct (Z.eq_dec dst x) as [->|Hx]; [rewrite lookup_insert_eq, Hc; by split; eexists|by rewrite lookup_insert_ne].
  - intros x i cx Hi. rewrite Hobj, mfind_mset by apply Hsok. destruct (Z.eq_dec dst x) as [->|Hx].
    + rewrite lookup_insert_eq. intros [= <-]. rewrite Hd in Hi. injection Hi as <-. rewrite key_eqb_refl, Eact. eexists. split; [done|]. by apply (Hsh _ c).
    + rewrite lookup_insert_ne by done. intros Hcx. rewrite key_eqb_neq; [by apply (S6 x i cx)|]. intros ->. by apply Hx, (S5 dst x objid).
Qed.

(** Links between two machines; nothing is done when one of them has no object. *)
Lemma input_changed_ok st b s d out i action change st' : studio_ok st -> next_is st b ->
  hear shown (ledger st) b = match ledger st !! s, ledger st !! d with Some _, Some c => <[d := change c]> (ledger st) | _, _ => ledger st end ->
  (forall src dst o, in_i32 src -> 0 <= dst < 2^31 ->
     machine_follows dst o (fst (action (src, (out, i)) o)) (told dst (snd (action (src, (out, i)) o)))) ->
  (forall src o c, in_i32 src -> ledger st !! d = Some c -> machine2rimachine st !! s = Some src ->
     shows_links (machine2rimachine st) o c -> shows_links (machine2rimachine st) (fst (action (src, (out, i)) o)) (change c)) ->
  machine_input_changed action st s d out i = Ok st' -> studio_ok (counted st').
Proof.
  intros Hs Hb Hh Hf Hsh. pose proof (studio_known _ Hs) as Hk. unfold machine_input_changed.
  assert (hear shown (ledger st) b = ledger st -> Ok st = Ok st' -> studio_ok (counted st')) as Hnone
    by (intros E [= <-]; by apply (notified_nothing st _ Hs Hb)).
  assert (forall m, machine2rimachine st !! m = None -> ledger st !! m = None) as Hno.
  { intros m Em. destruct (ledger st !! m) eqn:El; [|done]. destruct (proj2 (Hk m)) as [? ?]; [by eexists|congruence]. }
  destruct (machine2rimachine st !! s) as [src|] eqn:Es; [|apply Hnone; by rewrite Hh, Hno].
  destruct (proj1 (Hk s)) as [cs Ecs]; [by eexists|]. rewrite Ecs in Hh.
  destruct (machine2rimachine st !! d) as [dst|] eqn:Ed; [|apply Hnone; by rewrite Hh, Hno].
  destruct (proj1 (Hk d)) as [c Ec]; [by eexists|]. rewrite Ec in Hh. intros Ha. inv_bind Ha. injection Ha as <-.
  destruct (file_known st s src Hs Es) as (_ & _ & _ & _ & _ & Hsrc). destruct (run_inv _ (studio_replicated_ok _ Hs)) as [[_ _ _ Hlast _ _] _].
  assert (in_i32 src) as Hr by (unfold in_i32; lia).
  apply (changed_ok st b d dst (change c) (action (src, (out, i))) x Hs Hb Ed Hh); [intros o; by apply Hf| |exact Hx].
  intros o c0 Ec0. rewrite Ec in Ec0. injection Ec0 as <-. by apply Hsh.
Qed.

Lemma notify_ok st b st' : studio_ok st -> next_is st b ->
  (forall m mc, b = MachineRegistered m -> is_sequence m = false -> MachineGraph.machines (net st) !! m = Some mc ->
     last_obj_id (server st) + 1 < 2^31 /\ machine_announceable (serverside_init_from_machine_ptr m mc)) ->
  notify st b = Ok st' -> studio_ok st'.
Proof.
  intros Hs Hb Hann E. unfold notify in E. inv_bind E. injection E as <-.
  assert (forall x y v, machine2rimachine st !! x = Some v -> machine2rimachine st !! y = Some v -> x = y) as Hinj
    by (intros a b' v; by apply (studio_apart _ Hs)).
  destruct (next_good st _ Hs Hb) as [Hgood _]. destruct b as [m|m|s d o i|s d o i].
  - apply (registered_ok st m x Hs Hb); [intros mc; by apply Hann|done].
  - by apply (unregistered_ok st m x Hs Hb).
  - destruct Hgood as [[Ho Hi] Hfresh]. apply (input_changed_ok st _ s d o i RemoteMachine.attach_input (cons (s, (o, i))) x Hs Hb); [done| | |done].
    + intros src dst k Hr Hid. by apply attach_followed; [|split].
    + intros src k c Hr Hc Es Hsh. by apply shows_attached; try apply Hfresh.
  - destruct Hgood as [Ho Hi]. apply (input_changed_ok st _ s d o i RemoteMachine.detach_input (without (s, (o, i))) x Hs Hb); [done| | |done].
    + intros src dst k Hr Hid. by apply detach_followed; [|split].
    + intros src k c Hr Hc Es Hsh. by apply shows_detached.
Qed.

Lemma studio_run_ok st : studio_run st -> studio_ok st.
Proof.
  induction 1 as [g Hu Hw Hset Hb|st op g e _ IH Hall E|st b st' _ IH Hb Hann E|st ev s _ IH Hrep Hev E].
  - split; cbn; rewrite ?take_0; try done.
    + apply (net_run_ok shown). by apply net_start.
    + constructor.
    + lia.
    + intros m. unfold GraphTold.heard. cbn. rewrite !lookup_empty. by split; intros [? ?].
  - destruct IH as [[V Hn] S2 S3 S4 S5 S6]. destruct (net_step _ _ _ (net st) V op g e Hn Hall E) as (V' & Hn' & [more Hp]).
    assert (take (handled st) (MachineGraph.broadcasts g) = take (handled st) (MachineGraph.broadcasts (net st))) as Et
      by (rewrite Hp; by apply take_app_le). split; cbn [net server machine2rimachine handled with_net]; rewrite ?Et; try done.
    + by exists V'.
    + rewrite Hp, length_app. lia.
  - by apply (notify_ok st b).
  - pose proof IH as [S1 S2 S3 S4 S5 S6]. destruct (run_inv _ S2) as [Hsok _].
    pose proof (other_event_keeps st ev s Hsok Hrep Hev E) as Hkeep.
    split; cbn [net server machine2rimachine handled with_server]; try done; [by eapply run_step|].
    intros m objid c Hm Hc. destruct (S6 m objid c Hm Hc) as (o & Ho & Hsh). destruct (Hkeep m objid o Hm Ho) as (x & y & Ho').
    eexists. split; [exact Ho'|]. by apply shows_moved.
Qed.

End studio.

(** ** Witness: an effect that listens to a synthesizer *)

#[local] Instance ex_double : CDouble.
Proof.
  refine {| double := Z; atof := stoi; double_to_string := to_string |}; [apply to_string_wire|apply to_string_nonempty].
Defined.

#[local] Instance ex_services : RemoteObject service service_copy := service_object ex_instance ex_files.
#[local] Instance ex_services_replicated : ReplicatedObject service service_copy := service_replicated ex_instance ex_files.

Definition ex_real (objid : Z) : real_machine := RealMachine (fun _ => None) 0 (fun _ => None) (fun _ => Ok []) (fun _ => Ok "").

Lemma ex_service_named (b : service) msg : create_machine_copy (type_name (Copy := service_copy) b) msg = None.
Proof. by destruct b as [b|[b|[b|b]]]. Qed.

Abbreviation ex_studio_t := (studio (B := service)).
#[local] Instance ex_object : RemoteObject (rimachine + service) (rimachine + service_copy) := studio_object (CB := service_copy) ex_real.

Definition ex_notify : ex_studio_t -> broadcast -> result ex_studio_t :=
  notify (CB := service_copy) (fun _ => ClassOther) (fun _ => (0, 0)) (fun _ => []) 3 ex_real.

Definition or_else {A} (r : result A) (a : A) : A := match r with Ok a => a | Err _ => a end.

(** The operations on the graph, and the notifications with a client in between. *)
Definition ex_ops : list net_op := [RegisterMachine 1; RegisterMachine 2; AttachInput 2 1 "out" "in"].
Definition ex_net (n : nat) : graph := fold_left (fun g op => fst (or_else (do_net_op g op) (g, None))) (take n ex_ops) (with_set ex_graph []).

Definition ex_told (st : ex_studio_t) : ex_studio_t :=
  match nth_error (MachineGraph.broadcasts (net st)) (handled st) with Some b => or_else (ex_notify st b) st | None => st end.
Definition ex_start (n : nat) : ex_studio_t := Studio (ex_net n) new_server ∅ 0.
Definition ex_first : ex_studio_t := ex_told (ex_start 3).
Definition ex_accepted : ex_studio_t := with_server ex_first (or_else (do_accept (server ex_first)) (server ex_first)).
Definition ex_studio : ex_studio_t := ex_told (ex_told ex_accepted).

Abbreviation ex_run := (studio_run (RB := ex_services_replicated) ex_service_named (fun _ => ClassOther) (fun _ => (0, 0)) (fun _ => []) 3 ex_real).

Lemma ex_net_start : ex_run (ex_start 0).
Proof.
  apply studio_start; [| |done|done].
  - destruct ex_graph_unlinked as [H1 H2 H3]. by split.
  - intros x mc E. cbn in E. repeat (apply lookup_insert_Some in E as [[<- <-]|[_ E]];
      [split; intros n v; cbn [output input_descriptor ex_machine map fst mfind]; try destruct (key_eqb n _) eqn:Hk; intros Hf;
       first [done|apply key_eqb_spec in Hk as ->; by repeat split]|]). by rewrite lookup_empty in E.
Qed.

Lemma ex_net_run : ex_run (ex_start 3).
Proof.
  assert (ex_run (ex_start 1)) as H1 by (eapply (studio_graph _ _ _ _ _ _ (ex_start 0) (RegisterMachine 1)); [exact ex_net_start|done|reflexivity]).
  assert (ex_run (ex_start 2)) as H2 by (eapply (studio_graph _ _ _ _ _ _ (ex_start 1) (RegisterMachine 2)); [exact H1|done|reflexivity]).
  eapply (studio_graph _ _ _ _ _ _ (ex_start 2) (AttachInput 2 1 "out" "in")); [exact H2| |vm_compute; reflexivity].
  do 2 (split; [vm_compute; by eexists|]). do 2 (split; [intros _; vm_compute; by eexists|]).
  intros V src s Hg _ _ Hs. destruct (MachineGraph.machines (ex_net 2) !! 2) as [mc|] eqn:E; [|by vm_compute in E].
  destruct (ok_inputs _ _ Hg 2 mc E) as [_ Hr]. vm_compute in E. injection E as <-. cbn in Hr. apply Forall2_nil_inv_l in Hr. rewrite Hr in Hs.
  by apply not_elem_of_nil in Hs.
Qed.

Abbreviation ex_shown := (serverside_init_from_machine_ptr (fun _ => ClassOther) (fun _ => (0, 0)) (fun _ => []) 3).

Lemma ex_announceable m mc : m = 1 \/ m = 2 -> MachineGraph.machines (ex_net 3) !! m = Some mc -> machine_announceable (ex_shown m mc).
Proof.
  intros [-> | ->] E; vm_compute in E; injection E as <-.
  all: split; cbn; try done; repeat (constructor || split); done.
Qed.

Lemma ex_told_run st b : ex_run st -> next_is st b ->
  (forall m mc, b = MachineRegistered m -> MachineGraph.machines (net st) !! m = Some mc -> last_obj_id (server st) + 1 < 2^31 /\ machine_announceable (ex_shown m mc)) ->
  is_ok (ex_notify st b) = true -> ex_run (ex_told st).
Proof.
  intros Hst Hb Hann E. unfold ex_told. rewrite Hb. destruct (ex_notify st b) as [st'|] eqn:En; [|done].
  eapply studio_notify; [exact Hst|exact Hb| |exact En]. intros m mc Hm _. by apply Hann.
Qed.

Lemma ex_first_run : ex_run ex_first.
Proof.
  apply (ex_told_run (ex_start 3) (MachineRegistered 1)); [exact ex_net_run|by vm_compute| |by vm_compute].
  intros m mc [= <-] E. split; [by vm_compute|]. apply ex_announceable; [by left|exact E].
Qed.

Lemma ex_accepted_run : ex_run ex_accepted.
Proof.
  unfold ex_accepted. destruct (do_accept (server ex_first)) as [s|] eqn:E; [|exfalso; assert (is_ok (do_accept (server ex_first)) = true) as H by (by vm_compute); by rewrite E in H].
  eapply (studio_server _ _ _ _ _ _ ex_first Accept); [exact ex_first_run| |done|exact E].
  pose proof (studio_run_ok _ _ _ _ _ _ _ ex_first_run) as [_ _ _ H4 _ H6].
  assert (machine2rimachine ex_first !! 1 = Some 0) as Hf by (by vm_compute). destruct (proj1 (H4 1)) as [c Hc]; [by eexists|].
  destruct (H6 1 0 c Hf Hc) as (o & Ho & [Hok _ _]). assert (map fst (all_objects (server ex_first)) = [0]) as Hkeys by (by vm_compute).
  change (Forall (fun e => announceable (ReplicatedObject := studio_replicated ex_service_named ex_real) (snd e)) (all_objects (server ex_first))).
  revert Hkeys Ho. generalize (all_objects (server ex_first)). intros [|[i a] [|? ?]] [= ->] Ho. cbn in Ho. injection Ho as ->. by constructor.
Qed.

Lemma ex_studio_run : ex_run ex_studio.
Proof.
  apply (ex_told_run (ex_told ex_accepted) (InputAttached 1 2 "out" "in")); [|by vm_compute|intros m mc [=]|by vm_compute].
  apply (ex_told_run ex_accepted (MachineRegistered 2)); [exact ex_accepted_run|by vm_compute| |by vm_compute].
  intros m mc [= <-] E. split; [by vm_compute|]. apply ex_announceable; [by right|exact E].
Qed.

